(* ===== verification/_CoqProject ===== *)
-Q . S2P
Prelude.v
Go.v
AppendSeq.v
Usage.v
Modes.v
Broker.v
Conversation.v
Store.v
Rewind.v
Timers.v
Strings.v
ThinkTag.v
ToolCallId.v
EditText.v
Utf8.v
Truncation.v
EditResult.v
Effect.v
ToolArgs.v
ToolProgress.v
ChatStream.v
AnthropicStream.v
Shells.v
TerminalFile.v
AwaitShell.v
Completion.v
Checkpoint.v
Turn.v
Replay.v
Messages.v
Router.v
Tokens.v
Anthropic.v
AnthropicCache.v
Projection.v
Sample.v
Compaction.v
Todos.v
Prompt.v
PostWrite.v
PatchEdit.v
