(* ===== verification/Prelude.v ===== *)
(** * Verification of the local assistant backend.

    The program under src/ answers the agent protocol of an editor on the user's machine: it
    keeps the conversations, talks to a model provider, has the editor run tools and streams
    events back.  Its core is the package src/internal/backend/forwarder, and this library
    models that core.  Unless another directory is given, file names below are files of that
    package.

    ** How the parts interact

    An editor opens an event stream (RunSSE) and posts messages.  The posts of a request are
    ordered by their sequence number (AppendSeq) and become commands of the actor of its
    stream (Turn).  A run command first cuts the history when it edits an old message (Rewind),
    appends the new messages (Conversation, Store) and compiles a prompt: the history is viewed
    through its compaction markers and cancellations and turned into messages (Projection,
    Messages, Prompt), whose tool results are cut down (Replay, Truncation, EditResult); the
    prompt is measured (Tokens), and when it is near the context window the history is
    compacted first (Compaction).  The router cleans the messages (Router), and the adapter of
    the provider translates them (Anthropic), marks them for its cache (AnthropicCache) and
    reads the answer (ChatStream, AnthropicStream, with ThinkTag, ToolCallId and ToolProgress).
    Such a provider pass calls tools, some of which are sequences of hidden execs (PatchEdit,
    with EditText and PostWrite), some of which wait for a shell in the background (AwaitShell,
    whose arguments ToolArgs reads) and some of which only change the state that is read off the
    history (Todos).  What a pass has used is counted in a document of its own (Usage).  When nothing is left
    to do, the turn completes (Completion) with a checkpoint whose blobs the client has to
    store first (Checkpoint), and the stream ends.  Everything the client sees goes through the
    broker (Broker).

    ** Files

    - Prelude, Effect, Go, Strings, Utf8: notation and tactics; the state and error monad; what
      the code uses of Go and its packages strings and unicode/utf8.
    - AppendSeq (append_seq.go): [Tracker], [acquire], [Release], the sweep; any number of
      callers interleave by the relation [step], one critical section at a time.
    - Modes (types.go, interrupt.go): agent modes, stream statuses, interrupt kinds.
    - Broker (broker.go, the reader loop of service.go): streams, subscribers, backlog, cleanup
      timers; a broker is run by lists of operations, a reader by a step relation.
    - Conversation (file_store.go, types.go): entries, appending, derived loop state.
    - Store (file_store.go): the directory of a conversation, the cache, crashes.
    - Rewind (rewind.go): the decision and its application.
    - Timers, Completion, Turn (actor.go; service.go, compaction.go, interaction_tools.go,
      token_usage.go where the actor calls them): the loop of a stream, one command a step.
    - Checkpoint (checkpoint_blobs.go, service.go): blob writes, retries, terminal actions.
    - PatchEdit, EditText, EditResult, PostWrite (patch_edit_tool.go, edit_result_helpers.go,
      post_write_reconcile.go, path_resolution.go, write_tool.go): edits.
    - Truncation, Replay (tool_result_replay_truncation.go): what a replayed result shows.
    - Messages, Projection, Prompt (projector.go, prompt_context.go, agent/prompt/replay.go,
      agent/model/types.go): from the history to the provider's messages; Sample holds the
      concrete encoding the examples of these files evaluate on.
    - Tokens (token_estimator.go), Compaction (compaction.go, token_usage.go).
    - ToolArgs (agent/core/tool_args.go): arguments of tools by their aliases, integers.
    - Shells, TerminalFile, AwaitShell (await_shell_tool.go): what a stream knows of its
      background shells and how each message changes it; the terminal files; the polling loop.
    - Todos (state_tools.go, interaction_tools.go): todos, plans and the projected state.
    - Usage (usage_store.go): the usage document and its writer, as a step relation.
    - Router, ToolCallId, ThinkTag, ToolProgress (agent/model: router.go, tool_call_id.go, and
      the parsers that openai.go and anthropic.go share in two copies).
    - ChatStream (agent/model/openai.go), AnthropicStream, Anthropic, AnthropicCache
      (agent/model/anthropic.go, content_parts.go): the streams, the messages, the cache marks.

    A definition has the name of the function, type or constant it models.  A function the code
    writes as one long body is cut into definitions with names of their own, in the order of
    the code; loops with early exits became recursive functions or folds with an accumulator.

    ** Theorems

    The claims are numbered in their doc comments; C1 comes first in importance.  A theorem
    without a number is one the others imply in good part, or of less weight.  Grouped by part:
    - the turn never stalls while a stream is open, when runs bring something to do and no client
      was returned an error from the middle of a command (Turn);
    - appends exclude each other, are granted in order and lose no wake-up of a state
      object (AppendSeq);
    - a reader that is there from the start gets the accepted events exactly, in order, and one
      end, unless the stream is opened again under it (Broker);
    - what is stored is what is read, also after a crash (Store); appending keeps a conversation
      well formed and the derived status follows the entries (Conversation); a rewind cuts
      exactly before the edited message (Rewind);
    - terminal actions run once, stay pending, or are dropped by a discard or a newer one;
      checkpoints wait for their blobs and get published (Checkpoint);
    - an edit replaces what it says, writes what it computed, is neither lost nor doubled
      while handlers succeed and no exec is recovered (PatchEdit); a rendered diff patches the file
      (EditText);
    - a prompt pairs its calls and results (Prompt), replay loses nothing that is answered
      (Messages), results are bounded (Replay, Truncation), compaction and cancellation keep
      what they should (Projection, Compaction), and the token breakdown adds up (Tokens);
    - what a provider is sent keeps the pairs (Router), in the turns Anthropic accepts
      (Anthropic), marked where it should be, so that a prompt that grows is read from the
      cache (AnthropicCache); its answer gives the calls it holds, whatever the pieces and
      wherever it breaks off (ChatStream, AnthropicStream, ThinkTag, ToolProgress, ToolCallId);
    - the shells of a stream stay consistent, a wait for one ends in time (AwaitShell), integer
      arguments are read without loss (ToolArgs);
    - the todos answered are the todos of the state (Todos); the totals are the sums over the
      events (Usage).
    Theorems of kind error prove behaviour that a reader of the code would not expect, and so do
    examples at the ends of the files: where a theorem has a hypothesis about what the program
    itself does, an example shows the run that it excludes.

    ** What is assumed

    Nothing is an axiom.  Code outside the repository is an argument: the line diff of a
    third-party library ([line_diffs], with [LineDiffLaws]); JSON and protobuf encodings, with
    the round trip or the bounds a theorem needs ([Decoders], [StoreEnv] with [codec_ok],
    [Json], [ReplayPayloads], [CompactionPayloads]); [sort.Slice], which permutes and orders
    ([SortSlice]).  Between components, [StreamPublisher] is what a checkpoint needs of a
    broker, and Checkpoint discharges its laws for the broker of Broker.v.  The file system, paths,
    quoted strings, times and regular expressions of the shells are functions without laws, and
    the clock of a wait is the list of its polls.  The files about
    providers take SHA-256, the decoding of chunks, events and arguments, files, content types
    and base64 as functions, with no law unless a theorem names it; [CreatePlanCodec] stands for
    the JSON of plans, and the order in which Go ranges over a map is a parameter too.  In Turn and
    PatchEdit the answers of services outside the component are lists of the world, consumed
    one by one: theorems quantify over them, so that every failure is covered.

    ** Integers, fuel and bounds

    [int64], [int32] and [uint32] values are [Z] with [wrap_int64] and the like where the code
    computes; byte counts are lengths of texts in memory and cannot overflow.  Fuel is the
    length of the text or list a loop consumes, or one more; where that is not plain from the
    recursion a lemma shows that it suffices ([replace_fuel_enough], [count_fuel_enough],
    [collect_fuel], [coalesce_fuel_spec], [trim_front_fuel_stuck], [decimal_fuel_enough], and
    [replay_first] and [middle_first] of Truncation).  Strings are bytes: [TrimSpace], case
    folding and rune counting work on UTF-8 as Go's do on the texts they are given.

    ** What is not modelled

    Protobuf construction and reflection, I/O and plumbing: the exec and interaction bridges,
    the HTTP requests to the providers and the OpenAI Responses protocol, prompt templates, the
    indexes, the texts of shell recovery, the payloads of the Write tool (its hidden execs are
    steps of Turn, its life an edit of PatchEdit without the read), the checkpoint projection (its blobs are content hashes of wire
    encodings), the proxies, the desktop application and the scripts.  Locks are modelled as the atomicity of
    what they protect; memory never runs out.  The content of events is kept where another
    component reads it, and opaque elsewhere. *)

From Stdlib Require String List.
From Stdlib Require Export ZArith Lia Ascii.
From stdpp Require Export base gmap strings numbers.
From stdpp Require Export list.

#[global] Open Scope Z_scope.

(** ** Tactics of the development *)

(** Destruct every [match] or [if] of the goal, naming nothing. *)
Ltac split_matches := repeat (case_match; simplify_eq/=; try done).

(** Turn boolean comparisons on [Z] in the context and goal into propositions. *)
Ltac bools_to_props :=
  repeat match goal with
  | H : (_ && _) = true |- _ => apply andb_prop in H as [? ?]
  | H : (_ || _) = false |- _ => apply orb_false_elim in H as [? ?]
  | H : negb _ = true |- _ => apply negb_true_iff in H
  | H : negb _ = false |- _ => apply negb_false_iff in H
  | H : (_ =? _) = true |- _ => apply Z.eqb_eq in H
  | H : (_ =? _) = false |- _ => apply Z.eqb_neq in H
  | H : (_ <? _) = true |- _ => apply Z.ltb_lt in H
  | H : (_ <? _) = false |- _ => apply Z.ltb_ge in H
  | H : (_ <=? _) = true |- _ => apply Z.leb_le in H
  | H : (_ <=? _) = false |- _ => apply Z.leb_gt in H
  | H : bool_decide _ = true |- _ => apply bool_decide_eq_true in H
  | H : bool_decide _ = false |- _ => apply bool_decide_eq_false in H
  end.

Ltac zbool := bools_to_props; try lia.

(** ** Functional record update

    [Eta R] gives the eta expansion of a record; the setter of a field is
    found by replacing that field's projection in it, so that [simpl] reduces a
    projection of an update without destructing the record. *)

Class Eta (R : Type) := eta : R -> R.

Class Setter {R E : Type} (proj : R -> E) := set_field : E -> R -> R.

Arguments set_field {R E} proj {_} _ _ /.

Ltac build_setter :=
  lazymatch goal with
  | |- @Setter ?R ?E ?proj =>
      let inst := constr:(_ : Eta R) in
      let h := lazymatch inst with ?i _ _ _ => i | ?i _ _ => i | ?i _ => i | ?i => i end in
      let e := lazymatch inst with ?i => i end in
      let v := fresh "v" in let r := fresh "r" in
      unfold Setter; intros v r;
      let body := eval cbv beta delta [h] in (e r) in
      lazymatch eval pattern (proj r) in body with
      | ?F _ => let t := eval cbv beta in (F v) in exact t
      end
  end.

#[export] Hint Extern 1 (Setter _) => build_setter : typeclass_instances.

Declare Scope record_scope.
Notation "x <| p := v |>" := (set_field p v x)
  (at level 12, left associativity, p constr, v at level 99,
   format "x  <| p  :=  v |>") : record_scope.
#[global] Open Scope record_scope.

(** ** Generic lemmas shared by the components *)

Create HintDb s2p.

Lemma fold_left_inv {A B} (I : A -> Prop) (f : A -> B -> A) (l : list B) (a : A) :
  I a -> (forall a b, b ∈ l -> I a -> I (f a b)) -> I (fold_left f l a).
Proof.
  revert a. induction l as [|b l IH]; intros a Ha Hf; simpl; [done|].
  apply IH.
  - apply Hf; [set_solver|done].
  - intros a' b' Hb' Ha'. apply Hf; [set_solver|done].
Qed.

Lemma rtc_preserves {A} (R : A -> A -> Prop) (I : A -> Prop) (x y : A) :
  I x -> (forall a b, I a -> R a b -> I b) -> rtc R x y -> I y.
Proof. intros Hx HI Hr. induction Hr; eauto. Qed.

Lemma map_filter_lookup_key_Some {V} (m : gmap string V) (P : string * V -> Prop)
    `{!forall x, Decision (P x)} k v :
  filter P m !! k = Some v <-> m !! k = Some v /\ P (k, v).
Proof. apply map_lookup_filter_Some. Qed.

Lemma list_lookup_snoc_case {A} (l : list A) (x y : A) (i : nat) :
  (l ++ [x]) !! i = Some y -> l !! i = Some y \/ (i = length l /\ y = x).
Proof.
  intros H. destruct (decide (i < length l)%nat).
  - left. by rewrite lookup_app_l in H.
  - right. rewrite lookup_app_r in H by lia.
    apply list_lookup_singleton_Some in H as [? ->]. split; [lia|done].
Qed.

(** A chronological log whose consecutive entries are related by [R]. *)
Definition chained {A} (R : A -> A -> Prop) (l : list A) : Prop :=
  forall i x y, l !! i = Some x -> l !! S i = Some y -> R x y.

Lemma chained_nil {A} (R : A -> A -> Prop) : chained R [].
Proof. intros i x y H. by rewrite lookup_nil in H. Qed.

Lemma chained_snoc {A} (R : A -> A -> Prop) (l : list A) (y : A) :
  chained R l -> (forall x, list.last l = Some x -> R x y) -> chained R (l ++ [y]).
Proof.
  intros Hl Hy i a b Ha Hb.
  destruct (list_lookup_snoc_case _ _ _ _ Hb) as [Hb'|[Hi ->]].
  - apply (Hl i); [|done].
    rewrite lookup_app_l in Ha; [done|]. apply lookup_lt_Some in Hb'. lia.
  - rewrite lookup_app_l in Ha by lia. apply Hy.
    rewrite last_lookup. by rewrite <- Hi.
Qed.

#[export] Hint Resolve chained_nil : s2p.

(** ** Sums of integers *)

Definition sum (l : list Z) : Z := fold_right Z.add 0 l.

Lemma sum_app l k : sum (l ++ k) = sum l + sum k.
Proof. induction l as [|x l IH]; simpl; lia. Qed.

Lemma sum_permuted l k : l ≡ₚ k -> sum l = sum k.
Proof. induction 1; simpl; lia. Qed.

Lemma sum_nonneg l : Forall (fun x => 0 <= x) l -> 0 <= sum l.
Proof. induction 1; simpl; lia. Qed.

Lemma sum_map_nonneg {A} (f : A -> Z) l : (forall x, x ∈ l -> 0 <= f x) -> 0 <= sum (map f l).
Proof.
  induction l as [|x l IH]; intros H; simpl; [lia|].
  assert (0 <= f x) by (apply H; by left). assert (0 <= sum (map f l)) by (apply IH; intros y Hy; apply H; by right).
  lia.
Qed.

Lemma sum_le {A} (f g : A -> Z) l : Forall (fun x => f x <= g x) l -> sum (map f l) <= sum (map g l).
Proof. induction 1; simpl; lia. Qed.

Lemma sum_ext {A} (f g : A -> Z) l : Forall (fun x => f x = g x) l -> sum (map f l) = sum (map g l).
Proof. induction 1; simpl; lia. Qed.

Lemma sum_linear {A} (f g : A -> Z) k l :
  sum (map (fun x => k * f x + g x) l) = k * sum (map f l) + sum (map g l).
Proof. induction l as [|x l IH]; simpl; lia. Qed.

Lemma sum_elem {A} (f : A -> Z) l x : Forall (fun y => 0 <= f y) l -> x ∈ l -> f x <= sum (map f l).
Proof.
  induction 1 as [|y l Hy Hl IH]; intros Hx; [by apply elem_of_nil in Hx|]. simpl.
  assert (0 <= sum (map f l)) by (apply sum_nonneg, Forall_map; done).
  apply elem_of_cons in Hx as [->|Hx]; [lia|]. specialize (IH Hx). lia.
Qed.
