(* ===== verification/Go.v ===== *)
(** * The part of Go and of its standard library that the modelled files use.

    Strings are byte sequences ([string], or [bytes] where the code slices
    them); [TrimSpace] trims the UTF-8 encodings of the code points of
    [unicode.IsSpace]; sized integers are [Z] with an explicit wrap-around;
    a [time.Time] is a [Z] count of nanoseconds whose zero value is [0]; a call
    of [time.Now] is an argument [now]. *)

From S2P Require Import Prelude.

Notation bytes := (list ascii).

(** ** Sized integers *)

Definition max_int64 : Z := 2 ^ 63 - 1.

Definition max_uint32 : Z := 2 ^ 32 - 1.

Definition max_uint64 : Z := 2 ^ 64 - 1.

Definition wrap_int64 (z : Z) : Z := (z + 2 ^ 63) mod 2 ^ 64 - 2 ^ 63.

Definition wrap_int32 (z : Z) : Z := (z + 2 ^ 31) mod 2 ^ 32 - 2 ^ 31.

Definition wrap_uint32 (z : Z) : Z := z mod 2 ^ 32.

Definition wrap_uint64 (z : Z) : Z := z mod 2 ^ 64.

Definition is_int64 (z : Z) : Prop := - 2 ^ 63 <= z <= max_int64.

Definition is_uint32 (z : Z) : Prop := 0 <= z <= max_uint32.

Definition is_uint64 (z : Z) : Prop := 0 <= z <= max_uint64.

(** ** Errors: a Go call that returns [(T, error)] *)

Inductive result (A : Type) :=
| Ok (a : A)
| Err (msg : string).

Arguments Ok {A} _.
Arguments Err {A} _.

#[export] Instance result_ret : MRet result := fun A a => Ok a.

#[export] Instance result_bind : MBind result := fun A B f r =>
  match r with Ok a => f a | Err e => Err e end.

Definition is_ok {A} (r : result A) : bool :=
  match r with Ok _ => true | Err _ => false end.

(** ** Bytes and strings *)

Definition byte_of (n : nat) : ascii := ascii_of_nat n.

Notation bytes_of := String.list_ascii_of_string.
Notation string_of := String.string_of_list_ascii.
Notation EmptyString := String.EmptyString.

(** UTF-8 encodings of the code points of [unicode.IsSpace]. *)
Definition space_seqs : list bytes :=
  map (map byte_of)
    [[9]; [10]; [11]; [12]; [13]; [32]; [194; 133]; [194; 160]; [225; 154; 128];
     [226; 128; 128]; [226; 128; 129]; [226; 128; 130]; [226; 128; 131];
     [226; 128; 132]; [226; 128; 133]; [226; 128; 134]; [226; 128; 135];
     [226; 128; 136]; [226; 128; 137]; [226; 128; 138]; [226; 128; 168];
     [226; 128; 169]; [226; 128; 175]; [226; 129; 159]; [227; 128; 128]]%nat.

Fixpoint strip_prefix (p s : bytes) : option bytes :=
  match p, s with
  | [], _ => Some s
  | x :: p', y :: s' => if decide (x = y) then strip_prefix p' s' else None
  | _ :: _, [] => None
  end.

Fixpoint strip_any (seqs : list bytes) (s : bytes) : option bytes :=
  match seqs with
  | [] => None
  | p :: seqs' => match strip_prefix p s with
                  | Some s' => Some s'
                  | None => strip_any seqs' s
                  end
  end.

(** Drop leading members of [seqs] until none is left; every member is non-empty,
    so the length of the string is enough fuel. *)
Fixpoint trim_front_fuel (fuel : nat) (seqs : list bytes) (s : bytes) : bytes :=
  match fuel with
  | O => s
  | S n => match strip_any seqs s with
           | Some s' => trim_front_fuel n seqs s'
           | None => s
           end
  end.

Definition trim_front (seqs : list bytes) (s : bytes) : bytes :=
  trim_front_fuel (length s) seqs s.

Definition trim_left (s : bytes) : bytes := trim_front space_seqs s.

Definition trim_right (s : bytes) : bytes :=
  rev (trim_front (map (@rev ascii) space_seqs) (rev s)).

Definition trim_space (s : bytes) : bytes := trim_right (trim_left s).

(** [strings.TrimSpace]. *)
Definition TrimSpace (s : string) : string := string_of (trim_space (bytes_of s)).

(** [strings.TrimRight(s, "\n")]. *)
Definition trim_right_newlines (s : bytes) : bytes :=
  rev (trim_front [[byte_of 10]] (rev s)).

(** [nonNegativeInt64] of token_usage.go. *)
Definition nonNegativeInt64 (value : Z) : Z := if value <? 0 then 0 else value.

(** [firstNonEmpty] of broker.go: the first value that is not blank, trimmed. *)
Fixpoint firstNonEmpty (values : list string) : string :=
  match values with
  | [] => EmptyString
  | v :: rest => if decide (TrimSpace v = EmptyString) then firstNonEmpty rest
                 else TrimSpace v
  end.

Arguments TrimSpace : simpl never.
Arguments trim_space : simpl never.

(** ** Decimal formatting: the ["%d"] verb on a non-negative integer *)

Definition digit (n : Z) : ascii := byte_of (48 + Z.to_nat n).

Fixpoint decimal_fuel (fuel : nat) (n : Z) : bytes :=
  match fuel with
  | O => []
  | S f => if n <? 10 then [digit n] else decimal_fuel f (n / 10) ++ [digit (n mod 10)]
  end.

Definition decimal_nonneg (n : Z) : bytes := decimal_fuel (S (Z.to_nat (Z.log2 n))) n.

(** ["%d"] on a signed integer. *)
Definition decimal (n : Z) : bytes :=
  if n <? 0 then byte_of 45 :: decimal_nonneg (- n) else decimal_nonneg n.

Definition Sprintd (n : Z) : string := string_of (decimal n).

(** ** Parsing decimals: [strconv] *)

(** [strconv.ParseUint] in base 10: out of range it answers the largest integer at once, and
    nothing for another syntax. *)
Fixpoint parse_uint (n : Z) (s : bytes) : option Z :=
  match s with
  | [] => Some n
  | c :: s =>
      let d := Z.of_nat (nat_of_ascii c) - 48 in
      if (0 <=? d) && (d <=? 9) then
        if max_uint64 <? n * 10 + d then Some max_uint64 else parse_uint (n * 10 + d) s
      else None
  end.

(** The sign and the rest of a number. *)
Definition signed_digits (s : bytes) : bool * bytes :=
  match s with
  | c :: rest => if decide (c = "-"%char) then (true, rest)
                 else if decide (c = "+"%char) then (false, rest) else (false, s)
  | [] => (false, s)
  end.

(** [strconv.Atoi], [None] being its error. *)
Definition Atoi (s : bytes) : option Z :=
  let '(neg, digits) := signed_digits s in
  if decide (digits = []) then None
  else match parse_uint 0 digits with
       | None => None
       | Some un => if neg then if un <=? 2 ^ 63 then Some (- un) else None
                    else if un <=? max_int64 then Some un else None
       end.

(** ** Lemmas: integers *)

Lemma wrap_int64_id z : is_int64 z -> wrap_int64 z = z.
Proof. unfold is_int64, wrap_int64, max_int64. intros H. rewrite Z.mod_small; lia. Qed.

Lemma wrap_int64_range z : is_int64 (wrap_int64 z).
Proof.
  unfold is_int64, wrap_int64, max_int64.
  pose proof (Z.mod_pos_bound (z + 2 ^ 63) (2 ^ 64) eq_refl). lia.
Qed.

Lemma wrap_uint32_id z : is_uint32 z -> wrap_uint32 z = z.
Proof. unfold is_uint32, wrap_uint32, max_uint32. intros H. apply Z.mod_small. lia. Qed.

Lemma wrap_uint32_range z : is_uint32 (wrap_uint32 z).
Proof.
  unfold is_uint32, wrap_uint32, max_uint32.
  pose proof (Z.mod_pos_bound z (2 ^ 32) eq_refl). lia.
Qed.

Lemma wrap_uint64_range z : is_uint64 (wrap_uint64 z).
Proof.
  unfold is_uint64, wrap_uint64, max_uint64.
  pose proof (Z.mod_pos_bound z (2 ^ 64) eq_refl). lia.
Qed.

Lemma wrap_uint64_id z : is_uint64 z -> wrap_uint64 z = z.
Proof. unfold is_uint64, wrap_uint64, max_uint64. intros H. apply Z.mod_small. lia. Qed.

#[export] Hint Resolve wrap_int64_range wrap_uint32_range wrap_uint64_range : s2p.

(** ** Lemmas: trimming *)

Lemma strip_prefix_Some p s s' : strip_prefix p s = Some s' <-> s = p ++ s'.
Proof.
  revert s. induction p as [|x p IH]; intros s; simpl.
  - split; [by intros [= ->]|by intros ->].
  - destruct s as [|y s]; [split; discriminate|].
    destruct (decide (x = y)) as [->|Hne].
    + rewrite IH. split; [by intros ->|by intros [= ->]].
    + split; [discriminate|]. by intros [= -> _].
Qed.

Lemma strip_any_Some seqs s s' :
  strip_any seqs s = Some s' -> exists p, p ∈ seqs /\ s = p ++ s'.
Proof.
  induction seqs as [|p seqs IH]; simpl; [done|].
  destruct (strip_prefix p s) eqn:E.
  - intros [= ->]. exists p. split; [set_solver|]. by apply strip_prefix_Some.
  - intros H. destruct (IH H) as (q & ? & ?). exists q. split; [set_solver|done].
Qed.

Lemma strip_any_None seqs s :
  strip_any seqs s = None <-> forall p s', p ∈ seqs -> s <> p ++ s'.
Proof.
  induction seqs as [|p seqs IH]; simpl.
  - split; [|done]. intros _ p s' Hp. set_solver.
  - destruct (strip_prefix p s) as [r|] eqn:E.
    + split; [done|]. intros H. apply strip_prefix_Some in E.
      exfalso. by apply (H p r); [set_solver|].
    + rewrite IH. split.
      * intros H q s' [->|Hq]%elem_of_cons; [|by apply H].
        intros Heq%strip_prefix_Some. congruence.
      * intros H q s' Hq. apply H. set_solver.
Qed.

(** Nothing that starts with no member of [seqs] has a prefix that does. *)
Lemma strip_any_None_prefix seqs s t :
  strip_any seqs (s ++ t) = None -> strip_any seqs s = None.
Proof.
  rewrite !strip_any_None. intros H p s' Hp ->.
  apply (H p (s' ++ t) Hp). by rewrite <- app_assoc.
Qed.

Section TrimFront.
Context (seqs : list bytes) (Hne : forall p, p ∈ seqs -> p <> []).

Lemma trim_front_fuel_stuck fuel s :
  (length s <= fuel)%nat -> strip_any seqs (trim_front_fuel fuel seqs s) = None.
Proof using Hne.
  revert s. induction fuel as [|fuel IH]; intros s Hs; simpl.
  - destruct s; simpl in Hs; [|lia]. apply strip_any_None.
    intros p s' Hp Heq. symmetry in Heq. apply app_eq_nil in Heq as [-> _].
    by apply (Hne [] Hp).
  - destruct (strip_any seqs s) as [s'|] eqn:E; [|done].
    apply IH. apply strip_any_Some in E as (p & Hp & ->).
    rewrite length_app in Hs. destruct p; [by apply Hne in Hp|]. simpl in Hs. lia.
Qed.

Lemma trim_front_fuel_None fuel s :
  strip_any seqs s = None -> trim_front_fuel fuel seqs s = s.
Proof using. intros H. destruct fuel; simpl; [done|by rewrite H]. Qed.

Lemma trim_front_fuel_suffix fuel s :
  exists p, s = p ++ trim_front_fuel fuel seqs s.
Proof using.
  revert s. induction fuel as [|fuel IH]; intros s; simpl; [by exists []|].
  destruct (strip_any seqs s) as [s'|] eqn:E; [|by exists []].
  apply strip_any_Some in E as (p & _ & ->).
  destruct (IH s') as [q Hq]. exists (p ++ q). by rewrite <- app_assoc, <- Hq.
Qed.

Lemma trim_front_stuck s : strip_any seqs (trim_front seqs s) = None.
Proof using Hne. by apply trim_front_fuel_stuck. Qed.

Lemma trim_front_None s : strip_any seqs s = None -> trim_front seqs s = s.
Proof using. apply trim_front_fuel_None. Qed.

Lemma trim_front_suffix s : exists p, s = p ++ trim_front seqs s.
Proof using. apply trim_front_fuel_suffix. Qed.

Lemma trim_front_length s : (length (trim_front seqs s) <= length s)%nat.
Proof using.
  destruct (trim_front_suffix s) as [p Hp].
  rewrite Hp at 2. rewrite length_app. lia.
Qed.

End TrimFront.

Lemma space_seqs_nonempty p : p ∈ space_seqs -> p <> [].
Proof.
  intros Hp ->. revert Hp. apply (bool_decide_unpack (¬ ([] ∈ space_seqs))).
  by vm_compute.
Qed.

Lemma rev_space_seqs_nonempty p : p ∈ map (@rev ascii) space_seqs -> p <> [].
Proof.
  intros Hp ->. revert Hp.
  apply (bool_decide_unpack (¬ ([] ∈ map (@rev ascii) space_seqs))). by vm_compute.
Qed.

Lemma trim_right_prefix s : exists t, s = trim_right s ++ t.
Proof.
  unfold trim_right.
  destruct (trim_front_suffix (map (@rev ascii) space_seqs) (rev s)) as [p Hp].
  exists (rev p). rewrite <- rev_app_distr, <- Hp. by rewrite rev_involutive.
Qed.

Lemma trim_left_stuck s : strip_any space_seqs (trim_left s) = None.
Proof. apply trim_front_stuck, space_seqs_nonempty. Qed.

Lemma trim_right_stuck s :
  strip_any (map (@rev ascii) space_seqs) (rev (trim_right s)) = None.
Proof.
  unfold trim_right. rewrite rev_involutive.
  apply trim_front_stuck, rev_space_seqs_nonempty.
Qed.

Lemma trim_space_idem s : trim_space (trim_space s) = trim_space s.
Proof.
  unfold trim_space.
  assert (Hl : trim_left (trim_right (trim_left s)) = trim_right (trim_left s)).
  { apply trim_front_None. destruct (trim_right_prefix (trim_left s)) as [t Ht].
    apply (strip_any_None_prefix _ _ t). rewrite <- Ht. apply trim_left_stuck. }
  rewrite Hl. unfold trim_right at 1. rewrite trim_front_None.
  - by rewrite rev_involutive.
  - apply trim_right_stuck.
Qed.

Lemma TrimSpace_idem s : TrimSpace (TrimSpace s) = TrimSpace s.
Proof.
  unfold TrimSpace. rewrite String.list_ascii_of_string_of_list_ascii.
  by rewrite trim_space_idem.
Qed.

Lemma trim_space_length s : (length (trim_space s) <= length s)%nat.
Proof.
  unfold trim_space. destruct (trim_right_prefix (trim_left s)) as [t Ht].
  pose proof (trim_front_length space_seqs s) as Hlen. fold (trim_left s) in Hlen.
  rewrite Ht in Hlen at 1. rewrite length_app in Hlen. lia.
Qed.

Lemma TrimSpace_empty : TrimSpace EmptyString = EmptyString.
Proof. reflexivity. Qed.

#[export] Hint Rewrite TrimSpace_idem TrimSpace_empty : s2p.

Lemma firstNonEmpty_trimmed vs : TrimSpace (firstNonEmpty vs) = firstNonEmpty vs.
Proof.
  induction vs as [|v vs IH]; simpl; [apply TrimSpace_empty|].
  case_decide; [done|apply TrimSpace_idem].
Qed.

(** ** Lemmas: decimal formatting *)

(** The number a digit string denotes. *)
Definition undecimal (s : bytes) : Z :=
  fold_left (fun acc c => acc * 10 + (Z.of_nat (nat_of_ascii c) - 48)) s 0.

Lemma undecimal_snoc s c :
  undecimal (s ++ [c]) = undecimal s * 10 + (Z.of_nat (nat_of_ascii c) - 48).
Proof. unfold undecimal. by rewrite fold_left_app. Qed.

Lemma digit_value n : 0 <= n < 10 -> Z.of_nat (nat_of_ascii (digit n)) - 48 = n.
Proof. intros H. unfold digit, byte_of. rewrite nat_ascii_embedding; lia. Qed.

Lemma div10_small n f : 0 <= n < 10 ^ Z.of_nat (S f) -> 0 <= n / 10 < 10 ^ Z.of_nat f.
Proof.
  intros H. rewrite Nat2Z.inj_succ, Z.pow_succ_r in H by lia.
  split; [apply Z.div_pos; lia|apply Z.div_lt_upper_bound; lia].
Qed.

Lemma undecimal_decimal_fuel f n :
  0 <= n < 10 ^ Z.of_nat f -> undecimal (decimal_fuel f n) = n.
Proof.
  revert n. induction f as [|f IH]; intros n Hn; simpl; [simpl in Hn; unfold undecimal; simpl; lia|].
  destruct (n <? 10) eqn:E; zbool.
  - unfold undecimal. simpl. rewrite digit_value; lia.
  - rewrite undecimal_snoc, IH by by apply div10_small.
    rewrite digit_value by (apply Z.mod_pos_bound; lia).
    pose proof (Z.div_mod n 10). lia.
Qed.

Lemma decimal_fuel_enough n : 0 <= n -> n < 10 ^ Z.of_nat (S (Z.to_nat (Z.log2 n))).
Proof.
  intros Hn. destruct (decide (n = 0)) as [->|Hne]; [by vm_compute|].
  pose proof (Z.log2_spec n ltac:(lia)) as [_ H].
  pose proof (Z.log2_nonneg n).
  rewrite Nat2Z.inj_succ, Z2Nat.id by lia.
  eapply Z.lt_le_trans; [exact H|]. apply Z.pow_le_mono_l. lia.
Qed.

Lemma undecimal_decimal_nonneg n : 0 <= n -> undecimal (decimal_nonneg n) = n.
Proof.
  intros Hn. unfold decimal_nonneg. apply undecimal_decimal_fuel.
  split; [done|by apply decimal_fuel_enough].
Qed.

Lemma Sprintd_inj n m : 0 <= n -> 0 <= m -> Sprintd n = Sprintd m -> n = m.
Proof.
  intros Hn Hm H. unfold Sprintd, decimal in H.
  destruct (n <? 0) eqn:E1, (m <? 0) eqn:E2; zbool.
  apply (f_equal (fun s => undecimal (bytes_of s))) in H.
  rewrite !String.list_ascii_of_string_of_list_ascii in H.
  by rewrite !undecimal_decimal_nonneg in H.
Qed.

Lemma decimal_fuel_length_mono f g n m :
  0 <= n <= m -> n < 10 ^ Z.of_nat f -> m < 10 ^ Z.of_nat g -> (0 < g)%nat ->
  (length (decimal_fuel f n) <= length (decimal_fuel g m))%nat.
Proof.
  revert g n m. induction f as [|f IH]; intros g n m Hnm Hn Hm Hg; simpl; [lia|].
  destruct g as [|g]; [lia|]. simpl. destruct (n <? 10) eqn:E1, (m <? 10) eqn:E2; zbool; rewrite ?length_app; simpl; try lia.
  enough (length (decimal_fuel f (n / 10)) <= length (decimal_fuel g (m / 10)))%nat by lia.
  apply IH.
  - split; [apply Z.div_pos; lia|apply Z.div_le_mono; lia].
  - apply div10_small. lia.
  - apply div10_small. lia.
  - destruct g; [simpl in Hm; lia|lia].
Qed.

(** A larger number is not printed with fewer digits. *)
Lemma decimal_length_mono n m :
  0 <= n <= m -> (length (decimal n) <= length (decimal m))%nat.
Proof.
  intros H. unfold decimal. destruct (n <? 0) eqn:E1, (m <? 0) eqn:E2; zbool.
  apply decimal_fuel_length_mono; try lia; apply decimal_fuel_enough; lia.
Qed.

(** ** Lemmas: strings that trimming leaves alone *)

Definition graphic (c : ascii) : bool :=
  ((33 <=? nat_of_ascii c) && (nat_of_ascii c <=? 126))%nat.

(** No space sequence starts, or ends, with a graphic ASCII character. *)
Definition edge_not_graphic (seqs : list bytes) : bool :=
  forallb (fun p => match p with [] => false | c :: _ => negb (graphic c) end) seqs.

Lemma strip_any_graphic seqs c s :
  edge_not_graphic seqs = true -> graphic c = true -> strip_any seqs (c :: s) = None.
Proof.
  intros He Hc. apply strip_any_None. intros p s' Hp Heq.
  unfold edge_not_graphic in He. rewrite forallb_forall in He.
  apply list_elem_of_In in Hp. specialize (He p Hp).
  destruct p as [|x p]; [done|]. simpl in Heq. simplify_eq.
  by rewrite Hc in He.
Qed.

Lemma trim_space_graphic l c s t d :
  l = c :: s -> l = t ++ [d] -> graphic c = true -> graphic d = true -> trim_space l = l.
Proof.
  intros Hl Heq Hc Hd. unfold trim_space, trim_left.
  rewrite trim_front_None by (rewrite Hl; by apply strip_any_graphic).
  unfold trim_right. rewrite Heq, rev_app_distr. simpl.
  rewrite trim_front_None by (by apply strip_any_graphic).
  simpl. by rewrite rev_involutive.
Qed.

Lemma decimal_nonneg_last n : 0 <= n -> exists t d, decimal n = t ++ [d] /\ graphic d = true.
Proof.
  intros Hn.
  assert (Hdig : forall k, 0 <= k < 10 -> graphic (digit k) = true).
  { intros k Hk. unfold graphic, digit, byte_of. rewrite nat_ascii_embedding by lia.
    apply andb_true_intro. split; apply Nat.leb_le; lia. }
  unfold decimal, decimal_nonneg. destruct (n <? 0) eqn:E; zbool. simpl.
  destruct (n <? 10) eqn:E1; zbool.
  - exists [], (digit n). split; [done|]. apply Hdig. lia.
  - eexists _, (digit (n mod 10)). split; [done|]. apply Hdig, Z.mod_pos_bound. lia.
Qed.

Definition is_digit (c : ascii) : Prop := exists k, 0 <= k < 10 /\ c = digit k.

Lemma parse_uint_snoc k s n c : parse_uint k s = Some n -> n * 10 + 9 <= max_uint64 ->
  0 <= c < 10 -> parse_uint k (s ++ [digit c]) = Some (n * 10 + c).
Proof.
  intros Hs Hn Hc. revert k Hs. induction s as [|d s IH]; intros k; cbn [app parse_uint].
  - intros [= ->]. rewrite digit_value by done. replace ((0 <=? c) && (c <=? 9)) with true by lia.
    by replace (max_uint64 <? n * 10 + c) with false by lia.
  - destruct ((0 <=? _) && _) eqn:Hd; [|done]. destruct (max_uint64 <? _) eqn:Hm; zbool; [|apply IH].
    intros [= <-]. exfalso. unfold max_uint64 in *. lia.
Qed.

Lemma parse_decimal_fuel f n : 0 <= n < 10 ^ Z.of_nat f -> n <= max_int64 ->
  Forall is_digit (decimal_fuel f n) /\ (0 < f -> decimal_fuel f n <> [])%nat /\
  parse_uint 0 (decimal_fuel f n) = Some n.
Proof.
  revert n. induction f as [|f IH]; intros n Hn Hm; cbn [decimal_fuel].
  - simpl in Hn. assert (n = 0) as -> by lia. split_and!; [constructor|lia|done].
  - destruct (n <? 10) eqn:E; zbool.
    + split_and!; [constructor; [exists n; split; [lia|done]|constructor]|done|].
      apply (parse_uint_snoc 0 [] 0 n); [done|by unfold max_uint64|lia].
    + pose proof (Z.div_mod n 10 ltac:(lia)). pose proof (Z.mod_pos_bound n 10 ltac:(lia)) as Hb.
      destruct (IH (n / 10)) as (Hd & _ & Hp); [by apply div10_small|unfold max_int64 in *; lia|].
      split_and!; [|by destruct (decimal_fuel f (n / 10))|].
      * apply Forall_app. split; [done|]. constructor; [exists (n mod 10); by split|constructor].
      * rewrite (parse_uint_snoc 0 _ _ _ Hp); [f_equal; lia|unfold max_uint64, max_int64 in *; lia|lia].
Qed.

Lemma decimal_parsed n : 0 <= n <= max_int64 ->
  Forall is_digit (decimal n) /\ decimal n <> [] /\ parse_uint 0 (decimal n) = Some n.
Proof.
  intros Hn. unfold decimal, decimal_nonneg. replace (n <? 0) with false by lia.
  destruct (parse_decimal_fuel (S (Z.to_nat (Z.log2 n))) n) as (H1 & H2 & H3);
    [split; [lia|apply decimal_fuel_enough; lia]|lia|].
  split_and!; [done|apply H2; lia|done].
Qed.

(** What ["%d"] writes [strconv.Atoi] reads back. *)
Lemma Atoi_decimal n : 0 <= n <= max_int64 -> Atoi (decimal n) = Some n.
Proof.
  intros Hn. destruct (decimal_parsed n Hn) as (Hd & Hne & Hp). unfold Atoi.
  assert (Hs : signed_digits (decimal n) = (false, decimal n)).
  { destruct (decimal n) as [|c s]; [done|]. inversion Hd as [|? ? (k & Hk & ->) _]; subst. unfold signed_digits.
    assert (k = 0 \/ k = 1 \/ k = 2 \/ k = 3 \/ k = 4 \/ k = 5 \/ k = 6 \/ k = 7 \/ k = 8 \/ k = 9) as Hk' by lia.
    by destruct_or! Hk'; subst k. }
  rewrite Hs. rewrite decide_False by done. rewrite Hp. by replace (n <=? max_int64) with true by lia.
Qed.

(** ** Lemmas: bytes of strings *)

Lemma bytes_of_app a b : bytes_of (a +:+ b) = bytes_of a ++ bytes_of b.
Proof. induction a as [|c a IH]; simpl; [done|]. f_equal. apply IH. Qed.

Lemma bytes_of_string_of s : bytes_of (string_of s) = s.
Proof. apply String.list_ascii_of_string_of_list_ascii. Qed.

Lemma string_of_bytes_of s : string_of (bytes_of s) = s.
Proof. apply String.string_of_list_ascii_of_string. Qed.

Lemma graphic_trimmed l : forallb graphic l = true -> trim_space l = l.
Proof.
  destruct l as [|c s]; [done|]. intros H. destruct (exists_last (l := c :: s)) as (t & d & E); [done|].
  assert (Hd : graphic d = true) by (rewrite E, forallb_app in H; apply andb_prop in H as [_ H]; by apply andb_prop in H as [? _]).
  cbn in H. apply andb_prop in H as [Hc _]. by apply (trim_space_graphic _ c s t d).
Qed.

Lemma decimal_graphic n : 0 <= n <= max_int64 -> forallb graphic (decimal n) = true.
Proof.
  intros Hn. destruct (decimal_parsed n Hn) as (Hd & _ & _). apply forallb_forall. intros c Hc.
  apply list_elem_of_In in Hc. rewrite Forall_forall in Hd. destruct (Hd c Hc) as (k & Hk & ->).
  unfold graphic, digit, byte_of. rewrite nat_ascii_embedding by lia. apply andb_true_intro. split; apply Nat.leb_le; lia.
Qed.

(** A number is an identifier without space around it. *)
Lemma Sprintd_trimmed n : 0 <= n <= max_int64 -> TrimSpace (Sprintd n) = Sprintd n /\ Sprintd n <> EmptyString.
Proof.
  intros Hn. destruct (decimal_parsed n Hn) as (_ & Hne & _). unfold TrimSpace, Sprintd.
  rewrite bytes_of_string_of, (graphic_trimmed _ (decimal_graphic n Hn)). split; [done|].
  intros E. apply (f_equal bytes_of) in E. by rewrite bytes_of_string_of in E.
Qed.

#[export] Hint Rewrite bytes_of_app bytes_of_string_of string_of_bytes_of : s2p.
