(* ===== verification/AppendSeq.v ===== *)
(** * Ordering of the appends of one request (forwarder/append_seq.go).

    A [SeqState] is an [appendSequenceState]; its [ready] channel is a number
    drawn from the state's own allocator, and [closed] is the set of the
    channels that were closed.  [acquire_attempt] is one iteration of the loop
    of [acquire], that is one critical section under [state.mu]; [Release],
    [touch] and [expired] are the other critical sections.  The [Tracker] keeps
    the states in a heap, because [tracker.states] may drop a state that
    tickets and blocked callers still point to.  [step] interleaves any number
    of callers. *)

From S2P Require Import Prelude Go.

(** ** Data *)

(** [const appendSequenceRetention = 10 * time.Minute], in nanoseconds. *)
Definition appendSequenceRetention : Z := 10 * 60 * 1000000000.

Record SeqState := mkSeqState {
  next : Z;
  processing : bool;
  ready : option nat;
  updatedAt : Z;
  made : nat;
  closed : gset nat
}.

Definition with_next (n : Z) (st : SeqState) : SeqState :=
  mkSeqState n (processing st) (ready st) (updatedAt st) (made st) (closed st).

Definition with_processing (b : bool) (st : SeqState) : SeqState :=
  mkSeqState (next st) b (ready st) (updatedAt st) (made st) (closed st).

Definition touch (now : Z) (st : SeqState) : SeqState :=
  mkSeqState (next st) (processing st) (ready st) now (made st) (closed st).

(** [state.ready = make(chan struct{})]. *)
Definition make_ready (st : SeqState) : SeqState :=
  mkSeqState (next st) (processing st) (Some (made st)) (updatedAt st)
    (S (made st)) (closed st).

(** [close(state.ready)]. *)
Definition close_ready (st : SeqState) : SeqState :=
  mkSeqState (next st) (processing st) (ready st) (updatedAt st) (made st)
    (match ready st with Some c => {[c]} ∪ closed st | None => closed st end).

(** The state that [tracker.state] allocates. *)
Definition new_state (now : Z) : SeqState :=
  make_ready (mkSeqState 1 false None now 0 ∅).

(** What one iteration of the loop of [acquire] does: report a stale sequence
    number, grant it, or wait on a channel. *)
Inductive Attempt :=
| AStale
| AGranted
| AWait (ch : option nat).

Definition acquire_prepare (now : Z) (st : SeqState) : SeqState :=
  let st := if next st <=? 0 then with_next 1 st else st in
  let st := match ready st with None => make_ready st | Some _ => st end in
  touch now st.

Definition acquire_attempt (now appendSeq : Z) (st : SeqState) : Attempt * SeqState :=
  let st := acquire_prepare now st in
  if (appendSeq =? 1) && (1 <? next st) then
    if processing st then (AWait (ready st), st)
    else (AGranted, with_processing true (with_next 1 st))
  else if appendSeq <? next st then (AStale, st)
  else if (appendSeq =? next st) && negb (processing st) then
    (AGranted, with_processing true st)
  else (AWait (ready st), st).

Definition Release (now seq : Z) (st : SeqState) : SeqState :=
  if seq <=? 0 then st else
  let st :=
    if processing st && (next st =? seq) then
      make_ready (close_ready
        (with_next (wrap_int64 (next st + 1)) (with_processing false st)))
    else st in
  touch now st.

Definition expired (cutoff : Z) (st : SeqState) : bool :=
  if processing st then false
  else negb (updatedAt st =? 0) && (updatedAt st <? cutoff).

(** ** The tracker *)

Record Tracker := mkTracker {
  states : gmap string nat;
  heap : gmap nat SeqState;
  fresh : nat
}.

Definition newAppendSequenceTracker : Tracker := mkTracker ∅ ∅ 0.

(** The entries that survive the sweep of [tracker.state]. *)
Definition survives (cutoff : Z) (h : gmap nat SeqState) (kv : string * nat) : Prop :=
  match h !! kv.2 with Some st => expired cutoff st = false | None => False end.

#[export] Instance survives_dec cutoff h kv : Decision (survives cutoff h kv).
Proof. unfold survives. destruct (h !! kv.2); apply _. Defined.

Definition tracker_state (now : Z) (requestID : string) (t : Tracker) : nat * Tracker :=
  let cutoff := now - appendSequenceRetention in
  let kept := filter (survives cutoff (heap t)) (states t) in
  match kept !! requestID with
  | Some p => (p, mkTracker kept (alter (touch now) p (heap t)) (fresh t))
  | None =>
      let p := fresh t in
      (p, mkTracker (<[requestID := p]> kept) (<[p := new_state now]> (heap t)) (S p))
  end.

(** The guard of [Acquire]: [None] is the early return without a ticket. *)
Definition Acquire_enter (now : Z) (requestID : string) (appendSeq : Z) (t : Tracker)
  : option nat * Tracker :=
  if decide (TrimSpace requestID = EmptyString) then (None, t)
  else if appendSeq <=? 0 then (None, t)
  else let '(p, t') := tracker_state now (TrimSpace requestID) t in (Some p, t').

(** ** Callers *)

Inductive Outcome :=
| NoTicket
| Stale
| Canceled
| Released.

(** A caller of [Acquire] and then of [ticket.Release]. *)
Inductive Caller :=
| Trying (p : nat) (seq : Z)
| Blocked (p : nat) (seq : Z) (ch : option nat)
| Holding (p : nat) (seq : Z)
| Done (o : Outcome).

(** The system: the tracker, the callers, and the log of the granted sequence
    numbers of each state, in the order of the grants. *)
Record Sys := mkSys {
  tracker : Tracker;
  callers : gmap nat Caller;
  grants : gmap nat (list Z)
}.

Definition init_sys : Sys := mkSys newAppendSequenceTracker ∅ ∅.

Definition grant_log (s : Sys) (p : nat) : list Z := default [] (grants s !! p).

Definition set_cell (p : nat) (st : SeqState) (t : Tracker) : Tracker :=
  mkTracker (states t) (<[p := st]> (heap t)) (fresh t).

Inductive step : Sys -> Sys -> Prop :=
| step_call s i now requestID seq p t' :
    callers s !! i = None -> is_int64 seq ->
    Acquire_enter now requestID seq (tracker s) = (Some p, t') ->
    step s (mkSys t' (<[i := Trying p seq]> (callers s)) (grants s))
| step_call_ignored s i now requestID seq t' :
    callers s !! i = None ->
    Acquire_enter now requestID seq (tracker s) = (None, t') ->
    step s (mkSys t' (<[i := Done NoTicket]> (callers s)) (grants s))
| step_granted s i now p seq st st' :
    callers s !! i = Some (Trying p seq) ->
    heap (tracker s) !! p = Some st ->
    acquire_attempt now seq st = (AGranted, st') ->
    step s (mkSys (set_cell p st' (tracker s)) (<[i := Holding p seq]> (callers s))
              (<[p := grant_log s p ++ [seq]]> (grants s)))
| step_stale s i now p seq st st' :
    callers s !! i = Some (Trying p seq) ->
    heap (tracker s) !! p = Some st ->
    acquire_attempt now seq st = (AStale, st') ->
    step s (mkSys (set_cell p st' (tracker s)) (<[i := Done Stale]> (callers s)) (grants s))
| step_wait s i now p seq st st' ch :
    callers s !! i = Some (Trying p seq) ->
    heap (tracker s) !! p = Some st ->
    acquire_attempt now seq st = (AWait ch, st') ->
    step s (mkSys (set_cell p st' (tracker s)) (<[i := Blocked p seq ch]> (callers s)) (grants s))
| step_wake s i p seq c st :
    callers s !! i = Some (Blocked p seq (Some c)) ->
    heap (tracker s) !! p = Some st ->
    c ∈ closed st ->
    step s (mkSys (tracker s) (<[i := Trying p seq]> (callers s)) (grants s))
| step_cancel s i p seq ch :
    callers s !! i = Some (Blocked p seq ch) ->
    step s (mkSys (tracker s) (<[i := Done Canceled]> (callers s)) (grants s))
| step_release s i now p seq st :
    callers s !! i = Some (Holding p seq) ->
    heap (tracker s) !! p = Some st ->
    step s (mkSys (set_cell p (Release now seq st) (tracker s))
              (<[i := Done Released]> (callers s)) (grants s)).

Definition reachable (s : Sys) : Prop := rtc step init_sys s.

(** ** Invariant *)

(** The channels of a state: the open one is the last made, all others are closed. *)
Definition chans_ok (st : SeqState) : Prop :=
  exists r, ready st = Some r /\ made st = S r /\ (forall c, c ∈ closed st <-> (c < r)%nat).

(** How the next expected number relates to the log of the grants. *)
Definition log_ok (st : SeqState) (g : list Z) : Prop :=
  (forall x, g !! 0%nat = Some x -> x = 1) /\
  chained (fun x y => y = x + 1 \/ y = 1) g /\
  match list.last g with
  | None => processing st = false /\ next st = 1
  | Some x => 1 <= x <= max_int64 /\
      if processing st then next st = x
      else next st = x + 1 \/ (x = max_int64 /\ next st <= 1)
  end.

Record cell_inv (p : nat) (st : SeqState) (cs : gmap nat Caller) (g : list Z) : Prop := {
  ci_chans : chans_ok st;
  ci_holds : forall i seq, cs !! i = Some (Holding p seq) ->
    processing st = true /\ next st = seq;
  ci_unique : forall i j s1 s2, cs !! i = Some (Holding p s1) ->
    cs !! j = Some (Holding p s2) -> i = j;
  ci_busy : processing st = true -> exists i, cs !! i = Some (Holding p (next st));
  ci_blocked : forall i seq ch, cs !! i = Some (Blocked p seq ch) ->
    exists c, ch = Some c /\ (c < made st)%nat /\
      (c ∉ closed st -> processing st = true \/ 1 <= next st < seq);
  ci_log : log_ok st g
}.

Definition points_to (c : Caller) : option nat :=
  match c with
  | Trying p _ | Blocked p _ _ | Holding p _ => Some p
  | Done _ => None
  end.

Definition seq_of (c : Caller) : option Z :=
  match c with
  | Trying _ seq | Blocked _ seq _ | Holding _ seq => Some seq
  | Done _ => None
  end.

Record inv (s : Sys) : Prop := {
  inv_cells : forall p st, heap (tracker s) !! p = Some st ->
    cell_inv p st (callers s) (grant_log s p);
  inv_fresh : forall p st, heap (tracker s) !! p = Some st -> (p < fresh (tracker s))%nat;
  inv_states : forall k p, states (tracker s) !! k = Some p ->
    is_Some (heap (tracker s) !! p);
  inv_points : forall i c p, callers s !! i = Some c -> points_to c = Some p ->
    is_Some (heap (tracker s) !! p);
  inv_seq : forall i c seq, callers s !! i = Some c -> seq_of c = Some seq ->
    1 <= seq <= max_int64;
  inv_logged : forall p g, grants s !! p = Some g -> is_Some (heap (tracker s) !! p)
}.

(** ** Lemmas: the critical sections preserve the invariant of a cell *)

(** Replacing a caller that neither held nor now uses cell [q]. *)
Lemma cell_inv_frame q st cs g i c :
  cell_inv q st cs g ->
  (forall seq, cs !! i <> Some (Holding q seq)) ->
  (forall seq, c <> Holding q seq) -> (forall seq ch, c <> Blocked q seq ch) ->
  cell_inv q st (<[i := c]> cs) g.
Proof.
  intros [Hc Hh Hu Hb Hbl Hl] Hold Hn1 Hn2. split; [done| | | | |done].
  - intros j seq. rewrite lookup_insert_Some.
    intros [[_ ?]|[_ ?]]; [by destruct (Hn1 seq)|eauto].
  - intros j k s1 s2. rewrite !lookup_insert_Some.
    intros [[_ ?]|[_ ?]] [[_ ?]|[_ ?]]; try (by exfalso; eapply Hn1); eauto.
  - intros Hp. destruct (Hb Hp) as [j Hj]. exists j.
    rewrite lookup_insert_ne; [done|]. intros ->. by eapply Hold.
  - intros j seq ch. rewrite lookup_insert_Some.
    intros [[_ ?]|[_ ?]]; [by exfalso; eapply Hn2|eauto].
Qed.

Lemma acquire_prepare_inv now p st cs g :
  cell_inv p st cs g -> cell_inv p (acquire_prepare now st) cs g.
Proof.
  intros [(r & Hr & Hm & Hcl) Hh Hu Hb Hbl (Hf & Hch & Hlast)].
  unfold acquire_prepare.
  destruct (next st <=? 0) eqn:En; zbool; simpl; rewrite Hr;
    (split; simpl; [by exists r| |done| | |]); try done.
  - intros i seq Hi. destruct (Hh i seq Hi) as [Hp <-].
    destruct (list.last g); rewrite Hp in Hlast; [lia|by destruct Hlast].
  - intros Hp. destruct (list.last g); rewrite Hp in Hlast; [lia|by destruct Hlast].
  - intros i seq ch Hi. destruct (Hbl i seq ch Hi) as (c & -> & Hc & Hopen).
    exists c. repeat split; [done|]. intros Hn. destruct (Hopen Hn); [by left|lia].
  - repeat split; try done. simpl.
    destruct (list.last g) as [x|]; [|by destruct Hlast; lia].
    destruct (processing st); lia.
Qed.

Lemma acquire_prepare_next now st : 1 <= next (acquire_prepare now st).
Proof.
  unfold acquire_prepare.
  destruct (next st <=? 0) eqn:En; simpl; destruct (ready st); simpl; zbool.
Qed.

(** What the three outcomes of an attempt say about the prepared state. *)
Lemma acquire_attempt_cases now seq st a st' :
  acquire_attempt now seq st = (a, st') ->
  let pre := acquire_prepare now st in
  match a with
  | AStale => st' = pre /\ seq < next pre
  | AGranted => processing pre = false /\ (seq = next pre \/ seq = 1) /\
      st' = with_processing true (with_next seq pre)
  | AWait ch => st' = pre /\ ch = ready pre /\
      (processing pre = true \/ next pre < seq)
  end.
Proof.
  unfold acquire_attempt. cbv zeta. generalize (acquire_prepare now st) as pre. intros pre.
  destruct ((seq =? 1) && (1 <? next pre)) eqn:E1.
  - destruct (processing pre) eqn:Ep; intros [= <- <-]; zbool; subst; auto.
  - destruct (seq <? next pre) eqn:E2; [intros [= <- <-]; zbool; auto|].
    destruct ((seq =? next pre) && negb (processing pre)) eqn:E3; intros [= <- <-].
    + zbool. subst seq. split_and!; auto.
    + split_and!; auto. apply andb_false_iff in E3 as [?|?]; zbool; auto.
Qed.

Lemma cell_inv_granted now p seq st st' cs g i :
  cell_inv p st cs g -> cs !! i = Some (Trying p seq) -> 1 <= seq <= max_int64 ->
  acquire_attempt now seq st = (AGranted, st') ->
  cell_inv p st' (<[i := Holding p seq]> cs) (g ++ [seq]).
Proof.
  intros Hinv Hi Hseq Hatt.
  apply acquire_attempt_cases in Hatt as (Hp & Hnext & ->).
  pose proof (acquire_prepare_next now st) as Hge.
  apply (acquire_prepare_inv now) in Hinv. revert Hinv Hp Hnext Hge.
  generalize (acquire_prepare now st). clear st. intros st.
  intros [(r & Hr & Hm & Hcl) Hh Hu Hb Hbl (Hf & Hch & Hlast)] Hp Hnext Hge.
  assert (Hnone : forall j s, cs !! j <> Some (Holding p s)).
  { intros j s Hj. destruct (Hh j s Hj). congruence. }
  split; simpl.
  - by exists r.
  - intros j s. rewrite lookup_insert_Some. intros [[_ [= <-]]|[_ ?]]; [done|].
    by edestruct Hnone.
  - intros j k s1 s2. rewrite !lookup_insert_Some.
    intros [[-> _]|[_ ?]] [[-> _]|[_ ?]]; try done; by edestruct Hnone.
  - intros _. exists i. by rewrite lookup_insert_eq.
  - intros j s ch. rewrite lookup_insert_Some. intros [[_ ?]|[_ Hj]]; [done|].
    destruct (Hbl j s ch Hj) as (c & -> & Hc & _). eauto 10.
  - rewrite Hp in Hlast. split_and!.
    + intros x. destruct g as [|y g]; simpl.
      * intros [= <-]. destruct Hlast. lia.
      * intros [= <-]. by apply Hf.
    + apply chained_snoc; [done|]. intros x Hx. rewrite Hx in Hlast.
      destruct Hnext as [-> | ->]; [|by right]. lia.
    + simpl. rewrite last_snoc. simpl. lia.
Qed.

Lemma cell_inv_wait now p seq st st' cs g i ch :
  cell_inv p st cs g -> cs !! i = Some (Trying p seq) ->
  acquire_attempt now seq st = (AWait ch, st') ->
  cell_inv p st' (<[i := Blocked p seq ch]> cs) g.
Proof.
  intros Hinv Hi Hatt. apply acquire_attempt_cases in Hatt as (-> & -> & Hbusy).
  pose proof (acquire_prepare_next now st) as Hge.
  apply (acquire_prepare_inv now) in Hinv. revert Hinv Hbusy Hge.
  generalize (acquire_prepare now st). clear st. intros st.
  intros [(r & Hr & Hm & Hcl) Hh Hu Hb Hbl Hlog] Hbusy Hge.
  assert (Hne : forall j s, cs !! j = Some (Holding p s) -> i <> j) by congruence.
  split; [by exists r| | | | |done].
  - intros j s. rewrite lookup_insert_Some. intros [[_ ?]|[_ ?]]; eauto; done.
  - intros j k s1 s2. rewrite !lookup_insert_Some.
    intros [[_ ?]|[_ ?]] [[_ ?]|[_ ?]]; eauto; done.
  - intros Hp. destruct (Hb Hp) as [j Hj]. exists j. rewrite lookup_insert_ne; eauto.
  - intros j s c. rewrite lookup_insert_Some. intros [[_ [= <- <-]]|[_ Hj]]; [|eauto].
    exists r. split_and!; [done|lia|]. intros _. destruct Hbusy; [by left|right; lia].
Qed.

Lemma cell_inv_release now p seq st cs g i :
  cell_inv p st cs g -> cs !! i = Some (Holding p seq) -> 1 <= seq <= max_int64 ->
  cell_inv p (Release now seq st) (<[i := Done Released]> cs) g.
Proof.
  intros [(r & Hr & Hm & Hcl) Hh Hu Hb Hbl (Hf & Hch & Hlast)] Hi Hseq.
  destruct (Hh i seq Hi) as [Hp Hn]. unfold Release.
  destruct (seq <=? 0) eqn:E; zbool. rewrite Hp, Hn, Z.eqb_refl. simpl.
  assert (Hnone : forall j s, <[i := Done Released]> cs !! j <> Some (Holding p s)).
  { intros j s. rewrite lookup_insert_Some. intros [[_ ?]|[Hne Hj]]; [done|].
    by apply Hne, (Hu i j seq s). }
  unfold make_ready, close_ready, with_next, with_processing, touch. simpl.
  rewrite Hr, Hm in *. split; simpl.
  - exists (S r). split_and!; try done. simpl. intros c.
    rewrite elem_of_union, elem_of_singleton, Hcl. lia.
  - intros j s Hj. by edestruct Hnone.
  - intros j k s1 s2 Hj. by edestruct Hnone.
  - done.
  - intros j s ch. rewrite lookup_insert_Some. intros [[_ ?]|[_ Hj]]; [done|].
    destruct (Hbl j s ch Hj) as (c & -> & Hc & _). exists c.
    split_and!; [done|lia|]. intros Hopen. exfalso. apply Hopen.
    apply elem_of_union. destruct (decide (c = r)); [set_solver|right; apply Hcl; lia].
  - split_and!; [done|done|]. simpl. rewrite Hp in Hlast.
    destruct (list.last g) as [x|]; [|by destruct Hlast].
    destruct Hlast as [Hx Hnx]. rewrite Hn in Hnx. subst x. split; [done|].
    destruct (decide (seq = max_int64)) as [->|Hxm].
    + right. split; [done|]. by vm_compute.
    + left. rewrite wrap_int64_id; unfold is_int64 in *; lia.
Qed.

Lemma cell_inv_touch now p st cs g : cell_inv p st cs g -> cell_inv p (touch now st) cs g.
Proof. intros []. by split. Qed.

Lemma cell_inv_new now p cs :
  (forall i c, cs !! i = Some c -> points_to c <> Some p) ->
  cell_inv p (new_state now) cs [].
Proof.
  intros Hfree. split; simpl.
  - exists 0%nat. split_and!; try done. intros c. split; [set_solver|lia].
  - intros i seq Hi. by apply Hfree in Hi.
  - intros i j s1 s2 Hi. by apply Hfree in Hi.
  - done.
  - intros i seq ch Hi. by apply Hfree in Hi.
  - split_and!; done.
Qed.

(** ** Lemmas: the invariant of the system *)

Lemma survives_spec cutoff h k p :
  survives cutoff h (k, p) <-> exists st, h !! p = Some st /\ expired cutoff st = false.
Proof.
  unfold survives. simpl. destruct (h !! p) as [st|]; split; try naive_solver.
Qed.

Lemma inv_init : inv init_sys.
Proof. split; simpl; try done; intros; by rewrite lookup_empty in *. Qed.

(** The heap only gains a new cell, or has one cell touched. *)
Lemma tracker_state_spec now k t p t' :
  tracker_state now k t = (p, t') ->
  (forall key q, states t !! key = Some q -> is_Some (heap t !! q)) ->
  (forall q st, heap t !! q = Some st -> (q < fresh t)%nat) ->
  is_Some (heap t' !! p) /\
  (forall key q, states t' !! key = Some q -> is_Some (heap t' !! q)) /\
  ((exists st, heap t !! p = Some st /\ heap t' = <[p := touch now st]> (heap t) /\
      fresh t' = fresh t) \/
   (p = fresh t /\ heap t' = <[p := new_state now]> (heap t) /\ fresh t' = S (fresh t))).
Proof.
  unfold tracker_state. intros Heq Hst Hfr.
  destruct (filter _ (states t) !! k) as [q|] eqn:E; injection Heq as <- <-.
  - apply map_lookup_filter_Some in E as [Ek (st & Hq & _)%survives_spec].
    assert (Hal : alter (touch now) q (heap t) = <[q := touch now st]> (heap t)).
    { apply map_eq. intros j. destruct (decide (q = j)) as [->|Hne].
      - by rewrite lookup_alter_eq, lookup_insert_eq, Hq.
      - by rewrite lookup_alter_ne, lookup_insert_ne. }
    simpl. rewrite Hal. split_and!.
    + rewrite lookup_insert_eq. eauto.
    + intros key j [Hj _]%map_lookup_filter_Some.
      destruct (decide (q = j)) as [->|]; [rewrite lookup_insert_eq; eauto|].
      rewrite lookup_insert_ne by done. eauto.
    + left. eauto.
  - simpl. split_and!.
    + rewrite lookup_insert_eq. eauto.
    + intros key j. rewrite lookup_insert_Some.
      intros [[_ <-]|[_ [Hj _]%map_lookup_filter_Some]].
      { rewrite lookup_insert_eq. eauto. }
      destruct (Hst _ _ Hj) as [st Hj']. pose proof (Hfr _ _ Hj').
      rewrite lookup_insert_ne by lia. eauto.
    + by right.
Qed.

(** A step that replaces caller [i] and the cell [p] it works on. *)
Lemma inv_set_cell s i p st st' c g' :
  inv s -> heap (tracker s) !! p = Some st ->
  (exists seq, (exists c0, callers s !! i = Some c0 /\ points_to c0 = Some p /\
     seq_of c0 = Some seq) /\ (forall s', seq_of c = Some s' -> s' = seq)) ->
  (forall q, points_to c = Some q -> q = p) ->
  cell_inv p st' (<[i := c]> (callers s)) (default [] (g' !! p)) ->
  (forall q, q <> p -> g' !! q = grants s !! q) ->
  inv (mkSys (set_cell p st' (tracker s)) (<[i := c]> (callers s)) g').
Proof.
  intros [Hce Hfr Hst Hpt Hsq Hlg] Hp (seq & (c0 & Hc0 & Hpc0 & Hs0) & Hsc) Hpc Hcell Hg'.
  split; simpl.
  - intros q stq. rewrite lookup_insert_Some. intros [[<- <-]|[Hne Hq]]; [done|].
    unfold grant_log. simpl. rewrite Hg' by done.
    apply cell_inv_frame; [by apply Hce| | |].
    + intros s' Hc. rewrite Hc0 in Hc. injection Hc as ->. simpl in Hpc0. congruence.
    + intros s' ->. by specialize (Hpc q eq_refl).
    + intros s' ch ->. by specialize (Hpc q eq_refl).
  - intros q stq. rewrite lookup_insert_Some. intros [[<- _]|[_ ?]]; eauto.
  - intros k q Hk. destruct (decide (p = q)) as [->|]; [rewrite lookup_insert_eq; eauto|].
    rewrite lookup_insert_ne by done. eauto.
  - intros j cj q. rewrite lookup_insert_Some. intros Hj Hq.
    destruct (decide (p = q)) as [->|]; [rewrite lookup_insert_eq; eauto|].
    rewrite lookup_insert_ne by done. destruct Hj as [[_ <-]|[_ Hj]]; [|eauto].
    by rewrite (Hpc q Hq) in *.
  - intros j cj s'. rewrite lookup_insert_Some. intros [[_ <-]|[_ Hj]] Hs'; [|eauto].
    rewrite (Hsc _ Hs'). eauto.
  - intros q g Hq. destruct (decide (p = q)) as [->|Hne]; [rewrite lookup_insert_eq; eauto|].
    rewrite lookup_insert_ne by done. rewrite Hg' in Hq by done. eauto.
Qed.

(** A step that only replaces caller [i] by one that neither holds nor waits. *)
Lemma inv_set_caller s i c0 c :
  inv s -> callers s !! i = Some c0 ->
  (forall p seq, c0 <> Holding p seq) ->
  (forall p seq, c <> Holding p seq) -> (forall p seq ch, c <> Blocked p seq ch) ->
  (forall q, points_to c = Some q -> points_to c0 = Some q) ->
  (forall q, seq_of c = Some q -> seq_of c0 = Some q) ->
  inv (mkSys (tracker s) (<[i := c]> (callers s)) (grants s)).
Proof.
  intros [Hce Hfr Hst Hpt Hsq Hlg] Hc0 Hh0 Hh Hb Hp Hs. split; simpl; try done.
  - intros q st Hq. apply cell_inv_frame; [by apply Hce|..]; [|done|done].
    intros seq. rewrite Hc0. intros [= ->]. by eapply Hh0.
  - intros j cj q. rewrite lookup_insert_Some. intros [[_ <-]|[_ Hj]] Hq; eauto.
  - intros j cj q. rewrite lookup_insert_Some. intros [[_ <-]|[_ Hj]] Hq; eauto.
Qed.

Lemma inv_new_done s i o :
  inv s -> callers s !! i = None ->
  inv (mkSys (tracker s) (<[i := Done o]> (callers s)) (grants s)).
Proof.
  intros [Hce Hfr Hst Hpt Hsq Hlg] Hi. split; simpl; try done; intros; eauto.
  - apply cell_inv_frame; try done; [by apply Hce|]. intros ?. by rewrite Hi.
  - rewrite lookup_insert_Some in *. naive_solver.
  - rewrite lookup_insert_Some in *. naive_solver.
Qed.

(** A new caller enters; the tracker may have allocated or touched its cell. *)
Lemma inv_enter s i now requestID seq o t' :
  inv s -> callers s !! i = None -> is_int64 seq ->
  Acquire_enter now requestID seq (tracker s) = (o, t') ->
  inv (mkSys t' (<[i := match o with Some p => Trying p seq | None => Done NoTicket end]>
                   (callers s)) (grants s)).
Proof.
  intros Hinv Hi Hseq Hent. unfold Acquire_enter in Hent.
  case_decide as Hid; [injection Hent as <- <-; by apply inv_new_done|].
  destruct (seq <=? 0) eqn:Es; zbool; [injection Hent as <- <-; by apply inv_new_done|].
  destruct (tracker_state now (TrimSpace requestID) (tracker s)) as [p t1] eqn:Et.
  injection Hent as <- <-. destruct Hinv as [Hce Hfr Hst Hpt Hsq Hlg].
  apply tracker_state_spec in Et as (Hp & Hst' & Hcase); [|done|done].
  assert (Hframe : forall q st, cell_inv q st (callers s) (grant_log s q) ->
    cell_inv q st (<[i := Trying p seq]> (callers s)) (grant_log s q)).
  { intros q st Hq. apply cell_inv_frame; try done. intros ?. by rewrite Hi. }
  assert (Hmono : forall q, is_Some (heap (tracker s) !! q) -> is_Some (heap t1 !! q)).
  { intros q Hq. destruct Hcase as [(st & _ & -> & _)|(_ & -> & _)];
      rewrite lookup_insert_is_Some; destruct (decide (p = q)); tauto. }
  split; simpl.
  - intros q stq Hq. apply Hframe.
    destruct Hcase as [(st & Hpst & Hheap & _)|(-> & Hheap & _)];
      rewrite Hheap, lookup_insert_Some in Hq; destruct Hq as [[<- <-]|[_ Hq]]; eauto.
    + by apply cell_inv_touch, Hce.
    + unfold grant_log. destruct (grants s !! fresh (tracker s)) as [g|] eqn:Hg.
      { apply Hlg in Hg as [? Hg]. apply Hfr in Hg. lia. }
      simpl. apply cell_inv_new.
      intros j cj Hj Hpj. destruct (Hpt _ _ _ Hj Hpj) as [? Hx]. apply Hfr in Hx. lia.
  - intros q stq Hq.
    destruct Hcase as [(st & Hpst & Hheap & ->)|(-> & Hheap & ->)];
      rewrite Hheap, lookup_insert_Some in Hq; destruct Hq as [[<- _]|[_ Hq]];
      try (apply Hfr in Hq); try (apply Hfr in Hpst); lia.
  - done.
  - intros j cj q. rewrite lookup_insert_Some. intros [[_ <-]|[_ Hj]] Hq; [|eauto].
    simpl in Hq. by injection Hq as <-.
  - intros j cj q. rewrite lookup_insert_Some. intros [[_ <-]|[_ Hj]] Hq; [|eauto].
    simpl in Hq. injection Hq as <-. unfold is_int64 in Hseq. lia.
  - intros q g Hq. apply Hmono. eauto.
Qed.

Lemma step_inv s s' : inv s -> step s s' -> inv s'.
Proof.
  intros Hinv Hs. destruct Hs as
    [s i now k seq p t' Hi Hseq He|s i now k seq t' Hi He|s i now p seq st st' Hi Hp Ha
    |s i now p seq st st' Hi Hp Ha|s i now p seq st st' ch Hi Hp Ha|s i p seq c st Hi Hp Hc
    |s i p seq ch Hi|s i now p seq st Hi Hp].
  - by apply (inv_enter s i now k seq (Some p) t').
  - unfold Acquire_enter in He. repeat case_match; simplify_eq; by apply inv_new_done.
  - pose proof (inv_seq _ Hinv _ _ _ Hi eq_refl) as Hr.
    apply (inv_set_cell s i p st); simpl; try done.
    + exists seq. split; [eauto|]. by intros ? [= <-].
    + by intros ? [= <-].
    + rewrite lookup_insert_eq. simpl.
      eapply cell_inv_granted; eauto. by apply (inv_cells s).
    + intros q Hne. by rewrite lookup_insert_ne.
  - apply (inv_set_cell s i p st); simpl; try done.
    + exists seq. split; [eauto|]. done.
    + apply acquire_attempt_cases in Ha as [-> _].
      apply cell_inv_frame; try done; [by apply acquire_prepare_inv, (inv_cells s)|].
      intros ?. by rewrite Hi.
  - apply (inv_set_cell s i p st); simpl; try done.
    + exists seq. split; [eauto|]. by intros ? [= <-].
    + by intros ? [= <-].
    + eapply cell_inv_wait; eauto. by apply (inv_cells s).
  - by eapply inv_set_caller.
  - by eapply inv_set_caller.
  - pose proof (inv_seq _ Hinv _ _ _ Hi eq_refl) as Hr.
    apply (inv_set_cell s i p st); simpl; try done.
    + exists seq. split; [eauto|]. done.
    + apply cell_inv_release; eauto. by apply (inv_cells s).
Qed.

Lemma reachable_inv s : reachable s -> inv s.
Proof. apply rtc_preserves; [apply inv_init|apply step_inv]. Qed.

(** ** Properties *)

(** C4: For every interleaving of any number of callers, the appends of one request
    state are processed one at a time: two callers that hold a ticket of the same
    state are the same caller, and a state is marked [processing] exactly when a
    caller holds the ticket of the number it expects. *)
Theorem append_mutual_exclusion s p st :
  reachable s -> heap (tracker s) !! p = Some st ->
  (forall i j a b, callers s !! i = Some (Holding p a) ->
     callers s !! j = Some (Holding p b) -> i = j /\ a = b) /\
  (processing st = true <-> exists i, callers s !! i = Some (Holding p (next st))).
Proof.
  intros Hr Hp. apply reachable_inv in Hr. destruct (inv_cells _ Hr _ _ Hp) as [_ Hh Hu Hb _ _].
  split.
  - intros i j a b Hi Hj. split; [by eapply Hu|].
    destruct (Hh _ _ Hi), (Hh _ _ Hj). congruence.
  - split; [done|]. intros [i Hi]. by destruct (Hh _ _ Hi).
Qed.

(** C30: The sequence numbers granted on one request state, in the order of the
    grants, start at 1 and each is the successor of the previous one or a restart
    at 1: appends are processed in order, none is skipped, and none but the
    restart is processed twice in a run, also across the wrap-around of the
    64-bit counter. *)
Theorem append_grants_in_order s p :
  reachable s ->
  (forall x, grant_log s p !! 0%nat = Some x -> x = 1) /\
  (forall k x y, grant_log s p !! k = Some x -> grant_log s p !! S k = Some y ->
     y = x + 1 \/ y = 1).
Proof.
  intros Hr. apply reachable_inv in Hr.
  destruct (heap (tracker s) !! p) as [st|] eqn:Hp.
  - destruct (ci_log _ _ _ _ (inv_cells _ Hr _ _ Hp)) as (Hf & Hc & _). by split.
  - unfold grant_log. destruct (grants s !! p) as [g|] eqn:Hg; [|by split].
    exfalso. apply (inv_logged _ Hr) in Hg as [? ?]. congruence.
Qed.

(** C8: No wake-up is lost: in every reachable state, a caller blocked in
    [acquire] on a state object that is idle and already expects its number (or a
    later one) waits on a channel that has been closed, so it can run again; when it
    does, and its number is the expected one, it is granted.  This is about the
    object the caller found: when the sweep has put another one in its place,
    [append_sweep_orphans_waiter] shows that the appends of the request go on there. *)
Theorem append_no_lost_wakeup s i p seq ch st :
  reachable s -> callers s !! i = Some (Blocked p seq ch) ->
  heap (tracker s) !! p = Some st -> processing st = false -> seq <= next st ->
  step s (mkSys (tracker s) (<[i := Trying p seq]> (callers s)) (grants s)) /\
  (seq = next st -> forall now, exists st', acquire_attempt now seq st = (AGranted, st')).
Proof.
  intros Hr Hi Hp Hidle Hle. apply reachable_inv in Hr.
  destruct (inv_cells _ Hr _ _ Hp) as [_ _ _ _ Hbl _].
  destruct (Hbl _ _ _ Hi) as (c & -> & _ & Hopen). split.
  - apply (step_wake _ _ _ _ c st); try done.
    destruct (decide (c ∈ closed st)) as [|Hc]; [done|].
    destruct (Hopen Hc); [congruence|lia].
  - intros -> now. pose proof (inv_seq _ Hr _ _ _ Hi eq_refl) as Hrange.
    unfold acquire_attempt, acquire_prepare.
    destruct (next st <=? 0) eqn:E0; zbool.
    destruct (ready st); simpl; rewrite Hidle;
      destruct ((next st =? 1) && (1 <? next st)) eqn:E1; zbool;
      rewrite Z.ltb_irrefl, Z.eqb_refl; eexists; reflexivity.
Qed.

(** An append whose number lies below the expected one, and is not the restart
    number 1, is reported stale; it changes neither the expected number nor the
    ticket, whoever holds it. *)
Theorem append_stale_is_inert now seq st :
  1 < seq < next st ->
  exists st', acquire_attempt now seq st = (AStale, st') /\
    next st' = next st /\ processing st' = processing st /\ closed st' = closed st.
Proof.
  intros [H1 H2]. unfold acquire_attempt, acquire_prepare.
  destruct (next st <=? 0) eqn:E0; zbool.
  destruct (ready st); simpl; destruct (seq =? 1) eqn:E1; zbool; simpl;
    destruct (seq <? next st) eqn:E2; zbool; eauto.
Qed.

(** A request whose second append arrives first and waits longer than the
    retention period. *)
Definition late : Z := appendSequenceRetention + 10.

Definition orphan_run : Sys :=
  let t1 := (Acquire_enter 1 "r" 2 newAppendSequenceTracker).2 in
  let st1 := (acquire_attempt 2 2 (new_state 1)).2 in
  let t2 := set_cell 0 st1 t1 in
  let t3 := (Acquire_enter late "r" 1 t2).2 in
  mkSys t3 (<[1%nat := Trying 1 1]> (<[0%nat := Blocked 0 2 (Some 0%nat)]> ∅)) ∅.

(** The sweep of the tracker can drop the state of a request while a caller is
    blocked on it: there is a reachable state in which append 2 of a request waits
    on one state while append 1 of the same request is served by another, so that
    the release of append 1 does not wake append 2. *)
Theorem append_sweep_orphans_waiter :
  exists s p q, reachable s /\ p <> q /\
    callers s !! 0%nat = Some (Blocked p 2 (Some 0%nat)) /\
    callers s !! 1%nat = Some (Trying q 1) /\
    states (tracker s) !! "r" = Some q.
Proof.
  exists orphan_run, 0%nat, 1%nat. split_and!; try done.
  unfold reachable.
  eapply rtc_l; [eapply (step_call init_sys 0%nat 1 "r" 2); [done| |vm_compute; reflexivity]|].
  { unfold is_int64, max_int64. lia. }
  eapply rtc_l; [eapply (step_wait _ 0%nat 2); vm_compute; reflexivity|].
  eapply rtc_l; [eapply (step_call _ 1%nat late "r" 1); [done| |vm_compute; reflexivity]|].
  { unfold is_int64, max_int64. lia. }
  vm_compute. apply rtc_refl.
Qed.

(** ** Witnesses: a run of two callers of one request *)

Definition demo_tracker1 : Tracker := (Acquire_enter 1 "r" 1 newAppendSequenceTracker).2.
Definition demo_cell1 : SeqState := (acquire_attempt 2 1 (new_state 1)).2.
Definition demo_tracker2 : Tracker := (Acquire_enter 3 "r" 2 (set_cell 0 demo_cell1 demo_tracker1)).2.
Definition demo_cell2 : SeqState := (acquire_attempt 4 2 (touch 3 demo_cell1)).2.

(** Caller 0 holds the ticket of append 1, caller 1 is blocked with append 2. *)
Definition demo_busy : Sys :=
  mkSys (set_cell 0 demo_cell2 demo_tracker2)
    (<[1%nat := Blocked 0 2 (Some 0%nat)]> (<[1%nat := Trying 0 2]>
       (<[0%nat := Holding 0 1]> (<[0%nat := Trying 0 1]> ∅))))
    (<[0%nat := [1]]> ∅).

(** Caller 0 has released. *)
Definition demo_idle : Sys :=
  mkSys (set_cell 0 (Release 5 1 demo_cell2) (tracker demo_busy))
    (<[0%nat := Done Released]> (callers demo_busy)) (grants demo_busy).

Lemma demo_busy_reachable : reachable demo_busy.
Proof.
  unfold reachable.
  eapply rtc_l; [eapply (step_call init_sys 0%nat 1 "r" 1); [done| |vm_compute; reflexivity]|].
  { unfold is_int64, max_int64. lia. }
  eapply rtc_l; [eapply (step_granted _ 0%nat 2); vm_compute; reflexivity|].
  eapply rtc_l; [eapply (step_call _ 1%nat 3 "r" 2); [done| |vm_compute; reflexivity]|].
  { unfold is_int64, max_int64. lia. }
  eapply rtc_l; [eapply (step_wait _ 1%nat 4); vm_compute; reflexivity|].
  vm_compute. apply rtc_refl.
Qed.

Lemma demo_idle_reachable : reachable demo_idle.
Proof.
  eapply rtc_r; [apply demo_busy_reachable|].
  apply (step_release demo_busy 0%nat 5 0 1 demo_cell2); vm_compute; reflexivity.
Qed.

Lemma append_mutual_exclusion_witness :
  callers demo_busy !! 0%nat = Some (Holding 0 1) /\
  (processing demo_cell2 = true <->
   exists i, callers demo_busy !! i = Some (Holding 0 (next demo_cell2))).
Proof.
  split; [reflexivity|].
  apply (append_mutual_exclusion demo_busy 0 demo_cell2 demo_busy_reachable). reflexivity.
Defined.

Lemma append_grants_in_order_witness :
  grant_log demo_busy 0 = [1] /\ (forall x, grant_log demo_busy 0 !! 0%nat = Some x -> x = 1).
Proof.
  split; [reflexivity|]. apply (append_grants_in_order demo_busy 0 demo_busy_reachable).
Defined.

Lemma append_no_lost_wakeup_witness :
  step demo_idle (mkSys (tracker demo_idle) (<[1%nat := Trying 0 2]> (callers demo_idle))
                    (grants demo_idle)).
Proof.
  apply (append_no_lost_wakeup demo_idle 1 0 2 (Some 0%nat) (Release 5 1 demo_cell2)
           demo_idle_reachable); reflexivity || (vm_compute; discriminate).
Defined.

Lemma append_stale_is_inert_witness :
  exists st', acquire_attempt 9 2 (with_next 5 (new_state 1)) = (AStale, st').
Proof.
  edestruct (append_stale_is_inert 9 2 (with_next 5 (new_state 1))) as (st' & H & _);
    [simpl; lia|]. by exists st'.
Defined.
