(* ===== verification/Usage.v ===== *)
(** * The usage statistics (forwarder/usage_store.go).

    Every provider call and every finished turn is an event with an identifier; an event that
    comes again replaces what it counted before.  The store keeps totals, totals by day, and the
    500 latest events.  A goroutine writes the document to a file some time after a change.

    The counters of the totals, of a day and of a change are functions of [Counter].  A time is a
    number of nanoseconds, 0 being the zero time; [format_date] is the UTC date of a time.
    [generation] and [persisted], which count the changes in 64 bits, never wrap around in the
    life of a process and are numbers here.  JSON is left out: the file holds a document. *)

From S2P Require Import Prelude Go.

(** ** Data *)

Inductive Counter :=
| ProviderCalls
| TurnsTotal
| ValidTurnsTotal
| InvalidTurnsTotal
| InputTokens
| OutputTokens
| CacheReadTokens
| CacheWriteTokens
| TotalTokens.

#[export] Instance counter_eq_dec : EqDecision Counter.
Proof. solve_decision. Defined.

Definition usageFileDelta : Type := Counter -> Z.

Record usageFileEvent := mkEvent {
  EventID : string;
  Kind : string;
  Status : string;
  At : Z;
  Input : Z;
  Output : Z;
  CacheRead : Z;
  CacheWrite : Z;
  Total : Z;
  UsagePresent : bool;
  ProviderPass : Z;
  CompileDurationMS : Z;
  EstimatedPromptTokens : Z;
  ReplayMessageCount : Z;
  TTFTMS : Z;
  DurationMS : Z;
  CacheReadUsageAvailable : bool
}.

#[export] Instance eta_event : Eta usageFileEvent := fun e =>
  mkEvent (EventID e) (Kind e) (Status e) (At e) (Input e) (Output e) (CacheRead e) (CacheWrite e) (Total e)
    (UsagePresent e) (ProviderPass e) (CompileDurationMS e) (EstimatedPromptTokens e) (ReplayMessageCount e)
    (TTFTMS e) (DurationMS e) (CacheReadUsageAvailable e).

Record usageFileDaily := mkDaily { Date : string; Counters : usageFileDelta }.

Record usageFileDocument := mkDocument {
  SchemaVersion : Z;
  UpdatedAt : Z;
  Totals : usageFileDelta;
  Daily : list usageFileDaily;
  RecentEvents : list usageFileEvent
}.

#[export] Instance eta_document : Eta usageFileDocument := fun d =>
  mkDocument (SchemaVersion d) (UpdatedAt d) (Totals d) (Daily d) (RecentEvents d).

Definition usageFileSchemaVersion : Z := 2.
Definition usageRecentEventLimit : nat := 500.
Definition usageEventKindProvider : string := "provider_call".
Definition usageEventKindTurn : string := "turn_finalized".
Definition usageTurnStatusDone : string := "completed".

Definition no_counts : usageFileDelta := fun _ => 0.

Definition newUsageFileDocument : usageFileDocument := mkDocument usageFileSchemaVersion 0 no_counts [] [].

Section Document.
Context (format_date : Z -> string).

(** ** Events *)

Definition clampNonNegativeInt64 (value : Z) : Z := if value <? 0 then 0 else value.

Definition normalizeUsageEventKind (kind : string) : string :=
  if decide (TrimSpace kind = usageEventKindTurn) then usageEventKindTurn else usageEventKindProvider.

Definition normalizeUsageFileEvent (now : Z) (event : usageFileEvent) : usageFileEvent :=
  let event := event <| EventID := TrimSpace (EventID event) |> <| Kind := normalizeUsageEventKind (Kind event) |>
                     <| Status := TrimSpace (Status event) |>
                     <| At := if At event =? 0 then now else At event |>
                     <| Input := nonNegativeInt64 (Input event) |> <| Output := nonNegativeInt64 (Output event) |>
                     <| CacheRead := nonNegativeInt64 (CacheRead event) |>
                     <| CacheWrite := nonNegativeInt64 (CacheWrite event) |> in
  event <| Total := wrap_int64 (Input event + Output event + CacheRead event + CacheWrite event) |>.

Definition usageFileEventDelta (event : usageFileEvent) : usageFileDelta := fun counter =>
  if decide (normalizeUsageEventKind (Kind event) = usageEventKindTurn) then
    match counter with
    | TurnsTotal => 1
    | ValidTurnsTotal => if decide (TrimSpace (Status event) = usageTurnStatusDone) then 1 else 0
    | InvalidTurnsTotal => if decide (TrimSpace (Status event) = usageTurnStatusDone) then 0 else 1
    | _ => 0
    end
  else
    match counter with
    | ProviderCalls => 1
    | InputTokens => nonNegativeInt64 (Input event)
    | OutputTokens => nonNegativeInt64 (Output event)
    | CacheReadTokens => nonNegativeInt64 (CacheRead event)
    | CacheWriteTokens => nonNegativeInt64 (CacheWrite event)
    | TotalTokens => nonNegativeInt64 (Total event)
    | _ => 0
    end.

Definition negateUsageFileDelta (delta : usageFileDelta) : usageFileDelta := fun c => wrap_int64 (- delta c).

Definition add_delta (counts delta : usageFileDelta) : usageFileDelta :=
  fun c => clampNonNegativeInt64 (wrap_int64 (counts c + delta c)).

(** ** The document *)

Definition applyUsageDailyDelta (item : usageFileDaily) (delta : usageFileDelta) : usageFileDaily :=
  mkDaily (Date item) (add_delta (Counters item) delta).

(** The loop over the days, with the new day at its end. *)
Fixpoint apply_daily (date : string) (delta : usageFileDelta) (days : list usageFileDaily) : list usageFileDaily :=
  match days with
  | [] => [applyUsageDailyDelta (mkDaily date no_counts) delta]
  | day :: days =>
      if decide (Date day = date) then applyUsageDailyDelta day delta :: days
      else day :: apply_daily date delta days
  end.

Definition applyUsageFileDelta (doc : usageFileDocument) (at_ : Z) (delta : usageFileDelta) : usageFileDocument :=
  doc <| Totals := add_delta (Totals doc) delta |>
      <| Daily := apply_daily (format_date at_) delta (Daily doc) |>.

Definition upsertRecentUsageEvent (items : list usageFileEvent) (event : usageFileEvent) : list usageFileEvent :=
  let event := event <| EventID := TrimSpace (EventID event) |> in
  if decide (EventID event = EmptyString) then items
  else event :: List.filter (fun item => negb (bool_decide (TrimSpace (EventID item) = EventID event))) items.

Definition trimRecentUsageEvents (items : list usageFileEvent) (limit : nat) : list usageFileEvent :=
  if ((limit <=? 0) || (length items <=? limit))%nat then items else take limit items.

(** The body of the loop below. *)
Definition index_event (index : gmap string usageFileEvent) (event : usageFileEvent) : gmap string usageFileEvent :=
  let event := event <| EventID := TrimSpace (EventID event) |> in
  if decide (EventID event = EmptyString) then index
  else <[EventID event := event <| Kind := normalizeUsageEventKind (Kind event) |>]> index.

Definition buildUsageEventIndex (items : list usageFileEvent) : gmap string usageFileEvent :=
  fold_left index_event items ∅.

(** ** The store *)

Record UsageFileStore := mkStore {
  document : usageFileDocument;
  eventIndex : gmap string usageFileEvent;
  generation : nat;
  persisted : nat;
  lastError : option string
}.

#[export] Instance eta_store : Eta UsageFileStore := fun s =>
  mkStore (document s) (eventIndex s) (generation s) (persisted s) (lastError s).

(** [NewUsageFileStore], given what [readUsageFileDocument] reads before it normalises it: nothing
    when there is no file. *)
Definition read_document (now : Z) (stored : option usageFileDocument) : usageFileDocument :=
  match stored with
  | None => newUsageFileDocument
  | Some doc =>
      doc <| SchemaVersion := if SchemaVersion doc =? 0 then 1 else SchemaVersion doc |>
          <| RecentEvents := map (normalizeUsageFileEvent now)
                               (trimRecentUsageEvents (RecentEvents doc) usageRecentEventLimit) |>
  end.

Definition NewUsageFileStore (now : Z) (stored : result (option usageFileDocument)) : UsageFileStore :=
  match stored with
  | Err e => mkStore newUsageFileDocument ∅ 0 0 (Some e)
  | Ok stored =>
      let doc := read_document now stored in
      mkStore doc (buildUsageEventIndex (RecentEvents doc)) 0 0 None
  end.

(** What [UpsertEvent] makes of the document, for an event that is normalised. *)
Definition upsert_document (now : Z) (index : gmap string usageFileEvent) (event : usageFileEvent)
    (doc : usageFileDocument) : usageFileDocument :=
  let doc := match index !! EventID event with
             | Some oldEvent =>
                 applyUsageFileDelta doc (At oldEvent) (negateUsageFileDelta (usageFileEventDelta oldEvent))
             | None => doc
             end in
  let doc := applyUsageFileDelta doc (At event) (usageFileEventDelta event) in
  doc <| RecentEvents := trimRecentUsageEvents (upsertRecentUsageEvent (RecentEvents doc) event)
                           usageRecentEventLimit |>
      <| SchemaVersion := usageFileSchemaVersion |> <| UpdatedAt := now |>.

(** The clock is read for an event without a time, and again for the document. *)
Definition UpsertEvent (now later : Z) (event : usageFileEvent) (s : UsageFileStore) : UsageFileStore :=
  let event := normalizeUsageFileEvent now event in
  if decide (EventID event = EmptyString) then s
  else
    let doc := upsert_document later (eventIndex s) event (document s) in
    s <| document := doc |> <| eventIndex := buildUsageEventIndex (RecentEvents doc) |>
      <| generation := S (generation s) |>.

(** ** Looking a request up *)

Definition matches (needle : string) (eventID : string) : bool :=
  bool_decide (eventID = needle) ||
  match strip_prefix (bytes_of (needle +:+ "::")) (bytes_of eventID) with Some _ => true | None => false end.

Definition aggregate_event (aggregate event : usageFileEvent) : usageFileEvent :=
  let aggregate :=
    if At aggregate <=? At event then
      aggregate <| At := At event |> <| ProviderPass := ProviderPass event |>
                <| CompileDurationMS := CompileDurationMS event |>
                <| EstimatedPromptTokens := EstimatedPromptTokens event |>
                <| ReplayMessageCount := ReplayMessageCount event |> <| TTFTMS := TTFTMS event |>
                <| DurationMS := DurationMS event |>
                <| CacheReadUsageAvailable := CacheReadUsageAvailable event |>
    else aggregate in
  aggregate <| Input := wrap_int64 (Input aggregate + nonNegativeInt64 (Input event)) |>
            <| Output := wrap_int64 (Output aggregate + nonNegativeInt64 (Output event)) |>
            <| CacheRead := wrap_int64 (CacheRead aggregate + nonNegativeInt64 (CacheRead event)) |>
            <| CacheWrite := wrap_int64 (CacheWrite aggregate + nonNegativeInt64 (CacheWrite event)) |>
            <| Total := wrap_int64 (Total aggregate + nonNegativeInt64 (Total event)) |>
            <| UsagePresent := UsagePresent aggregate || UsagePresent event |>.

(** The loop over the index, whose events come in any order. *)
Definition LookupEvent (range_order : gmap string usageFileEvent -> list (string * usageFileEvent))
    (needle : string) (s : UsageFileStore) : option usageFileEvent :=
  let trimmed := TrimSpace needle in
  if decide (trimmed = EmptyString) then None
  else
    fold_left (fun aggregate item =>
      let '(eventID, event) := item in
      if negb (matches trimmed eventID) then aggregate
      else
        let start := match aggregate with
                     | Some a => a
                     | None => mkEvent trimmed EmptyString EmptyString (At event) 0 0 0 0 0 false 0 0 0 0 0 0 false
                     end in
        Some (aggregate_event start event)) (range_order (eventIndex s)) None.

End Document.

(** ** The writer *)

Section Writer.
Context (format_date : Z -> string).

(** Where [flushDirty] stands; [writeMu] lets one call at a time in. *)
Inductive FlushPhase :=
| NotFlushing
| Looping (** at the head of its loop *)
| Writing (snapshot : usageFileDocument) (at_generation : nat)
| Written (at_generation : nat).

Record Process := mkProcess { store : UsageFileStore; phase : FlushPhase; disk : option usageFileDocument }.

Inductive step : Process -> Process -> Prop :=
| step_upsert now later event s phase disk :
    step (mkProcess s phase disk) (mkProcess (UpsertEvent format_date now later event s) phase disk)
| step_begin s disk : step (mkProcess s NotFlushing disk) (mkProcess s Looping disk)
(** Nothing to write: [flushDirty] returns without an error. *)
| step_clean s disk : persisted s = generation s ->
    step (mkProcess s Looping disk) (mkProcess s NotFlushing disk)
| step_snapshot s disk : persisted s <> generation s ->
    step (mkProcess s Looping disk) (mkProcess s (Writing (document s) (generation s)) disk)
| step_write_failed s snapshot at_generation disk e :
    step (mkProcess s (Writing snapshot at_generation) disk)
         (mkProcess (s <| lastError := Some e |>) NotFlushing disk)
| step_write s snapshot at_generation disk :
    step (mkProcess s (Writing snapshot at_generation) disk) (mkProcess s (Written at_generation) (Some snapshot))
(** The generation is noted, and the loop ends when it is the latest. *)
| step_note s at_generation disk :
    let s' := s <| lastError := None |>
                <| persisted := if (persisted s <? at_generation)%nat then at_generation else persisted s |> in
    step (mkProcess s (Written at_generation) disk)
         (mkProcess s' (if decide (persisted s' = generation s') then NotFlushing else Looping) disk).

End Writer.

(** ** The events a document counts *)

Section Counting.
Context (format_date : Z -> string).

(** What the events of a list that satisfy [P] add up to. *)
Definition tally (P : usageFileEvent -> bool) (c : Counter) (l : list usageFileEvent) : Z :=
  sum (map (fun e => usageFileEventDelta e c) (List.filter P l)).

Definition every_event (_ : usageFileEvent) : bool := true.

Definition on_date (date : string) (e : usageFileEvent) : bool := bool_decide (format_date (At e) = date).

(** The counters shown for a day. *)
Definition day_counts (date : string) (days : list usageFileDaily) : usageFileDelta :=
  match List.find (fun day => bool_decide (Date day = date)) days with
  | Some day => Counters day
  | None => no_counts
  end.

(** The counters are those of the events of [l]. *)
Definition counts_events (l : list usageFileEvent) (doc : usageFileDocument) : Prop :=
  (forall c, Totals doc c = tally every_event c l) /\
  (forall date c, day_counts date (Daily doc) c = tally (on_date date) c l).

(** The versions of [id] taken out. *)
Definition without (id : string) (l : list usageFileEvent) : list usageFileEvent :=
  List.filter (fun item => negb (bool_decide (EventID item = id))) l.

Definition find_event (id : string) (l : list usageFileEvent) : option usageFileEvent :=
  List.find (fun item => bool_decide (EventID item = id)) l.

(** Of versions listed from the newest on, the newest of each event. *)
Fixpoint newest (versions : list usageFileEvent) : list usageFileEvent :=
  match versions with
  | [] => []
  | event :: older => event :: without (EventID event) (newest older)
  end.

(** A submitted event comes with the two readings of the clock. *)
Definition submitted (calls : list (Z * Z * usageFileEvent)) : list usageFileEvent :=
  rev (List.filter (fun e => negb (bool_decide (EventID e = EmptyString)))
         (map (fun '(now, _, e) => normalizeUsageFileEvent now e) calls)).

Definition upsert_all (calls : list (Z * Z * usageFileEvent)) (s : UsageFileStore) : UsageFileStore :=
  fold_left (fun s '(now, later, e) => UpsertEvent format_date now later e s) calls s.

Record normal (e : usageFileEvent) : Prop := {
  normal_trimmed : TrimSpace (EventID e) = EventID e;
  normal_named : EventID e <> EmptyString;
  normal_kind : normalizeUsageEventKind (Kind e) = Kind e
}.

Lemma tally_app P c l k : tally P c (l ++ k) = tally P c l + tally P c k.
Proof. unfold tally. by rewrite List.filter_app, map_app, sum_app. Qed.

Lemma tally_cons P c e l :
  tally P c (e :: l) = (if P e then usageFileEventDelta e c else 0) + tally P c l.
Proof. unfold tally. simpl. by destruct (P e). Qed.

Lemma tally_permuted P c l k : l ≡ₚ k -> tally P c l = tally P c k.
Proof. induction 1; rewrite ?tally_cons; lia. Qed.

Lemma delta_nonneg e c : 0 <= usageFileEventDelta e c.
Proof.
  assert (Hn : forall v, 0 <= nonNegativeInt64 v)
    by (intros v; unfold nonNegativeInt64; destruct (Z.ltb_spec v 0); lia).
  unfold usageFileEventDelta. destruct (decide (normalizeUsageEventKind _ = _)), c;
    try destruct (decide (TrimSpace _ = _)); try apply Hn; lia.
Qed.

Lemma tally_nonneg P c l : 0 <= tally P c l.
Proof. unfold tally. apply sum_map_nonneg. intros; apply delta_nonneg. Qed.

Lemma tally_every P c l : tally P c l <= tally every_event c l.
Proof.
  induction l as [|e l IH]; [done|]. rewrite !tally_cons. simpl.
  pose proof (delta_nonneg e c). destruct (P e); lia.
Qed.

Lemma add_delta_exact counts delta c :
  0 <= counts c + delta c <= max_int64 -> add_delta counts delta c = counts c + delta c.
Proof.
  intros H. unfold add_delta, clampNonNegativeInt64. rewrite wrap_int64_id by (unfold is_int64; lia).
  destruct (Z.ltb_spec (counts c + delta c) 0); lia.
Qed.

Lemma negate_exact e c :
  usageFileEventDelta e c <= max_int64 ->
  negateUsageFileDelta (usageFileEventDelta e) c = - usageFileEventDelta e c.
Proof.
  intros H. unfold negateUsageFileDelta. pose proof (delta_nonneg e c).
  rewrite wrap_int64_id; [done|]. unfold is_int64, max_int64 in *. lia.
Qed.

Lemma day_counts_apply date date' delta days c :
  day_counts date (apply_daily date' delta days) c
  = if decide (date' = date) then add_delta (day_counts date days) delta c else day_counts date days c.
Proof.
  unfold day_counts. induction days as [|day days IH]; simpl.
  - destruct (decide (date' = date)) as [->|Hne].
    + by rewrite bool_decide_true.
    + by rewrite bool_decide_false.
  - destruct (decide (Date day = date')) as [<-|Hday]; simpl.
    + case_bool_decide as Hd; [by rewrite decide_True by done|by rewrite decide_False by done].
    + case_bool_decide as Hd; [rewrite decide_False by congruence; done|exact IH].
Qed.

Lemma counts_permuted l k doc : l ≡ₚ k -> counts_events l doc -> counts_events k doc.
Proof.
  intros Hlk [Ht Hd]. split; intros; [rewrite Ht|rewrite Hd]; by apply tally_permuted.
Qed.

Lemma count_event e l doc :
  counts_events l doc -> (forall c, tally every_event c (e :: l) <= max_int64) ->
  counts_events (e :: l) (applyUsageFileDelta format_date doc (At e) (usageFileEventDelta e)).
Proof.
  intros [Ht Hd] Hmax. split.
  - intros c. simpl. specialize (Hmax c). rewrite tally_cons in *. simpl in *.
    pose proof (delta_nonneg e c). pose proof (tally_nonneg every_event c l).
    rewrite add_delta_exact; rewrite Ht; lia.
  - intros date c. simpl. rewrite day_counts_apply, tally_cons. unfold on_date at 1.
    case_bool_decide as Hdate.
    + rewrite decide_True by done. specialize (Hmax c). rewrite tally_cons in Hmax. simpl in Hmax.
      pose proof (delta_nonneg e c). pose proof (tally_nonneg (on_date date) c l).
      pose proof (tally_every (on_date date) c l). rewrite add_delta_exact; rewrite Hd; lia.
    + rewrite decide_False by done. by rewrite Hd.
Qed.

Lemma uncount_event e l doc :
  counts_events (e :: l) doc -> (forall c, tally every_event c (e :: l) <= max_int64) ->
  counts_events l (applyUsageFileDelta format_date doc (At e) (negateUsageFileDelta (usageFileEventDelta e))).
Proof.
  intros [Ht Hd] Hmax.
  assert (Hneg : forall c, negateUsageFileDelta (usageFileEventDelta e) c = - usageFileEventDelta e c).
  { intros c. apply negate_exact. specialize (Hmax c). rewrite tally_cons in Hmax. simpl in Hmax.
    pose proof (tally_nonneg every_event c l). lia. }
  split.
  - intros c. simpl. specialize (Hmax c). specialize (Ht c). rewrite tally_cons in *. simpl in *.
    pose proof (delta_nonneg e c). pose proof (tally_nonneg every_event c l).
    rewrite add_delta_exact; rewrite Hneg, Ht; lia.
  - intros date c. simpl. specialize (Hd date c). rewrite day_counts_apply. rewrite tally_cons in Hd.
    unfold on_date at 1 in Hd. destruct (decide (format_date (At e) = date)) as [Hdate|Hdate].
    + rewrite bool_decide_true in Hd by done. specialize (Hmax c). rewrite tally_cons in Hmax. simpl in Hmax.
      pose proof (delta_nonneg e c). pose proof (tally_nonneg (on_date date) c l).
      pose proof (tally_every (on_date date) c l). rewrite add_delta_exact; rewrite Hneg, Hd; lia.
    + by rewrite bool_decide_false in Hd.
Qed.

(** *** Events told apart by their identifiers *)

Lemma find_event_name id l e : find_event id l = Some e -> EventID e = id /\ e ∈ l.
Proof.
  intros H. apply List.find_some in H as [Hin H%bool_decide_eq_true]. split; [done|by apply list_elem_of_In].
Qed.

Lemma find_event_None id l : find_event id l = None -> id ∉ map EventID l.
Proof.
  intros H Hid. apply list_elem_of_fmap in Hid as (e & -> & He).
  apply list_elem_of_In in He. by apply (List.find_none _ _ H), bool_decide_eq_false in He.
Qed.

Lemma without_absent id l : id ∉ map EventID l -> without id l = l.
Proof.
  induction l as [|e l IH]; intros H; [done|]. simpl in *. apply not_elem_of_cons in H as [Hne H].
  rewrite bool_decide_false by done. simpl. f_equal. by apply IH.
Qed.

Lemma without_ids id l : map EventID (without id l) = List.filter (fun i => negb (bool_decide (i = id))) (map EventID l).
Proof. induction l as [|e l IH]; [done|]. simpl. destruct (bool_decide _); simpl; by rewrite IH. Qed.

Lemma without_names id l i : i ∈ map EventID (without id l) <-> i ∈ map EventID l /\ i <> id.
Proof.
  rewrite without_ids, !list_elem_of_In, List.filter_In, negb_true_iff, bool_decide_eq_false. done.
Qed.

Lemma without_NoDup id l : NoDup (map EventID l) -> NoDup (map EventID (without id l)).
Proof. rewrite without_ids, !NoDup_ListNoDup. apply List.NoDup_filter. Qed.

Lemma newest_NoDup versions : NoDup (map EventID (newest versions)).
Proof.
  induction versions as [|e versions IH]; simpl; constructor.
  - intros H. by apply without_names in H as [_ H].
  - by apply without_NoDup.
Qed.

(** Taking out the one version of an event. *)
Lemma without_found id l e :
  NoDup (map EventID l) -> find_event id l = Some e -> l ≡ₚ e :: without id l.
Proof.
  induction l as [|x l IH]; intros Hnd Hf; [done|]. simpl in *. apply NoDup_cons in Hnd as [Hx Hnd].
  case_bool_decide as Hid; simpl.
  - injection Hf as ->. subst id. by rewrite without_absent.
  - rewrite (IH Hnd Hf) at 1. apply Permutation_swap.
Qed.

Lemma take_without id l n :
  NoDup (map EventID l) -> take n (without id (take (S n) l)) = take n (without id l).
Proof.
  revert n. induction l as [|x l IH]; intros n Hnd; [done|]. simpl in Hnd. apply NoDup_cons in Hnd as [Hx Hnd].
  simpl. case_bool_decide as Hid; simpl.
  - subst id. rewrite (without_absent _ l) by done.
    rewrite without_absent; [by rewrite take_take, Nat.min_id|].
    intros Hin. apply Hx. apply list_elem_of_fmap in Hin as (y & -> & Hy).
    apply list_elem_of_fmap. exists y. split; [done|]. eapply elem_of_take in Hy as (i & Hi & _).
    by eapply list_elem_of_lookup_2.
  - destruct n as [|n]; [done|]. change (take (S n) l) with (take (S n) l). simpl. f_equal. by apply IH.
Qed.

Lemma without_length id l : (length (without id l) <= length l)%nat.
Proof. induction l as [|x l IH]; simpl; [lia|]. destruct (bool_decide _); simpl; lia. Qed.

Lemma newest_grows e versions : (length (newest versions) <= length (newest (e :: versions)))%nat.
Proof.
  simpl. destruct (find_event (EventID e) (newest versions)) as [old|] eqn:Hf.
  - apply without_found in Hf; [|apply newest_NoDup]. apply Permutation_length in Hf. simpl in Hf. lia.
  - apply find_event_None in Hf. rewrite without_absent by done. lia.
Qed.

Lemma newest_elem versions e : e ∈ newest versions -> e ∈ versions.
Proof.
  induction versions as [|x versions IH]; simpl; [done|].
  rewrite !elem_of_cons. intros [->|H]; [by left|right]. apply IH.
  apply list_elem_of_In in H. apply List.filter_In in H as [H _]. by apply list_elem_of_In.
Qed.

End Counting.

(** ** The store counts each event once *)

Section Exact.
Context (format_date : Z -> string).

Lemma normalize_normal now e :
  EventID (normalizeUsageFileEvent now e) <> EmptyString -> normal (normalizeUsageFileEvent now e).
Proof.
  intros H. split; simpl; [apply TrimSpace_idem|done|].
  unfold normalizeUsageEventKind at 2 3. by case_decide.
Qed.

Lemma upsert_recent_normal items e :
  Forall normal items -> normal e -> upsertRecentUsageEvent items e = e :: without (EventID e) items.
Proof.
  intros Hitems He. unfold upsertRecentUsageEvent. cbn.
  rewrite (normal_trimmed e He), decide_False by apply (normal_named e He). f_equal.
  - by destruct e.
  - unfold without. induction Hitems as [|x items Hx _ IH]; [done|]. simpl.
    rewrite (normal_trimmed x Hx). by rewrite IH.
Qed.

Lemma index_find items id :
  Forall normal items -> NoDup (map EventID items) ->
  buildUsageEventIndex items !! id = find_event id items.
Proof.
  intros Hitems Hnd. unfold buildUsageEventIndex.
  assert (Hgen : forall m, fold_left index_event items m !! id
    = match find_event id items with Some e => Some e | None => m !! id end).
  { induction Hitems as [|e items He Hitems IH]; intros m; [done|]. simpl in Hnd.
    apply NoDup_cons in Hnd as [Hin Hnd]. specialize (IH Hnd). simpl fold_left. rewrite IH. clear IH. unfold index_event. cbn.
    rewrite (normal_trimmed e He), decide_False by apply (normal_named e He).
    unfold find_event. simpl. case_bool_decide as Hid.
    - subst id. destruct (List.find _ items) as [x|] eqn:Hf.
      + exfalso. apply Hin. change (find_event (EventID e) items = Some x) in Hf.
        apply find_event_name in Hf as [<- Hx]. by apply list_elem_of_fmap_2.
      + rewrite lookup_insert_eq, (normal_kind e He). by destruct e.
    - destruct (List.find _ items); [done|]. by rewrite lookup_insert_ne. }
  rewrite Hgen. by destruct (find_event id items).
Qed.

Lemma submitted_last calls now later e :
  submitted (calls ++ [(now, later, e)])
  = (if bool_decide (EventID (normalizeUsageFileEvent now e) = EmptyString) then []
     else [normalizeUsageFileEvent now e]) ++ submitted calls.
Proof.
  unfold submitted. rewrite map_app, List.filter_app, rev_app_distr. simpl. by destruct (bool_decide _).
Qed.

Lemma submitted_normal calls : Forall normal (submitted calls).
Proof.
  unfold submitted. apply Forall_rev, Forall_forall. intros e He.
  apply list_elem_of_In, List.filter_In in He as [He Hid].
  apply list_elem_of_In, list_elem_of_fmap in He as ([[now later] x] & -> & _).
  apply normalize_normal. by apply negb_true_iff, bool_decide_eq_false in Hid.
Qed.

(** What holds of the store when [versions] have been submitted, the newest first; [forgotten]
    are the events it counts and no longer knows. *)
Record exact (versions forgotten : list usageFileEvent) (s : UsageFileStore) : Prop := {
  exact_recent : RecentEvents (document s) = take usageRecentEventLimit (newest versions);
  exact_index : eventIndex s = buildUsageEventIndex (RecentEvents (document s));
  exact_counts : counts_events format_date (RecentEvents (document s) ++ forgotten) (document s);
  exact_bounded : forall c, tally every_event c (RecentEvents (document s) ++ forgotten)
                            <= tally every_event c versions;
  exact_known : (length (newest versions) <= usageRecentEventLimit)%nat -> forgotten = []
}.

Lemma trim_take items : trimRecentUsageEvents items usageRecentEventLimit = take usageRecentEventLimit items.
Proof.
  unfold trimRecentUsageEvents. destruct (Nat.leb_spec usageRecentEventLimit 0); [unfold usageRecentEventLimit in *; lia|].
  destruct (Nat.leb_spec (length items) usageRecentEventLimit); [|done]. simpl. by rewrite take_ge.
Qed.

Lemma newest_normal versions : Forall normal versions -> Forall normal (newest versions).
Proof. rewrite !Forall_forall. intros H e He. apply H. by apply newest_elem. Qed.

Lemma take_NoDup_ids n l : NoDup (map EventID l) -> NoDup (map EventID (take n l)).
Proof.
  intros H. rewrite <- firstn_map. rewrite <- (take_drop n (map EventID l)) in H.
  by apply NoDup_app in H as [H _].
Qed.

Lemma upsert_document_recent now index e doc :
  RecentEvents (upsert_document format_date now index e doc)
  = trimRecentUsageEvents (upsertRecentUsageEvent (RecentEvents doc) e) usageRecentEventLimit.
Proof. unfold upsert_document. by destruct (index !! EventID e). Qed.

(** The version of an event that is replaced is uncounted. *)
Lemma replace_counts e items forgotten doc (index : gmap string usageFileEvent) :
  NoDup (map EventID items) -> index !! EventID e = find_event (EventID e) items ->
  counts_events format_date (items ++ forgotten) doc ->
  (forall c, tally every_event c (e :: items ++ forgotten) <= max_int64) ->
  let doc' := match index !! EventID e with
              | Some old => applyUsageFileDelta format_date doc (At old)
                              (negateUsageFileDelta (usageFileEventDelta old))
              | None => doc
              end in
  let events := e :: without (EventID e) items ++ forgotten in
  counts_events format_date events (applyUsageFileDelta format_date doc' (At e) (usageFileEventDelta e)) /\
  (forall c, tally every_event c events <= tally every_event c (e :: items ++ forgotten)).
Proof.
  intros Hnd Hindex Hcounts Hmax. rewrite Hindex. simpl.
  destruct (find_event (EventID e) items) as [old|] eqn:Hf.
  - assert (Hperm : items ++ forgotten ≡ₚ old :: without (EventID e) items ++ forgotten)
      by (rewrite (without_found _ _ _ Hnd Hf) at 1; done).
    assert (Hle : forall c, tally every_event c (e :: without (EventID e) items ++ forgotten)
                            <= tally every_event c (e :: items ++ forgotten)).
    { intros c. rewrite !(tally_cons _ _ e), (tally_permuted _ _ _ _ Hperm), (tally_cons _ _ old). simpl.
      pose proof (delta_nonneg old c). lia. }
    split; [|exact Hle]. apply count_event; [|intros c; specialize (Hmax c); specialize (Hle c); lia].
    apply uncount_event; [by eapply counts_permuted|]. intros c. specialize (Hmax c).
    rewrite <- (tally_permuted _ _ _ _ Hperm). rewrite tally_cons in Hmax. simpl in Hmax.
    pose proof (delta_nonneg e c). lia.
  - apply find_event_None in Hf. rewrite without_absent by done.
    split; [by apply count_event|done].
Qed.

Lemma upsert_exact versions forgotten s now later e :
  Forall normal versions -> exact versions forgotten s -> normal (normalizeUsageFileEvent now e) ->
  let event := normalizeUsageFileEvent now e in
  (forall c, tally every_event c (event :: versions) <= max_int64) ->
  exists forgotten', exact (event :: versions) forgotten' (UpsertEvent format_date now later e s).
Proof.
  intros Hv [Hrecent Hindex Hcounts Hbounded Hknown] Hnormal event Hmax.
  set (items := RecentEvents (document s)) in *.
  assert (Hnd : NoDup (map EventID items)) by (rewrite Hrecent; apply take_NoDup_ids, newest_NoDup).
  assert (Hitems : Forall normal items) by (rewrite Hrecent; by apply Forall_take, newest_normal).
  destruct (replace_counts event items forgotten (document s) (eventIndex s)) as (Hc & Hle);
    [done|by rewrite Hindex, index_find|done| |].
  { intros c. specialize (Hmax c). specialize (Hbounded c). rewrite tally_cons in *. lia. }
  set (list' := event :: without (EventID event) items).
  exists (drop usageRecentEventLimit list' ++ forgotten).
  assert (Hev : UpsertEvent format_date now later e s
    = let doc := upsert_document format_date later (eventIndex s) event (document s) in
      s <| document := doc |> <| eventIndex := buildUsageEventIndex (RecentEvents doc) |>
        <| generation := S (generation s) |>).
  { unfold UpsertEvent. fold event. by rewrite decide_False by apply (normal_named _ Hnormal). }
  assert (Hrec : RecentEvents (upsert_document format_date later (eventIndex s) event (document s))
                 = take usageRecentEventLimit list').
  { rewrite upsert_document_recent, trim_take. f_equal. by apply upsert_recent_normal. }
  rewrite Hev. split; cbn -[upsert_document take drop newest without tally counts_events]; rewrite ?Hrec.
  - unfold list'. rewrite Hrecent. simpl newest. destruct usageRecentEventLimit as [|n] eqn:Hn; [done|].
    rewrite !firstn_cons. f_equal. apply take_without, newest_NoDup.
  - reflexivity.
  - rewrite app_assoc, take_drop. exact Hc.
  - intros c. rewrite app_assoc, take_drop. specialize (Hle c). specialize (Hbounded c).
    rewrite (tally_cons _ _ _ (items ++ forgotten)) in Hle. rewrite (tally_cons _ _ _ versions).
    etransitivity; [exact Hle|]. apply Zplus_le_compat_l. exact Hbounded.
  - intros Hlen. pose proof (newest_grows event versions) as Hgrow. rewrite Hknown by lia.
    rewrite app_nil_r. apply drop_ge. unfold list'. rewrite Hrecent, take_ge by lia. exact Hlen.
Qed.

Lemma upsert_nameless now later e s :
  EventID (normalizeUsageFileEvent now e) = EmptyString -> UpsertEvent format_date now later e s = s.
Proof. intros H. unfold UpsertEvent. by rewrite decide_True by done. Qed.

Lemma new_exact now : exact [] [] (NewUsageFileStore now (Ok None)).
Proof. split; [symmetry; apply take_nil|reflexivity|split; reflexivity|reflexivity|reflexivity]. Qed.

Definition submitted_call (call : Z * Z * usageFileEvent) : list usageFileEvent :=
  let event := normalizeUsageFileEvent (fst (fst call)) (snd call) in
  if bool_decide (EventID event = EmptyString) then [] else [event].

Lemma upsert_call_exact versions forgotten s now later e :
  Forall normal versions -> exact versions forgotten s ->
  (forall c, tally every_event c (submitted_call (now, later, e) ++ versions) <= max_int64) ->
  exists forgotten', exact (submitted_call (now, later, e) ++ versions) forgotten'
                       (UpsertEvent format_date now later e s).
Proof.
  intros Hv Hex. unfold submitted_call. unfold fst, snd.
  destruct (decide (EventID (normalizeUsageFileEvent now e) = EmptyString)) as [Hid|Hid].
  - rewrite bool_decide_true by done. intros _. exists forgotten. by rewrite upsert_nameless.
  - rewrite bool_decide_false by done. intros Hmax. eapply upsert_exact; [done|exact Hex|by apply normalize_normal|].
    exact Hmax.
Qed.

Lemma submitted_snoc calls call : submitted (calls ++ [call]) = submitted_call call ++ submitted calls.
Proof. destruct call as [[now later] e]. apply submitted_last. Qed.

Lemma upsert_all_snoc calls now later e s :
  upsert_all format_date (calls ++ [(now, later, e)]) s
  = UpsertEvent format_date now later e (upsert_all format_date calls s).
Proof. unfold upsert_all. by rewrite fold_left_app. Qed.

Lemma upsert_all_exact calls now :
  (forall c, tally every_event c (submitted calls) <= max_int64) ->
  exists forgotten, exact (submitted calls) forgotten (upsert_all format_date calls (NewUsageFileStore now (Ok None))).
Proof.
  induction calls as [|[[now' later] e] calls IH] using rev_ind; intros Hmax.
  - exists []. apply new_exact.
  - rewrite submitted_snoc in *. rewrite upsert_all_snoc. destruct IH as [forgotten Hex].
    + intros c. specialize (Hmax c). rewrite tally_app in Hmax.
      pose proof (tally_nonneg every_event c (submitted_call (now', later, e))) as Hnn. revert Hmax Hnn.
      generalize max_int64. intros. lia.
    + eapply upsert_call_exact; [apply submitted_normal|exact Hex|exact Hmax].
Qed.

(** C17: From an empty store, whatever events are submitted, as long as their counters add up to no
    more than a 64-bit integer, the store lists the newest version of each event, the latest
    submitted first and 500 at most, and every counter of the totals and of every day is the sum
    over these events and events it has forgotten: a version that was replaced while it was
    listed is not counted.  As long as at most 500 different events have been submitted none is
    forgotten: every counter is the exact sum over the newest versions of the events. *)
Theorem usage_totals_exact calls now :
  (forall c, tally every_event c (submitted calls) <= max_int64) ->
  let doc := document (upsert_all format_date calls (NewUsageFileStore now (Ok None))) in
  let known := newest (submitted calls) in
  RecentEvents doc = take usageRecentEventLimit known /\
  (exists forgotten, counts_events format_date (RecentEvents doc ++ forgotten) doc) /\
  ((length known <= usageRecentEventLimit)%nat -> counts_events format_date known doc).
Proof.
  intros Hmax doc known. destruct (upsert_all_exact calls now Hmax) as [forgotten [Hr _ Hc _ Hk]].
  fold doc in Hr, Hc. fold known in Hr, Hk. split; [done|]. split; [by exists forgotten|].
  intros Hlen. rewrite Hk, app_nil_r, Hr, take_ge in Hc by done. exact Hc.
Qed.

End Exact.

(** ** What is on disk *)

Section Durable.
Context (format_date : Z -> string).

(** A run of the process from a new store, with the documents the store has had, the newest first. *)
Inductive run (stored : result (option usageFileDocument)) : list usageFileDocument -> Process -> Prop :=
| run_start now disk :
    run stored [document (NewUsageFileStore now stored)] (mkProcess (NewUsageFileStore now stored) NotFlushing disk)
| run_step history p p' :
    run stored history p -> step format_date p p' ->
    run stored (if decide (generation (store p) = generation (store p')) then history
                else document (store p') :: history) p'.

(** The document the store had at a generation. *)
Definition document_at (history : list usageFileDocument) (g : nat) : option usageFileDocument :=
  rev history !! g.

(** The disk holds a document at least as new as [from]. *)
Definition on_disk (history : list usageFileDocument) (from : nat) (disk : option usageFileDocument) : Prop :=
  exists g, (from <= g < length history)%nat /\ disk = document_at history g /\ disk <> None.

Record durable (history : list usageFileDocument) (p : Process) : Prop := {
  durable_length : length history = S (generation (store p));
  durable_current : document_at history (generation (store p)) = Some (document (store p));
  durable_persisted : (persisted (store p) <= generation (store p))%nat;
  durable_disk : (0 < persisted (store p))%nat -> on_disk history (persisted (store p)) (disk p);
  durable_phase :
    match phase p with
    | NotFlushing | Looping => True
    | Writing snapshot g =>
        (persisted (store p) <= g <= generation (store p))%nat /\ document_at history g = Some snapshot
    | Written g =>
        (persisted (store p) <= g <= generation (store p))%nat /\ on_disk history g (disk p)
    end
}.

Lemma document_at_cons doc history g :
  (g < length history)%nat -> document_at (doc :: history) g = document_at history g.
Proof. intros H. unfold document_at. simpl. apply lookup_app_l. by rewrite length_rev. Qed.

Lemma on_disk_cons doc history from disk : on_disk history from disk -> on_disk (doc :: history) from disk.
Proof.
  intros (g & Hg & -> & Hne). exists g. rewrite document_at_cons by lia. simpl. split; [lia|done].
Qed.

Lemma on_disk_le history from from' disk :
  (from' <= from)%nat -> on_disk history from disk -> on_disk history from' disk.
Proof. intros H (g & Hg & Hd). exists g. split; [lia|done]. Qed.

(** An event leaves the store, or makes a new generation of its document. *)
Lemma upsert_cases now later e s :
  UpsertEvent format_date now later e s = s \/
  generation (UpsertEvent format_date now later e s) = S (generation s) /\
  persisted (UpsertEvent format_date now later e s) = persisted s.
Proof. unfold UpsertEvent. case_decide; [by left|right; by split]. Qed.

Lemma upsert_durable history p now later e :
  durable history p ->
  let s' := UpsertEvent format_date now later e (store p) in
  durable (if decide (generation (store p) = generation s') then history else document s' :: history)
    (mkProcess s' (phase p) (disk p)).
Proof.
  intros [Hlen Hcur Hper Hdisk Hphase] s'.
  destruct (upsert_cases now later e (store p)) as [Hsame|[Hgen Hpersisted]];
    [change (s' = store p) in Hsame|change (generation s' = S (generation (store p))) in Hgen;
                                    change (persisted s' = persisted (store p)) in Hpersisted].
  - rewrite decide_True by (by rewrite Hsame). rewrite Hsame. by split.
  - rewrite decide_False by lia. split; simpl; rewrite ?Hgen, ?Hpersisted.
    + lia.
    + unfold document_at. simpl. rewrite lookup_app_r by (rewrite length_rev; lia).
      by rewrite length_rev, Hlen, Nat.sub_diag.
    + lia.
    + intros H. apply on_disk_cons. by apply Hdisk.
    + destruct (phase p) as [| |snapshot g|g]; [done|done| |]; destruct Hphase as [Hg Hphase].
      * split; [lia|]. by rewrite document_at_cons by lia.
      * split; [lia|]. by apply on_disk_cons.
Qed.

Lemma step_durable history p p' :
  durable history p -> step format_date p p' ->
  durable (if decide (generation (store p) = generation (store p')) then history
           else document (store p') :: history) p'.
Proof.
  intros Hd Hstep. destruct Hstep.
  - apply (upsert_durable _ _ now later event Hd).
  - destruct Hd. rewrite decide_True by done. by split.
  - destruct Hd. rewrite decide_True by done. by split.
  - destruct Hd as [? ? ? ? _]. rewrite decide_True by done. split; [done..|]. simpl in *. split; [lia|done].
  - destruct Hd as [? ? ? ? _]. rewrite decide_True by done. by split.
  - destruct Hd as [Hlen Hcur Hper _ [Hg Hsnap]]. simpl in *. rewrite decide_True by done.
    assert (Hon : on_disk history at_generation (Some snapshot)).
    { exists at_generation. rewrite Hsnap. split; [lia|done]. }
    split; simpl; [done..|intros _; by eapply on_disk_le; [|exact Hon]; lia|by split].
  - destruct Hd as [Hlen Hcur Hper _ [Hg Hon]]. simpl in *. rewrite decide_True by done.
    assert (Hp' : (if (persisted s <? at_generation)%nat then at_generation else persisted s) = at_generation)
      by (destruct (Nat.ltb_spec (persisted s) at_generation); lia).
    split; simpl; rewrite ?Hp'; [done..|lia|by intros _|by destruct (decide _)].
Qed.

Lemma run_durable stored history p : run stored history p -> durable history p.
Proof.
  induction 1 as [now disk|history p p' _ IH Hstep].
  - destruct stored as [[doc|]|]; split; simpl; try reflexivity; try exact I; lia.
  - by eapply step_durable.
Qed.

(** A call of [flushDirty] returns without an error. *)
Definition flush_succeeds (p p' : Process) : Prop :=
  match phase p, phase p' with
  | Looping, NotFlushing | Written _, NotFlushing => True
  | _, _ => False
  end.

Lemma durable_latest history p :
  durable history p -> persisted (store p) = generation (store p) -> (0 < generation (store p))%nat ->
  disk p = Some (document (store p)).
Proof.
  intros [Hlen Hcur _ Hdisk _] Heq Hgen. destruct Hdisk as (g & Hg & -> & _); [lia|].
  replace g with (generation (store p)) by lia. exact Hcur.
Qed.

(** However events and the rounds of the writer interleave, and whichever writes fail, the
    generation noted as written is never ahead of the store, the disk holds a document at least
    as new as the one noted, and a flush that returns without an error leaves on disk the very
    document the store has at that moment, unless nothing has been counted since it was read. *)
Theorem flush_is_durable stored history p p' :
  run stored history p -> step format_date p p' ->
  (persisted (store p) <= generation (store p))%nat /\
  ((0 < persisted (store p))%nat -> on_disk history (persisted (store p)) (disk p)) /\
  (flush_succeeds p p' -> (0 < generation (store p'))%nat -> disk p' = Some (document (store p'))).
Proof.
  intros Hrun Hstep. pose proof (run_durable _ _ _ Hrun) as Hd. split; [apply Hd|]. split; [apply Hd|].
  intros Hok Hgen. eapply durable_latest; [exact (step_durable _ _ _ Hd Hstep)| |done].
  destruct Hstep; unfold flush_succeeds in Hok; simpl in *; try done; [by destruct phase0|].
  by destruct (decide (_ = generation s)).
Qed.

End Durable.

(** ** The definitions at work *)

Module Demo.

Definition day (t : Z) : string := if t <? 100 then "2026-01-01" else "2026-01-02".

Definition call (id : string) (at_ input : Z) : Z * Z * usageFileEvent :=
  (1, 2, mkEvent id usageEventKindProvider EmptyString at_ input 5 0 0 0 true 1 0 0 0 0 0 false).

Definition nothing : UsageFileStore := NewUsageFileStore 0 (Ok None).

(** The call "a" is reported twice, the second time with more tokens and a day later. *)
Definition calls : list (Z * Z * usageFileEvent) := [call "a" 10 7; call "b" 20 1; call " a " 110 8].

Example counted_once :
  let doc := document (upsert_all day calls nothing) in
  Totals doc ProviderCalls = 2 /\ Totals doc InputTokens = 9 /\ Totals doc TotalTokens = 19 /\
  day_counts "2026-01-01" (Daily doc) InputTokens = 1 /\ day_counts "2026-01-02" (Daily doc) InputTokens = 8.
Proof. vm_compute. repeat split. Qed.

Fixpoint others (n : nat) : list usageFileEvent :=
  match n with
  | O => []
  | S n => snd (call (string_of [byte_of (65 + Nat.div n 25); byte_of (65 + Nat.modulo n 25)]) 10 1) :: others n
  end.

(** A file with 500 calls, "a" the oldest of them. *)
Definition full_file : usageFileDocument :=
  mkDocument 2 0 (fun c => if decide (c = ProviderCalls) then 500 else 0) []
    (others 499 ++ [snd (call "a" 10 7)]).

(** Another call comes, and then "a" again: it is counted a second time. *)
Example counted_twice :
  let s := upsert_all day [call "new" 20 1; call "a" 10 7] (NewUsageFileStore 0 (Ok (Some full_file))) in
  Totals (document s) ProviderCalls = 502.
Proof. vm_compute. reflexivity. Qed.

Lemma snapshot_of s g disk : generation s = g -> persisted s <> g ->
  step day (mkProcess s Looping disk) (mkProcess s (Writing (document s) g) disk).
Proof. intros <- H. by apply step_snapshot. Qed.

Lemma note_of s g disk : (persisted s < g)%nat ->
  step day (mkProcess s (Written g) disk)
    (mkProcess (s <| lastError := None |> <| persisted := g |>)
       (if decide (g = generation s) then NotFlushing else Looping) disk).
Proof.
  intros H. pose proof (step_note day s g disk) as Hn. simpl in Hn.
  by rewrite (proj2 (Nat.ltb_lt (persisted s) g) H) in Hn.
Qed.

(** An event comes while the writer writes: the flush goes on until the disk holds it. *)
Lemma flush_rounds s1 s2 :
  generation s1 = 1%nat -> generation s2 = 2%nat -> persisted s1 = 0%nat -> persisted s2 = 0%nat ->
  let noted := s2 <| lastError := None |> <| persisted := 1%nat |> in
  step day (mkProcess s1 Looping None) (mkProcess s1 (Writing (document s1) 1) None) /\
  step day (mkProcess s2 (Writing (document s1) 1) None) (mkProcess s2 (Written 1) (Some (document s1))) /\
  step day (mkProcess s2 (Written 1) (Some (document s1))) (mkProcess noted Looping (Some (document s1))) /\
  step day (mkProcess noted Looping (Some (document s1)))
    (mkProcess noted (Writing (document noted) 2) (Some (document s1))) /\
  step day (mkProcess noted (Writing (document noted) 2) (Some (document s1)))
    (mkProcess noted (Written 2) (Some (document noted))) /\
  step day (mkProcess noted (Written 2) (Some (document noted)))
    (mkProcess (noted <| lastError := None |> <| persisted := 2%nat |>) NotFlushing (Some (document noted))).
Proof.
  intros G1 G2 P1 P2 noted. split_and!.
  - apply snapshot_of; [done|by rewrite P1].
  - apply step_write.
  - assert (H := note_of s2 1 (Some (document s1)) ltac:(rewrite P2; lia)).
    rewrite decide_False in H by (by rewrite G2). exact H.
  - apply snapshot_of; [exact G2|done].
  - apply step_write.
  - assert (H := note_of noted 2 (Some (document noted)) ltac:(simpl; lia)).
    rewrite decide_True in H by (symmetry; exact G2). exact H.
Qed.

Definition first : UsageFileStore := UpsertEvent day 1 2 (snd (call "a" 10 7)) nothing.
Definition second : UsageFileStore := UpsertEvent day 3 4 (snd (call "b" 20 1)) first.

Lemma generations : generation first = 1%nat /\ generation second = 2%nat /\
  persisted first = 0%nat /\ persisted second = 0%nat.
Proof. vm_compute. by split_and!. Qed.

Lemma run_on stored h p p' : run day stored h p -> step day p p' -> exists h', run day stored h' p'.
Proof. intros Hr Hs. eexists. exact (run_step _ _ _ _ _ Hr Hs). Qed.

(** The run, for any two events that the store takes. *)
Lemma flush_run_of s1 s2 :
  (forall phase disk, step day (mkProcess nothing phase disk) (mkProcess s1 phase disk)) ->
  (forall phase disk, step day (mkProcess s1 phase disk) (mkProcess s2 phase disk)) ->
  generation s1 = 1%nat -> generation s2 = 2%nat -> persisted s1 = 0%nat -> persisted s2 = 0%nat ->
  exists history p p', run day (Ok None) history p /\ step day p p' /\ flush_succeeds p p' /\
    generation (store p') = 2%nat.
Proof.
  intros U1 U2 G1 G2 P1 P2. destruct (flush_rounds s1 s2 G1 G2 P1 P2) as (S1 & S2 & S3 & S4 & S5 & S6).
  destruct (run_on _ _ _ _ (run_start day (Ok None) 0 None) (U1 _ _)) as [h1 R1].
  destruct (run_on _ _ _ _ R1 (step_begin _ _ _)) as [h2 R2].
  destruct (run_on _ _ _ _ R2 S1) as [h3 R3]. destruct (run_on _ _ _ _ R3 (U2 _ _)) as [h4 R4].
  destruct (run_on _ _ _ _ R4 S2) as [h5 R5]. destruct (run_on _ _ _ _ R5 S3) as [h6 R6].
  destruct (run_on _ _ _ _ R6 S4) as [h7 R7]. destruct (run_on _ _ _ _ R7 S5) as [h8 R8].
  exists h8. do 2 eexists. split; [exact R8|]. split; [exact S6|]. split; [exact I|exact G2].
Qed.

Lemma flush_run : exists history p p', run day (Ok None) history p /\ step day p p' /\ flush_succeeds p p' /\
  generation (store p') = 2%nat.
Proof.
  destruct generations as (G1 & G2 & P1 & P2).
  apply (flush_run_of first second); [intros; apply step_upsert|intros; apply step_upsert|assumption..].
Qed.

End Demo.

Lemma usage_totals_exact_witness :
  (forall c, tally every_event c (submitted Demo.calls) <= max_int64) /\
  RecentEvents (document (upsert_all Demo.day Demo.calls (NewUsageFileStore 0 (Ok None))))
  = take usageRecentEventLimit (newest (submitted Demo.calls)).
Proof.
  assert (H : forall c, tally every_event c (submitted Demo.calls) <= max_int64)
    by (intros c; destruct c; vm_compute; intros H; discriminate H).
  split; [exact H|]. exact (proj1 (usage_totals_exact Demo.day Demo.calls 0 H)).
Defined.

Lemma flush_is_durable_witness : exists p p',
  step Demo.day p p' /\ flush_succeeds p p' /\ disk p' = Some (document (store p')).
Proof.
  destruct Demo.flush_run as (history & p & p' & Hrun & Hstep & Hok & Hgen). exists p, p'.
  split; [exact Hstep|]. split; [exact Hok|].
  apply (flush_is_durable _ _ _ _ _ Hrun Hstep); [exact Hok|]. rewrite Hgen. apply Nat.lt_0_succ.
Defined.
