(* ===== verification/Modes.v ===== *)
(** * Agent modes and stream statuses (forwarder/types.go, interrupt.go).

    The enumeration [agentv1.AgentMode] is the one of proto/agent_v1.proto; a
    number outside it is [MODE_UNKNOWN].  The alias functions are the writer and
    the reader of the mode of a persisted conversation. *)

From S2P Require Import Prelude Go.

(** ** Data *)

Inductive AgentMode :=
| MODE_UNSPECIFIED
| MODE_AGENT
| MODE_ASK
| MODE_PLAN
| MODE_DEBUG
| MODE_TRIAGE
| MODE_PROJECT
| MODE_MULTITASK
| MODE_CUSTOM
| MODE_UNKNOWN (n : Z).

#[export] Instance AgentMode_eq_dec : EqDecision AgentMode.
Proof. solve_decision. Defined.

(** [StreamStatus]; [StatusUnset] is the empty string of a zero [ActiveStream]. *)
Inductive StreamStatus :=
| StatusUnset
| StatusCreated
| StatusStreaming
| StatusCompleted
| StatusCanceled
| StatusFailed.

#[export] Instance StreamStatus_eq_dec : EqDecision StreamStatus.
Proof. solve_decision. Defined.

(** [TurnPhase]; [PhaseUnset] is the empty string of a zero [ActiveStream]. *)
Inductive TurnPhase :=
| PhaseUnset
| PhaseIdle
| PhaseProviderRunning
| PhaseWaitingExternal
| PhaseAwaitingUser
| PhaseCompacting
| PhaseCheckpointing
| PhaseCompleted
| PhaseFailed
| PhaseCanceled.

#[export] Instance TurnPhase_eq_dec : EqDecision TurnPhase.
Proof. solve_decision. Defined.

Definition isTerminalStreamStatus (status : StreamStatus) : bool :=
  match status with
  | StatusCanceled | StatusCompleted | StatusFailed => true
  | _ => false
  end.

(** [phase == TurnPhaseCanceled || phase == TurnPhaseCompleted || phase == TurnPhaseFailed]. *)
Definition terminalPhase (phase : TurnPhase) : bool :=
  match phase with
  | PhaseCanceled | PhaseCompleted | PhaseFailed => true
  | _ => false
  end.

Inductive ModeSource :=
| ModeSourceUnknown
| ModeSourceUserMessage
| ModeSourceExecutePlanAction
| ModeSourceConversationState
| ModeSourceSwitchModeTool.

Definition ModeSource_string (source : ModeSource) : string :=
  match source with
  | ModeSourceUnknown => EmptyString
  | ModeSourceUserMessage => "user_message"
  | ModeSourceExecutePlanAction => "execute_plan_action"
  | ModeSourceConversationState => "conversation_state"
  | ModeSourceSwitchModeTool => "switch_mode_tool"
  end.

(** ** Operations *)

(** The generated [AgentMode.String]: the name of the proto file, or the number. *)
Definition AgentMode_String (mode : AgentMode) : string :=
  match mode with
  | MODE_UNSPECIFIED => "AGENT_MODE_UNSPECIFIED"
  | MODE_AGENT => "AGENT_MODE_AGENT"
  | MODE_ASK => "AGENT_MODE_ASK"
  | MODE_PLAN => "AGENT_MODE_PLAN"
  | MODE_DEBUG => "AGENT_MODE_DEBUG"
  | MODE_TRIAGE => "AGENT_MODE_TRIAGE"
  | MODE_PROJECT => "AGENT_MODE_PROJECT"
  | MODE_MULTITASK => "AGENT_MODE_MULTITASK"
  | MODE_CUSTOM => "AGENT_MODE_CUSTOM"
  | MODE_UNKNOWN n => Sprintd n
  end.

Definition normalizeMode (mode : AgentMode) : AgentMode := mode.

Definition isSupportedActiveMode (mode : AgentMode) : bool :=
  match normalizeMode mode with
  | MODE_AGENT | MODE_ASK | MODE_PLAN | MODE_DEBUG | MODE_MULTITASK => true
  | _ => false
  end.

Definition validateSupportedActiveMode (mode : AgentMode) : result AgentMode :=
  let normalized := normalizeMode mode in
  if negb (isSupportedActiveMode normalized) then
    Err ("unsupported active mode: " +:+ AgentMode_String normalized)
  else Ok normalized.

(** The result always carries the source and [true]; the error is wrapped. *)
Definition resolveExplicitMode (mode : AgentMode) (source : ModeSource)
  : result AgentMode * ModeSource * bool :=
  match validateSupportedActiveMode mode with
  | Err err => (Err (err +:+ " (source=" +:+ TrimSpace (ModeSource_string source) +:+ ")"),
                source, true)
  | Ok normalized => (Ok normalized, source, true)
  end.

Definition modeAlias (mode : AgentMode) : result string :=
  match normalizeMode mode with
  | MODE_AGENT => Ok "agent"
  | MODE_ASK => Ok "ask"
  | MODE_PLAN => Ok "plan"
  | MODE_DEBUG => Ok "debug"
  | MODE_MULTITASK => Ok "multitask"
  | _ => Err ("unsupported mode alias: " +:+ AgentMode_String (normalizeMode mode))
  end.

(** [strings.ToLower], as far as a comparison with a lower-case ASCII word can see
    it: ASCII letters are folded, and so are the two other code points whose
    lower case is an ASCII letter, U+0130 (I with dot above) and U+212A (the
    Kelvin sign); every other code point stays outside ASCII. *)
Definition lower_byte (c : ascii) : ascii :=
  let n := nat_of_ascii c in
  if (65 <=? n)%nat && (n <=? 90)%nat then ascii_of_nat (n + 32) else c.

Fixpoint to_lower (fuel : nat) (s : bytes) : bytes :=
  match fuel with
  | O => []
  | S fuel =>
      match strip_prefix (map byte_of [196; 176]%nat) s with
      | Some s' => byte_of 105 :: to_lower fuel s'
      | None =>
          match strip_prefix (map byte_of [226; 132; 170]%nat) s with
          | Some s' => byte_of 107 :: to_lower fuel s'
          | None => match s with
                    | [] => []
                    | c :: s' => lower_byte c :: to_lower fuel s'
                    end
          end
      end
  end.

Definition ToLower (s : string) : string :=
  string_of (to_lower (String.length s) (bytes_of s)).

Definition lookup_mode (name : string) : option AgentMode :=
  if decide (name = "agent") then Some MODE_AGENT
  else if decide (name = "ask") then Some MODE_ASK
  else if decide (name = "plan") then Some MODE_PLAN
  else if decide (name = "debug") then Some MODE_DEBUG
  else if decide (name = "multitask") then Some MODE_MULTITASK
  else None.

(** The errors quote the raw text with [%q]; the quotation is left to [quote]. *)
Section Parse.
Context (quote : string -> string).

Definition parseModeAlias (raw : string) : result AgentMode :=
  match lookup_mode (ToLower (TrimSpace raw)) with
  | Some mode => Ok mode
  | None => Err ("unsupported mode alias: " +:+ quote (TrimSpace raw))
  end.

Definition parseTargetModeID (raw : string) : result AgentMode :=
  match lookup_mode (ToLower (TrimSpace raw)) with
  | Some mode => Ok mode
  | None => Err ("unsupported target mode id: " +:+ quote (TrimSpace raw))
  end.

End Parse.

(** ** Properties *)

(** The mode written to a conversation file is read back unchanged, for exactly
    the modes the backend can run: [modeAlias] succeeds if and only if the mode is
    a supported active mode, and [parseModeAlias] and [parseTargetModeID] then
    return that mode from the alias, whatever blanks surround it. *)
Theorem mode_alias_roundtrip quote mode :
  (is_ok (modeAlias mode) = isSupportedActiveMode mode) /\
  (is_ok (validateSupportedActiveMode mode) = isSupportedActiveMode mode) /\
  (forall alias raw, modeAlias mode = Ok alias -> TrimSpace raw = alias ->
     parseModeAlias quote raw = Ok mode /\ parseTargetModeID quote raw = Ok mode).
Proof.
  split_and!; [by destruct mode|by destruct mode|].
  intros alias raw Ha Hr. unfold parseModeAlias, parseTargetModeID. rewrite Hr.
  clear Hr. destruct mode; simpl in Ha; try discriminate Ha; injection Ha as <-;
    split; vm_compute; reflexivity.
Qed.

(** Reading a mode never invents one: whatever the text, a mode it parses to is a
    supported active mode whose alias is the lower-cased trimmed text. *)
Theorem mode_parse_sound quote raw mode :
  parseModeAlias quote raw = Ok mode ->
  isSupportedActiveMode mode = true /\
  modeAlias mode = Ok (ToLower (TrimSpace raw)).
Proof.
  unfold parseModeAlias, lookup_mode. generalize (ToLower (TrimSpace raw)). intros name.
  repeat case_decide; intros [= <-]; by subst.
Qed.

Lemma mode_parse_sound_witness :
  parseModeAlias id " MultiTask " = Ok MODE_MULTITASK /\
  isSupportedActiveMode MODE_MULTITASK = true.
Proof.
  split; [vm_compute; reflexivity|].
  apply (mode_parse_sound id " MultiTask "). vm_compute. reflexivity.
Defined.
