(* ===== verification/Broker.v ===== *)
(** * The stream broker (forwarder/broker.go) and its reader loop (service.go RunSSE).

    [Broker] is the [StreamBroker]; [ActiveStream] holds the fields the broker
    reads and writes.  The side tables of the stream that the broker only
    allocates are summarised by [allocated], the names of the tables that are not
    [nil].  A subscriber's signal channel of capacity 1 is the boolean [Signal].
    A cleanup timer is the sequence number its callback carries; [callbacks] is
    the set of the callbacks that were ever handed to [time.AfterFunc], any of
    which may run at any later time. *)

From S2P Require Import Prelude Go Modes.

Definition defaultStreamBacklogLimit : Z := 1024.

Section Broker.
Context {Message : Type}.

(** ** Data *)

Record StreamEvent := mkEvent {
  Message_ : option Message;
  End_ : bool;
  TerminalErrorCode : string;
  TerminalErrorMessage : string
}.

Record StreamSubscriber := mkSubscriber {
  Signal : bool;
  Cursor : Z
}.

Record ActiveStream := mkStream {
  RequestID : string;
  ConversationID : string;
  TurnSeq : Z;
  ModelID : string;
  ModelName : string;
  Mode : AgentMode;
  LatestUserText : string;
  Status : StreamStatus;
  Phase : TurnPhase;
  ProviderActive : bool;
  ProviderCancel : bool;
  Backlog : list StreamEvent;
  BacklogBaseCursor : Z;
  Subscribers : gmap string StreamSubscriber;
  TerminalCleanupTimer : option Z;
  TerminalCleanupSeq : Z;
  allocated : list string;
  CreatedAt : Z;
  UpdatedAt : Z
}.

#[export] Instance eta_stream : Eta ActiveStream := fun s =>
  mkStream (RequestID s) (ConversationID s) (TurnSeq s) (ModelID s) (ModelName s)
    (Mode s) (LatestUserText s) (Status s) (Phase s) (ProviderActive s)
    (ProviderCancel s) (Backlog s) (BacklogBaseCursor s) (Subscribers s)
    (TerminalCleanupTimer s) (TerminalCleanupSeq s) (allocated s) (CreatedAt s)
    (UpdatedAt s).

Record StreamBroker := mkBroker {
  streams : gmap string ActiveStream;
  nextID : Z;
  backlogLimit : Z;
  callbacks : gset (string * Z)
}.

#[export] Instance eta_broker : Eta StreamBroker := fun b =>
  mkBroker (streams b) (nextID b) (backlogLimit b) (callbacks b).

(** The side tables [OpenStream] allocates on a reused stream when they are nil,
    and the ones it allocates only for a new stream. *)
Definition reopened_tables : list string :=
  ["PendingExecs"; "PendingInteractions"; "PartialToolCallIDs";
    "PatchEditQueues"; "BackgroundShells"; "BackgroundShellsByMessageID";
    "BackgroundShellsByExecID"; "BackgroundShellActions";
    "PendingCheckpointBlobWrites"; "ConfirmedCheckpointBlobs"].

Definition new_tables : list string :=
  "MCPToolServers" :: "RecentCompletedExecs" :: reopened_tables.

Definition allocate (tables present : list string) : list string :=
  present ++ filter (fun t => t ∉ present) tables.

(** ** Operations *)

Definition NewStreamBrokerWithBacklogLimit (limit : Z) : StreamBroker :=
  mkBroker ∅ 0 (if limit <? 1 then defaultStreamBacklogLimit else limit) ∅.

Definition NewStreamBroker : StreamBroker :=
  NewStreamBrokerWithBacklogLimit defaultStreamBacklogLimit.

Definition set_stream (requestID : string) (s : ActiveStream) (b : StreamBroker)
  : StreamBroker :=
  b <| streams := <[requestID := s]> (streams b) |>.

(** The context fields [OpenStream] refreshes. *)
Definition reopen_stream (now : Z) (conversationID : string) (turnSeq : Z)
    (modelID modelName : string) (mode : AgentMode) (latestUserText : string)
    (s : ActiveStream) : ActiveStream :=
  s <| ConversationID := TrimSpace conversationID |>
    <| TurnSeq := turnSeq |>
    <| ModelID := TrimSpace modelID |>
    <| ModelName := TrimSpace modelName |>
    <| Mode := mode |>
    <| LatestUserText := TrimSpace latestUserText |>
    <| Backlog := [] |>
    <| BacklogBaseCursor := 0 |>
    <| Subscribers := (fun sub => mkSubscriber (Signal sub) 0) <$> Subscribers s |>
    <| Status := if decide (Status s = StatusUnset) then StatusCreated else Status s |>
    <| allocated := allocate reopened_tables (allocated s) |>
    <| UpdatedAt := now |>.

Definition new_stream (now : Z) (requestID conversationID : string) (turnSeq : Z)
    (modelID modelName : string) (mode : AgentMode) (latestUserText : string)
  : ActiveStream :=
  mkStream requestID (TrimSpace conversationID) turnSeq (TrimSpace modelID)
    (TrimSpace modelName) mode (TrimSpace latestUserText) StatusCreated PhaseUnset
    false false [] 0 ∅ None 0 new_tables now now.

(** [OpenStream]: [Ok None] is the [nil, nil] return for a blank request id. *)
Definition OpenStream (now : Z) (requestID conversationID : string) (turnSeq : Z)
    (modelID modelName : string) (mode : AgentMode) (latestUserText : string)
    (b : StreamBroker) : result (option ActiveStream) * StreamBroker :=
  let rid := TrimSpace requestID in
  if decide (rid = EmptyString) then (Ok None, b) else
  match validateSupportedActiveMode mode with
  | Err e => (Err e, b)
  | Ok mode =>
      let s := match streams b !! rid with
               | Some existing =>
                   reopen_stream now conversationID turnSeq modelID modelName mode
                     latestUserText existing
               | None =>
                   new_stream now rid conversationID turnSeq modelID modelName mode
                     latestUserText
               end in
      (Ok (Some s), set_stream rid s b)
  end.

Definition Get (requestID : string) (b : StreamBroker) : option ActiveStream :=
  streams b !! TrimSpace requestID.

(** A stream that can still receive routed traffic. *)
Definition is_routable (s : ActiveStream) : bool :=
  negb (bool_decide (TrimSpace (ConversationID s) = EmptyString)) &&
  negb (isTerminalStreamStatus (Status s)) && negb (terminalPhase (Phase s)).

(** [SingleActiveStream] scans the candidates in map order and refuses as soon as
    a second routable stream is met. *)
Fixpoint single_active (candidates : list ActiveStream) (active : option ActiveStream)
  : option ActiveStream :=
  match candidates with
  | [] => active
  | s :: rest =>
      if negb (is_routable s) then single_active rest active
      else match active with
           | Some _ => None
           | None => single_active rest (Some s)
           end
  end.

Definition SingleActiveStream (b : StreamBroker) : option ActiveStream :=
  single_active (map snd (map_to_list (streams b))) None.

Definition stopTerminalCleanupTimerLocked (s : ActiveStream) : ActiveStream :=
  s <| TerminalCleanupSeq := wrap_uint64 (TerminalCleanupSeq s + 1) |>
    <| TerminalCleanupTimer := None |>.

Definition subscriber_name (id : Z) : string := "sub-" +:+ Sprintd id.

(** [Subscribe]: [Ok None] is the [nil] return for a terminal stream. *)
Definition Subscribe (now : Z) (requestID : string) (b : StreamBroker)
  : result (option string) * StreamBroker :=
  let rid := TrimSpace requestID in
  if decide (rid = EmptyString) then (Err "request_id is required", b) else
  let b1 := match Get rid b with
            | Some _ => b
            | None => (OpenStream now rid EmptyString 0 EmptyString EmptyString
                         MODE_AGENT EmptyString b).2
            end in
  let id := wrap_uint64 (nextID b1 + 1) in
  let b2 := b1 <| nextID := id |> in
  match streams b2 !! rid with
  | None => (Err "request_id is required", b2)
  | Some s =>
      if isTerminalStreamStatus (Status s) then (Ok None, b2)
      else
        let subscriber := mkSubscriber false (BacklogBaseCursor s) in
        let s := stopTerminalCleanupTimerLocked s in
        let s := s <| Subscribers := <[subscriber_name id := subscriber]> (Subscribers s) |>
                   <| UpdatedAt := now |> in
        (Ok (Some (subscriber_name id)), set_stream rid s b2)
  end.

Definition Unsubscribe (requestID subscriberID : string) (b : StreamBroker)
  : nat * StreamBroker :=
  match Get requestID b with
  | None => (0%nat, b)
  | Some s =>
      let s := s <| Subscribers := delete (TrimSpace subscriberID) (Subscribers s) |> in
      (size (Subscribers s), set_stream (TrimSpace requestID) s b)
  end.

Definition backlog_end (s : ActiveStream) : Z :=
  BacklogBaseCursor s + Z.of_nat (length (Backlog s)).

(** The least cursor of the subscribers, at most [upper]. *)
Definition min_cursor (upper : Z) (subs : gmap string StreamSubscriber) : Z :=
  map_fold (fun _ sub acc => if Cursor sub <? acc then Cursor sub else acc) upper subs.

Definition trimAcknowledgedBacklogLocked (now : Z) (s : ActiveStream) : ActiveStream :=
  if decide (Subscribers s = ∅) then s
  else if decide (Backlog s = []) then s
  else
    let acknowledged := min_cursor (backlog_end s) (Subscribers s) in
    let trimmed := acknowledged - BacklogBaseCursor s in
    if trimmed <=? 0 then s
    else
      let trimmed := Z.min trimmed (Z.of_nat (length (Backlog s))) in
      s <| Backlog := drop (Z.to_nat trimmed) (Backlog s) |>
        <| BacklogBaseCursor := BacklogBaseCursor s + trimmed |>
        <| UpdatedAt := now |>.

Definition not_active (requestID : string) : string :=
  "request is not active: " +:+ TrimSpace requestID.

Definition AcknowledgeCursor (now : Z) (requestID subscriberID : string) (cursor : Z)
    (b : StreamBroker) : result unit * StreamBroker :=
  match Get requestID b with
  | None => (Err (not_active requestID), b)
  | Some s =>
      match Subscribers s !! TrimSpace subscriberID with
      | None => (Err ("subscriber is not active: " +:+ TrimSpace subscriberID), b)
      | Some sub =>
          if (cursor <? Cursor sub) || (backlog_end s <? cursor) then
            (Err ("invalid stream cursor: " +:+ Sprintd cursor), b)
          else
            let s := s <| Subscribers :=
                            <[TrimSpace subscriberID := mkSubscriber (Signal sub) cursor]>
                              (Subscribers s) |> in
            (Ok tt, set_stream (TrimSpace requestID) (trimAcknowledgedBacklogLocked now s) b)
      end
  end.

(** The request ids in map order. *)
Definition OtherConversationRequestIDs (conversationID keepRequestID : string)
    (b : StreamBroker) : list string :=
  if decide (TrimSpace conversationID = EmptyString) then []
  else
    map fst (filter (fun kv : string * ActiveStream =>
      TrimSpace kv.1 <> TrimSpace keepRequestID /\
      TrimSpace (ConversationID kv.2) = TrimSpace conversationID /\
      isTerminalStreamStatus (Status kv.2) = false /\
      terminalPhase (Phase kv.2) = false) (map_to_list (streams b))).

Definition scheduleTerminalCleanup (now : Z) (requestID : string) (b : StreamBroker)
  : bool * StreamBroker :=
  match Get requestID b with
  | None => (false, b)
  | Some s =>
      let rid := TrimSpace requestID in
      if negb (bool_decide (Subscribers s = ∅)) then
        (false, set_stream rid (stopTerminalCleanupTimerLocked s) b)
      else if negb (isTerminalStreamStatus (Status s)) then
        (false, set_stream rid (stopTerminalCleanupTimerLocked s) b)
      else
        let sequence := wrap_uint64 (TerminalCleanupSeq s + 1) in
        let s := s <| TerminalCleanupSeq := sequence |>
                   <| TerminalCleanupTimer := Some sequence |>
                   <| UpdatedAt := now |> in
        (true, set_stream rid s b <| callbacks := {[ (requestID, sequence) ]} ∪ callbacks b |>)
  end.

(** [RemoveIfIdle]: the second branch removes the placeholder of a subscription
    that no run ever joined. *)
Definition RemoveIfIdle (requestID : string) (b : StreamBroker) : bool * StreamBroker :=
  let rid := TrimSpace requestID in
  if decide (rid = EmptyString) then (false, b) else
  match streams b !! rid with
  | None => (false, b)
  | Some s =>
      let terminal := isTerminalStreamStatus (Status s) in
      let b1 := if terminal then set_stream rid (stopTerminalCleanupTimerLocked s) b else b in
      let removed := b1 <| streams := delete rid (streams b1) |> in
      if negb (bool_decide (Subscribers s = ∅)) then (false, b1)
      else if terminal then (true, removed)
      else if ProviderActive s || negb (bool_decide (Backlog s = [])) ||
              negb (bool_decide (TrimSpace (ConversationID s) = EmptyString))
           then (false, b1)
      else (true, removed)
  end.

Definition runScheduledTerminalCleanup (requestID : string) (sequence : Z)
    (b : StreamBroker) : StreamBroker :=
  match Get requestID b with
  | None => b
  | Some s =>
      if negb (TerminalCleanupSeq s =? sequence) then b
      else
        let b1 := set_stream (TrimSpace requestID) (s <| TerminalCleanupTimer := None |>) b in
        if negb (bool_decide (Subscribers s = ∅)) then b1
        else if negb (isTerminalStreamStatus (Status s)) then b1
        else (RemoveIfIdle requestID b1).2
  end.

(** The non-blocking send on a channel of capacity 1 to every subscriber. *)
Definition signal_all (subs : gmap string StreamSubscriber) : gmap string StreamSubscriber :=
  (fun sub => mkSubscriber true (Cursor sub)) <$> subs.

Definition publish_stream (now limit : Z) (event : StreamEvent) (s : ActiveStream)
  : ActiveStream :=
  if negb (End_ event) && isTerminalStreamStatus (Status s) then s
  else
    let backlog := Backlog s ++ [event] in
    let s := s <| Backlog := backlog |> in
    let s :=
      if bool_decide (Subscribers s = ∅) && (limit <? Z.of_nat (length backlog)) then
        let overflow := Z.of_nat (length backlog) - limit in
        s <| Backlog := drop (Z.to_nat overflow) backlog |>
          <| BacklogBaseCursor := BacklogBaseCursor s + overflow |>
      else s in
    s <| UpdatedAt := now |> <| Subscribers := signal_all (Subscribers s) |>.

Definition Publish (now : Z) (requestID : string) (event : StreamEvent) (b : StreamBroker)
  : result unit * StreamBroker :=
  match Get requestID b with
  | None => (Err (not_active requestID), b)
  | Some s => (Ok tt, set_stream (TrimSpace requestID)
                        (publish_stream now (backlogLimit b) event s) b)
  end.

Definition read_stream (cursor : Z) (s : ActiveStream) : list StreamEvent :=
  let cursor := if cursor <? BacklogBaseCursor s then BacklogBaseCursor s else cursor in
  let offset := cursor - BacklogBaseCursor s in
  if Z.of_nat (length (Backlog s)) <=? offset then []
  else drop (Z.to_nat offset) (Backlog s).

Definition ReadFromCursor (requestID : string) (cursor : Z) (b : StreamBroker)
  : result (list StreamEvent) :=
  match Get requestID b with
  | None => Err (not_active requestID)
  | Some s => Ok (read_stream cursor s)
  end.

Definition end_event (code message : string) : StreamEvent :=
  mkEvent None true (TrimSpace code) (TrimSpace message).

(** What [Complete], [Fail] and [Cancel] do to the stream they claim, and the end
    event they publish. *)
Inductive Terminal :=
| TComplete (code message : string)
| TFail (code message : string)
| TCancel (message : string).

Definition terminal_stream (t : Terminal) (s : ActiveStream) : ActiveStream :=
  match t with
  | TComplete _ _ => s <| Status := StatusCompleted |>
  | TFail _ _ => s <| Status := StatusFailed |>
  | TCancel _ => s <| ProviderCancel := false |> <| ProviderActive := false |>
                   <| Status := StatusCanceled |>
  end.

Definition cancel_message (message : string) : string :=
  firstNonEmpty [TrimSpace message; "[canceled] User aborted request"].

Definition terminal_event (t : Terminal) : StreamEvent :=
  match t with
  | TComplete code message | TFail code message => end_event code message
  | TCancel message => mkEvent None true "canceled" (cancel_message message)
  end.

(** The first critical section: claim the terminal status, once.  [Ok None] means
    the stream is terminal already; [Ok (Some n)] carries the subscriber count. *)
Definition claim_terminal (now : Z) (requestID : string) (t : Terminal) (b : StreamBroker)
  : result (option nat) * StreamBroker :=
  match Get requestID b with
  | None => (Err (not_active requestID), b)
  | Some s =>
      if isTerminalStreamStatus (Status s) then (Ok None, b)
      else
        let s := terminal_stream t (stopTerminalCleanupTimerLocked s) <| UpdatedAt := now |> in
        (Ok (Some (size (Subscribers s))), set_stream (TrimSpace requestID) s b)
  end.

Definition finish (now : Z) (requestID : string) (t : Terminal) (b : StreamBroker)
  : result unit * StreamBroker :=
  match claim_terminal now requestID t b with
  | (Err e, b) => (Err e, b)
  | (Ok None, b) => (Ok tt, b)
  | (Ok (Some subscriberCount), b) =>
      match Publish now requestID (terminal_event t) b with
      | (Err e, b) => (Err e, b)
      | (Ok _, b) =>
          (Ok tt, match subscriberCount with
                  | O => (scheduleTerminalCleanup now requestID b).2
                  | S _ => b
                  end)
      end
  end.

Definition Complete (now : Z) (requestID code message : string) (b : StreamBroker) :=
  finish now requestID (TComplete code message) b.

Definition Fail (now : Z) (requestID code message : string) (b : StreamBroker) :=
  finish now requestID (TFail code message) b.

Definition Cancel (now : Z) (requestID message : string) (b : StreamBroker) :=
  finish now requestID (TCancel message) b.

(** ** The reader: the delivery loop of [RunSSE]

    [sse_events] sends a batch; [sse_round] is one [ReadFromCursor] and the
    delivery of what it returned.  The outcome is what was sent, the local cursor
    and whether the end event was met. *)

Record Reader := mkReader {
  sent : list Message;
  local_cursor : Z;
  ended : bool
}.

Fixpoint sse_events (now : Z) (requestID subscriberID : string) (events : list StreamEvent)
    (r : Reader) (b : StreamBroker) : Reader * StreamBroker :=
  match events with
  | [] => (r, b)
  | event :: rest =>
      let sent' := match Message_ event with Some m => sent r ++ [m] | None => sent r end in
      let cursor := local_cursor r + 1 in
      let b := (AcknowledgeCursor now requestID subscriberID cursor b).2 in
      if End_ event then (mkReader sent' cursor true, b)
      else sse_events now requestID subscriberID rest (mkReader sent' cursor (ended r)) b
  end.

Definition sse_round (now : Z) (requestID subscriberID : string) (r : Reader)
    (b : StreamBroker) : Reader * StreamBroker :=
  match ReadFromCursor requestID (local_cursor r) b with
  | Err _ => (mkReader (sent r) (local_cursor r) true, b)
  | Ok events => sse_events now requestID subscriberID events r b
  end.

(** The state in which the loop starts after [Subscribe]. *)
Definition sse_start : Reader := mkReader [] 0 false.

(** ** The delivery system

    One request [rid], one connection [me] in its [RunSSE] loop, and the critical
    sections of everybody else in any order.  [dlog] is the log of the events
    accepted for the request since its stream was last opened, [dbatch] the part of the
    last read that the reader has not sent yet, [dpending] the end event of a
    terminal claim that is not published yet.  [OpenStream] on the live request empties
    the backlog and counts from 0 again; [dcut] says that this happened after the reader
    had begun to read, whose own cursor does not go back.  [dgone] says that the
    connection was lost, by its context or by a failed send: the reader unsubscribes and
    sends no more, and a client that comes back is another reader. *)

Record Delivery := mkDelivery {
  dbroker : StreamBroker;
  dlog : list StreamEvent;
  dreader : Reader;
  dbatch : list StreamEvent;
  dpending : option StreamEvent;
  dcut : bool;
  dgone : bool
}.

#[export] Instance eta_delivery : Eta Delivery := fun d =>
  mkDelivery (dbroker d) (dlog d) (dreader d) (dbatch d) (dpending d) (dcut d) (dgone d).

Definition stream_terminal (rid : string) (b : StreamBroker) : bool :=
  match Get rid b with Some s => isTerminalStreamStatus (Status s) | None => true end.

(** The reader has fetched or sent something. *)
Definition has_begun (d : Delivery) : bool :=
  negb (bool_decide (local_cursor (dreader d) = 0)) || negb (bool_decide (dbatch d = [])).

(** What the broker does not look at may change, and a live stream may change its status. *)
Definition same_delivery (s s' : ActiveStream) : Prop :=
  Backlog s' = Backlog s /\ BacklogBaseCursor s' = BacklogBaseCursor s /\ Subscribers s' = Subscribers s /\
  isTerminalStreamStatus (Status s') = isTerminalStreamStatus (Status s).

(** A step while the connection lives. *)
Inductive live_step (rid me : string) : Delivery -> Delivery -> Prop :=
| d_publish d now event b' :
    End_ event = false ->
    Publish now rid event (dbroker d) = (Ok tt, b') ->
    live_step rid me d
      (d <| dbroker := b' |>
         <| dlog := if stream_terminal rid (dbroker d) then dlog d else dlog d ++ [event] |>)
| d_claim d now t n b' :
    dpending d = None ->
    claim_terminal now rid t (dbroker d) = (Ok (Some n), b') ->
    live_step rid me d (d <| dbroker := b' |> <| dpending := Some (terminal_event t) |>)
| d_publish_end d now event b' :
    dpending d = Some event ->
    Publish now rid event (dbroker d) = (Ok tt, b') ->
    live_step rid me d (d <| dbroker := b' |> <| dlog := dlog d ++ [event] |> <| dpending := None |>)
| d_schedule d now :
    live_step rid me d (d <| dbroker := (scheduleTerminalCleanup now rid (dbroker d)).2 |>)
| d_cleanup d sequence :
    live_step rid me d (d <| dbroker := runScheduledTerminalCleanup rid sequence (dbroker d) |>)
| d_remove d :
    live_step rid me d (d <| dbroker := (RemoveIfIdle rid (dbroker d)).2 |>)
| d_subscribe d now :
    nextID (dbroker d) < max_uint64 ->
    live_step rid me d (d <| dbroker := (Subscribe now rid (dbroker d)).2 |>)
| d_unsubscribe d other :
    TrimSpace other <> me ->
    live_step rid me d (d <| dbroker := (Unsubscribe rid other (dbroker d)).2 |>)
| d_acknowledge d now other cursor :
    TrimSpace other <> me ->
    live_step rid me d (d <| dbroker := (AcknowledgeCursor now rid other cursor (dbroker d)).2 |>)
| d_elsewhere d b' :
    Get rid b' = Get rid (dbroker d) -> backlogLimit b' = backlogLimit (dbroker d) ->
    nextID (dbroker d) <= nextID b' <= max_uint64 ->
    live_step rid me d (d <| dbroker := b' |>)
| d_fetch d events :
    dbatch d = [] -> ended (dreader d) = false ->
    ReadFromCursor rid (local_cursor (dreader d)) (dbroker d) = Ok events ->
    live_step rid me d (d <| dbatch := events |>)
| d_send d now event rest r b' :
    dbatch d = event :: rest -> ended (dreader d) = false ->
    sse_events now rid me [event] (dreader d) (dbroker d) = (r, b') ->
    live_step rid me d
      (d <| dbroker := b' |> <| dreader := r |>
         <| dbatch := if End_ event then [] else rest |>)
| d_open d now conversationID turnSeq modelID modelName mode text s b' :
    OpenStream now rid conversationID turnSeq modelID modelName mode text (dbroker d) = (Ok (Some s), b') ->
    live_step rid me d
      (d <| dbroker := b' |> <| dlog := [] |> <| dcut := dcut d || has_begun d |>)
| d_update d s s' :
    Get rid (dbroker d) = Some s -> same_delivery s s' ->
    live_step rid me d (d <| dbroker := set_stream (TrimSpace rid) s' (dbroker d) |>).

(** The loop returns when the context is done or a send fails. *)
Inductive dstep (rid me : string) : Delivery -> Delivery -> Prop :=
| d_live d d' : dgone d = false -> live_step rid me d d' -> dstep rid me d d'
| d_leave d :
    dgone d = false -> ended (dreader d) = false ->
    dstep rid me d (d <| dbroker := (Unsubscribe rid me (dbroker d)).2 |> <| dgone := true |>).

(** The reader has just subscribed to a live stream whose backlog starts at 0; others may have before. *)
Definition d_initial (rid me : string) (d : Delivery) : Prop :=
  exists s k, Get rid (dbroker d) = Some s /\
    me = subscriber_name k /\ 0 <= k <= nextID (dbroker d) /\
    nextID (dbroker d) <= max_uint64 /\ 1 <= backlogLimit (dbroker d) /\
    BacklogBaseCursor s = 0 /\ Subscribers s !! me = Some (mkSubscriber false 0) /\
    (forall id sub, Subscribers s !! id = Some sub -> 0 <= Cursor sub <= Z.of_nat (length (Backlog s))) /\
    isTerminalStreamStatus (Status s) = false /\
    Forall (fun e => End_ e = false) (Backlog s) /\
    dlog d = Backlog s /\ dreader d = sse_start /\ dbatch d = [] /\ dpending d = None /\
    dcut d = false /\ dgone d = false.

Definition d_reachable (rid me : string) (d : Delivery) : Prop :=
  exists d0, d_initial rid me d0 /\ rtc (dstep rid me) d0 d.

(** ** Lemmas: subscriber names and cursors *)

Lemma subscriber_name_inj n m :
  0 <= n -> 0 <= m -> subscriber_name n = subscriber_name m -> n = m.
Proof.
  intros Hn Hm H. unfold subscriber_name in H. injection H as H. by apply Sprintd_inj.
Qed.

Lemma TrimSpace_subscriber_name n :
  0 <= n -> TrimSpace (subscriber_name n) = subscriber_name n.
Proof.
  intros Hn. destruct (decimal_nonneg_last n Hn) as (t & d & Ht & Hd).
  unfold TrimSpace, subscriber_name, Sprintd.
  assert (Hb : bytes_of ("sub-" +:+ string_of (decimal n)) =
               (bytes_of "sub-" ++ t) ++ [d]).
  { by rewrite bytes_of_app, bytes_of_string_of, Ht, app_assoc. }
  rewrite (trim_space_graphic (bytes_of ("sub-" +:+ string_of (decimal n)))
             "s"%char (bytes_of ("ub-" +:+ string_of (decimal n))) _ d eq_refl Hb eq_refl Hd).
  apply string_of_bytes_of.
Qed.

Lemma min_cursor_le upper subs :
  min_cursor upper subs <= upper /\
  (forall id sub, subs !! id = Some sub -> min_cursor upper subs <= Cursor sub).
Proof.
  unfold min_cursor.
  apply (map_fold_weak_ind (fun acc (m : gmap string StreamSubscriber) =>
    acc <= upper /\ forall id sub, m !! id = Some sub -> acc <= Cursor sub)).
  - split; [lia|]. intros id sub. by rewrite lookup_empty.
  - intros i x m acc _ [Hu Hall]. destruct (Cursor x <? acc) eqn:E; zbool;
      (split; [lia|]); intros id sub; rewrite lookup_insert_Some;
      intros [[_ <-]|[_ Hs]]; try lia; specialize (Hall _ _ Hs); lia.
Qed.

Lemma min_cursor_ge lower upper subs :
  lower <= upper -> (forall id sub, subs !! id = Some sub -> lower <= Cursor sub) ->
  lower <= min_cursor upper subs.
Proof.
  intros Hu. unfold min_cursor.
  apply (map_fold_weak_ind (fun acc (m : gmap string StreamSubscriber) =>
    (forall id sub, m !! id = Some sub -> lower <= Cursor sub) -> lower <= acc)); [done|].
  intros i x m acc Hi IH Hall.
  pose proof (Hall i x (lookup_insert_eq _ _ _)).
  destruct (Cursor x <? acc); [done|]. apply IH. intros id sub Hs.
  apply (Hall id). rewrite lookup_insert_ne; [done|]. intros ->. congruence.
Qed.

(** ** The stream invariant: the backlog is a suffix of the log of the events, and
    every cursor lies between its two ends *)

Record stream_inv (log : list StreamEvent) (s : ActiveStream) : Prop := {
  si_base : 0 <= BacklogBaseCursor s <= Z.of_nat (length log);
  si_backlog : Backlog s = drop (Z.to_nat (BacklogBaseCursor s)) log;
  si_cursors : forall id sub, Subscribers s !! id = Some sub ->
    BacklogBaseCursor s <= Cursor sub <= Z.of_nat (length log)
}.

Lemma stream_inv_end log s : stream_inv log s -> backlog_end s = Z.of_nat (length log).
Proof. intros [Hb Hl _]. unfold backlog_end. rewrite Hl, length_drop. lia. Qed.

Lemma stream_inv_ext log s s' :
  Backlog s' = Backlog s -> BacklogBaseCursor s' = BacklogBaseCursor s ->
  (forall id sub, Subscribers s' !! id = Some sub ->
     exists id0 sub0, Subscribers s !! id0 = Some sub0 /\ Cursor sub = Cursor sub0) ->
  stream_inv log s -> stream_inv log s'.
Proof.
  intros H1 H2 H3 [Hb Hl Hc]. split; rewrite ?H1, ?H2; try done.
  intros id sub Hs. destruct (H3 _ _ Hs) as (id0 & sub0 & Hs0 & ->). eauto.
Qed.

Lemma stream_inv_trim now log s :
  stream_inv log s -> stream_inv log (trimAcknowledgedBacklogLocked now s).
Proof.
  intros Hinv. pose proof (stream_inv_end _ _ Hinv) as Hend.
  unfold trimAcknowledgedBacklogLocked.
  case_decide; [done|]. case_decide; [done|].
  destruct Hinv as [Hb Hl Hc].
  destruct (min_cursor_le (backlog_end s) (Subscribers s)) as [Hle Hall].
  destruct (_ - _ <=? 0) eqn:E; zbool; [by split|].
  rewrite Z.min_l by (unfold backlog_end in *; lia).
  split; simpl.
  - unfold backlog_end in *. lia.
  - rewrite Hl, drop_drop. f_equal. lia.
  - intros id sub Hs. specialize (Hall _ _ Hs). specialize (Hc _ _ Hs). lia.
Qed.

Lemma trim_subscribers now s :
  Subscribers (trimAcknowledgedBacklogLocked now s) = Subscribers s.
Proof. unfold trimAcknowledgedBacklogLocked. by repeat case_match. Qed.

Lemma trim_status now s : Status (trimAcknowledgedBacklogLocked now s) = Status s.
Proof. unfold trimAcknowledgedBacklogLocked. by repeat case_match. Qed.

(** Moving the cursor of one subscriber forward. *)
Lemma stream_inv_acknowledge log s id sub sig cursor :
  stream_inv log s -> Subscribers s !! id = Some sub ->
  Cursor sub <= cursor <= Z.of_nat (length log) ->
  stream_inv log (s <| Subscribers := <[id := mkSubscriber sig cursor]> (Subscribers s) |>).
Proof.
  intros [Hb Hl Hc] Hs Hcur. split; simpl; [done|done|].
  intros id' sub'. rewrite lookup_insert_Some. specialize (Hc _ _ Hs) as Hsub.
  intros [[_ <-]|[_ ?]]; [simpl; lia|eauto].
Qed.

Lemma lookup_signal_all subs id sub :
  signal_all subs !! id = Some sub ->
  exists sub0, subs !! id = Some sub0 /\ sub = mkSubscriber true (Cursor sub0).
Proof.
  unfold signal_all. rewrite lookup_fmap. destruct (subs !! id) as [sub0|]; simpl; [|done].
  intros [= <-]. eauto.
Qed.

Lemma stream_inv_publish now limit event log s :
  stream_inv log s -> End_ event = true \/ isTerminalStreamStatus (Status s) = false ->
  0 <= limit -> stream_inv (log ++ [event]) (publish_stream now limit event s).
Proof.
  intros [Hb Hl Hc] Hacc Hlim. unfold publish_stream.
  destruct (negb (End_ event) && isTerminalStreamStatus (Status s)) eqn:E.
  { apply andb_prop in E as [E1%negb_true_iff E2]. destruct Hacc; congruence. }
  assert (Hnew : Backlog s ++ [event] =
                 drop (Z.to_nat (BacklogBaseCursor s)) (log ++ [event])).
  { rewrite drop_app_le by lia. by rewrite <- Hl. }
  simpl. destruct (bool_decide (Subscribers s = ∅) &&
    (limit <? Z.of_nat (length (Backlog s ++ [event])))) eqn:Eo; simpl.
  - apply andb_prop in Eo as [Hsub Hov]. zbool.
    split; simpl.
    + rewrite length_app in Hov. rewrite !length_app. simpl in *.
      rewrite Hl, length_drop in *. lia.
    + assert (0 < Z.of_nat (length (Backlog s ++ [event])) - limit) as Hpos by lia.
      revert Hpos. generalize (Z.of_nat (length (Backlog s ++ [event])) - limit) as overflow.
      intros overflow Hpos. rewrite Hnew, drop_drop. f_equal. lia.
    + intros id sub (sub0 & Hs & _)%lookup_signal_all. rewrite Hsub, lookup_empty in Hs. done.
  - split; simpl.
    + rewrite length_app. simpl. lia.
    + done.
    + intros id sub (sub0 & Hs & ->)%lookup_signal_all. simpl.
      specialize (Hc _ _ Hs). rewrite length_app. simpl. lia.
Qed.

Lemma read_stream_spec log s cursor :
  stream_inv log s -> BacklogBaseCursor s <= cursor ->
  read_stream cursor s = drop (Z.to_nat cursor) log.
Proof.
  intros [Hb Hl _] Hc. unfold read_stream.
  destruct (cursor <? BacklogBaseCursor s) eqn:E1; zbool.
  destruct (_ <=? cursor - _) eqn:E2; zbool; rewrite Hl in *.
  - rewrite length_drop in E2. symmetry. apply drop_ge. lia.
  - rewrite drop_drop. f_equal. lia.
Qed.

(** ** The delivery invariant *)

Lemma Get_set_stream rid s b : Get rid (set_stream (TrimSpace rid) s b) = Some s.
Proof. unfold Get, set_stream. simpl. apply lookup_insert_eq. Qed.

Definition not_end (e : StreamEvent) : Prop := End_ e = false.

(** At most one end event, in last position, and none while the stream is live; a stream
    that was opened again after its end has an empty log. *)
Definition terminal_ok (log : list StreamEvent) (pending : option StreamEvent)
    (terminal : bool) : Prop :=
  if terminal then
    match pending with
    | Some e => End_ e = true /\ Forall not_end log
    | None => log = [] \/ exists l e, log = l ++ [e] /\ End_ e = true /\ Forall not_end l
    end
  else pending = None /\ Forall not_end log.

Definition reader_ok (log : list StreamEvent) (r : Reader) (batch : list StreamEvent) : Prop :=
  0 <= local_cursor r <= Z.of_nat (length log) /\
  sent r = omap Message_ (take (Z.to_nat (local_cursor r)) log) /\
  batch = take (length batch) (drop (Z.to_nat (local_cursor r)) log) /\
  (ended r = true -> batch = [] /\ 1 <= local_cursor r /\
     exists e, log !! Z.to_nat (local_cursor r - 1) = Some e /\ End_ e = true).

Record stream_ok (me : string) (d : Delivery) (s : ActiveStream) : Prop := {
  so_inv : stream_inv (dlog d) s;
  so_me : exists sig, Subscribers s !! me = Some (mkSubscriber sig (local_cursor (dreader d)));
  so_reader : reader_ok (dlog d) (dreader d) (dbatch d);
  so_terminal : terminal_ok (dlog d) (dpending d) (isTerminalStreamStatus (Status s))
}.

Record delivery_inv (rid me : string) (d : Delivery) : Prop := {
  di_limit : 1 <= backlogLimit (dbroker d);
  di_me : exists k, me = subscriber_name k /\ 0 <= k <= nextID (dbroker d) /\
            nextID (dbroker d) <= max_uint64;
  di_stream : exists s, Get rid (dbroker d) = Some s /\ stream_ok me d s
}.

Lemma stream_ok_subscribed me d s : stream_ok me d s -> Subscribers s <> ∅.
Proof. intros [_ [sig Hs] _ _] He. by rewrite He, lookup_empty in Hs. Qed.

(** Taking one more event extends what was sent by that event's message. *)
Lemma reader_ok_send log r event rest :
  reader_ok log r (event :: rest) ->
  let n := Z.to_nat (local_cursor r) in
  log !! n = Some event /\ local_cursor r + 1 <= Z.of_nat (length log) /\
  omap Message_ (take (S n) log) =
    sent r ++ match Message_ event with Some m => [m] | None => [] end /\
  rest = take (length rest) (drop (S n) log).
Proof.
  intros (Hr & Hs & Hb & _) n. subst n. revert Hb. rewrite Hs.
  set (n := Z.to_nat (local_cursor r)). intros Hb.
  assert (Hlook : log !! n = Some event).
  { rewrite <- (Nat.add_0_r n), <- lookup_drop.
    destruct (drop n log) as [|x l] eqn:E; simpl in Hb; [done|]. by simplify_eq. }
  split_and!; [done| | |].
  - apply lookup_lt_Some in Hlook. lia.
  - rewrite (take_S_r _ _ _ Hlook), omap_app. simpl. by destruct (Message_ event).
  - rewrite (drop_S _ _ _ Hlook) in Hb. simpl in Hb. by injection Hb.
Qed.

(** Extending the log keeps what the reader has. *)
Lemma reader_ok_log log event r batch :
  reader_ok log r batch -> reader_ok (log ++ [event]) r batch.
Proof.
  intros (Hr & Hs & Hb & He). unfold reader_ok. rewrite length_app. simpl. split_and!.
  - lia.
  - lia.
  - by rewrite take_app_le by lia.
  - rewrite drop_app_le by lia. rewrite Hb at 1. rewrite take_app_le; [done|].
    apply (f_equal length) in Hb. rewrite length_take in Hb. lia.
  - intros (-> & ? & e & Hl & Hend)%He. split_and!; [done|done|]. exists e. split; [|done].
    by apply lookup_app_l_Some.
Qed.

(** A step that leaves the log, the reader and the pending event alone. *)
Lemma delivery_inv_broker rid me d b' s' :
  delivery_inv rid me d -> backlogLimit b' = backlogLimit (dbroker d) ->
  nextID (dbroker d) <= nextID b' <= max_uint64 -> Get rid b' = Some s' ->
  (forall s, Get rid (dbroker d) = Some s -> stream_ok me d s ->
     stream_inv (dlog d) s' /\
     (exists sig, Subscribers s' !! me =
                    Some (mkSubscriber sig (local_cursor (dreader d)))) /\
     isTerminalStreamStatus (Status s') = isTerminalStreamStatus (Status s)) ->
  delivery_inv rid me (d <| dbroker := b' |>).
Proof.
  intros [Hl (k & Hk & Hn) (s & Hs & Hok)] Hlim Hid Hget Hstep.
  destruct (Hstep s Hs Hok) as (H1 & H2 & H3).
  split; simpl; [lia|exists k; split; [done|lia]|]. exists s'. split; [done|].
  destruct Hok as [_ _ Hr Ht]. split; simpl; try done. by rewrite H3.
Qed.

Lemma stop_timer_inv log s :
  stream_inv log s -> stream_inv log (stopTerminalCleanupTimerLocked s).
Proof. apply stream_inv_ext; simpl; eauto. Qed.

(** Replacing the stream by one with the same backlog, subscribers and status. *)
Lemma delivery_inv_same rid me d s s' b' :
  delivery_inv rid me d -> Get rid (dbroker d) = Some s ->
  Get rid b' = Some s' -> backlogLimit b' = backlogLimit (dbroker d) ->
  nextID b' = nextID (dbroker d) ->
  Backlog s' = Backlog s -> BacklogBaseCursor s' = BacklogBaseCursor s ->
  Subscribers s' = Subscribers s ->
  isTerminalStreamStatus (Status s') = isTerminalStreamStatus (Status s) ->
  delivery_inv rid me (d <| dbroker := b' |>).
Proof.
  intros Hinv Hs Hs' Hlim Hid H1 H2 H3 H4.
  apply (delivery_inv_broker rid me d b' s'); try done.
  - destruct Hinv as [_ (k & _ & Hk) _]. lia.
  - intros s0 Hs0 [Hi Hm _ _]. rewrite Hs in Hs0. injection Hs0 as <-.
    split_and!; [|by rewrite H3|done].
    apply (stream_inv_ext _ s); try done. rewrite H3. eauto.
Qed.

Lemma delivery_inv_set rid me d s s' :
  delivery_inv rid me d -> Get rid (dbroker d) = Some s ->
  Backlog s' = Backlog s -> BacklogBaseCursor s' = BacklogBaseCursor s ->
  Subscribers s' = Subscribers s ->
  isTerminalStreamStatus (Status s') = isTerminalStreamStatus (Status s) ->
  delivery_inv rid me (d <| dbroker := set_stream (TrimSpace rid) s' (dbroker d) |>).
Proof.
  intros Hinv Hs. apply (delivery_inv_same rid me d s s'); try done. apply Get_set_stream.
Qed.

Lemma delivery_inv_id rid me d :
  delivery_inv rid me d -> delivery_inv rid me (d <| dbroker := dbroker d |>).
Proof. by destruct d. Qed.

Lemma delivery_inv_schedule rid me d now :
  delivery_inv rid me d ->
  delivery_inv rid me (d <| dbroker := (scheduleTerminalCleanup now rid (dbroker d)).2 |>).
Proof.
  intros Hinv. destruct (di_stream _ _ _ Hinv) as (s & Hs & Hok).
  unfold scheduleTerminalCleanup. rewrite Hs.
  rewrite bool_decide_eq_false_2 by (by eapply stream_ok_subscribed). simpl.
  by eapply delivery_inv_set.
Qed.

Lemma delivery_inv_remove rid me d s s0 :
  delivery_inv rid me d -> Get rid (dbroker d) = Some s ->
  Backlog s0 = Backlog s -> BacklogBaseCursor s0 = BacklogBaseCursor s ->
  Subscribers s0 = Subscribers s ->
  isTerminalStreamStatus (Status s0) = isTerminalStreamStatus (Status s) ->
  Subscribers s <> ∅ ->
  delivery_inv rid me
    (d <| dbroker := (RemoveIfIdle rid (set_stream (TrimSpace rid) s0 (dbroker d))).2 |>).
Proof.
  intros Hinv Hs H1 H2 H3 H4 Hne. unfold RemoveIfIdle.
  case_decide as Hrid; [by apply (delivery_inv_set rid me d s s0)|].
  assert (Hlook : streams (set_stream (TrimSpace rid) s0 (dbroker d)) !! TrimSpace rid = Some s0)
    by apply Get_set_stream.
  rewrite Hlook, bool_decide_eq_false_2 by (by rewrite H3). simpl.
  destruct (isTerminalStreamStatus (Status s0)) eqn:Et.
  - apply (delivery_inv_same rid me d s (stopTerminalCleanupTimerLocked s0)); try done.
    + apply Get_set_stream.
    + by rewrite <- H4.
  - apply (delivery_inv_set rid me d s s0); try done. by rewrite Et.
Qed.

Lemma delivery_inv_cleanup rid me d sequence :
  delivery_inv rid me d ->
  delivery_inv rid me
    (d <| dbroker := runScheduledTerminalCleanup rid sequence (dbroker d) |>).
Proof.
  intros Hinv. destruct (di_stream _ _ _ Hinv) as (s & Hs & Hok).
  unfold runScheduledTerminalCleanup. rewrite Hs.
  destruct (TerminalCleanupSeq s =? sequence); simpl; [|by apply delivery_inv_id].
  rewrite bool_decide_eq_false_2 by (by eapply stream_ok_subscribed). simpl.
  by eapply delivery_inv_set.
Qed.

Lemma delivery_inv_remove_idle rid me d :
  delivery_inv rid me d ->
  delivery_inv rid me (d <| dbroker := (RemoveIfIdle rid (dbroker d)).2 |>).
Proof.
  intros Hinv. destruct (di_stream _ _ _ Hinv) as (s & Hs & Hok).
  assert (Hid : set_stream (TrimSpace rid) s (dbroker d) = dbroker d).
  { unfold set_stream. destruct (dbroker d) as [st ? ? ?] eqn:E. simpl. f_equal.
    apply insert_id. unfold Get in Hs. by rewrite ?E in Hs. }
  rewrite <- Hid. apply (delivery_inv_remove rid me d s s); try done.
  by eapply stream_ok_subscribed.
Qed.

Lemma delivery_inv_subscribe rid me d now :
  delivery_inv rid me d -> nextID (dbroker d) < max_uint64 ->
  delivery_inv rid me (d <| dbroker := (Subscribe now rid (dbroker d)).2 |>).
Proof.
  intros Hinv Hid. destruct (di_stream _ _ _ Hinv) as (s & Hs & Hok).
  destruct (di_me _ _ _ Hinv) as (k & -> & Hk & Hmax).
  unfold Subscribe. case_decide as Hrid; [by apply delivery_inv_id|].
  unfold Get in *. rewrite TrimSpace_idem, Hs. simpl.
  rewrite wrap_uint64_id by (unfold is_uint64; lia). rewrite Hs.
  assert (Hget : forall b st i, Get rid (set_stream (TrimSpace rid) st
                          (b <| nextID := i |>)) = Some st).
  { intros. apply Get_set_stream. }
  destruct (isTerminalStreamStatus (Status s)) eqn:Et; simpl.
  - apply (delivery_inv_broker rid _ d _ s); try done; [simpl; lia|].
    intros s0 Hs0 [Hi Hm _ _]. unfold Get in Hs0. rewrite Hs in Hs0.
    by injection Hs0 as <-.
  - eapply (delivery_inv_broker rid _ d); [done|done|simpl; lia|apply Get_set_stream|].
    intros s0 Hs0 [Hi [sig Hm] _ _]. unfold Get in Hs0. rewrite Hs in Hs0.
    injection Hs0 as <-. split_and!; [|exists sig|done].
    + destruct Hi as [Hb Hl Hc]. split; simpl; [done|done|].
      intros id sub. rewrite lookup_insert_Some. intros [[_ <-]|[_ ?]]; [simpl; lia|eauto].
    + simpl. rewrite lookup_insert_ne; [done|].
      intros Heq. apply subscriber_name_inj in Heq; lia.
Qed.

Lemma delivery_inv_unsubscribe rid me d other :
  delivery_inv rid me d -> TrimSpace other <> me ->
  delivery_inv rid me (d <| dbroker := (Unsubscribe rid other (dbroker d)).2 |>).
Proof.
  intros Hinv Hne. destruct (di_stream _ _ _ Hinv) as (s & Hs & Hok).
  unfold Unsubscribe. rewrite Hs. simpl.
  eapply (delivery_inv_broker rid me d); [done|done| |apply Get_set_stream|].
  { destruct Hinv as [_ (k & _ & Hk) _]. simpl. lia. }
  intros s0 Hs0 [Hi [sig Hm] _ _]. rewrite Hs in Hs0. injection Hs0 as <-.
  split_and!; [|exists sig|done].
  - apply (stream_inv_ext _ s); try done. simpl.
    intros id sub [_ ?]%lookup_delete_Some. eauto.
  - simpl. by rewrite lookup_delete_ne.
Qed.

Lemma delivery_inv_acknowledge rid me d now other cursor :
  delivery_inv rid me d -> TrimSpace other <> me ->
  delivery_inv rid me
    (d <| dbroker := (AcknowledgeCursor now rid other cursor (dbroker d)).2 |>).
Proof.
  intros Hinv Hne. destruct (di_stream _ _ _ Hinv) as (s & Hs & Hok).
  unfold AcknowledgeCursor. rewrite Hs.
  destruct (Subscribers s !! TrimSpace other) as [sub|] eqn:Hsub; [|by apply delivery_inv_id].
  destruct (_ || _) eqn:E; [by apply delivery_inv_id|]. zbool.
  eapply (delivery_inv_broker rid me d); [done|done| |apply Get_set_stream|].
  { destruct Hinv as [_ (k & _ & Hk) _]. simpl. lia. }
  intros s0 Hs0 [Hi [sig Hm] _ _]. rewrite Hs in Hs0. injection Hs0 as <-.
  pose proof (stream_inv_end _ _ Hi) as Hend.
  split_and!; [apply stream_inv_trim| |].
  - apply stream_inv_acknowledge with (sub := sub); [done|done|lia].
  - exists sig. rewrite trim_subscribers. simpl. by rewrite lookup_insert_ne.
  - by rewrite trim_status.
Qed.

Lemma publish_subscribers now limit event s id sub :
  Subscribers s !! id = Some sub ->
  exists sig, Subscribers (publish_stream now limit event s) !! id =
                Some (mkSubscriber sig (Cursor sub)).
Proof.
  intros Hs. unfold publish_stream, signal_all.
  destruct (negb _ && _); [exists (Signal sub); by destruct sub|].
  exists true. destruct (_ && _); simpl; rewrite lookup_fmap, Hs; done.
Qed.

Lemma publish_status now limit event s :
  Status (publish_stream now limit event s) = Status s.
Proof. unfold publish_stream. by repeat case_match. Qed.

(** Publishing an event that the stream accepts. *)
Lemma delivery_inv_publish rid me d now event pending s :
  delivery_inv rid me d -> Get rid (dbroker d) = Some s ->
  End_ event = true \/ isTerminalStreamStatus (Status s) = false ->
  terminal_ok (dlog d ++ [event]) pending (isTerminalStreamStatus (Status s)) ->
  delivery_inv rid me
    (d <| dbroker := (Publish now rid event (dbroker d)).2 |>
       <| dlog := dlog d ++ [event] |> <| dpending := pending |>).
Proof.
  intros [Hl Hme (s0 & Hs0 & Hok)] Hs Hacc Ht. rewrite Hs in Hs0. injection Hs0 as <-.
  unfold Publish. rewrite Hs. split; simpl; [done|done|].
  eexists. split; [apply Get_set_stream|]. destruct Hok as [Hi [sig Hm] Hr _].
  split; simpl.
  - apply stream_inv_publish; [done|done|lia].
  - by apply (publish_subscribers now (backlogLimit (dbroker d)) event) in Hm.
  - by apply reader_ok_log.
  - by rewrite publish_status.
Qed.

Lemma delivery_inv_publish_message rid me d now event b' :
  delivery_inv rid me d -> End_ event = false ->
  Publish now rid event (dbroker d) = (Ok tt, b') ->
  delivery_inv rid me
    (d <| dbroker := b' |>
       <| dlog := if stream_terminal rid (dbroker d) then dlog d else dlog d ++ [event] |>).
Proof.
  intros Hinv He Hpub. destruct (di_stream _ _ _ Hinv) as (s & Hs & Hok).
  assert (b' = (Publish now rid event (dbroker d)).2) as -> by by rewrite Hpub.
  unfold stream_terminal. rewrite Hs.
  destruct (isTerminalStreamStatus (Status s)) eqn:Et.
  - unfold Publish. rewrite Hs. simpl. unfold publish_stream. rewrite He, Et. simpl.
    by apply (delivery_inv_set rid me d s s).
  - pose proof (so_terminal _ _ _ Hok) as Hterm. rewrite Et in Hterm. destruct Hterm as [Hp Hf].
    pose proof (delivery_inv_publish rid me d now event (dpending d) s Hinv Hs
                  (or_intror Et)) as H.
    destruct d. apply H. rewrite Et. split; [done|].
    apply Forall_app_2; [done|]. by constructor.
Qed.

Lemma terminal_event_end t : End_ (terminal_event t) = true.
Proof. by destruct t. Qed.

Lemma terminal_stream_terminal t s : isTerminalStreamStatus (Status (terminal_stream t s)) = true.
Proof. by destruct t. Qed.

Lemma delivery_inv_claim rid me d now t n b' :
  delivery_inv rid me d -> dpending d = None ->
  claim_terminal now rid t (dbroker d) = (Ok (Some n), b') ->
  delivery_inv rid me (d <| dbroker := b' |> <| dpending := Some (terminal_event t) |>).
Proof.
  intros [Hl Hme (s & Hs & Hok)] Hp Hc. unfold claim_terminal in Hc. rewrite Hs in Hc.
  destruct (isTerminalStreamStatus (Status s)) eqn:Et; [done|]. injection Hc as _ <-.
  destruct Hok as [Hi [sig Hm] Hr Ht]. rewrite Et in Ht. destruct Ht as [_ Hf].
  assert (Hsame : let s' := terminal_stream t (stopTerminalCleanupTimerLocked s) in
            Backlog s' = Backlog s /\ BacklogBaseCursor s' = BacklogBaseCursor s /\
            Subscribers s' = Subscribers s) by (by destruct t).
  destruct Hsame as (H1 & H2 & H3).
  split; simpl; [done|done|]. eexists. split; [apply Get_set_stream|].
  split; simpl; [|exists sig; by rewrite H3|done|].
  - apply (stream_inv_ext _ s); simpl; rewrite ?H1, ?H2, ?H3; eauto.
  - rewrite terminal_stream_terminal. split; [apply terminal_event_end|done].
Qed.

Lemma delivery_inv_publish_end rid me d now event b' :
  delivery_inv rid me d -> dpending d = Some event ->
  Publish now rid event (dbroker d) = (Ok tt, b') ->
  delivery_inv rid me
    (d <| dbroker := b' |> <| dlog := dlog d ++ [event] |> <| dpending := None |>).
Proof.
  intros Hinv Hp Hpub. destruct (di_stream _ _ _ Hinv) as (s & Hs & Hok).
  assert (b' = (Publish now rid event (dbroker d)).2) as -> by by rewrite Hpub.
  pose proof (so_terminal _ _ _ Hok) as Ht. unfold terminal_ok in Ht. rewrite Hp in Ht.
  destruct (isTerminalStreamStatus (Status s)) eqn:Et; [|by destruct Ht].
  destruct Ht as [He Hf]. simpl.
  apply (delivery_inv_publish rid me d now event None s); [done|done|by left|].
  rewrite Et. simpl. right. eauto.
Qed.

Lemma delivery_inv_fetch rid me d events :
  delivery_inv rid me d -> ended (dreader d) = false ->
  ReadFromCursor rid (local_cursor (dreader d)) (dbroker d) = Ok events ->
  events = drop (Z.to_nat (local_cursor (dreader d))) (dlog d).
Proof.
  intros [_ _ (s & Hs & [Hi [sig Hm] Hr _])] He Hread.
  unfold ReadFromCursor in Hread. rewrite Hs in Hread. injection Hread as <-.
  apply read_stream_spec; [done|]. by apply (si_cursors _ _ Hi) in Hm as [? _].
Qed.

Lemma delivery_inv_take rid me d events :
  delivery_inv rid me d -> ended (dreader d) = false ->
  ReadFromCursor rid (local_cursor (dreader d)) (dbroker d) = Ok events ->
  delivery_inv rid me (d <| dbatch := events |>).
Proof.
  intros Hinv He Hread. rewrite (delivery_inv_fetch _ _ _ _ Hinv He Hread).
  destruct Hinv as [Hl Hme (s & Hs & [Hi Hm (Hc & Hsent & _ & _) Ht])].
  split; simpl; [done|done|]. exists s. split; [done|]. split; simpl; try done.
  split_and!; try done; [lia|lia|by rewrite firstn_all|by rewrite He].
Qed.

Lemma delivery_inv_send rid me d now event rest r b' :
  delivery_inv rid me d -> dbatch d = event :: rest -> ended (dreader d) = false ->
  sse_events now rid me [event] (dreader d) (dbroker d) = (r, b') ->
  delivery_inv rid me
    (d <| dbroker := b' |> <| dreader := r |>
       <| dbatch := if End_ event then [] else rest |>).
Proof.
  intros [Hl (k & Hk & Hn) (s & Hs & [Hi [sig Hm] Hr Ht])] Hb He Hsend.
  rewrite Hb in Hr. destruct (reader_ok_send _ _ _ _ Hr) as (Hlook & Hlen & Homap & Hrest).
  destruct Hr as ([Hc _] & _). pose proof (stream_inv_end _ _ Hi) as Hend.
  assert (Hack : (AcknowledgeCursor now rid me (local_cursor (dreader d) + 1) (dbroker d)).2 =
    set_stream (TrimSpace rid) (trimAcknowledgedBacklogLocked now
      (s <| Subscribers := <[me := mkSubscriber sig (local_cursor (dreader d) + 1)]>
                             (Subscribers s) |>)) (dbroker d)).
  { unfold AcknowledgeCursor. rewrite Hs, Hk, TrimSpace_subscriber_name, <- Hk, Hm by lia.
    simpl. destruct (_ || _) eqn:E; [|done]. apply orb_true_iff in E as [E|E]; zbool. }
  assert (Hr' : r = mkReader (omap Message_ (take (S (Z.to_nat (local_cursor (dreader d)))) (dlog d)))
                     (local_cursor (dreader d) + 1) (End_ event) /\
                b' = (AcknowledgeCursor now rid me (local_cursor (dreader d) + 1) (dbroker d)).2).
  { simpl in Hsend. rewrite Homap. destruct (End_ event); injection Hsend as <- <-;
      (split; [|done]); destruct (Message_ event); by rewrite ?app_nil_r, ?He. }
  destruct Hr' as [-> ->]. rewrite Hack.
  split; simpl; [done|exists k; done|]. eexists. split; [apply Get_set_stream|].
  split; simpl.
  - apply stream_inv_trim, stream_inv_acknowledge with (sub := mkSubscriber sig (local_cursor (dreader d)));
      [done|done|simpl; lia].
  - exists sig. rewrite trim_subscribers. simpl. apply lookup_insert_eq.
  - split_and!; simpl; [lia|lia| | |].
    3: { intros He'. rewrite He'. split_and!; [done|lia|]. exists event. split; [|done].
         by rewrite Z.add_simpl_r. }
    + do 2 f_equal. lia.
    + replace (Z.to_nat (local_cursor (dreader d) + 1)) with (S (Z.to_nat (local_cursor (dreader d))))
        by lia.
      by destruct (End_ event).
  - by rewrite trim_status.
Qed.

Lemma delivery_inv_initial rid me d : d_initial rid me d -> delivery_inv rid me d.
Proof.
  intros (s & k & Hs & Hk & Hn & Hmax & Hl & Hb & Hsub & Hsubs & Ht & Hf & Hlog & Hr & Hbt & Hp & _ & _).
  split; [done|exists k; split_and!; done || lia|]. exists s. split; [done|].
  split; rewrite ?Hr, ?Hlog, ?Hbt, ?Hp.
  - split; rewrite ?Hb; [lia|done|exact Hsubs].
  - by exists false.
  - split_and!; simpl; [lia|lia|done|done|done].
  - by rewrite Ht.
Qed.

Lemma delivery_inv_open rid me d now conversationID turnSeq modelID modelName mode text s b' cut :
  delivery_inv rid me d -> has_begun d = false ->
  OpenStream now rid conversationID turnSeq modelID modelName mode text (dbroker d) = (Ok (Some s), b') ->
  delivery_inv rid me (d <| dbroker := b' |> <| dlog := [] |> <| dcut := cut |>).
Proof.
  intros [Hl Hme (s0 & Hs0 & [Hi [sig Hm] (Hc & Hsent & Hbatch & Hend) Ht])] Hb. unfold OpenStream.
  apply orb_false_elim in Hb as [Hc0%negb_false_iff Hb0%negb_false_iff]. apply bool_decide_eq_true in Hc0, Hb0.
  case_decide; [done|]. destruct (validateSupportedActiveMode mode); [|done].
  unfold Get in Hs0. rewrite Hs0. intros [= <- <-].
  split; simpl; [done|done|]. eexists. split; [apply Get_set_stream|]. split; simpl.
  - split; simpl; [lia|done|]. intros id sub (sub0 & <- & _)%lookup_fmap_Some. done.
  - exists sig. by rewrite lookup_fmap, Hm, Hc0.
  - split_and!; [lia|simpl; lia|by rewrite Hsent, Hc0|by rewrite Hb0|].
    intros He. destruct (Hend He) as (_ & ? & _). lia.
  - destruct (decide (Status s0 = StatusUnset)) as [E|_]; [rewrite E in Ht|];
      destruct (isTerminalStreamStatus (Status s0)); unfold terminal_ok in *; simpl in *.
    all: try (destruct Ht as [-> _]; done). all: try (destruct (dpending d); [by destruct Ht|by left]).
Qed.

Lemma delivery_inv_update rid me d s s' :
  delivery_inv rid me d -> Get rid (dbroker d) = Some s -> same_delivery s s' ->
  delivery_inv rid me (d <| dbroker := set_stream (TrimSpace rid) s' (dbroker d) |>).
Proof.
  intros Hinv Hs (H1 & H2 & H3 & H4).
  eapply (delivery_inv_broker rid me d); [done|done| |apply Get_set_stream|].
  { destruct Hinv as [_ (k & _ & Hk) _]. simpl. lia. }
  intros s0 Hs0 [Hi Hm _ _]. rewrite Hs in Hs0. injection Hs0 as <-.
  split_and!; [|by rewrite H3|done]. apply (stream_inv_ext _ s); [done|done| |done]. rewrite H3. eauto.
Qed.

(** Only an opening cuts the reader off, and the connection lives. *)
Lemma live_cut rid me d d' : live_step rid me d d' ->
  dgone d' = dgone d /\ (dcut d' = false -> dcut d = false).
Proof. intros []; split; try done. simpl. by intros [? _]%orb_false_elim. Qed.

Lemma delivery_inv_live rid me d d' :
  delivery_inv rid me d -> live_step rid me d d' -> dcut d' = false -> delivery_inv rid me d'.
Proof.
  intros Hinv Hstep. destruct Hstep; intros Hcut.
  - by eapply delivery_inv_publish_message.
  - by eapply delivery_inv_claim.
  - by eapply delivery_inv_publish_end.
  - by apply delivery_inv_schedule.
  - by apply delivery_inv_cleanup.
  - by apply delivery_inv_remove_idle.
  - by apply delivery_inv_subscribe.
  - by apply delivery_inv_unsubscribe.
  - by apply delivery_inv_acknowledge.
  - destruct (di_stream _ _ _ Hinv) as (s & Hs & Hok).
    apply (delivery_inv_broker rid me d b' s); try done; [congruence|].
    intros s0 Hs0 [Hi Hm _ _]. rewrite Hs in Hs0. by injection Hs0 as <-.
  - by apply delivery_inv_take.
  - by eapply delivery_inv_send.
  - simpl in Hcut. apply orb_false_elim in Hcut as [_ Hb]. by eapply delivery_inv_open.
  - by eapply delivery_inv_update.
Qed.

(** What stays of [delivery_inv] when the reader has left. *)
Record left_inv (rid : string) (d : Delivery) : Prop := {
  li_reader : reader_ok (dlog d) (dreader d) (dbatch d);
  li_terminal : terminal_ok (dlog d) (dpending d) (stream_terminal rid (dbroker d))
}.

Lemma delivery_left rid me d : delivery_inv rid me d -> left_inv rid d.
Proof. intros [_ _ (s & Hs & [_ _ Hr Ht])]. split; [done|]. unfold stream_terminal. by rewrite Hs. Qed.

Lemma left_inv_leave rid me d : left_inv rid d ->
  left_inv rid (d <| dbroker := (Unsubscribe rid me (dbroker d)).2 |> <| dgone := true |>).
Proof.
  intros [Hr Ht]. split; [done|]. simpl. revert Ht. unfold stream_terminal, Unsubscribe.
  destruct (Get rid (dbroker d)) as [s|] eqn:E; simpl; [by rewrite Get_set_stream|by rewrite E].
Qed.

(** Unless the stream was opened again behind the reader: the invariant, as far as the connection lives. *)
Lemma delivery_inv_reachable rid me d : d_reachable rid me d -> dcut d = false ->
  (dgone d = false -> delivery_inv rid me d) /\ left_inv rid d.
Proof.
  intros (d0 & Hi & Hr). revert d Hr.
  apply (rtc_ind_r (fun d => dcut d = false -> (dgone d = false -> delivery_inv rid me d) /\ left_inv rid d)).
  - intros _. apply delivery_inv_initial in Hi. split; [done|]. by eapply delivery_left.
  - intros d d' _ Hstep IH Hcut. destruct Hstep as [d d' Hg Hstep|d Hg He].
    + destruct (live_cut _ _ _ _ Hstep) as [_ Hc]. destruct (IH (Hc Hcut)) as [Hinv _].
      pose proof (delivery_inv_live _ _ _ _ (Hinv Hg) Hstep Hcut) as H. split; [done|]. by eapply delivery_left.
    + split; [done|]. destruct (IH Hcut) as [_ Hl]. by apply left_inv_leave.
Qed.

(** ** The whole broker: the operations in any order *)

Inductive BrokerOp :=
| OpOpenStream (requestID conversationID : string) (turnSeq : Z)
    (modelID modelName : string) (mode : AgentMode) (latestUserText : string)
| OpSubscribe (requestID : string)
| OpUnsubscribe (requestID subscriberID : string)
| OpAcknowledgeCursor (requestID subscriberID : string) (cursor : Z)
| OpPublish (requestID : string) (event : StreamEvent)
| OpClaimTerminal (requestID : string) (t : Terminal)
| OpFinish (requestID : string) (t : Terminal)
| OpScheduleTerminalCleanup (requestID : string)
| OpRunScheduledTerminalCleanup (requestID : string) (sequence : Z)
| OpRemoveIfIdle (requestID : string).

Definition run_op (now : Z) (b : StreamBroker) (op : BrokerOp) : StreamBroker :=
  match op with
  | OpOpenStream rid cid turn mid mname mode text =>
      (OpenStream now rid cid turn mid mname mode text b).2
  | OpSubscribe rid => (Subscribe now rid b).2
  | OpUnsubscribe rid sid => (Unsubscribe rid sid b).2
  | OpAcknowledgeCursor rid sid cursor => (AcknowledgeCursor now rid sid cursor b).2
  | OpPublish rid event => (Publish now rid event b).2
  | OpClaimTerminal rid t => (claim_terminal now rid t b).2
  | OpFinish rid t => (finish now rid t b).2
  | OpScheduleTerminalCleanup rid => (scheduleTerminalCleanup now rid b).2
  | OpRunScheduledTerminalCleanup rid seq => runScheduledTerminalCleanup rid seq b
  | OpRemoveIfIdle rid => (RemoveIfIdle rid b).2
  end.

(** The cursors of a stream lie between the two ends of its retained backlog. *)
Definition stream_wf (s : ActiveStream) : Prop :=
  0 <= BacklogBaseCursor s /\
  forall id sub, Subscribers s !! id = Some sub ->
    BacklogBaseCursor s <= Cursor sub <= backlog_end s.

(** [stream_wf] is [stream_inv] for some log. *)
Lemma stream_wf_inv s : stream_wf s <-> exists log, stream_inv log s.
Proof.
  split.
  - intros [Hb Hc].
    exists (replicate (Z.to_nat (BacklogBaseCursor s)) (mkEvent None false EmptyString EmptyString)
              ++ Backlog s).
    unfold backlog_end in Hc.
    split; rewrite ?length_app, ?length_replicate; [lia| |intros ? ? H%Hc; lia].
    by rewrite drop_app_length' by by rewrite length_replicate.
  - intros [log Hi]. pose proof (stream_inv_end _ _ Hi) as He. destruct Hi as [Hb _ Hc].
    split; [lia|]. rewrite He. done.
Qed.

(** What holds of each stream of the table. *)
Definition entry_wf (rid : string) (s : ActiveStream) : Prop :=
  RequestID s = rid /\ TrimSpace rid = rid /\ rid <> EmptyString /\ stream_wf s.

Definition broker_wf (b : StreamBroker) : Prop :=
  1 <= backlogLimit b /\ forall rid s, streams b !! rid = Some s -> entry_wf rid s.

Lemma broker_wf_set b rid s s' :
  broker_wf b -> streams b !! rid = Some s -> RequestID s' = RequestID s ->
  (stream_wf s -> stream_wf s') -> broker_wf (set_stream rid s' b).
Proof.
  intros [Hl Hw] Hs Hr Hi. split; simpl; [done|]. intros rid' s0.
  rewrite lookup_insert_Some. intros [[<- <-]|[_ ?]]; [|by apply Hw].
  destruct (Hw _ _ Hs) as (? & ? & ? & ?). split_and!; auto; congruence.
Qed.

Lemma broker_wf_delete b rid :
  broker_wf b -> broker_wf (b <| streams := delete rid (streams b) |>).
Proof. intros [Hl Hw]. split; simpl; [done|]. intros ? ? [_ ?]%lookup_delete_Some. by apply Hw. Qed.

Lemma stream_wf_ext s s' :
  Backlog s' = Backlog s -> BacklogBaseCursor s' = BacklogBaseCursor s ->
  (forall id sub, Subscribers s' !! id = Some sub ->
     exists id0 sub0, Subscribers s !! id0 = Some sub0 /\ Cursor sub = Cursor sub0) ->
  stream_wf s -> stream_wf s'.
Proof. intros ? ? ?. rewrite !stream_wf_inv. intros [log ?]. exists log. by eapply stream_inv_ext. Qed.

Lemma stream_wf_publish now limit event s :
  0 <= limit -> stream_wf s -> stream_wf (publish_stream now limit event s).
Proof.
  intros Hl. rewrite !stream_wf_inv. intros [log Hi].
  destruct (negb (End_ event) && isTerminalStreamStatus (Status s)) eqn:E.
  - exists log. unfold publish_stream. by rewrite E.
  - exists (log ++ [event]). apply stream_inv_publish; [done| |done].
    apply andb_false_iff in E as [?%negb_false_iff|?]; auto.
Qed.

Lemma publish_requestID now limit event s :
  RequestID (publish_stream now limit event s) = RequestID s.
Proof. unfold publish_stream. by repeat case_match. Qed.

Lemma broker_wf_open now rid cid turn mid mname mode text b :
  broker_wf b -> broker_wf (OpenStream now rid cid turn mid mname mode text b).2.
Proof.
  intros Hw. unfold OpenStream. case_decide as Hrid; [done|].
  destruct (validateSupportedActiveMode mode); [|done]. simpl.
  destruct (streams b !! TrimSpace rid) as [s|] eqn:Hs.
  - apply broker_wf_set with (s := s); [done|done|done|]. intros _. split; simpl; [done|].
    intros id sub (sub0 & <- & _)%lookup_fmap_Some. done.
  - destruct Hw as [Hl Hw]. split; [done|]. intros rid' s0. simpl.
    rewrite lookup_insert_Some. intros [[<- <-]|[_ ?]]; [|by apply Hw].
    split_and!; simpl; [done|apply TrimSpace_idem|done|]. split; [done|].
    intros ? ?. simpl. by rewrite lookup_empty.
Qed.

Lemma broker_wf_same b rid s s' :
  broker_wf b -> streams b !! rid = Some s -> RequestID s' = RequestID s ->
  Backlog s' = Backlog s -> BacklogBaseCursor s' = BacklogBaseCursor s ->
  Subscribers s' = Subscribers s -> broker_wf (set_stream rid s' b).
Proof.
  intros Hw Hs Hr H1 H2 H3. apply (broker_wf_set b rid s s'); try done.
  apply stream_wf_ext; [done|done|]. rewrite H3. eauto.
Qed.

Lemma broker_wf_schedule now rid b :
  broker_wf b -> broker_wf (scheduleTerminalCleanup now rid b).2.
Proof.
  intros Hw. unfold scheduleTerminalCleanup, Get.
  destruct (streams b !! TrimSpace rid) as [s|] eqn:Hs; [|done].
  by repeat case_match; simpl; apply (broker_wf_same b (TrimSpace rid) s).
Qed.

Lemma broker_wf_remove rid b : broker_wf b -> broker_wf (RemoveIfIdle rid b).2.
Proof.
  intros Hw. unfold RemoveIfIdle. case_decide; [done|].
  destruct (streams b !! TrimSpace rid) as [s|] eqn:Hs; [|done].
  assert (Hw1 : broker_wf (if isTerminalStreamStatus (Status s)
    then set_stream (TrimSpace rid) (stopTerminalCleanupTimerLocked s) b else b)).
  { case_match; [by apply (broker_wf_same b _ s)|done]. }
  cbv zeta. revert Hw1. generalize (if isTerminalStreamStatus (Status s)
    then set_stream (TrimSpace rid) (stopTerminalCleanupTimerLocked s) b else b).
  intros b1 Hw1. repeat case_match; try done; by apply (broker_wf_delete b1 (TrimSpace rid)).
Qed.

Lemma broker_wf_cleanup rid sequence b :
  broker_wf b -> broker_wf (runScheduledTerminalCleanup rid sequence b).
Proof.
  intros Hw. unfold runScheduledTerminalCleanup, Get.
  destruct (streams b !! TrimSpace rid) as [s|] eqn:Hs; [|done].
  repeat case_match; try done; try apply broker_wf_remove; by apply (broker_wf_same b _ s).
Qed.

Lemma broker_wf_subscribe now rid b : broker_wf b -> broker_wf (Subscribe now rid b).2.
Proof.
  intros Hw. unfold Subscribe. case_decide; [done|].
  set (b1 := match Get (TrimSpace rid) b with Some _ => b | None => _ end).
  assert (Hw1 : broker_wf (b1 <| nextID := wrap_uint64 (nextID b1 + 1) |>)).
  { subst b1. case_match; [done|]. by apply broker_wf_open. }
  simpl in Hw1. destruct (streams _ !! TrimSpace rid) as [s|] eqn:Hs; [|done].
  case_match; [done|]. apply (broker_wf_set _ _ s); [done|done|done|].
  intros [Hb Hc]. split; simpl; [done|]. intros id sub. rewrite lookup_insert_Some.
  unfold backlog_end. simpl. intros [[_ <-]|[_ ?%Hc]]; [simpl; lia|done].
Qed.

Lemma broker_wf_acknowledge now rid sid cursor b :
  broker_wf b -> broker_wf (AcknowledgeCursor now rid sid cursor b).2.
Proof.
  intros Hw. unfold AcknowledgeCursor, Get.
  destruct (streams b !! TrimSpace rid) as [s|] eqn:Hs; [|done].
  destruct (Subscribers s !! TrimSpace sid) as [sub|] eqn:Hsub; [|done].
  destruct (_ || _) eqn:E; [done|]. zbool. simpl. apply (broker_wf_set _ _ s); [done|done| |].
  { unfold trimAcknowledgedBacklogLocked. by repeat case_match. }
  rewrite !stream_wf_inv. intros [log Hi]. exists log.
  pose proof (stream_inv_end _ _ Hi).
  apply stream_inv_trim, stream_inv_acknowledge with (sub := sub); [done|done|lia].
Qed.

Lemma broker_wf_publish now rid event b : broker_wf b -> broker_wf (Publish now rid event b).2.
Proof.
  intros Hw. unfold Publish, Get.
  destruct (streams b !! TrimSpace rid) as [s|] eqn:Hs; [|done].
  apply (broker_wf_set _ _ s); [done|done|apply publish_requestID|].
  apply stream_wf_publish. destruct Hw. lia.
Qed.

Lemma broker_wf_claim now rid t b : broker_wf b -> broker_wf (claim_terminal now rid t b).2.
Proof.
  intros Hw. unfold claim_terminal, Get.
  destruct (streams b !! TrimSpace rid) as [s|] eqn:Hs; [|done].
  case_match; [done|]. by destruct t; apply (broker_wf_same _ _ s).
Qed.

Lemma broker_wf_finish now rid t b : broker_wf b -> broker_wf (finish now rid t b).2.
Proof.
  intros Hw. unfold finish. pose proof (broker_wf_claim now rid t b Hw) as H1.
  destruct (claim_terminal now rid t b) as [[[n|]|] b1]; try done.
  pose proof (broker_wf_publish now rid (terminal_event t) b1 H1) as H2.
  destruct (Publish now rid (terminal_event t) b1) as [[] b2]; [|done].
  destruct n; [by apply broker_wf_schedule|done].
Qed.

Lemma broker_wf_run_op now b op : broker_wf b -> broker_wf (run_op now b op).
Proof.
  intros Hw. destruct op; simpl.
  - by apply broker_wf_open.
  - by apply broker_wf_subscribe.
  - unfold Unsubscribe, Get. destruct (streams b !! TrimSpace requestID) as [s|] eqn:Hs; [|done].
    apply (broker_wf_set _ _ s); [done|done|done|]. apply stream_wf_ext; [done|done|].
    simpl. intros ? ? [_ ?]%lookup_delete_Some. eauto.
  - by apply broker_wf_acknowledge.
  - by apply broker_wf_publish.
  - by apply broker_wf_claim.
  - by apply broker_wf_finish.
  - by apply broker_wf_schedule.
  - by apply broker_wf_cleanup.
  - by apply broker_wf_remove.
Qed.

Lemma broker_wf_new limit : broker_wf (NewStreamBrokerWithBacklogLimit limit).
Proof.
  split; simpl; [case_match; unfold defaultStreamBacklogLimit; zbool|].
  intros rid s. by rewrite lookup_empty.
Qed.

(** ** Terminal statuses *)

(** What is left of a stream of status [st] under [rid]: nothing, or a stream of the
    same status. *)
Definition keeps_status (rid : string) (st : StreamStatus) (b : StreamBroker) : Prop :=
  match streams b !! rid with None => True | Some s => Status s = st end.

Lemma keeps_status_set rid st (b : StreamBroker) rid' s s' :
  keeps_status rid st b -> streams b !! rid' = Some s -> Status s' = Status s ->
  keeps_status rid st (set_stream rid' s' b).
Proof.
  unfold keeps_status. simpl. intros Hb Hs Hst. destruct (decide (rid' = rid)) as [->|].
  - rewrite lookup_insert_eq. rewrite Hs in Hb. congruence.
  - by rewrite lookup_insert_ne.
Qed.

Lemma keeps_status_delete rid st (b : StreamBroker) rid' :
  keeps_status rid st b -> keeps_status rid st (b <| streams := delete rid' (streams b) |>).
Proof.
  unfold keeps_status. simpl. intros Hb. destruct (decide (rid' = rid)) as [->|].
  - by rewrite lookup_delete_eq.
  - by rewrite lookup_delete_ne.
Qed.

Lemma keeps_status_remove rid st b rid' :
  keeps_status rid st b -> keeps_status rid st (RemoveIfIdle rid' b).2.
Proof.
  intros Hb. unfold RemoveIfIdle. case_decide; [done|].
  destruct (streams b !! TrimSpace rid') as [s|] eqn:Hs; [|done].
  assert (Hb1 : keeps_status rid st (if isTerminalStreamStatus (Status s)
    then set_stream (TrimSpace rid') (stopTerminalCleanupTimerLocked s) b else b)).
  { case_match; [|done]. by apply (keeps_status_set _ _ _ _ s). }
  cbv zeta. revert Hb1. generalize (if isTerminalStreamStatus (Status s)
    then set_stream (TrimSpace rid') (stopTerminalCleanupTimerLocked s) b else b).
  intros b1 Hb1. repeat case_match; try done;
    by apply (keeps_status_delete rid st b1 (TrimSpace rid')).
Qed.

Lemma keeps_status_schedule now rid st b rid' :
  keeps_status rid st b -> keeps_status rid st (scheduleTerminalCleanup now rid' b).2.
Proof.
  intros Hb. unfold scheduleTerminalCleanup, Get.
  destruct (streams b !! TrimSpace rid') as [s|] eqn:Hs; [|done].
  by repeat case_match; simpl; apply (keeps_status_set rid st b (TrimSpace rid') s).
Qed.

Lemma keeps_status_publish now rid st b rid' event :
  keeps_status rid st b -> keeps_status rid st (Publish now rid' event b).2.
Proof.
  intros Hb. unfold Publish, Get.
  destruct (streams b !! TrimSpace rid') as [s|] eqn:Hs; [|done].
  apply (keeps_status_set _ _ _ _ s); [done|done|apply publish_status].
Qed.

Lemma keeps_status_claim now rid st b rid' t :
  isTerminalStreamStatus st = true ->
  keeps_status rid st b -> keeps_status rid st (claim_terminal now rid' t b).2.
Proof.
  intros Hst Hb. unfold claim_terminal, Get.
  destruct (streams b !! TrimSpace rid') as [s|] eqn:Hs; [|done].
  case_match; [done|]. unfold keeps_status in *. simpl.
  destruct (decide (TrimSpace rid' = rid)) as [<-|].
  - rewrite Hs in Hb. congruence.
  - by rewrite lookup_insert_ne.
Qed.

Lemma keeps_status_finish now rid st b rid' t :
  isTerminalStreamStatus st = true ->
  keeps_status rid st b -> keeps_status rid st (finish now rid' t b).2.
Proof.
  intros Hst Hb. unfold finish. pose proof (keeps_status_claim now rid st b rid' t Hst Hb) as H1.
  destruct (claim_terminal now rid' t b) as [[[n|]|] b1]; try done.
  pose proof (keeps_status_publish now rid st b1 rid' (terminal_event t) H1) as H2.
  destruct (Publish now rid' (terminal_event t) b1) as [[] b2]; [|done].
  destruct n; [by apply keeps_status_schedule|done].
Qed.

Lemma keeps_status_open now rid s b rid' cid turn mid mname mode text :
  streams b !! rid = Some s -> isTerminalStreamStatus (Status s) = true ->
  keeps_status rid (Status s) (OpenStream now rid' cid turn mid mname mode text b).2.
Proof.
  intros Hs Ht. assert (keeps_status rid (Status s) b) by (unfold keeps_status; by rewrite Hs).
  unfold OpenStream. case_decide; [done|].
  destruct (validateSupportedActiveMode mode); [|done]. simpl.
  unfold keeps_status. simpl. destruct (decide (TrimSpace rid' = rid)) as [->|].
  - rewrite lookup_insert_eq, Hs. simpl. case_decide as Hu; [|done]. by rewrite Hu in Ht.
  - rewrite lookup_insert_ne by done. by rewrite Hs.
Qed.

Lemma keeps_status_subscribe now rid s b rid' :
  streams b !! rid = Some s -> isTerminalStreamStatus (Status s) = true ->
  keeps_status rid (Status s) (Subscribe now rid' b).2.
Proof.
  intros Hs Ht. assert (Hb : keeps_status rid (Status s) b)
    by (unfold keeps_status; by rewrite Hs).
  unfold Subscribe. case_decide; [done|].
  set (b1 := match Get (TrimSpace rid') b with Some _ => b | None => _ end).
  assert (Hb1 : keeps_status rid (Status s) (b1 <| nextID := wrap_uint64 (nextID b1 + 1) |>)).
  { subst b1. case_match; [done|]. by apply keeps_status_open. }
  simpl in Hb1. destruct (streams _ !! TrimSpace rid') as [s0|] eqn:Hs0; [|done].
  case_match; [done|]. by apply (keeps_status_set _ _ _ _ s0).
Qed.

Lemma keeps_status_run_op now rid s b op :
  streams b !! rid = Some s -> isTerminalStreamStatus (Status s) = true ->
  keeps_status rid (Status s) (run_op now b op).
Proof.
  intros Hs Ht. assert (Hb : keeps_status rid (Status s) b)
    by (unfold keeps_status; by rewrite Hs).
  destruct op; simpl.
  - by apply keeps_status_open.
  - by apply keeps_status_subscribe.
  - unfold Unsubscribe, Get. destruct (streams b !! TrimSpace requestID) as [s0|] eqn:Hs0; [|done].
    by apply (keeps_status_set _ _ _ _ s0).
  - unfold AcknowledgeCursor, Get.
    destruct (streams b !! TrimSpace requestID) as [s0|] eqn:Hs0; [|done].
    repeat case_match; try done. apply (keeps_status_set _ _ _ _ s0); [done|done|].
    by rewrite trim_status.
  - by apply keeps_status_publish.
  - by apply keeps_status_claim.
  - by apply keeps_status_finish.
  - by apply keeps_status_schedule.
  - unfold runScheduledTerminalCleanup, Get.
    destruct (streams b !! TrimSpace requestID) as [s0|] eqn:Hs0; [|done].
    repeat case_match; try done; try apply keeps_status_remove;
      by apply (keeps_status_set _ _ _ _ s0).
  - by apply keeps_status_remove.
Qed.

(** ** Removal *)

(** A stream that [RemoveIfIdle] may drop. *)
Definition removable (s : ActiveStream) : Prop :=
  Subscribers s = ∅ /\
  (isTerminalStreamStatus (Status s) = true \/
   ProviderActive s = false /\ Backlog s = [] /\ TrimSpace (ConversationID s) = EmptyString).

Lemma set_stream_other rid rid' s b :
  rid' <> TrimSpace rid -> streams (set_stream (TrimSpace rid) s b) !! rid' = streams b !! rid'.
Proof. intros Hne. simpl. by rewrite lookup_insert_ne. Qed.

Lemma remove_other rid rid' b :
  rid' <> TrimSpace rid -> streams (RemoveIfIdle rid b).2 !! rid' = streams b !! rid'.
Proof.
  intros Hne. unfold RemoveIfIdle. case_decide; [done|].
  destruct (streams b !! TrimSpace rid) as [s|]; [|done].
  by repeat case_match; simpl; rewrite ?lookup_delete_ne, ?lookup_insert_ne.
Qed.

Lemma remove_keeps rid b s :
  Get rid b = Some s -> ~ removable s -> is_Some (Get rid (RemoveIfIdle rid b).2).
Proof.
  unfold Get, removable. intros Hs Hr. unfold RemoveIfIdle.
  case_decide; [simpl; by rewrite Hs|]. rewrite Hs.
  destruct (bool_decide (Subscribers s = ∅)) eqn:Esub; simpl.
  - apply bool_decide_eq_true in Esub. destruct (isTerminalStreamStatus (Status s)) eqn:Et.
    { destruct Hr. auto. }
    destruct (ProviderActive s || _ || _) eqn:E; [simpl; by rewrite Hs|].
    apply orb_false_elim in E as [E E3]. apply orb_false_elim in E as [E1 E2]. zbool.
    destruct Hr. auto.
  - destruct (isTerminalStreamStatus (Status s)); simpl; [by rewrite lookup_insert_eq|by rewrite Hs].
Qed.

(** ** Routing *)

Lemma single_active_some l s :
  single_active l (Some s) = match filter (fun x => is_routable x = true) l with
                             | [] => Some s | _ => None end.
Proof.
  induction l as [|x l IH]; simpl; [done|]. rewrite filter_cons.
  destruct (is_routable x) eqn:E; simpl; [done|]. apply IH.
Qed.

Lemma single_active_none l :
  single_active l None = match filter (fun x => is_routable x = true) l with
                         | [s] => Some s | _ => None end.
Proof.
  induction l as [|x l IH]; simpl; [done|]. rewrite filter_cons.
  destruct (is_routable x) eqn:E; simpl; [|done]. rewrite single_active_some.
  by destruct (filter _ l).
Qed.

Definition routable_entries (b : StreamBroker) : list (string * ActiveStream) :=
  filter (fun kv => is_routable kv.2 = true) (map_to_list (streams b)).

Lemma routable_streams b :
  filter (fun x => is_routable x = true) (map snd (map_to_list (streams b))) =
  map snd (routable_entries b).
Proof.
  unfold routable_entries. induction (map_to_list (streams b)) as [|[k v] l IH]; [done|].
  cbn [map]. rewrite !filter_cons. cbn [snd]. case_decide; cbn [map snd]; by rewrite IH.
Qed.

(** ** A reader that reconnects *)

(** Rounds of the reader's loop. *)
Fixpoint sse_rounds (rounds : nat) (now : Z) (requestID subscriberID : string) (r : Reader)
    (b : StreamBroker) : Reader * StreamBroker :=
  match rounds with
  | O => (r, b)
  | S rounds =>
      let (r, b) := sse_round now requestID subscriberID r b in
      sse_rounds rounds now requestID subscriberID r b
  end.

Lemma set_stream_id rid s b : Get rid b = Some s -> set_stream (TrimSpace rid) s b = b.
Proof.
  intros Hs. destruct b as [st n l c]. unfold set_stream, Get in *. simpl in *.
  by rewrite insert_id.
Qed.

(** A round whose cursor is below the base cursor sends the retained event and leaves
    the broker as it is: the acknowledgement is refused or moves nothing. *)
Lemma sse_round_below_base now rid me b s event m sig r :
  Get rid b = Some s -> TrimSpace me = me ->
  Backlog s = [event] -> Message_ event = Some m -> End_ event = false ->
  Subscribers s = {[ me := mkSubscriber sig (BacklogBaseCursor s) ]} ->
  local_cursor r < BacklogBaseCursor s ->
  sse_round now rid me r b = (mkReader (sent r ++ [m]) (local_cursor r + 1) (ended r), b).
Proof.
  intros Hs Hme Hb Hm He Hsub Hc. unfold sse_round, ReadFromCursor. rewrite Hs.
  unfold read_stream. rewrite (proj2 (Z.ltb_lt _ _) Hc), Z.sub_diag, Hb.
  change (sse_events now rid me [event] r b =
    (mkReader (sent r ++ [m]) (local_cursor r + 1) (ended r), b)).
  cbn [sse_events]. rewrite Hm, He. cbv zeta. f_equal.
  assert (Hlk : Subscribers s !! me = Some (mkSubscriber sig (BacklogBaseCursor s)))
    by by rewrite Hsub, lookup_singleton_eq.
  unfold AcknowledgeCursor. rewrite Hs, Hme, Hlk. cbn [Cursor Signal].
  destruct (_ || _) eqn:E; [done|]. zbool.
  assert (local_cursor r + 1 = BacklogBaseCursor s) as -> by lia. cbn [snd].
  assert (Hs' : (s <| Subscribers := <[me := mkSubscriber sig (BacklogBaseCursor s)]>
                  (Subscribers s) |>) = s).
  { destruct s. simpl in *. by rewrite insert_id. }
  rewrite Hs'. unfold trimAcknowledgedBacklogLocked.
  rewrite decide_False by (rewrite Hsub; apply insert_non_empty).
  rewrite decide_False by by rewrite Hb. rewrite Hsub.
  assert (Hmin : min_cursor (backlog_end s) {[ me := mkSubscriber sig (BacklogBaseCursor s) ]}
                 = BacklogBaseCursor s).
  { destruct (min_cursor_le (backlog_end s) {[ me := mkSubscriber sig (BacklogBaseCursor s) ]})
      as [_ Hle].
    specialize (Hle me _ (lookup_singleton_eq _ _)). simpl in Hle.
    assert (BacklogBaseCursor s <= min_cursor (backlog_end s)
              {[ me := mkSubscriber sig (BacklogBaseCursor s) ]}); [|lia].
    apply min_cursor_ge; [unfold backlog_end; lia|].
    intros ? ? [_ <-]%lookup_singleton_Some. simpl. lia. }
  rewrite Hmin, Z.sub_diag. simpl. by apply set_stream_id.
Qed.

Lemma sse_rounds_below_base now rid me b s event m sig r n :
  Get rid b = Some s -> TrimSpace me = me ->
  Backlog s = [event] -> Message_ event = Some m -> End_ event = false ->
  Subscribers s = {[ me := mkSubscriber sig (BacklogBaseCursor s) ]} ->
  local_cursor r + Z.of_nat n <= BacklogBaseCursor s ->
  sse_rounds n now rid me r b =
    (mkReader (sent r ++ replicate n m) (local_cursor r + Z.of_nat n) (ended r), b).
Proof.
  intros Hs Hme Hb Hm He Hsub. revert r. induction n as [|n IH]; intros r Hc.
  - cbn [sse_rounds replicate Z.of_nat]. rewrite app_nil_r, Z.add_0_r. by destruct r.
  - cbn [sse_rounds]. rewrite (sse_round_below_base now rid me b s event m sig r) by (done || lia).
    rewrite IH by (simpl; lia). simpl. rewrite <- app_assoc. simpl. do 2 f_equal. lia.
Qed.

(** ** Properties *)

(** C3: exact delivery.  However the critical sections of publishers, of the terminal
    claim, of cleanup timers, of the turn loop and of other subscribers interleave with the
    loop of a connection, what it has sent is exactly the messages of the first
    [local_cursor] accepted events, in order, also when the client then goes away; and while
    it lives its next read returns exactly the accepted events it has not sent: nothing is
    lost, duplicated or reordered, however the backlog was trimmed in between.  The
    connection subscribed to a live stream before anything was trimmed, and the stream was not opened
    again after the connection began to read: [reconnect_duplicates] and
    [reopening_skips_events] show what happens otherwise. *)
Theorem stream_delivery_exact rid me d :
  d_reachable rid me d -> dcut d = false ->
  sent (dreader d) = omap Message_ (take (Z.to_nat (local_cursor (dreader d))) (dlog d)) /\
  0 <= local_cursor (dreader d) <= Z.of_nat (length (dlog d)) /\
  (dgone d = false ->
   ReadFromCursor rid (local_cursor (dreader d)) (dbroker d) =
     Ok (drop (Z.to_nat (local_cursor (dreader d))) (dlog d))).
Proof.
  intros Hr Hcut. destruct (delivery_inv_reachable _ _ _ Hr Hcut) as [Hinv [(Hc & Hsent & _ & _) _]].
  split_and!; [done|lia|lia|]. intros Hg. destruct (Hinv Hg) as [_ _ (s & Hs & [Hi [sig Hm] _ _])].
  unfold ReadFromCursor. rewrite Hs. f_equal. apply read_stream_spec; [done|].
  by apply (si_cursors _ _ Hi) in Hm as [? _].
Qed.

(** C10: the end event is unique and final.  Along the same runs, at most one end
    event was accepted, it is the last accepted event and the stream is terminal; and a
    connection whose loop returned because it met the end event has sent the message of
    every accepted event; one that the client left before makes no such promise. *)
Theorem stream_end_unique rid me d :
  d_reachable rid me d -> dcut d = false ->
  (forall i e, dlog d !! i = Some e -> End_ e = true ->
     S i = length (dlog d) /\ stream_terminal rid (dbroker d) = true /\ dpending d = None) /\
  (ended (dreader d) = true -> sent (dreader d) = omap Message_ (dlog d)).
Proof.
  intros Hr Hcut. destruct (delivery_inv_reachable _ _ _ Hr Hcut) as [_ [Hrd Ht]].
  assert (Hend : forall i e, dlog d !! i = Some e -> End_ e = true ->
    S i = length (dlog d) /\ stream_terminal rid (dbroker d) = true /\ dpending d = None).
  { intros i e Hl He. assert (Hno : forall l, Forall not_end l -> l !! i = Some e -> False).
    { intros l Hf Hl'. rewrite Forall_lookup in Hf. specialize (Hf _ _ Hl').
      unfold not_end in Hf. congruence. }
    unfold terminal_ok in Ht.
    destruct (stream_terminal rid (dbroker d)); [|by destruct Ht; exfalso; eauto].
    destruct (dpending d); [by destruct Ht; exfalso; eauto|].
    destruct Ht as [Hlog|(l & e' & Hlog & _ & Hf)]; rewrite Hlog in Hl |- *; [done|].
    apply list_lookup_snoc_case in Hl as [Hl|[-> _]]; [by exfalso; eauto|].
    rewrite length_app. simpl. split_and!; [lia|done|done]. }
  split; [done|]. intros He. destruct Hrd as (Hc & -> & _ & Hended).
  destruct (Hended He) as (_ & Hpos & e & Hl & Hee). destruct (Hend _ _ Hl Hee) as [Hlen _].
  f_equal. apply take_ge. lia.
Qed.

(** the table stays well formed.  Starting from a new broker and after any sequence
    of operations, with any arguments and clock readings, every stream is stored under
    its own trimmed non-blank request id, its base cursor is not negative and every
    subscriber's cursor lies between the two ends of the retained backlog. *)
Theorem broker_always_wf limit ops :
  broker_wf (fold_left (fun b op => run_op op.1 b op.2) ops
               (NewStreamBrokerWithBacklogLimit limit)).
Proof.
  apply fold_left_inv; [apply broker_wf_new|]. intros b op _. apply broker_wf_run_op.
Qed.

(** terminal statuses are absorbing.  No operation of the broker changes the status
    of a stream that is completed, failed or canceled: after it, the stream has the same
    status or is gone. *)
Theorem terminal_status_absorbing now rid s b op :
  streams b !! rid = Some s -> isTerminalStreamStatus (Status s) = true ->
  forall s', streams (run_op now b op) !! rid = Some s' -> Status s' = Status s.
Proof.
  intros Hs Ht s' Hs'. pose proof (keeps_status_run_op now rid s b op Hs Ht) as H.
  unfold keeps_status in H. by rewrite Hs' in H.
Qed.

(** [Complete], [Fail] and [Cancel] on a live stream set its terminal status, append
    their end event and nothing else to the backlog, wake every subscriber and, when there
    is no subscriber, arm the cleanup callback of a fresh sequence number; on a stream that
    is terminal already they change nothing. *)
Theorem finish_once now rid t b s :
  Get rid b = Some s ->
  let s0 := terminal_stream t (stopTerminalCleanupTimerLocked s) <| UpdatedAt := now |> in
  let s1 := publish_stream now (backlogLimit b) (terminal_event t) s0 in
  let seq := wrap_uint64 (TerminalCleanupSeq s1 + 1) in
  finish now rid t b =
    (Ok tt,
     if isTerminalStreamStatus (Status s) then b
     else if bool_decide (Subscribers s = ∅) then
       set_stream (TrimSpace rid)
         (s1 <| TerminalCleanupSeq := seq |> <| TerminalCleanupTimer := Some seq |>
             <| UpdatedAt := now |>) b
         <| callbacks := {[ (rid, seq) ]} ∪ callbacks b |>
     else set_stream (TrimSpace rid) s1 b).
Proof.
  intros Hs s0 s1 seq. unfold finish, claim_terminal. rewrite Hs.
  destruct (isTerminalStreamStatus (Status s)) eqn:Et; [done|].
  assert (Hsub : Subscribers s0 = Subscribers s) by by destruct t.
  assert (Hsub1 : Subscribers s1 = signal_all (Subscribers s)).
  { subst s1. unfold publish_stream. rewrite terminal_event_end. simpl.
    case_match; simpl; by destruct t. }
  assert (Ht1 : isTerminalStreamStatus (Status s1) = true).
  { subst s1. rewrite publish_status. by destruct t. }
  assert (Hss : forall x y, set_stream (TrimSpace rid) x (set_stream (TrimSpace rid) y b)
                            = set_stream (TrimSpace rid) x b).
  { intros x y. unfold set_stream. simpl. by rewrite insert_insert_eq. }
  fold s0. rewrite Hsub. unfold Publish. rewrite Get_set_stream. cbv beta iota zeta.
  change (backlogLimit (set_stream _ _ b)) with (backlogLimit b). fold s1. rewrite Hss.
  case_bool_decide as He.
  - rewrite He, map_size_empty. unfold scheduleTerminalCleanup. rewrite Get_set_stream.
    rewrite Hsub1, He, Ht1. unfold signal_all. rewrite fmap_empty. cbv zeta.
    rewrite bool_decide_eq_true_2 by done. cbn [negb snd].
    by rewrite Hss.
  - destruct (size (Subscribers s)) eqn:En; [by apply map_size_empty_inv in En|done].
Qed.

(** cleanup is safe.  [RemoveIfIdle] and a cleanup callback leave every other request
    alone, and remove the request's own stream only when nobody subscribes to it and it is
    terminal or the unused placeholder of a subscription; a callback whose sequence number
    was superseded (by a later schedule, subscription or claim) changes nothing. *)
Theorem cleanup_safe rid sequence b :
  (forall rid', rid' <> TrimSpace rid ->
     streams (RemoveIfIdle rid b).2 !! rid' = streams b !! rid' /\
     streams (runScheduledTerminalCleanup rid sequence b) !! rid' = streams b !! rid') /\
  (forall s, Get rid b = Some s -> ~ removable s ->
     is_Some (Get rid (RemoveIfIdle rid b).2) /\
     is_Some (Get rid (runScheduledTerminalCleanup rid sequence b))) /\
  (forall s, Get rid b = Some s -> TerminalCleanupSeq s <> sequence ->
     runScheduledTerminalCleanup rid sequence b = b).
Proof.
  unfold runScheduledTerminalCleanup. split_and!.
  - intros rid' Hne. split; [by apply remove_other|].
    destruct (Get rid b) as [s|]; [|done].
    repeat case_match; rewrite ?remove_other, ?set_stream_other; done.
  - intros s Hs Hr. split; [by eapply remove_keeps|]. rewrite Hs.
    repeat case_match; rewrite ?Get_set_stream; eauto.
    eapply remove_keeps; [apply Get_set_stream|done].
  - intros s Hs Hne. rewrite Hs. by rewrite (proj2 (Z.eqb_neq _ _)).
Qed.

(** the backlog is bounded.  After an event is published to a stream without
    subscribers at most [backlogLimit] events are retained, the newest ones; with
    subscribers nothing is dropped, and a terminal stream accepts only the end event. *)
Theorem publish_backlog now rid event b s :
  1 <= backlogLimit b -> Get rid b = Some s ->
  Z.of_nat (length (Backlog s)) <= backlogLimit b ->
  exists s', Get rid (Publish now rid event b).2 = Some s' /\
    (Subscribers s = ∅ ->
       Z.of_nat (length (Backlog s')) <= backlogLimit b) /\
    (if negb (End_ event) && isTerminalStreamStatus (Status s) then s' = s
     else exists n, Backlog s' = drop n (Backlog s ++ [event]) /\
            list.last (Backlog s') = Some event /\
            BacklogBaseCursor s' = BacklogBaseCursor s + Z.of_nat n /\
            (Subscribers s <> ∅ -> n = 0%nat)).
Proof.
  intros Hlim Hs Hlen. unfold Publish. rewrite Hs. eexists. split; [apply Get_set_stream|].
  unfold publish_stream. destruct (negb (End_ event) && _) eqn:Eacc; [done|].
  assert (Hlen1 : length (Backlog s ++ [event]) = S (length (Backlog s)))
    by (rewrite length_app; simpl; lia).
  rewrite Hlen1. destruct (bool_decide _ && _) eqn:E; simpl.
  - apply andb_prop in E as [Hsub Hov]. zbool. set (n := Z.to_nat _).
    assert (Hn : Z.of_nat n = Z.of_nat (S (length (Backlog s))) - backlogLimit b) by lia.
    split; [intros _; rewrite length_drop; lia|]. exists n. split_and!; [done| |lia|done].
    rewrite drop_app_le by lia. apply last_snoc.
  - split; [|exists 0%nat; split_and!; [done|by rewrite last_snoc|lia|done]].
    intros Hsub. rewrite bool_decide_eq_true_2 in E by done. simpl in E. zbool.
Qed.

(** [SingleActiveStream] routes only when it is unambiguous.  It returns a stream
    exactly when that stream is the only one of the table that has a conversation and
    neither a terminal status nor a terminal phase, whatever the iteration order. *)
Theorem single_active_unique b s :
  SingleActiveStream b = Some s <->
  exists rid, streams b !! rid = Some s /\ is_routable s = true /\
    forall rid' s', streams b !! rid' = Some s' -> is_routable s' = true -> rid' = rid.
Proof.
  unfold SingleActiveStream. rewrite single_active_none, (routable_streams b).
  assert (Hin : forall k v, (k, v) ∈ routable_entries b <->
                  streams b !! k = Some v /\ is_routable v = true).
  { intros k v. unfold routable_entries. rewrite list_elem_of_filter, elem_of_map_to_list.
    simpl. tauto. }
  assert (Hnd : NoDup (routable_entries b)).
  { apply list.NoDup_filter, NoDup_map_to_list. }
  destruct (routable_entries b) as [|[k v] [|[k2 v2] L]] eqn:EL; simpl.
  - split; [done|]. intros (rid & H1 & H2 & _). by specialize (proj2 (Hin rid s) (conj H1 H2));
      intros ?%not_elem_of_nil.
  - split.
    + intros [= <-]. exists k. destruct (proj1 (Hin k v)) as [H1 H2]; [set_solver|].
      split_and!; [done|done|]. intros k' v' H1' H2'.
      specialize (proj2 (Hin k' v') (conj H1' H2')). set_solver.
    + intros (rid & H1 & H2 & _). specialize (proj2 (Hin rid s) (conj H1 H2)). set_solver.
  - split; [done|]. intros (rid & H1 & H2 & H3).
    destruct (proj1 (Hin k v)) as [Hk Hv]; [set_solver|].
    destruct (proj1 (Hin k2 v2)) as [Hk2 Hv2]; [set_solver|].
    pose proof (H3 _ _ Hk Hv). pose proof (H3 _ _ Hk2 Hv2). subst.
    rewrite Hk in Hk2. injection Hk2 as ->. apply list.NoDup_cons in Hnd as [Hnd _]. set_solver.
Qed.

(** a reader that reconnects gets duplicates.  [RunSSE] starts its local cursor at 0
    whatever the stream's base cursor is, and [ReadFromCursor] raises a cursor below the
    base to the base: when the backlog starts at [base] and retains one event, the first
    [n <= base] rounds send that same event [n] times. *)
Theorem reconnect_duplicates now rid me b s event m sig n :
  Get rid b = Some s -> TrimSpace me = me ->
  Backlog s = [event] -> Message_ event = Some m -> End_ event = false ->
  Subscribers s = {[ me := mkSubscriber sig (BacklogBaseCursor s) ]} ->
  Z.of_nat n <= BacklogBaseCursor s ->
  sent (sse_rounds n now rid me sse_start b).1 = replicate n m.
Proof.
  intros Hs Hme Hb Hm He Hsub Hn.
  by rewrite (sse_rounds_below_base now rid me b s event m sig).
Qed.

End Broker.

#[export] Existing Instances eta_stream eta_broker eta_delivery.

(** ** Witnesses: the hypotheses hold on concrete runs *)

Definition demo_message (m : string) : @StreamEvent string :=
  mkEvent (Some m) false EmptyString EmptyString.

Definition demo_open : @BrokerOp string :=
  OpOpenStream " r " "conv" 1 "model" "Model" MODE_AGENT "hello".

Definition demo_run (limit : Z) (ops : list BrokerOp) : @StreamBroker string :=
  fold_left (run_op 7) ops (NewStreamBrokerWithBacklogLimit limit).

Definition demo_broker : @StreamBroker string := Eval vm_compute in
  demo_run 8 [demo_open; OpSubscribe "r"].

Definition demo_delivery0 : @Delivery string := Eval vm_compute in
  mkDelivery demo_broker [] sse_start [] None false false.

Definition demo_delivery1 : @Delivery string := Eval vm_compute in
  demo_delivery0 <| dbroker := (Publish 9 "r" (demo_message "m") demo_broker).2 |>
    <| dlog := [demo_message "m"] |>.

Definition demo_delivery2 : @Delivery string := Eval vm_compute in
  demo_delivery1 <| dbroker := (claim_terminal 9 "r" (TComplete EmptyString EmptyString)
                                  (dbroker demo_delivery1)).2 |>
    <| dpending := Some (end_event EmptyString EmptyString) |>.

Definition demo_delivery3 : @Delivery string := Eval vm_compute in
  demo_delivery2 <| dbroker := (Publish 9 "r" (end_event EmptyString EmptyString)
                                  (dbroker demo_delivery2)).2 |>
    <| dlog := [demo_message "m"; end_event EmptyString EmptyString] |> <| dpending := None |>.

Definition demo_delivery4 : @Delivery string := Eval vm_compute in
  demo_delivery3 <| dbatch := dlog demo_delivery3 |>.

Definition demo_send (d : @Delivery string) (event : StreamEvent) : Delivery :=
  let rb := sse_events 9 "r" "sub-1" [event] (dreader d) (dbroker d) in
  d <| dbroker := rb.2 |> <| dreader := rb.1 |>
    <| dbatch := if End_ event then [] else tail (dbatch d) |>.

Definition demo_delivery5 : @Delivery string := Eval vm_compute in
  demo_send demo_delivery4 (demo_message "m").

Definition demo_delivery6 : @Delivery string := Eval vm_compute in
  demo_send demo_delivery5 (end_event EmptyString EmptyString).

Lemma dstep_to {Message} rid me (d d1 d2 : @Delivery Message) :
  dstep rid me d d1 -> d1 = d2 -> dstep rid me d d2.
Proof. by intros ? <-. Qed.

Ltac demo_step d rule :=
  apply (rtc_l _ _ d); [eapply dstep_to; [apply d_live; [reflexivity|eapply rule; vm_compute; reflexivity]|vm_compute; reflexivity]|].

Lemma demo_initial : d_initial "r" "sub-1" demo_delivery0.
Proof.
  eexists _, 1. split; [vm_compute; reflexivity|].
  split; [reflexivity|]. split; [by split|]. split; [done|]. split; [done|].
  split; [reflexivity|]. split; [vm_compute; reflexivity|]. split.
  { change (map_Forall (fun _ (sub : StreamSubscriber) => 0 <= Cursor sub <= 0) ({[ "sub-1" := mkSubscriber false 0 ]} : gmap string StreamSubscriber)).
    by apply map_Forall_singleton. }
  split; [reflexivity|]. split; [constructor|]. by split_and!.
Qed.

Lemma demo_reachable : d_reachable "r" "sub-1" demo_delivery6.
Proof.
  exists demo_delivery0. split.
  { apply demo_initial. }
  demo_step demo_delivery1 (d_publish "r" "sub-1" demo_delivery0 9 (demo_message "m")).
  demo_step demo_delivery2
    (d_claim "r" "sub-1" demo_delivery1 9 (TComplete EmptyString EmptyString)).
  demo_step demo_delivery3 (d_publish_end "r" "sub-1" demo_delivery2 9).
  demo_step demo_delivery4 (d_fetch "r" "sub-1" demo_delivery3).
  demo_step demo_delivery5 (d_send "r" "sub-1" demo_delivery4 9).
  demo_step demo_delivery6 (d_send "r" "sub-1" demo_delivery5 9).
  apply rtc_refl.
Qed.

Lemma stream_delivery_exact_witness :
  dlog demo_delivery6 = [demo_message "m"; end_event EmptyString EmptyString] /\
  sent (dreader demo_delivery6) =
    omap Message_ (take (Z.to_nat (local_cursor (dreader demo_delivery6))) (dlog demo_delivery6)).
Proof.
  split; [reflexivity|]. apply (stream_delivery_exact "r" "sub-1"); [apply demo_reachable|reflexivity].
Defined.

Lemma stream_end_unique_witness :
  ended (dreader demo_delivery6) = true /\
  sent (dreader demo_delivery6) = omap Message_ (dlog demo_delivery6).
Proof.
  split; [reflexivity|].
  by apply (stream_end_unique "r" "sub-1" demo_delivery6 demo_reachable).
Defined.

(** A stream whose two first events were acknowledged and dropped before its reader left:
    it retains one event, at base cursor 2, and a new reader has subscribed. *)
Definition demo_reconnect : @StreamBroker string :=
  demo_run 8 [demo_open; OpSubscribe "r"; OpPublish "r" (demo_message "m1");
    OpPublish "r" (demo_message "m2"); OpAcknowledgeCursor "r" "sub-1" 1;
    OpAcknowledgeCursor "r" "sub-1" 2; OpUnsubscribe "r" "sub-1";
    OpPublish "r" (demo_message "m3"); OpSubscribe "r"].

Lemma reconnect_duplicates_witness :
  sent (sse_rounds 2 9 "r" "sub-2" sse_start demo_reconnect).1 = ["m3"; "m3"].
Proof.
  eapply (reconnect_duplicates 9 "r" "sub-2" demo_reconnect _ (demo_message "m3") "m3" false 2);
    vm_compute; try reflexivity. discriminate.
Defined.

(** The third round ends the duplication: the event was sent three times. *)
Example reconnect_three_times :
  sent (sse_rounds 4 9 "r" "sub-2" sse_start demo_reconnect).1 = ["m3"; "m3"; "m3"].
Proof. vm_compute. reflexivity. Qed.

(** The stream is opened again, by a second run of the request, when its reader has read two events: the
    reader goes on at its own cursor 2, and misses the two events that come next. *)
Definition demo_reopened : @StreamBroker string :=
  demo_run 8 [demo_open; OpSubscribe "r"; OpPublish "r" (demo_message "m1"); OpPublish "r" (demo_message "m2")].

Example reopening_skips_events :
  let '(reader, b) := sse_round 9 "r" "sub-1" sse_start demo_reopened in
  let b := fold_left (run_op 9) [demo_open; OpPublish "r" (demo_message "n1"); OpPublish "r" (demo_message "n2");
                                 OpPublish "r" (demo_message "n3")] b in
  sent reader = ["m1"; "m2"] /\ sent (sse_round 9 "r" "sub-1" reader b).1 = ["m1"; "m2"; "n3"].
Proof. vm_compute. split; reflexivity. Qed.

Definition demo_done : @StreamBroker string :=
  demo_run 8 [demo_open; OpFinish "r" (TCancel EmptyString)].

Lemma terminal_status_absorbing_witness :
  exists s s', streams demo_done !! "r" = Some s /\
    streams (run_op 9 demo_done demo_open) !! "r" = Some s' /\ Status s' = Status s.
Proof.
  eexists _, _. split; [vm_compute; reflexivity|]. split; [vm_compute; reflexivity|].
  eapply (terminal_status_absorbing 9 "r" _ demo_done demo_open); vm_compute; reflexivity.
Defined.

Lemma finish_once_witness :
  exists s, Get " r " demo_broker = Some s /\
    (finish 9 " r " (TFail "code" "boom") demo_broker).1 = Ok tt.
Proof.
  eexists. split; [vm_compute; reflexivity|].
  rewrite (finish_once 9 " r " (TFail "code" "boom") demo_broker _ ltac:(vm_compute; reflexivity)).
  reflexivity.
Defined.

(** With a limit of 2 and no subscriber, the third event drops the first. *)
Lemma publish_backlog_witness :
  exists s s', Get "r" (demo_run 2 [demo_open; OpPublish "r" (demo_message "m1");
                                      OpPublish "r" (demo_message "m2")]) = Some s /\
    s' = publish_stream 9 2 (demo_message "m3") s /\
    Z.of_nat (length (Backlog s')) <= 2 /\ BacklogBaseCursor s' = 1.
Proof.
  eexists _, _. split; [vm_compute; reflexivity|]. split; [reflexivity|]. split; [|reflexivity].
  edestruct (publish_backlog 9 "r" (demo_message "m3")
    (demo_run 2 [demo_open; OpPublish "r" (demo_message "m1");
                 OpPublish "r" (demo_message "m2")])) as (s' & Hs' & Hlen & _);
    [vm_compute; discriminate|vm_compute; reflexivity|vm_compute; discriminate|].
  vm_compute in Hs'. injection Hs' as <-. apply Hlen. reflexivity.
Defined.
