(* ===== verification/Conversation.v ===== *)
(** * The conversation file and its derived state (forwarder/file_store.go, pure part).

    [HistoryEntry] and [ConversationFile] are the records of types.go.  The body of an
    entry is a parameter [Payload] with the decoders of encoding/json the code applies to
    it; the deep-copied documents of a conversation (plans, todos, tool servers, prefix
    and provider call) are the parameter [Docs], which no operation here looks into.  A
    time is a number of nanoseconds, 0 being the zero time. *)

From S2P Require Import Prelude Go.

(** [metadataPayload]: the values of [Value] that are strings, as [readStringValue] reads
    them before trimming. *)
Record metadataPayload := mkMetadata {
  Type_ : string;
  Value : gmap string string
}.

Definition readStringValue (value : option string) : string :=
  match value with Some s => TrimSpace s | None => EmptyString end.

(** The parts of the Go library and of the protobuf runtime the component relies on. *)
Class Decoders (Payload : Type) := {
  decode_metadata : Payload -> option metadataPayload;
  decode_tool_call_id : Payload -> option string;
  decode_tool_result_id : Payload -> option string;
  decode_request_folder : Payload -> option string;
  path_IsAbs : string -> bool;
  path_Clean : string -> string;
  path_Base : string -> string;
  PathSeparator : ascii
}.

Section Conversation.
Context {Payload Docs : Type} `{!Decoders Payload}.

(** ** Data *)

Record HistoryEntry := mkEntry {
  Seq : Z;
  TurnSeq : Z;
  RequestID : string;
  IdempotencyKey : string;
  Role : string;
  Kind : string;
  ToolCallID : string;
  EntryParentToolCallID : string;
  Payload_ : Payload;
  EntryCreatedAt : Z
}.

#[export] Instance eta_entry : Eta HistoryEntry := fun e =>
  mkEntry (Seq e) (TurnSeq e) (RequestID e) (IdempotencyKey e) (Role e) (Kind e)
    (ToolCallID e) (EntryParentToolCallID e) (Payload_ e) (EntryCreatedAt e).

Record ConversationFile := mkConversation {
  SchemaVersion : Z;
  ConversationID : string;
  RootConversationID : string;
  ParentConversationID : string;
  ParentToolCallID : string;
  SubagentTypeName : string;
  AgentTranscriptsFolder : string;
  Mode : string;
  ContextVersion : Z;
  CurrentLoopID : string;
  CurrentLoopStatus : string;
  CurrentRequestID : string;
  CurrentTurnSeq : Z;
  TokenDetailsUsedTokens : Z;
  TokenDetailsMaxTokens : Z;
  AutoCompactionPending : bool;
  AutoCompactionPromptTokens : Z;
  AutoCompactionReserveTokens : Z;
  AutoCompactionTriggeredAt : string;
  AutoCompactionSourceModelCallID : string;
  Documents : Docs;
  ImportedTurnIDs : list bytes;
  LatestRequestPrefix : option Docs;
  LastProviderCall : option Docs;
  CreatedAt : Z;
  UpdatedAt : Z;
  NextTurnSeq : Z;
  NextEntrySeq : Z;
  Entries : list HistoryEntry
}.

#[export] Instance eta_conversation : Eta ConversationFile := fun c =>
  mkConversation (SchemaVersion c) (ConversationID c) (RootConversationID c)
    (ParentConversationID c) (ParentToolCallID c) (SubagentTypeName c)
    (AgentTranscriptsFolder c) (Mode c) (ContextVersion c) (CurrentLoopID c)
    (CurrentLoopStatus c) (CurrentRequestID c) (CurrentTurnSeq c)
    (TokenDetailsUsedTokens c) (TokenDetailsMaxTokens c) (AutoCompactionPending c)
    (AutoCompactionPromptTokens c) (AutoCompactionReserveTokens c)
    (AutoCompactionTriggeredAt c) (AutoCompactionSourceModelCallID c) (Documents c)
    (ImportedTurnIDs c) (LatestRequestPrefix c) (LastProviderCall c) (CreatedAt c)
    (UpdatedAt c) (NextTurnSeq c) (NextEntrySeq c) (Entries c).

Definition conversationSchemaVersion : Z := 1.

(** ** Entries *)

Definition historyEntryToolCallID (entry : HistoryEntry) : string :=
  if decide (TrimSpace (ToolCallID entry) <> EmptyString) then TrimSpace (ToolCallID entry)
  else if decide (TrimSpace (Kind entry) = "tool_call") then
    match decode_tool_call_id (Payload_ entry) with
    | Some id => TrimSpace id
    | None => EmptyString
    end
  else if decide (TrimSpace (Kind entry) = "tool_result") then
    match decode_tool_result_id (Payload_ entry) with
    | Some id => TrimSpace id
    | None => EmptyString
    end
  else EmptyString.

Definition resetEntrySequences (entries : list HistoryEntry) : list HistoryEntry :=
  map (fun entry => entry <| Seq := 0 |>) entries.

Definition contextVersionForEntries (entries : list HistoryEntry) : Z :=
  fold_left (fun version entry => if version <? Seq entry then Seq entry else version)
    entries 0.

(** The loop of [appendEntriesInPlace]: the conversation's entries and next sequence
    number, the known idempotency keys, the greatest turn and what was assigned. *)
Record AppendState := mkAppend {
  ap_entries : list HistoryEntry;
  ap_nextEntrySeq : Z;
  ap_keys : gset string;
  ap_maxTurnSeq : Z;
  ap_assigned : list HistoryEntry
}.

Definition append_entry (now : Z) (a : AppendState) (entry : HistoryEntry) : AppendState :=
  let key := TrimSpace (IdempotencyKey entry) in
  if negb (bool_decide (key = EmptyString)) && bool_decide (key ∈ ap_keys a) then a
  else
    let keys := if decide (key = EmptyString) then ap_keys a else {[ key ]} ∪ ap_keys a in
    let entry := if EntryCreatedAt entry =? 0 then entry <| EntryCreatedAt := now |> else entry in
    let '(entry, nextSeq) :=
      if Seq entry <=? 0 then
        (entry <| Seq := ap_nextEntrySeq a |>, wrap_int64 (ap_nextEntrySeq a + 1))
      else if ap_nextEntrySeq a <=? Seq entry then (entry, wrap_int64 (Seq entry + 1))
      else (entry, ap_nextEntrySeq a) in
    mkAppend (ap_entries a ++ [entry]) nextSeq keys
      (if ap_maxTurnSeq a <? TurnSeq entry then TurnSeq entry else ap_maxTurnSeq a)
      (ap_assigned a ++ [entry]).

Definition idempotency_keys (entries : list HistoryEntry) : gset string :=
  list_to_set (filter (fun key => key <> EmptyString)
                 (map (fun entry => TrimSpace (IdempotencyKey entry)) entries)).

Definition append_start (c : ConversationFile) : AppendState :=
  mkAppend (Entries c) (NextEntrySeq c) (idempotency_keys (Entries c))
    (wrap_int64 (NextTurnSeq c - 1)) [].

(** [appendEntriesInPlace]: the assigned entries and the mutated conversation. *)
Definition appendEntriesInPlace (now : Z) (c : ConversationFile) (entries : list HistoryEntry)
  : list HistoryEntry * ConversationFile :=
  if decide (entries = []) then ([], c)
  else
    let a := fold_left (append_entry now) entries (append_start c) in
    let nextTurn := wrap_int64 (ap_maxTurnSeq a + 1) in
    (ap_assigned a,
     c <| Entries := ap_entries a |>
       <| NextEntrySeq := ap_nextEntrySeq a |>
       <| NextTurnSeq := if NextTurnSeq c <? nextTurn then nextTurn else NextTurnSeq c |>
       <| CreatedAt := if CreatedAt c =? 0 then now else CreatedAt c |>
       <| UpdatedAt := now |>
       <| ContextVersion := contextVersionForEntries (ap_entries a) |>).

(** ** The loop state *)

(** The entries of one request and turn: a blank turn on either side matches. *)
Definition entry_of_request (requestID : string) (turnSeq : Z) (entry : HistoryEntry) : bool :=
  bool_decide (TrimSpace (RequestID entry) = TrimSpace requestID) &&
  negb ((0 <? turnSeq) && (0 <? TurnSeq entry) && negb (TurnSeq entry =? turnSeq)).

Definition conversationHasRequestEntry (entries : list HistoryEntry) (requestID : string)
    (turnSeq : Z) : bool :=
  if decide (TrimSpace requestID = EmptyString) then false
  else existsb (entry_of_request requestID turnSeq) entries.

Record LoopScan := mkScan {
  openToolCalls : gset string;
  terminalStatus : string;
  seenActivity : bool
}.

#[export] Instance eta_scan : Eta LoopScan := fun s =>
  mkScan (openToolCalls s) (terminalStatus s) (seenActivity s).

(** The terminal status a metadata payload announces, if any. *)
Definition metadata_status (payload : metadataPayload) : option string :=
  let type := TrimSpace (Type_ payload) in
  if decide (type = "turn_completed") then Some "completed"
  else if decide (type = "provider_error") then Some "provider_error"
  else if decide (type = "failed") then Some "failed"
  else if decide (type = "control") then
    if decide (TrimSpace (readStringValue (Value payload !! "status")) = "canceled")
    then Some "canceled" else None
  else None.

(** The name under which an unresolved tool call is tracked. *)
Definition open_call_key (entry : HistoryEntry) : string :=
  let id := historyEntryToolCallID entry in
  if decide (id = EmptyString) then "entry:" +:+ Sprintd (Seq entry) else id.

Definition activity_kinds : list string :=
  ["tool_result"; "assistant_text"; "prompt_context"; "request_context"; "user_message"].

Definition scan_entry (s : LoopScan) (entry : HistoryEntry) : LoopScan :=
  let kind := TrimSpace (Kind entry) in
  if decide (kind = "tool_call") then
    s <| seenActivity := true |>
      <| openToolCalls := {[ open_call_key entry ]} ∪ openToolCalls s |>
  else if decide (kind ∈ activity_kinds) then
    let s := s <| seenActivity := true |> in
    if decide (kind = "tool_result" /\ historyEntryToolCallID entry <> EmptyString)
    then s <| openToolCalls := openToolCalls s ∖ {[ historyEntryToolCallID entry ]} |>
    else s
  else if decide (kind = "metadata") then
    match decode_metadata (Payload_ entry) with
    | None => s
    | Some payload =>
        match metadata_status payload with
        | Some status => s <| terminalStatus := status |>
        | None =>
            if decide (TrimSpace (Type_ payload) = "run_request")
            then s <| seenActivity := true |> else s
        end
    end
  else s.

Definition scan_request (entries : list HistoryEntry) (requestID : string) (turnSeq : Z)
  : LoopScan :=
  fold_left (fun s entry => if entry_of_request requestID turnSeq entry
                            then scan_entry s entry else s)
    entries (mkScan ∅ EmptyString false).

(** The fallback status: the trimmed one, or ["idle"]. *)
Definition or_idle (status : string) : string := firstNonEmpty [TrimSpace status; "idle"].

Definition deriveRequestLoopStatus (entries : list HistoryEntry) (requestID : string)
    (turnSeq : Z) (fallbackStatus : string) : string :=
  if decide (TrimSpace requestID = EmptyString) then
    or_idle fallbackStatus
  else
    let s := scan_request entries requestID turnSeq in
    if decide (terminalStatus s <> EmptyString) then terminalStatus s
    else if decide (openToolCalls s <> ∅) then "waiting_tool"
    else if seenActivity s then "running"
    else or_idle fallbackStatus.

(** The last entry that carries a request id, the newest first. *)
Definition last_request (entries : list HistoryEntry) : option HistoryEntry :=
  head (filter (fun entry => TrimSpace (RequestID entry) <> EmptyString) (reverse entries)).

Definition deriveConversationLoopState (c : ConversationFile) : ConversationFile :=
  let fallback := or_idle (CurrentLoopStatus c) in
  let requestID := TrimSpace (CurrentRequestID c) in
  let turnSeq := CurrentTurnSeq c in
  let '(requestID, turnSeq, fallback) :=
    if negb (bool_decide (requestID = EmptyString)) &&
       negb (conversationHasRequestEntry (Entries c) requestID turnSeq)
    then (EmptyString, 0, "idle") else (requestID, turnSeq, fallback) in
  let '(requestID, turnSeq) :=
    match last_request (Entries c) with
    | Some entry =>
        if decide (requestID = EmptyString) then (TrimSpace (RequestID entry), TurnSeq entry)
        else (requestID, turnSeq)
    | None => (requestID, turnSeq)
    end in
  let status := deriveRequestLoopStatus (Entries c) requestID turnSeq fallback in
  c <| SchemaVersion := conversationSchemaVersion |>
    <| ContextVersion := contextVersionForEntries (Entries c) |>
    <| CurrentRequestID := requestID |>
    <| CurrentTurnSeq := turnSeq |>
    <| CurrentLoopID := if decide (requestID = EmptyString) then CurrentLoopID c
                        else Sprintd turnSeq +:+ ":" +:+ requestID |>
    <| CurrentLoopStatus := status |>.

(** ** Loading and merging *)

Definition normalizeAgentTranscriptsFolder (path : string) : string :=
  let trimmed := TrimSpace path in
  if decide (trimmed = EmptyString) then EmptyString
  else if negb (path_IsAbs trimmed) then EmptyString
  else
    let cleaned := path_Clean trimmed in
    if decide (path_Base cleaned = "agent-transcripts") then cleaned else EmptyString.

Fixpoint agentTranscriptsFolderFromEntries (entries : list HistoryEntry) : string :=
  match entries with
  | [] => EmptyString
  | entry :: rest =>
      if decide (TrimSpace (Kind entry) = "request_context") then
        match decode_request_folder (Payload_ entry) with
        | None => agentTranscriptsFolderFromEntries rest
        | Some folder =>
            let folder := normalizeAgentTranscriptsFolder folder in
            if decide (folder = EmptyString) then agentTranscriptsFolderFromEntries rest
            else folder
        end
      else agentTranscriptsFolderFromEntries rest
  end.

(** One iteration of the loop of [normalizeLoadedConversation]. *)
Definition normalize_entry (c : ConversationFile) (entry : HistoryEntry) : ConversationFile :=
  c <| NextEntrySeq := if NextEntrySeq c <=? Seq entry then wrap_int64 (Seq entry + 1)
                       else NextEntrySeq c |>
    <| NextTurnSeq := if NextTurnSeq c <=? TurnSeq entry then wrap_int64 (TurnSeq entry + 1)
                      else NextTurnSeq c |>
    <| CreatedAt := if (CreatedAt c =? 0) ||
                       (negb (EntryCreatedAt entry =? 0) && (EntryCreatedAt entry <? CreatedAt c))
                    then EntryCreatedAt entry else CreatedAt c |>
    <| UpdatedAt := if negb (EntryCreatedAt entry =? 0) && (UpdatedAt c <? EntryCreatedAt entry)
                    then EntryCreatedAt entry else UpdatedAt c |>.

(** The part of [normalizeLoadedConversation] before its loop. *)
Definition normalize_header (conversationID : string) (c : ConversationFile)
  : ConversationFile :=
  let id := if decide (TrimSpace (ConversationID c) = EmptyString) then conversationID
            else ConversationID c in
  let folder := normalizeAgentTranscriptsFolder (AgentTranscriptsFolder c) in
  c <| SchemaVersion := conversationSchemaVersion |>
    <| ConversationID := id |>
    <| RootConversationID := if decide (TrimSpace (RootConversationID c) = EmptyString)
                             then id else RootConversationID c |>
    <| NextTurnSeq := if NextTurnSeq c <=? 0 then 1 else NextTurnSeq c |>
    <| NextEntrySeq := if NextEntrySeq c <=? 0 then 1 else NextEntrySeq c |>
    <| AgentTranscriptsFolder := if decide (folder = EmptyString)
                                 then agentTranscriptsFolderFromEntries (Entries c)
                                 else folder |>.

Definition normalizeLoadedConversation (now : Z) (conversationID : string)
    (c : ConversationFile) : ConversationFile :=
  let c := fold_left normalize_entry (Entries c) (normalize_header conversationID c) in
  let c := c <| CreatedAt := if CreatedAt c =? 0 then now else CreatedAt c |> in
  let c := c <| UpdatedAt := if UpdatedAt c =? 0 then CreatedAt c else UpdatedAt c |> in
  deriveConversationLoopState c.

Definition mergeConversationMetadata (target source : ConversationFile) : ConversationFile :=
  let keep_blank (new old : string) :=
    if decide (TrimSpace new = EmptyString) then old else TrimSpace new in
  let folder := normalizeAgentTranscriptsFolder (AgentTranscriptsFolder source) in
  target
    <| ConversationID := keep_blank (ConversationID source) (ConversationID target) |>
    <| RootConversationID := keep_blank (RootConversationID source) (RootConversationID target) |>
    <| ParentConversationID := TrimSpace (ParentConversationID source) |>
    <| ParentToolCallID := TrimSpace (ParentToolCallID source) |>
    <| SubagentTypeName := TrimSpace (SubagentTypeName source) |>
    <| AgentTranscriptsFolder := if decide (folder = EmptyString)
                                 then AgentTranscriptsFolder target else folder |>
    <| Mode := keep_blank (Mode source) (Mode target) |>
    <| TokenDetailsUsedTokens := TokenDetailsUsedTokens source |>
    <| TokenDetailsMaxTokens := if 0 <? TokenDetailsMaxTokens source
                                then TokenDetailsMaxTokens source
                                else TokenDetailsMaxTokens target |>
    <| AutoCompactionPending := AutoCompactionPending source |>
    <| AutoCompactionPromptTokens := AutoCompactionPromptTokens source |>
    <| AutoCompactionReserveTokens := AutoCompactionReserveTokens source |>
    <| AutoCompactionTriggeredAt := AutoCompactionTriggeredAt source |>
    <| AutoCompactionSourceModelCallID := AutoCompactionSourceModelCallID source |>
    <| Documents := Documents source |>
    <| ImportedTurnIDs := ImportedTurnIDs source |>
    <| LatestRequestPrefix := LatestRequestPrefix source |>
    <| LastProviderCall := LastProviderCall source |>
    <| CreatedAt := if negb (CreatedAt source =? 0) &&
                       ((CreatedAt target =? 0) || (CreatedAt source <? CreatedAt target))
                    then CreatedAt source else CreatedAt target |>
    <| UpdatedAt := if negb (UpdatedAt source =? 0) && (UpdatedAt target <? UpdatedAt source)
                    then UpdatedAt source else UpdatedAt target |>
    <| NextTurnSeq := if NextTurnSeq target <? NextTurnSeq source
                      then NextTurnSeq source else NextTurnSeq target |>
    <| NextEntrySeq := if NextEntrySeq target <? NextEntrySeq source
                       then NextEntrySeq source else NextEntrySeq target |>
    <| CurrentLoopID := TrimSpace (CurrentLoopID source) |>
    <| CurrentLoopStatus := TrimSpace (CurrentLoopStatus source) |>
    <| CurrentRequestID := TrimSpace (CurrentRequestID source) |>
    <| CurrentTurnSeq := CurrentTurnSeq source |>.

(** [strings.Contains] for a pattern of one byte. *)
Definition contains_byte (c : ascii) (s : string) : bool :=
  bool_decide (c ∈ bytes_of s).

Definition validateConversationID (conversationID : string) : result string :=
  let normalized := TrimSpace conversationID in
  if decide (normalized = EmptyString) then Err "conversation_id is required"
  else if contains_byte "/" normalized || contains_byte PathSeparator normalized then
    Err "conversation_id must not contain path separators"
  else Ok normalized.

(** Whether an entry ends a turn of the transcript ([cursorTranscriptTurnStatus]). *)
Definition ends_turn (entry : HistoryEntry) : bool :=
  bool_decide (TrimSpace (Kind entry) = "metadata") && (0 <? TurnSeq entry) &&
  match decode_metadata (Payload_ entry) with
  | None => false
  | Some payload => match metadata_status payload with Some _ => true | None => false end
  end.

Definition conversationHasCompletedTurnBefore (entries : list HistoryEntry)
    (currentTurnSeq : Z) : bool :=
  if currentTurnSeq <=? 0 then false
  else existsb (fun entry => (0 <? TurnSeq entry) && (TurnSeq entry <? currentTurnSeq) &&
                             ends_turn entry) entries.

Definition conversationTranscriptSyncReady (c : ConversationFile) : bool :=
  if decide (TrimSpace (CurrentLoopStatus c) ∈ ["running"; "waiting_tool"; "checkpointing"])
  then conversationHasCompletedTurnBefore (Entries c) (CurrentTurnSeq c)
  else true.

(** ** Lemmas: appending entries *)

Definition entry_key (entry : HistoryEntry) : string := TrimSpace (IdempotencyKey entry).

Definition seq_lt (x y : HistoryEntry) : Prop := Seq x < Seq y.

(** No two entries share a non-blank idempotency key. *)
Definition unique_keys (entries : list HistoryEntry) : Prop :=
  forall i j x y, entries !! i = Some x -> entries !! j = Some y ->
    entry_key x = entry_key y -> entry_key x <> EmptyString -> i = j.

(** Sequence numbers are positive, strictly increasing and below the next one; turns are
    below the next turn. *)
Record entries_wf (nextSeq nextTurn : Z) (entries : list HistoryEntry) : Prop := {
  ew_seq : Forall (fun e => 1 <= Seq e < nextSeq) entries;
  ew_sorted : chained seq_lt entries;
  ew_turn : Forall (fun e => TurnSeq e < nextTurn) entries;
  ew_keys : unique_keys entries
}.

Definition conversation_wf (c : ConversationFile) : Prop :=
  1 <= NextEntrySeq c /\ 1 <= NextTurnSeq c <= max_int64 /\
  entries_wf (NextEntrySeq c) (NextTurnSeq c) (Entries c).

(** The incoming entries can be numbered from [next]: each asks for a number, or brings
    one that is not used yet, and the counter does not overflow. *)
Fixpoint seqs_ok (next : Z) (entries : list HistoryEntry) : Prop :=
  match entries with
  | [] => next <= max_int64
  | e :: rest =>
      if Seq e <=? 0 then seqs_ok (next + 1) rest
      else next <= Seq e /\ seqs_ok (Seq e + 1) rest
  end.

Lemma seqs_ok_bound next entries : seqs_ok next entries -> next <= max_int64.
Proof.
  revert next. induction entries as [|e l IH]; intros next; simpl; [done|].
  destruct (Seq e <=? 0) eqn:E; zbool; [intros H%IH; lia|intros [? H%IH]; lia].
Qed.

Lemma seqs_ok_mono next next' entries : next' <= next -> seqs_ok next entries -> seqs_ok next' entries.
Proof.
  revert next next'. induction entries as [|e l IH]; intros next next' Hle; simpl; [lia|].
  destruct (Seq e <=? 0); [by apply IH; lia|]. intros [? ?]. split; [lia|done].
Qed.

Lemma elem_of_idempotency_keys key entries :
  key ∈ idempotency_keys entries <->
  key <> EmptyString /\ exists e, e ∈ entries /\ entry_key e = key.
Proof.
  unfold idempotency_keys. rewrite elem_of_list_to_set, list_elem_of_filter, list_elem_of_fmap.
  unfold entry_key. naive_solver.
Qed.

Lemma unique_keys_snoc entries e :
  unique_keys entries ->
  (entry_key e = EmptyString \/ entry_key e ∉ idempotency_keys entries) ->
  unique_keys (entries ++ [e]).
Proof.
  intros Hu He i j x y Hx Hy Hk Hne.
  assert (Hin : forall k z, entries !! k = Some z -> entry_key z = entry_key e ->
                  entry_key e <> EmptyString -> False).
  { intros k z Hz Hze Hez. destruct He as [?|He]; [done|]. apply He.
    apply elem_of_idempotency_keys. split; [done|]. exists z. split; [|done].
    by eapply list_elem_of_lookup_2. }
  apply list_lookup_snoc_case in Hx as [Hx|[-> ->]];
    apply list_lookup_snoc_case in Hy as [Hy|[-> ->]]; try done.
  - by eapply Hu.
  - exfalso. eapply (Hin i x); [done|done|congruence].
  - exfalso. eapply (Hin j y); done.
Qed.

Lemma wrap_int64_small z : 1 <= z <= max_int64 -> wrap_int64 z = z.
Proof. intros H. apply wrap_int64_id. unfold is_int64. lia. Qed.

(** The invariant of the loop of [appendEntriesInPlace]. *)
Record append_inv (c : ConversationFile) (a : AppendState) : Prop := {
  ai_entries : ap_entries a = Entries c ++ ap_assigned a;
  ai_next : NextEntrySeq c <= ap_nextEntrySeq a;
  ai_fresh : Forall (fun e => NextEntrySeq c <= Seq e) (ap_assigned a);
  ai_keys : ap_keys a = idempotency_keys (ap_entries a);
  ai_turn : NextTurnSeq c - 1 <= ap_maxTurnSeq a < max_int64;
  ai_wf : entries_wf (ap_nextEntrySeq a) (ap_maxTurnSeq a + 1) (ap_entries a)
}.

(** The entry as it is stored: number and creation time assigned. *)
Definition numbered (now nextSeq : Z) (entry : HistoryEntry) : HistoryEntry :=
  let entry := if EntryCreatedAt entry =? 0 then entry <| EntryCreatedAt := now |> else entry in
  if Seq entry <=? 0 then entry <| Seq := nextSeq |> else entry.

Lemma numbered_fields now nextSeq e :
  Seq (numbered now nextSeq e) = (if Seq e <=? 0 then nextSeq else Seq e) /\
  TurnSeq (numbered now nextSeq e) = TurnSeq e /\
  entry_key (numbered now nextSeq e) = entry_key e.
Proof.
  unfold numbered, entry_key.
  destruct (EntryCreatedAt e =? 0); simpl; destruct (Seq e <=? 0) eqn:E; simpl; by rewrite ?E.
Qed.

(** [append_entry] drops a repeated key and otherwise stores the numbered entry. *)
Lemma append_entry_eq now a e :
  append_entry now a e =
    if negb (bool_decide (entry_key e = EmptyString)) && bool_decide (entry_key e ∈ ap_keys a)
    then a
    else mkAppend (ap_entries a ++ [numbered now (ap_nextEntrySeq a) e])
           (if Seq e <=? 0 then wrap_int64 (ap_nextEntrySeq a + 1)
            else if ap_nextEntrySeq a <=? Seq e then wrap_int64 (Seq e + 1)
            else ap_nextEntrySeq a)
           (if decide (entry_key e = EmptyString) then ap_keys a else {[ entry_key e ]} ∪ ap_keys a)
           (if ap_maxTurnSeq a <? TurnSeq e then TurnSeq e else ap_maxTurnSeq a)
           (ap_assigned a ++ [numbered now (ap_nextEntrySeq a) e]).
Proof.
  unfold append_entry, numbered, entry_key.
  destruct (negb _ && _); [done|].
  by destruct (EntryCreatedAt e =? 0); simpl; destruct (Seq e <=? 0); simpl;
    try destruct (ap_nextEntrySeq a <=? Seq e).
Qed.

Lemma idempotency_keys_snoc entries e :
  idempotency_keys (entries ++ [e]) =
    if decide (entry_key e = EmptyString) then idempotency_keys entries
    else {[ entry_key e ]} ∪ idempotency_keys entries.
Proof.
  apply set_eq. intros key. rewrite elem_of_idempotency_keys.
  case_decide; rewrite ?elem_of_union, ?elem_of_singleton, elem_of_idempotency_keys; set_solver.
Qed.

(** A new entry numbered [seq] extends well-formed entries. *)
Lemma entries_wf_snoc nextSeq nextTurn entries e nextSeq' nextTurn' :
  entries_wf nextSeq nextTurn entries -> 1 <= nextSeq ->
  nextSeq <= Seq e < nextSeq' -> nextTurn <= nextTurn' -> TurnSeq e < nextTurn' ->
  (entry_key e = EmptyString \/ entry_key e ∉ idempotency_keys entries) ->
  entries_wf nextSeq' nextTurn' (entries ++ [e]).
Proof.
  intros [Hs Hc Ht Hk] Hpos Hseq Hturn Het Hkey. split.
  - apply Forall_app_2; [|constructor; [lia|done]].
    eapply list.Forall_impl; [exact Hs|]. simpl. lia.
  - apply chained_snoc; [done|]. intros x Hx. unfold seq_lt.
    apply list.last_Some_elem_of in Hx. rewrite Forall_forall in Hs. specialize (Hs _ Hx). lia.
  - apply Forall_app_2; [|by constructor]. eapply list.Forall_impl; [exact Ht|]. simpl. lia.
  - by apply unique_keys_snoc.
Qed.

Lemma append_inv_start c : conversation_wf c -> append_inv c (append_start c).
Proof.
  intros (Hn & Ht & Hw). unfold append_start.
  assert (Hwrap : wrap_int64 (NextTurnSeq c - 1) = NextTurnSeq c - 1).
  { apply wrap_int64_id. unfold is_int64. lia. }
  split; simpl; rewrite ?Hwrap, ?app_nil_r; try done; [lia|].
  by rewrite Z.sub_add.
Qed.

Lemma append_inv_entry now c a e rest :
  conversation_wf c -> append_inv c a -> TurnSeq e < max_int64 ->
  seqs_ok (ap_nextEntrySeq a) (e :: rest) ->
  append_inv c (append_entry now a e) /\
  seqs_ok (ap_nextEntrySeq (append_entry now a e)) rest.
Proof.
  intros (Hn & _ & _) [He Hnx Hfr Hk Ht Hw] Het Hok. rewrite append_entry_eq.
  destruct (negb _ && _) eqn:E.
  { split; [by split|]. simpl in Hok. destruct (Seq e <=? 0).
    - eapply seqs_ok_mono; [|exact Hok]. lia.
    - destruct Hok as [? Hok]. eapply seqs_ok_mono; [|exact Hok]. lia. }
  destruct (numbered_fields now (ap_nextEntrySeq a) e) as (Fs & Ft & Fk).
  assert (Hkey : entry_key e = EmptyString \/ entry_key e ∉ idempotency_keys (ap_entries a)).
  { rewrite <- Hk. apply andb_false_iff in E as [E|E]; [left|right]; bools_to_props; done. }
  set (seq := if Seq e <=? 0 then ap_nextEntrySeq a else Seq e) in *.
  assert (Hseq : ap_nextEntrySeq a <= seq /\ seqs_ok (seq + 1) rest /\
    (if Seq e <=? 0 then wrap_int64 (ap_nextEntrySeq a + 1)
     else if ap_nextEntrySeq a <=? Seq e then wrap_int64 (Seq e + 1)
     else ap_nextEntrySeq a) = seq + 1).
  { simpl in Hok. subst seq. destruct (Seq e <=? 0) eqn:Es; zbool.
    - pose proof (seqs_ok_bound _ _ Hok).
      split_and!; [lia|done|apply wrap_int64_small; lia].
    - destruct Hok as [Hle Hok]. pose proof (seqs_ok_bound _ _ Hok).
      rewrite (proj2 (Z.leb_le _ _) Hle).
      split_and!; [lia|done|apply wrap_int64_small; lia]. }
  destruct Hseq as (Hge & Hrest & ->).
  set (turn := if ap_maxTurnSeq a <? TurnSeq e then _ else _).
  assert (Hturn : ap_maxTurnSeq a <= turn < max_int64 /\ TurnSeq e <= turn).
  { subst turn. destruct (ap_maxTurnSeq a <? TurnSeq e) eqn:Etu; zbool. }
  split; [|done]. split; simpl.
  - by rewrite He, app_assoc.
  - lia.
  - apply Forall_app_2; [done|]. constructor; [lia|done].
  - by rewrite idempotency_keys_snoc, Fk, Hk.
  - lia.
  - eapply entries_wf_snoc; [exact Hw|lia|lia|lia|lia|]. by rewrite Fk.
Qed.

Lemma append_inv_fold now c l a :
  conversation_wf c -> append_inv c a -> Forall (fun e => TurnSeq e < max_int64) l ->
  seqs_ok (ap_nextEntrySeq a) l ->
  append_inv c (fold_left (append_entry now) l a) /\
  ap_nextEntrySeq (fold_left (append_entry now) l a) <= max_int64.
Proof.
  intros Hc. revert a. induction l as [|e l IH]; intros a Ha Ht Hok; simpl.
  { split; [done|]. by apply seqs_ok_bound in Hok. }
  apply Forall_cons in Ht as [Hte Ht].
  destruct (append_inv_entry now c a e l Hc Ha Hte Hok) as [Ha' Hok'].
  by apply IH.
Qed.

(** The version of well-formed entries is below the next number. *)
Lemma fold_version entries version :
  let v := fold_left (fun v e => if v <? Seq e then Seq e else v) entries version in
  version <= v /\ Forall (fun e => Seq e <= v) entries /\
  (v = version \/ exists e, e ∈ entries /\ Seq e = v).
Proof.
  revert version. induction entries as [|e l IH]; intros version; simpl; [auto with lia|].
  destruct (IH (if version <? Seq e then Seq e else version)) as (H1 & H2 & H3).
  destruct (version <? Seq e) eqn:E; zbool; (split; [lia|]; split; [by constructor; [lia|]|]);
    destruct H3 as [->|(e' & ? & ?)]; try (by left); right.
  - exists e. split; [by left|done].
  - exists e'. split; [by right|done].
  - exists e'. split; [by right|done].
Qed.

(** What was assigned is the incoming list, numbered, without the repeated keys. *)
Lemma append_assigned_sublist now l a :
  exists kept assigned, sublist kept l /\
    ap_assigned (fold_left (append_entry now) l a) = ap_assigned a ++ assigned /\
    Forall2 (fun e e' => exists n, e' = numbered now n e) kept assigned.
Proof.
  revert a. induction l as [|e l IH]; intros a; simpl.
  { exists [], []. split_and!; [done|by rewrite app_nil_r|constructor]. }
  destruct (IH (append_entry now a e)) as (kept & assigned & Hs & -> & Hf).
  rewrite append_entry_eq. destruct (negb _ && _).
  - exists kept, assigned. split_and!; [by apply sublist_cons|done|done].
  - exists (e :: kept), (numbered now (ap_nextEntrySeq a) e :: assigned). simpl.
    split_and!; [by apply sublist_skip|by rewrite <- app_assoc|].
    constructor; [by eexists|done].
Qed.

(** Whatever the counters, the conversation grows by what was assigned. *)
Lemma append_in_place_entries now c l :
  let r := appendEntriesInPlace now c l in
  Entries r.2 = Entries c ++ r.1 /\
  exists kept, sublist kept l /\ Forall2 (fun e e' => exists n, e' = numbered now n e) kept r.1.
Proof.
  unfold appendEntriesInPlace. case_decide as Hne; simpl.
  { rewrite app_nil_r. split; [done|]. exists []. by split; [apply sublist_nil_l|]. }
  split.
  - apply (fold_left_inv (fun a => ap_entries a = Entries c ++ ap_assigned a)).
    + simpl. by rewrite app_nil_r.
    + intros a e _ Ha. rewrite append_entry_eq. destruct (negb _ && _); [done|]. simpl.
      by rewrite Ha, app_assoc.
  - destruct (append_assigned_sublist now l (append_start c)) as (kept & assigned & Hs & Ha & Hf).
    exists kept. by rewrite Ha.
Qed.

(** Entries whose keys are all known are dropped. *)
Lemma append_known now l a :
  (forall e, e ∈ l -> entry_key e <> EmptyString /\ entry_key e ∈ ap_keys a) ->
  fold_left (append_entry now) l a = a.
Proof.
  induction l as [|e l IH]; intros Hl; simpl; [done|].
  assert (Hkeep : append_entry now a e = a).
  { rewrite append_entry_eq. destruct (Hl e) as [H1 H2]; [set_solver|].
    rewrite bool_decide_eq_false_2, bool_decide_eq_true_2 by done. done. }
  rewrite Hkeep. apply IH. intros. apply Hl. set_solver.
Qed.

(** Known keys stay known, and the keys of the incoming entries become known. *)
Lemma append_keys now l a :
  ap_keys a ⊆ ap_keys (fold_left (append_entry now) l a) /\
  (forall e, e ∈ l -> entry_key e <> EmptyString ->
     entry_key e ∈ ap_keys (fold_left (append_entry now) l a)).
Proof.
  revert a. induction l as [|e l IH]; intros a; simpl; [set_solver|].
  destruct (IH (append_entry now a e)) as [H1 H2].
  assert (H3 : ap_keys a ⊆ ap_keys (append_entry now a e) /\
               (entry_key e <> EmptyString -> entry_key e ∈ ap_keys (append_entry now a e))).
  { rewrite append_entry_eq. destruct (negb _ && _) eqn:E; simpl.
    - split; [done|]. zbool. done.
    - case_decide; set_solver. }
  split; [set_solver|]. intros e' He' Hne. apply elem_of_cons in He' as [-> | He']; [|by apply H2].
  apply H1. by apply H3.
Qed.

(** Numbering well-formed entries keeps the conversation well formed. *)
Lemma append_in_place_wf now c entries :
  conversation_wf c -> Forall (fun e => TurnSeq e < max_int64) entries ->
  seqs_ok (NextEntrySeq c) entries ->
  let r := appendEntriesInPlace now c entries in
  conversation_wf r.2 /\ Forall (fun e => NextEntrySeq c <= Seq e) r.1 /\
  (entries <> [] -> ContextVersion r.2 = contextVersionForEntries (Entries r.2)).
Proof.
  intros Hw Ht Hok. unfold appendEntriesInPlace. case_decide as Hne; [done|].
  destruct (append_inv_fold now c entries (append_start c) Hw (append_inv_start c Hw) Ht Hok)
    as [[He Hn Hfr Hk Hmt Hew] Hmax].
  set (a := fold_left _ entries _) in *. pose proof Hw as (H1 & H2 & H3).
  rewrite (wrap_int64_small (ap_maxTurnSeq a + 1)) by lia.
  assert (Hnext : (if NextTurnSeq c <? ap_maxTurnSeq a + 1 then ap_maxTurnSeq a + 1
                   else NextTurnSeq c) = ap_maxTurnSeq a + 1).
  { destruct (_ <? _) eqn:E; zbool. }
  rewrite Hnext. simpl. split_and!; [|done|done].
  destruct Hew. repeat split; simpl; lia || done.
Qed.

(** Entries that bring numbers and unused keys are all kept. *)
Lemma append_kept now l a :
  unique_keys l -> Forall (fun e => 1 <= Seq e) l ->
  (forall e, e ∈ l -> entry_key e <> EmptyString -> entry_key e ∉ ap_keys a) ->
  ap_assigned (fold_left (append_entry now) l a) = ap_assigned a ++ map (numbered now 0) l.
Proof.
  revert a. induction l as [|e l IH]; intros a Hu Hs Hk; simpl; [by rewrite app_nil_r|].
  apply Forall_cons in Hs as [He Hs].
  assert (Hn : forall n, numbered now n e = numbered now 0 e).
  { intros n. unfold numbered. destruct (EntryCreatedAt e =? 0); simpl;
      by rewrite (proj2 (Z.leb_gt (Seq e) 0)) by lia. }
  rewrite IH; [|intros i j x y Hi Hj Hxy Hne|done|].
  - rewrite append_entry_eq, Hn. destruct (negb _ && _) eqn:E; simpl; [|by rewrite <- app_assoc].
    exfalso. bools_to_props. apply (Hk e); [set_solver|done|done].
  - specialize (Hu (S i) (S j) x y Hi Hj Hxy Hne). lia.
  - intros x Hx Hne. rewrite append_entry_eq. destruct (negb _ && _) eqn:E; simpl.
    { apply Hk; [set_solver|done]. }
    case_decide as Hee; [apply Hk; [set_solver|done]|].
    apply not_elem_of_union. split; [|apply Hk; [set_solver|done]].
    apply not_elem_of_singleton. intros Hxe. apply list_elem_of_lookup in Hx as [i Hi].
    specialize (Hu (S i) 0%nat x e Hi eq_refl Hxe Hne). done.
Qed.

(** ** Lemmas: the scan of a request *)

(** The terminal status an entry announces. *)
Definition announces (entry : HistoryEntry) : option string :=
  if decide (TrimSpace (Kind entry) = "metadata")
  then decode_metadata (Payload_ entry) ≫= metadata_status else None.

(** The tool call an entry resolves. *)
Definition resolves (entry : HistoryEntry) : option string :=
  if decide (TrimSpace (Kind entry) = "tool_result" /\ historyEntryToolCallID entry <> EmptyString)
  then Some (historyEntryToolCallID entry) else None.

(** The tool call an entry opens. *)
Definition opens (entry : HistoryEntry) : option string :=
  if decide (TrimSpace (Kind entry) = "tool_call") then Some (open_call_key entry) else None.

Definition is_run_request (entry : HistoryEntry) : bool :=
  bool_decide (TrimSpace (Kind entry) = "metadata") &&
  match decode_metadata (Payload_ entry) with
  | Some payload => bool_decide (TrimSpace (Type_ payload) = "run_request")
  | None => false
  end.

Definition is_activity (entry : HistoryEntry) : bool :=
  bool_decide (TrimSpace (Kind entry) ∈ "tool_call" :: activity_kinds) || is_run_request entry.

Lemma metadata_status_not_run payload :
  TrimSpace (Type_ payload) = "run_request" -> metadata_status payload = None.
Proof. intros H. unfold metadata_status. by rewrite H. Qed.

Lemma metadata_status_known payload st :
  metadata_status payload = Some st ->
  st ∈ ["completed"; "provider_error"; "failed"; "canceled"].
Proof.
  unfold metadata_status. repeat case_decide; intros [= <-]; set_solver.
Qed.

Lemma scan_entry_spec s entry :
  openToolCalls (scan_entry s entry) =
    match opens entry with
    | Some id => {[ id ]} ∪ openToolCalls s
    | None => match resolves entry with
              | Some id => openToolCalls s ∖ {[ id ]}
              | None => openToolCalls s
              end
    end /\
  terminalStatus (scan_entry s entry) = default (terminalStatus s) (announces entry) /\
  seenActivity (scan_entry s entry) = seenActivity s || is_activity entry.
Proof.
  unfold scan_entry, opens, resolves, announces, is_activity, is_run_request.
  destruct (decide (TrimSpace (Kind entry) = "tool_call")) as [Hk|Hk].
  { rewrite Hk. simpl. by rewrite orb_true_r. }
  destruct (decide (TrimSpace (Kind entry) ∈ activity_kinds)) as [Ha|Ha].
  { assert (Hm : TrimSpace (Kind entry) <> "metadata").
    { intros E. rewrite E in Ha. vm_compute in Ha. set_solver. }
    rewrite (decide_False (P := TrimSpace (Kind entry) = "metadata")) by done.
    rewrite (bool_decide_eq_true_2 (TrimSpace (Kind entry) ∈ _)) by set_solver.
    case_decide; simpl; by rewrite orb_true_r. }
  rewrite (bool_decide_eq_false_2 (TrimSpace (Kind entry) ∈ _)) by set_solver.
  rewrite (decide_False (P := TrimSpace (Kind entry) = "tool_result" /\ _))
    by (intros [E _]; apply Ha; rewrite E; unfold activity_kinds; set_solver).
  destruct (decide (TrimSpace (Kind entry) = "metadata")) as [Hm|Hm].
  2: { rewrite bool_decide_eq_false_2 by done. simpl. by rewrite orb_false_r. }
  rewrite bool_decide_eq_true_2 by done.
  destruct (decode_metadata (Payload_ entry)) as [payload|]; simpl; [|by rewrite orb_false_r].
  destruct (metadata_status payload) as [st|] eqn:Est; simpl.
  - rewrite bool_decide_eq_false_2; [by rewrite orb_false_r|].
    intros E. by rewrite metadata_status_not_run in Est.
  - case_decide as E; simpl; [rewrite bool_decide_eq_true_2 by done|rewrite bool_decide_eq_false_2 by done];
      by rewrite ?orb_true_r, ?orb_false_r.
Qed.

Section Request.
Variables (requestID : string) (turnSeq : Z).

Definition scan_from (entries : list HistoryEntry) : LoopScan :=
  scan_request entries requestID turnSeq.

Lemma scan_request_snoc entries entry :
  scan_from (entries ++ [entry]) =
    if entry_of_request requestID turnSeq entry then scan_entry (scan_from entries) entry
    else scan_from entries.
Proof. unfold scan_from, scan_request. by rewrite fold_left_app. Qed.

Definition request_entry (entries : list HistoryEntry) (i : nat) (entry : HistoryEntry) : Prop :=
  entries !! i = Some entry /\ entry_of_request requestID turnSeq entry = true.

Lemma request_entry_snoc entries e i x :
  request_entry (entries ++ [e]) i x <->
  request_entry entries i x \/
  (i = length entries /\ x = e /\ entry_of_request requestID turnSeq e = true).
Proof.
  unfold request_entry. split.
  - intros [Hx Hr]. apply list_lookup_snoc_case in Hx as [?|[-> ->]]; auto.
  - intros [[Hx Hr]|(-> & -> & Hr)]; (split; [|done]).
    + by apply lookup_app_l_Some.
    + by rewrite lookup_app_r, Nat.sub_diag by lia.
Qed.

Lemma request_entry_lt entries i x : request_entry entries i x -> (i < length entries)%nat.
Proof. intros [H _]. by apply lookup_lt_Some in H. Qed.

(** A tool call is open when no later entry of the request resolves it. *)
Definition open_call (entries : list HistoryEntry) (id : string) : Prop :=
  exists i x, request_entry entries i x /\ opens x = Some id /\
    forall j y, (i < j)%nat -> request_entry entries j y -> resolves y <> Some id.

Lemma opens_resolves x id : opens x = Some id -> resolves x = None.
Proof.
  unfold opens, resolves. case_decide as Hk; [|done]. intros _. rewrite decide_False; [done|].
  rewrite Hk. by intros [? _].
Qed.

Lemma scan_open entries id : id ∈ openToolCalls (scan_from entries) <-> open_call entries id.
Proof.
  induction entries as [|e entries IH] using rev_ind.
  { split; [by intros ?%not_elem_of_empty|]. intros (i & x & [Hx _] & _). by rewrite lookup_nil in Hx. }
  rewrite scan_request_snoc. unfold open_call.
  destruct (entry_of_request requestID turnSeq e) eqn:Er.
  2: { rewrite IH. unfold open_call. setoid_rewrite request_entry_snoc.
       split; intros (i & x & Hx & Ho & Hl).
       - exists i, x. split_and!; [by left|done|]. intros j y Hij [?|(_ & _ & ?)]; [eauto|congruence].
       - destruct Hx as [Hx|(_ & _ & ?)]; [|congruence]. exists i, x. split_and!; eauto. }
  destruct (scan_entry_spec (scan_from entries) e) as (-> & _ & _).
  assert (Hlast : request_entry (entries ++ [e]) (length entries) e).
  { apply request_entry_snoc. by right. }
  split.
  - intros Hid. destruct (opens e) as [id'|] eqn:Eo.
    + destruct (decide (id' = id)) as [->|Hne].
      * exists (length entries), e. split_and!; [done|done|].
        intros j y Hj Hy. apply request_entry_lt in Hy. rewrite length_app in Hy. simpl in Hy. lia.
      * assert (Hid' : id ∈ openToolCalls (scan_from entries)) by set_solver.
        apply IH in Hid' as (i & x & Hx & Ho & Hl). exists i, x.
        split_and!; [apply request_entry_snoc; by left|done|].
        intros j y Hij [Hy|(-> & -> & _)]%request_entry_snoc; [by eapply Hl|].
        by rewrite (opens_resolves _ _ Eo).
    + assert (Hid' : id ∈ openToolCalls (scan_from entries) /\ resolves e <> Some id)
        by (destruct (resolves e); set_solver).
      destruct Hid' as [Hid' Hne]. apply IH in Hid' as (i & x & Hx & Ho & Hl). exists i, x.
      split_and!; [apply request_entry_snoc; by left|done|].
      intros j y Hij [Hy|(-> & -> & _)]%request_entry_snoc; [by eapply Hl|done].
  - intros (i & x & [Hx|(-> & -> & _)]%request_entry_snoc & Ho & Hl).
    + assert (Hid : id ∈ openToolCalls (scan_from entries)).
      { apply IH. exists i, x. split_and!; [done|done|]. intros j y Hij Hy.
        apply (Hl j); [done|]. apply request_entry_snoc. by left. }
      assert (Hre : resolves e <> Some id).
      { apply (Hl (length entries)); [by apply request_entry_lt in Hx|done]. }
      destruct (opens e); [set_solver|]. destruct (resolves e); set_solver.
    + rewrite Ho. set_solver.
Qed.

Lemma scan_activity entries :
  seenActivity (scan_from entries) = true <->
  exists i x, request_entry entries i x /\ is_activity x = true.
Proof.
  induction entries as [|e entries IH] using rev_ind.
  { split; [done|]. intros (i & x & [Hx _] & _). by rewrite lookup_nil in Hx. }
  rewrite scan_request_snoc. setoid_rewrite request_entry_snoc.
  destruct (entry_of_request requestID turnSeq e) eqn:Er.
  - destruct (scan_entry_spec (scan_from entries) e) as (_ & _ & ->).
    rewrite orb_true_iff, IH. naive_solver.
  - rewrite IH. naive_solver.
Qed.

(** The terminal status of the scan is the last one announced. *)
Lemma scan_terminal entries :
  (terminalStatus (scan_from entries) = EmptyString /\
   forall i x, request_entry entries i x -> announces x = None) \/
  (exists i x, request_entry entries i x /\
     announces x = Some (terminalStatus (scan_from entries)) /\
     forall j y, (i < j)%nat -> request_entry entries j y -> announces y = None).
Proof.
  induction entries as [|e entries IH] using rev_ind.
  { left. split; [done|]. intros i x [Hx _]. by rewrite lookup_nil in Hx. }
  rewrite scan_request_snoc. destruct (entry_of_request requestID turnSeq e) eqn:Er.
  - destruct (scan_entry_spec (scan_from entries) e) as (_ & -> & _).
    destruct (announces e) as [st|] eqn:Ea; simpl.
    + right. exists (length entries), e. split_and!; [apply request_entry_snoc; auto|done|].
      intros j y Hj Hy. apply request_entry_lt in Hy. rewrite length_app in Hy. simpl in Hy. lia.
    + destruct IH as [[H1 H2]|(i & x & Hx & Ha & Hl)].
      * left. split; [done|]. intros i x [?|(_ & -> & _)]%request_entry_snoc; eauto.
      * right. exists i, x. split_and!; [apply request_entry_snoc; auto|done|].
        intros j y Hij [?|(_ & -> & _)]%request_entry_snoc; eauto.
  - destruct IH as [[H1 H2]|(i & x & Hx & Ha & Hl)].
    + left. split; [done|]. intros i x [?|(_ & _ & ?)]%request_entry_snoc; [eauto|congruence].
    + right. exists i, x. split_and!; [apply request_entry_snoc; auto|done|].
      intros j y Hij [?|(_ & _ & ?)]%request_entry_snoc; [eauto|congruence].
Qed.

End Request.

(** ** Lemmas: the derived loop state *)

Lemma announced_known entries requestID turnSeq :
  terminalStatus (scan_request entries requestID turnSeq) ∈
    ["completed"; "provider_error"; "failed"; "canceled"; EmptyString].
Proof.
  destruct (scan_terminal requestID turnSeq entries) as [[H _]|(i & x & _ & H & _)];
    unfold scan_from in H.
  - rewrite H. set_solver.
  - unfold announces in H. case_decide; [|done].
    destruct (decode_metadata (Payload_ x)) as [payload|]; [|done]. simpl in H.
    apply metadata_status_known in H. set_solver.
Qed.

Lemma last_request_spec entries e :
  last_request entries = Some e -> e ∈ entries /\ TrimSpace (RequestID e) <> EmptyString.
Proof.
  unfold last_request. intros H. apply head_Some_elem_of, list_elem_of_filter in H as [H1 H2].
  split; [by apply elem_of_reverse|done].
Qed.

Lemma TrimSpace_idle : TrimSpace "idle" = "idle".
Proof. vm_compute. reflexivity. Qed.

Lemma or_idle_eq status :
  or_idle status = if decide (TrimSpace status = EmptyString) then "idle" else TrimSpace status.
Proof.
  unfold or_idle. cbn [firstNonEmpty]. rewrite !TrimSpace_idem, TrimSpace_idle.
  by rewrite (decide_False (P := "idle" = EmptyString)) by done.
Qed.

Lemma or_idle_idem status : or_idle (or_idle status) = or_idle status.
Proof.
  rewrite !or_idle_eq. destruct (decide (TrimSpace status = EmptyString)) as [H|H].
  - by rewrite TrimSpace_idle.
  - by rewrite TrimSpace_idem, decide_False.
Qed.

Lemma derive_status_idem entries requestID turnSeq fallback :
  deriveRequestLoopStatus entries requestID turnSeq
    (or_idle (deriveRequestLoopStatus entries requestID turnSeq fallback)) =
  deriveRequestLoopStatus entries requestID turnSeq fallback.
Proof.
  unfold deriveRequestLoopStatus.
  repeat case_decide; try done; [by rewrite !or_idle_idem|].
  case_match; [done|]. by rewrite !or_idle_idem.
Qed.

(** The request and turn [deriveConversationLoopState] settles on. *)
Definition settled (c : ConversationFile) : Prop :=
  TrimSpace (CurrentRequestID c) = CurrentRequestID c /\
  ((CurrentRequestID c = EmptyString /\ last_request (Entries c) = None) \/
   conversationHasRequestEntry (Entries c) (CurrentRequestID c) (CurrentTurnSeq c) = true).

Lemma has_request_entry_self entries e :
  e ∈ entries -> TrimSpace (RequestID e) <> EmptyString ->
  conversationHasRequestEntry entries (TrimSpace (RequestID e)) (TurnSeq e) = true.
Proof.
  intros He Hne. unfold conversationHasRequestEntry. rewrite TrimSpace_idem, decide_False by done.
  apply existsb_exists. exists e. split; [by apply list_elem_of_In|].
  unfold entry_of_request. rewrite TrimSpace_idem, bool_decide_eq_true_2 by done. simpl.
  rewrite Z.eqb_refl. simpl. by rewrite andb_false_r.
Qed.

Lemma derive_settled c : settled (deriveConversationLoopState c).
Proof.
  unfold settled, deriveConversationLoopState.
  destruct (negb _ && negb _) eqn:E; destruct (last_request (Entries c)) as [e|] eqn:Hl; simpl.
  - apply last_request_spec in Hl as [Hin Hne]. split; [apply TrimSpace_idem|].
    right. by apply has_request_entry_self.
  - auto.
  - case_decide as Hr; simpl.
    + apply last_request_spec in Hl as [Hin Hne]. split; [apply TrimSpace_idem|].
      right. by apply has_request_entry_self.
    + split; [apply TrimSpace_idem|]. right.
      apply andb_false_iff in E as [E|E]; bools_to_props; done.
  - split; [apply TrimSpace_idem|].
    apply andb_false_iff in E as [E|E]; bools_to_props; auto.
Qed.

Lemma derive_of_settled c :
  settled c ->
  let status := deriveRequestLoopStatus (Entries c) (CurrentRequestID c) (CurrentTurnSeq c)
                  (or_idle (CurrentLoopStatus c)) in
  deriveConversationLoopState c =
    c <| SchemaVersion := conversationSchemaVersion |>
      <| ContextVersion := contextVersionForEntries (Entries c) |>
      <| CurrentLoopID := if decide (CurrentRequestID c = EmptyString) then CurrentLoopID c
                          else Sprintd (CurrentTurnSeq c) +:+ ":" +:+ CurrentRequestID c |>
      <| CurrentLoopStatus := status |>.
Proof.
  intros [Htrim Hs] status. unfold deriveConversationLoopState. rewrite Htrim.
  destruct Hs as [[Hr Hl]|Hh].
  - rewrite Hl, Hr. simpl. subst status. rewrite Hr. by destruct c; simpl in *; subst.
  - assert (Hr : CurrentRequestID c <> EmptyString).
    { intros Hr. unfold conversationHasRequestEntry in Hh. by rewrite Hr in Hh. }
    rewrite Hh, andb_false_r. rewrite (decide_False (P := CurrentRequestID c = EmptyString)) by done.
    destruct (last_request (Entries c));
      rewrite ?(decide_False (P := CurrentRequestID c = EmptyString)) by done;
      cbv beta iota; rewrite ?(decide_False (P := CurrentRequestID c = EmptyString)) by done;
      subst status; by destruct c.
Qed.

(** The fields the derivation sets, in terms of its result. *)
Lemma derive_fields c :
  let d := deriveConversationLoopState c in
  SchemaVersion d = conversationSchemaVersion /\
  ContextVersion d = contextVersionForEntries (Entries d) /\
  (CurrentRequestID d <> EmptyString ->
     CurrentLoopID d = Sprintd (CurrentTurnSeq d) +:+ ":" +:+ CurrentRequestID d) /\
  deriveRequestLoopStatus (Entries d) (CurrentRequestID d) (CurrentTurnSeq d)
    (or_idle (CurrentLoopStatus d)) = CurrentLoopStatus d.
Proof.
  unfold deriveConversationLoopState.
  destruct (negb _ && negb _); destruct (last_request (Entries c)); try case_decide;
    simpl; (split_and!; [done|done| |apply derive_status_idem]);
    intros; by repeat (case_decide || done).
Qed.

(** ** Lemmas: loading *)

Lemma normalize_entry_wf c e :
  1 <= NextEntrySeq c -> 1 <= NextTurnSeq c -> Seq e < max_int64 -> TurnSeq e < max_int64 ->
  let c' := normalize_entry c e in
  NextEntrySeq c' = Z.max (NextEntrySeq c) (Seq e + 1) /\
  NextTurnSeq c' = Z.max (NextTurnSeq c) (TurnSeq e + 1) /\ Entries c' = Entries c.
Proof.
  intros H1 H2 H3 H4. simpl. split_and!; [| |done].
  - destruct (NextEntrySeq c <=? Seq e) eqn:E; zbool. rewrite wrap_int64_small by lia. lia.
  - destruct (NextTurnSeq c <=? TurnSeq e) eqn:E; zbool. rewrite wrap_int64_small by lia. lia.
Qed.

Lemma normalize_fold_wf l c :
  1 <= NextEntrySeq c -> 1 <= NextTurnSeq c ->
  Forall (fun e => Seq e < max_int64 /\ TurnSeq e < max_int64) l ->
  let c' := fold_left normalize_entry l c in
  NextEntrySeq c <= NextEntrySeq c' /\ NextTurnSeq c <= NextTurnSeq c' /\
  Forall (fun e => Seq e < NextEntrySeq c' /\ TurnSeq e < NextTurnSeq c') l /\
  (NextEntrySeq c' = NextEntrySeq c \/ exists e, e ∈ l /\ NextEntrySeq c' = Seq e + 1) /\
  Entries c' = Entries c.
Proof.
  revert c. induction l as [|e l IH]; intros c H1 H2 Hf; simpl; [split_and!; auto; lia|].
  apply Forall_cons in Hf as [[Hs Ht] Hf].
  destruct (normalize_entry_wf c e H1 H2 Hs Ht) as (En & Et & Ee).
  destruct (IH (normalize_entry c e)) as (I1 & I2 & I3 & I4 & I5); [lia|lia|done|].
  split_and!; [lia|lia| | |congruence].
  - constructor; [lia|done].
  - destruct I4 as [I4|(e' & ? & ?)]; [|right; exists e'; set_solver].
    rewrite En in I4. destruct (Z.max_spec (NextEntrySeq c) (Seq e + 1)) as [[? Em]|[? Em]];
      rewrite Em in I4; [right; exists e; set_solver|by left].
Qed.

Lemma derive_keeps c :
  Entries (deriveConversationLoopState c) = Entries c /\
  NextEntrySeq (deriveConversationLoopState c) = NextEntrySeq c /\
  NextTurnSeq (deriveConversationLoopState c) = NextTurnSeq c /\
  ConversationID (deriveConversationLoopState c) = ConversationID c /\
  ContextVersion (deriveConversationLoopState c) = contextVersionForEntries (Entries c).
Proof.
  unfold deriveConversationLoopState.
  by destruct (negb _ && negb _); destruct (last_request (Entries c)); try case_decide.
Qed.

Lemma normalize_keeps now conversationID c :
  let n := normalizeLoadedConversation now conversationID c in
  Entries n = Entries c /\ ContextVersion n = contextVersionForEntries (Entries c).
Proof.
  unfold normalizeLoadedConversation. cbv zeta.
  match goal with |- context [deriveConversationLoopState ?x] =>
    destruct (derive_keeps x) as (-> & _ & _ & _ & ->); assert (Hx : Entries x = Entries c) end.
  { simpl. apply (fold_left_inv (fun d => Entries d = Entries c)); [done|]. by intros d e _ Hd. }
  by rewrite Hx.
Qed.

Lemma normalize_header_counters conversationID c :
  let c' := normalize_header conversationID c in
  1 <= NextEntrySeq c' /\ 1 <= NextTurnSeq c' /\ Entries c' = Entries c /\
  (1 <= NextEntrySeq c -> NextEntrySeq c' = NextEntrySeq c).
Proof.
  simpl. destruct (NextEntrySeq c <=? 0) eqn:E1, (NextTurnSeq c <=? 0) eqn:E2; zbool;
    split_and!; lia || done.
Qed.

(** ** Properties *)

(** C26: appending entries keeps the conversation well formed.  The new entries go to the
    end, in order, minus those whose idempotency key is known; each gets a fresh, larger
    sequence number; the counters stay above every entry, the keys stay unique and the
    context version is the greatest sequence number. *)
Theorem append_entries_wf now c entries :
  conversation_wf c -> Forall (fun e => TurnSeq e < max_int64) entries ->
  seqs_ok (NextEntrySeq c) entries ->
  let '(assigned, c') := appendEntriesInPlace now c entries in
  conversation_wf c' /\ Entries c' = Entries c ++ assigned /\
  (exists kept, sublist kept entries /\
     Forall2 (fun e e' => exists n, e' = numbered now n e) kept assigned) /\
  Forall (fun e => NextEntrySeq c <= Seq e) assigned /\
  (entries <> [] -> ContextVersion c' = contextVersionForEntries (Entries c') /\
     Forall (fun e => Seq e <= ContextVersion c' < NextEntrySeq c') (Entries c')).
Proof.
  intros Hw Ht Hok. destruct (append_in_place_wf now c entries Hw Ht Hok) as (Hw' & Hfr & Hv).
  destruct (append_in_place_entries now c entries) as (He & Hk).
  destruct (appendEntriesInPlace now c entries) as [assigned c']. simpl in *.
  split_and!; [done|done|done|done|]. intros Hne. split; [by apply Hv|]. rewrite (Hv Hne).
  destruct Hw' as (H1 & _ & [Hseq _ _ _]).
  destruct (fold_version (Entries c') 0) as (V0 & V1 & V2).
  fold (contextVersionForEntries (Entries c')) in V0, V1, V2.
  apply Forall_forall. intros e Hin. rewrite Forall_forall in V1, Hseq. specialize (V1 e Hin).
  split; [done|]. destruct V2 as [->|(e' & Hin' & <-)]; [lia|]. apply (Hseq e' Hin').
Qed.

(** appending is idempotent.  When every entry of a batch has an idempotency key, a
    second append of the batch assigns nothing and leaves the entries and the next sequence
    number as they are. *)
Theorem append_idempotent now now' c entries :
  conversation_wf c -> Forall (fun e => TurnSeq e < max_int64) entries ->
  seqs_ok (NextEntrySeq c) entries -> Forall (fun e => entry_key e <> EmptyString) entries ->
  let c1 := (appendEntriesInPlace now c entries).2 in
  let '(assigned, c2) := appendEntriesInPlace now' c1 entries in
  assigned = [] /\ Entries c2 = Entries c1 /\ NextEntrySeq c2 = NextEntrySeq c1.
Proof.
  intros Hw Ht Hok Hkeys. unfold appendEntriesInPlace. case_decide as Hne; [done|].
  destruct (append_inv_fold now c entries (append_start c) Hw (append_inv_start c Hw) Ht Hok)
    as [[_ _ _ Hk _ _] _].
  cbn [snd]. rewrite (append_known now' entries); [done|].
  intros e He. rewrite Forall_forall in Hkeys. split; [by apply Hkeys|]. simpl.
  rewrite <- Hk. apply append_keys; [done|by apply Hkeys].
Qed.

(** the loop status of a request.  The last announced terminal status wins; without one
    the status is [waiting_tool] exactly when some tool call of the request is not resolved
    by a later entry of it; otherwise it is [running] when the request has any activity, and
    the fallback when it has none. *)
Theorem request_loop_status entries requestID turnSeq fallback :
  TrimSpace requestID <> EmptyString ->
  let entry := request_entry requestID turnSeq entries in
  let silent := forall i x, entry i x -> announces x = None in
  let status := deriveRequestLoopStatus entries requestID turnSeq fallback in
  (forall i x st, entry i x -> announces x = Some st ->
     (forall j y, (i < j)%nat -> entry j y -> announces y = None) -> status = st) /\
  (silent -> (exists id, open_call requestID turnSeq entries id) -> status = "waiting_tool") /\
  (silent -> (forall id, ~ open_call requestID turnSeq entries id) ->
     (exists i x, entry i x /\ is_activity x = true) -> status = "running") /\
  (silent -> (forall i x, entry i x -> is_activity x = false) -> status = or_idle fallback).
Proof.
  intros Hr entry silent status. subst status. unfold deriveRequestLoopStatus.
  rewrite decide_False by done. cbv zeta. fold (scan_from requestID turnSeq entries).
  pose proof (scan_terminal requestID turnSeq entries) as Hterm.
  pose proof (announced_known entries requestID turnSeq) as Hknown.
  fold (scan_from requestID turnSeq entries) in Hknown.
  assert (Hsilent : silent -> terminalStatus (scan_from requestID turnSeq entries) = EmptyString).
  { intros Hsil. destruct Hterm as [[? _]|(i & x & Hx & Ha & _)]; [done|].
    by rewrite (Hsil i x Hx) in Ha. }
  assert (Hnone : (forall id, ~ open_call requestID turnSeq entries id) ->
            openToolCalls (scan_from requestID turnSeq entries) = ∅).
  { intros Hno. apply set_eq. intros id. rewrite scan_open. set_solver. }
  split_and!.
  - intros i x st Hx Ha Hl. destruct Hterm as [[_ Hn]|(i' & x' & Hx' & Ha' & Hl')].
    { by rewrite (Hn i x Hx) in Ha. }
    assert (Heq : x' = x).
    { destruct (lt_eq_lt_dec i i') as [[Hlt|<-]|Hgt].
      - by rewrite (Hl _ _ Hlt Hx') in Ha'.
      - destruct Hx as [Hx _], Hx' as [Hx' _]. congruence.
      - by rewrite (Hl' _ _ Hgt Hx) in Ha. }
    subst x'. rewrite Ha in Ha'. injection Ha' as ->.
    rewrite decide_True; [done|]. intros He.
    unfold announces in Ha. case_decide; [|done].
    destruct (decode_metadata (Payload_ x)) as [payload|]; [|done]. simpl in Ha.
    apply metadata_status_known in Ha. rewrite He in Ha. set_solver.
  - intros Hsil [id Hid]. rewrite (Hsilent Hsil), decide_False by naive_solver.
    apply scan_open in Hid. rewrite decide_True by set_solver. done.
  - intros Hsil Hno Hact. rewrite (Hsilent Hsil), decide_False by naive_solver.
    rewrite (Hnone Hno), decide_False by naive_solver.
    by rewrite (proj2 (scan_activity requestID turnSeq entries) Hact).
  - intros Hsil Hact. rewrite (Hsilent Hsil), decide_False by naive_solver.
    rewrite Hnone.
    { rewrite decide_False by naive_solver. destruct (seenActivity _) eqn:E; [|done].
      apply scan_activity in E as (i & x & Hx & Ha). by rewrite (Hact i x Hx) in Ha. }
    intros id (i & x & Hx & Ho & _). specialize (Hact i x Hx).
    unfold is_activity, opens in *. case_decide as Hk; [|done].
    rewrite Hk in Hact. rewrite bool_decide_eq_true_2 in Hact by set_solver. done.
Qed.

(** deriving the loop state is stable: deriving it again changes nothing, so reading a
    stored conversation does not alter the state it was stored with. *)
Theorem derive_loop_state_idempotent c :
  deriveConversationLoopState (deriveConversationLoopState c) = deriveConversationLoopState c.
Proof.
  rewrite (derive_of_settled _ (derive_settled c)).
  pose proof (derive_fields c) as (H1 & H2 & H3 & H4).
  destruct (deriveConversationLoopState c). simpl in *. subst.
  f_equal; [|exact H4]. case_decide; [done|]. by rewrite H3.
Qed.

(** loading repairs the counters.  Whatever counters the state file carries, after
    [normalizeLoadedConversation] the entries are those of the file and both next numbers
    are positive and above every entry; the sequence counter is the stored one unless it is
    not positive or an entry reached it, and then it is just above the greatest entry. *)
Theorem load_repairs_counters now conversationID c :
  Forall (fun e => Seq e < max_int64 /\ TurnSeq e < max_int64) (Entries c) ->
  let c' := normalizeLoadedConversation now conversationID c in
  Entries c' = Entries c /\ 1 <= NextEntrySeq c' /\ 1 <= NextTurnSeq c' /\
  Forall (fun e => Seq e < NextEntrySeq c' /\ TurnSeq e < NextTurnSeq c') (Entries c') /\
  ContextVersion c' = contextVersionForEntries (Entries c) /\
  (1 <= NextEntrySeq c -> Forall (fun e => Seq e < NextEntrySeq c) (Entries c) ->
     NextEntrySeq c' = NextEntrySeq c).
Proof.
  intros Hf c'. subst c'. unfold normalizeLoadedConversation.
  destruct (normalize_header_counters conversationID c) as (H1 & H2 & H3 & H4).
  destruct (normalize_fold_wf (Entries c) (normalize_header conversationID c) H1 H2 Hf)
    as (F1 & F2 & F3 & F4 & F5).
  revert F1 F2 F3 F4 F5. generalize (fold_left normalize_entry (Entries c)
                                       (normalize_header conversationID c)) as d.
  intros d F1 F2 F3 F4 F5. cbv zeta.
  match goal with |- context [deriveConversationLoopState ?x] =>
    destruct (derive_keeps x) as (K1 & K2 & K3 & _ & K5) end.
  rewrite K1, K2, K3, K5. simpl. rewrite F5, H3.
  split_and!; [done|lia|lia|done|done|].
  intros Hpos Hlt. rewrite <- (H4 Hpos) in Hlt |- *. destruct F4 as [F4|(e & Hin & F4)]; [done|].
  rewrite Forall_forall in Hlt. specialize (Hlt e Hin). lia.
Qed.

(** an accepted conversation id is safe as a directory name.  It is the trimmed input,
    not blank, holds neither ["/"] nor the platform's separator, and is accepted again
    unchanged; any other id is an error. *)
Theorem conversation_id_safe raw id :
  validateConversationID raw = Ok id <->
  id = TrimSpace raw /\ id <> EmptyString /\ "/"%char ∉ bytes_of id /\
  PathSeparator ∉ bytes_of id /\ validateConversationID id = Ok id.
Proof.
  assert (Hv : forall r, validateConversationID r =
    if decide (TrimSpace r = EmptyString) then Err "conversation_id is required"
    else if contains_byte "/" (TrimSpace r) || contains_byte PathSeparator (TrimSpace r) then
      Err "conversation_id must not contain path separators" else Ok (TrimSpace r)) by done.
  rewrite !Hv. unfold contains_byte. split.
  - case_decide as Hne; [done|]. destruct (_ || _) eqn:E; [done|]. intros [= <-].
    rewrite TrimSpace_idem, E. rewrite decide_False by done. bools_to_props. auto.
  - intros (-> & Hne & H1 & H2 & _). rewrite decide_False by done.
    by rewrite !bool_decide_eq_false_2.
Qed.

End Conversation.

#[export] Existing Instances eta_entry eta_conversation eta_scan.

(** ** Witnesses *)

(** Bodies that are the text of a metadata type; paths on a system with ["/"]. *)
#[local] Instance demo_decoders : Decoders string := {
  decode_metadata p := Some (mkMetadata p ∅);
  decode_tool_call_id p := Some p;
  decode_tool_result_id p := Some p;
  decode_request_folder _ := None;
  path_IsAbs p := bool_decide (head (bytes_of p) = Some "/"%char);
  path_Clean p := p;
  path_Base p := p;
  PathSeparator := "/"%char
}.

Definition demo_entry (turn : Z) (key kind body : string) : HistoryEntry :=
  mkEntry 0 turn "req" key "user" kind EmptyString EmptyString body 0.

Definition demo_conversation : @ConversationFile string unit :=
  mkConversation 1 "c" "c" EmptyString EmptyString EmptyString EmptyString "agent" 0
    EmptyString "idle" EmptyString 0 0 0 false 0 0 EmptyString EmptyString tt [] None None
    5 5 1 1 [].

Definition demo_batch : list HistoryEntry :=
  [demo_entry 1 "k1" "user_message" "m"; demo_entry 1 "k2" "tool_call" "t1";
   demo_entry 1 "k1" "user_message" "again"].

Lemma demo_conversation_wf : conversation_wf demo_conversation.
Proof.
  split; [done|]. split; [done|]. split; simpl; [constructor|apply chained_nil|constructor|].
  intros i j x y Hx. by rewrite lookup_nil in Hx.
Qed.

Lemma append_entries_wf_witness :
  map Seq (appendEntriesInPlace 9 demo_conversation demo_batch).1 = [1; 2] /\
  conversation_wf (appendEntriesInPlace 9 demo_conversation demo_batch).2.
Proof.
  split; [reflexivity|].
  pose proof (append_entries_wf 9 demo_conversation demo_batch demo_conversation_wf
    ltac:(repeat constructor) ltac:(vm_compute; discriminate)) as H.
  destruct (appendEntriesInPlace 9 demo_conversation demo_batch). apply H.
Defined.

Lemma append_idempotent_witness :
  let c1 := (appendEntriesInPlace 9 demo_conversation demo_batch).2 in
  (appendEntriesInPlace 10 c1 demo_batch).1 = [].
Proof.
  pose proof (append_idempotent 9 10 demo_conversation demo_batch demo_conversation_wf
    ltac:(repeat constructor) ltac:(vm_compute; discriminate)
    ltac:(repeat constructor; vm_compute; discriminate)) as H.
  cbv zeta in *. destruct (appendEntriesInPlace 10 _ demo_batch). apply H.
Defined.

(** A request with an unresolved tool call waits for it. *)
Lemma request_loop_status_witness :
  deriveRequestLoopStatus demo_batch "req" 1 "idle" = "waiting_tool".
Proof.
  apply (request_loop_status demo_batch "req" 1 "idle"); [vm_compute; discriminate| |].
  - intros i x [Hx _]. do 3 (destruct i as [|i]; [injection Hx as <-; vm_compute; reflexivity|]).
    done.
  - exists "t1", 1%nat, (demo_entry 1 "k2" "tool_call" "t1").
    split; [by split|]. split; [vm_compute; reflexivity|]. intros j y Hj [Hy _].
    do 3 (destruct j as [|j]; [first [lia|injection Hy as <-; vm_compute; discriminate]|]). done.
Defined.

Lemma load_repairs_counters_witness :
  let c := demo_conversation <| Entries := [demo_entry 4 "k" "user_message" "m" <| Seq := 7 |>] |>
             <| NextEntrySeq := 0 |> in
  1 <= NextEntrySeq (normalizeLoadedConversation 9 "c" c).
Proof.
  intros c. destruct (load_repairs_counters 9 "c" c ltac:(by repeat constructor)) as (_ & H & _).
  exact H.
Defined.
