(* ===== verification/Store.v ===== *)
(** * The conversation store (forwarder/file_store.go, files and cache).

    A conversation directory holds [state.json], [context.jsonl] and the older
    [context.json].  [context.jsonl] is a list of bytes, one JSON object per line; the two
    other files are read and written whole and are kept as the values they encode.  Every
    operation runs under the conversation lock and is atomic here; a crash is modelled by
    the bytes an append left behind, with the cache of the next process empty. *)

From S2P Require Import Prelude Go Modes Conversation.

(** The line encoding of an entry ([json.Marshal] and [json.Unmarshal]) and the projection
    of the structured state (state_tools.go), which only rewrites the documents. *)
Class StoreEnv (Payload Docs : Type) := {
  marshal_entry : @HistoryEntry Payload -> bytes;
  unmarshal_entry : bytes -> option (@HistoryEntry Payload);
  runtime_documents : @ConversationFile Payload Docs -> result Docs;
  empty_documents : Docs
}.

Definition newline : ascii := byte_of 10.

Section Store.
Context {Payload Docs : Type} `{!Decoders Payload} `{!StoreEnv Payload Docs}.

Notation HistoryEntry := (@HistoryEntry Payload).
Notation ConversationFile := (@ConversationFile Payload Docs).

(** ** Data *)

Inductive StateFile :=
| StateMissing
| StateCorrupt
| StateValid (meta : ConversationFile).

Record ConversationDir := mkDir {
  state_json : StateFile;
  context_jsonl : option bytes;
  context_json : option (list HistoryEntry)
}.

#[export] Instance eta_dir : Eta ConversationDir := fun d =>
  mkDir (state_json d) (context_jsonl d) (context_json d).

Record cachedConversationEntries := mkCached {
  contextVersion : Z;
  cached_entries : list HistoryEntry;
  cachedAt : Z
}.

Record ConversationFileStore := mkStore {
  dirs : gmap string ConversationDir;
  entriesCache : gmap string cachedConversationEntries
}.

#[export] Instance eta_store : Eta ConversationFileStore := fun s =>
  mkStore (dirs s) (entriesCache s).

Definition maxCachedConversations : nat := 8.

Definition empty_dir : ConversationDir := mkDir StateMissing None None.

Definition dir_of (id : string) (st : ConversationFileStore) : ConversationDir :=
  default empty_dir (dirs st !! id).

Definition set_dir (id : string) (d : ConversationDir) (st : ConversationFileStore)
  : ConversationFileStore := st <| dirs := <[id := d]> (dirs st) |>.

Definition NewConversationFileStore : ConversationFileStore := mkStore ∅ ∅.

(** ** The cache *)

(** The scan for the oldest cached conversation, in map order; the empty id means none
    yet. *)
Definition older (acc : string * Z) (kv : string * cachedConversationEntries) : string * Z :=
  if decide (acc.1 = EmptyString) then (kv.1, cachedAt kv.2)
  else if cachedAt kv.2 <? acc.2 then (kv.1, cachedAt kv.2) else acc.

Definition oldest_cached (cache : gmap string cachedConversationEntries) : string :=
  (fold_left older (map_to_list cache) (EmptyString, 0)).1.

Definition updateCacheLocked (now : Z) (id : string) (version : Z) (entries : list HistoryEntry)
    (st : ConversationFileStore) : ConversationFileStore :=
  let cache := entriesCache st in
  let oldest := oldest_cached cache in
  let cache :=
    if (maxCachedConversations <=? size cache)%nat &&
       negb (bool_decide (oldest = EmptyString)) && negb (bool_decide (oldest = id))
    then delete oldest cache else cache in
  st <| entriesCache := <[id := mkCached version entries now]> cache |>.

Definition getCachedEntries (id : string) (expectedContextVersion : Z)
    (st : ConversationFileStore) : option (list HistoryEntry) :=
  if expectedContextVersion <=? 0 then None
  else match entriesCache st !! id with
       | None => None
       | Some cached =>
           if contextVersion cached =? expectedContextVersion
           then Some (cached_entries cached) else None
       end.

(** ** The line files *)

(** The complete lines of a file, without their newline, and the bytes after the last. *)
Fixpoint split_lines (body : bytes) : list bytes * bytes :=
  match body with
  | [] => ([], [])
  | c :: rest =>
      let '(lines, tail) := split_lines rest in
      if decide (c = newline) then ([] :: lines, tail)
      else match lines with
           | [] => ([], c :: tail)
           | l :: lines => ((c :: l) :: lines, tail)
           end
  end.

(** The loop of [readContextJSONL].  A line that does not decode is dropped: the loop stops
    when nothing follows it and goes on otherwise. *)
Fixpoint read_lines (lines : list bytes) (tail : bytes) : list HistoryEntry :=
  match lines with
  | [] =>
      if decide (trim_space tail = []) then []
      else match unmarshal_entry (trim_space tail) with Some e => [e] | None => [] end
  | line :: lines =>
      if decide (trim_space line = []) then read_lines lines tail
      else match unmarshal_entry (trim_space line) with
           | Some e => e :: read_lines lines tail
           | None => if decide (lines = [] /\ tail = []) then [] else read_lines lines tail
           end
  end.

Definition readContextJSONL (body : bytes) : list HistoryEntry :=
  let '(lines, tail) := split_lines body in read_lines lines tail.

Definition encode_entries (entries : list HistoryEntry) : bytes :=
  flat_map (fun e => marshal_entry e ++ [newline]) entries.

Definition writeContextJSONLAtomic (entries : list HistoryEntry) (d : ConversationDir)
  : ConversationDir := d <| context_jsonl := Some (encode_entries entries) |>.

Definition appendContextJSONL (entries : list HistoryEntry) (d : ConversationDir)
  : ConversationDir :=
  if decide (entries = []) then d
  else d <| context_jsonl := Some (default [] (context_jsonl d) ++ encode_entries entries) |>.

Definition readContextLocked (now : Z) (id : string) (expectedContextVersion : Z)
    (st : ConversationFileStore) : list HistoryEntry * ConversationFileStore :=
  let version entries := if expectedContextVersion <=? 0 then contextVersionForEntries entries
                         else expectedContextVersion in
  match getCachedEntries id expectedContextVersion st with
  | Some entries => (entries, st)
  | None =>
      match context_jsonl (dir_of id st) with
      | Some body =>
          let entries := readContextJSONL body in
          (entries, updateCacheLocked now id (version entries) entries st)
      | None =>
          match context_json (dir_of id st) with
          | Some entries => (entries, updateCacheLocked now id (version entries) entries st)
          | None => ([], st)
          end
      end
  end.

Definition readConversationLocked (now : Z) (id : string) (st : ConversationFileStore)
  : result (option ConversationFile) * ConversationFileStore :=
  match state_json (dir_of id st) with
  | StateMissing => (Ok None, st)
  | StateCorrupt => (Err "decode conversation state", st)
  | StateValid meta =>
      let '(entries, st) := readContextLocked now id (ContextVersion meta) st in
      (Ok (Some (normalizeLoadedConversation now id (meta <| Entries := entries |>))), st)
  end.

(** ** Writing *)

Definition writeConversationMetaLocked (now : Z) (id : string) (c : ConversationFile)
    (st : ConversationFileStore) : result ConversationFile * ConversationFileStore :=
  let n := normalizeLoadedConversation now id c in
  let n :=
    if negb (bool_decide (TrimSpace (CurrentLoopStatus c) = EmptyString)) &&
       (bool_decide (TrimSpace (CurrentRequestID c) = EmptyString) ||
        conversationHasRequestEntry (Entries n) (CurrentRequestID c) (CurrentTurnSeq c))
    then n <| CurrentLoopID := CurrentLoopID c |>
           <| CurrentLoopStatus := CurrentLoopStatus c |>
           <| CurrentRequestID := CurrentRequestID c |>
           <| CurrentTurnSeq := CurrentTurnSeq c |>
    else n in
  match runtime_documents n with
  | Err e => (Err e, st)
  | Ok docs =>
      let n := n <| Documents := docs |> in
      let meta := n <| SchemaVersion := conversationSchemaVersion |>
                    <| ContextVersion := contextVersionForEntries (Entries n) |>
                    <| Entries := [] |> in
      (Ok n, set_dir id (dir_of id st <| state_json := StateValid meta |>) st)
  end.

Definition writeContextLocked (id : string) (c : ConversationFile) (st : ConversationFileStore)
  : ConversationFileStore :=
  set_dir id (writeContextJSONLAtomic (Entries c) (dir_of id st) <| context_json := None |>) st.

Definition writeConversationLocked (now : Z) (id : string) (c : ConversationFile)
    (st : ConversationFileStore) : result ConversationFile * ConversationFileStore :=
  let c := normalizeLoadedConversation now id c in
  let st := writeContextLocked id c st in
  let st := updateCacheLocked now id (ContextVersion c) (Entries c) st in
  writeConversationMetaLocked now id c st.

(** The files of [appendConversationEntriesLocked]: append when the line file exists, write
    it whole when it does not. *)
Definition append_files (entries assigned : list HistoryEntry) (d : ConversationDir)
  : ConversationDir :=
  match context_jsonl d with
  | Some _ =>
      if decide (assigned = []) then d
      else appendContextJSONL assigned d <| context_json := None |>
  | None => writeContextJSONLAtomic entries d <| context_json := None |>
  end.

Definition appendConversationEntriesLocked (now : Z) (id : string) (c : ConversationFile)
    (assigned : list HistoryEntry) (st : ConversationFileStore)
  : result ConversationFile * ConversationFileStore :=
  let c := normalizeLoadedConversation now id c in
  let st := set_dir id (append_files (Entries c) assigned (dir_of id st)) st in
  let st := updateCacheLocked now id (ContextVersion c) (Entries c) st in
  writeConversationMetaLocked now id c st.

(** ** Operations *)

(** The conversation an operation creates when there is no state file. *)
Definition fresh_conversation (now : Z) (id mode : string) : ConversationFile :=
  mkConversation conversationSchemaVersion id id EmptyString EmptyString EmptyString
    EmptyString mode 0 EmptyString EmptyString EmptyString 0 0 0 false 0 0 EmptyString
    EmptyString empty_documents [] None None now 0 1 1 [].

Definition mutateConversation (now : Z) (conversationID : string) (createIfMissing : bool)
    (update : option (ConversationFile -> result ConversationFile))
    (st : ConversationFileStore) : result (option ConversationFile) * ConversationFileStore :=
  match validateConversationID conversationID with
  | Err e => (Err e, st)
  | Ok id =>
      match readConversationLocked now id st with
      | (Err e, st) => (Err e, st)
      | (Ok loaded, st) =>
          let start := match loaded with
                       | Some c => Some c
                       | None => if createIfMissing then Some (fresh_conversation now id EmptyString)
                                 else None
                       end in
          match start, update with
          | None, _ => (Ok None, st)
          | Some c, None => (Ok (Some c), st)
          | Some c, Some f =>
              match f c with
              | Err e => (Err e, st)
              | Ok c =>
                  match writeConversationLocked now id (deriveConversationLoopState c) st with
                  | (Err e, st) => (Err e, st)
                  | (Ok c, st) => (Ok (Some c), st)
                  end
              end
          end
      end
  end.

Definition LoadConversation (now : Z) (conversationID : string) (st : ConversationFileStore) :=
  mutateConversation now conversationID false None st.

(** The initialisation [CreateConversation] runs under the lock. *)
Definition initialise_conversation (now : Z) (conversationID : string) (mode : AgentMode)
    (parentConversationID parentToolCallID rootConversationID : string) (c : ConversationFile)
  : result ConversationFile :=
  if decide (TrimSpace (ConversationID c) <> EmptyString) then
    if decide (TrimSpace (Mode c) = EmptyString) then
      match modeAlias mode with
      | Err e => Err e
      | Ok alias => Ok (c <| Mode := alias |>)
      end
    else Ok c
  else if decide (TrimSpace conversationID = EmptyString) then Err "conversation_id is required"
  else
    match modeAlias mode with
    | Err e => Err e
    | Ok alias =>
        let id := TrimSpace conversationID in
        Ok (c <| SchemaVersion := conversationSchemaVersion |>
              <| ConversationID := id |>
              <| RootConversationID := if decide (TrimSpace rootConversationID = EmptyString)
                                       then id else TrimSpace rootConversationID |>
              <| ParentConversationID := TrimSpace parentConversationID |>
              <| ParentToolCallID := TrimSpace parentToolCallID |>
              <| Mode := alias |>
              <| CreatedAt := now |>
              <| UpdatedAt := now |>
              <| NextTurnSeq := 1 |>
              <| NextEntrySeq := 1 |>
              <| ContextVersion := 0 |>
              <| CurrentLoopStatus := "idle" |>
              <| Entries := [] |>)
    end.

Definition CreateConversation (now : Z) (conversationID : string) (mode : AgentMode)
    (parentConversationID parentToolCallID rootConversationID : string)
    (st : ConversationFileStore) :=
  mutateConversation now conversationID true
    (Some (initialise_conversation now conversationID mode parentConversationID
             parentToolCallID rootConversationID)) st.

Definition apply_update (update : option (ConversationFile -> result ConversationFile))
    (c : ConversationFile) : result ConversationFile :=
  match update with Some f => f c | None => Ok c end.

Definition AppendEntriesWithUpdate (now : Z) (conversationID : string)
    (entries : list HistoryEntry) (update : option (ConversationFile -> result ConversationFile))
    (st : ConversationFileStore)
  : result (option ConversationFile * list HistoryEntry) * ConversationFileStore :=
  if bool_decide (entries = []) && match update with None => true | Some _ => false end then
    match LoadConversation now conversationID st with
    | (Ok c, st) => (Ok (c, []), st)
    | (Err e, st) => (Err e, st)
    end
  else
  match validateConversationID conversationID with
  | Err e => (Err e, st)
  | Ok id =>
      match readConversationLocked now id st with
      | (Err e, st) => (Err e, st)
      | (Ok loaded, st) =>
          let c := default (fresh_conversation now id "agent") loaded in
          let '(assigned, c) := appendEntriesInPlace now c entries in
          match apply_update update c with
          | Err e => (Err e, st)
          | Ok c =>
              match appendConversationEntriesLocked now id (deriveConversationLoopState c)
                      assigned st with
              | (Err e, st) => (Err e, st)
              | (Ok c, st) => (Ok (Some c, assigned), st)
              end
          end
      end
  end.

Definition AppendEntries (now : Z) (conversationID : string) (entries : list HistoryEntry)
    (st : ConversationFileStore) := AppendEntriesWithUpdate now conversationID entries None st.

Definition SaveConversationWithEntries (now : Z) (conversationID : string)
    (source : ConversationFile) (entries : list HistoryEntry) (st : ConversationFileStore)
  : result ConversationFile * ConversationFileStore :=
  match validateConversationID conversationID with
  | Err e => (Err e, st)
  | Ok id =>
      match readConversationLocked now id st with
      | (Err e, st) => (Err e, st)
      | (Ok loaded, st) =>
          let c := default (fresh_conversation now id EmptyString) loaded in
          let c := mergeConversationMetadata c source in
          let '(_, c) := appendEntriesInPlace now c (resetEntrySequences entries) in
          writeConversationLocked now id (deriveConversationLoopState c) st
      end
  end.

Definition UpdateConversationMeta (now : Z) (conversationID : string)
    (update : option (ConversationFile -> result ConversationFile))
    (st : ConversationFileStore) : result ConversationFile * ConversationFileStore :=
  match validateConversationID conversationID with
  | Err e => (Err e, st)
  | Ok id =>
      match readConversationLocked now id st with
      | (Err e, st) => (Err e, st)
      | (Ok loaded, st) =>
          match apply_update update (default (fresh_conversation now id EmptyString) loaded) with
          | Err e => (Err e, st)
          | Ok c => writeConversationMetaLocked now id c st
          end
      end
  end.

(** The conversation [ReplaceEntries] starts from: no entry, both counters at 1. *)
Definition cleared (c : ConversationFile) : ConversationFile :=
  c <| Entries := [] |> <| NextEntrySeq := 1 |> <| NextTurnSeq := 1 |>.

Definition ReplaceEntries (now : Z) (conversationID : string) (entries : list HistoryEntry)
    (update : option (ConversationFile -> result ConversationFile))
    (st : ConversationFileStore) : result ConversationFile * ConversationFileStore :=
  match validateConversationID conversationID with
  | Err e => (Err e, st)
  | Ok id =>
      match readConversationLocked now id st with
      | (Err e, st) => (Err e, st)
      | (Ok loaded, st) =>
          let c := cleared (default (fresh_conversation now id EmptyString) loaded) in
          let '(_, c) := appendEntriesInPlace now c (resetEntrySequences entries) in
          match apply_update update c with
          | Err e => (Err e, st)
          | Ok c => writeConversationLocked now id (deriveConversationLoopState c) st
          end
      end
  end.

(** [ConversationSummary], without the time of the last update. *)
Record ConversationSummary := mkSummary {
  summary_ConversationID : string;
  summary_Mode : string;
  EntriesCount : Z;
  summary_NextTurnSeq : Z;
  summary_NextEntrySeq : Z
}.

(** [GetConversationSummary]: [None] is the zero summary of an absent conversation. *)
Definition GetConversationSummary (now : Z) (conversationID : string)
    (st : ConversationFileStore) : result (option ConversationSummary) * ConversationFileStore :=
  match LoadConversation now conversationID st with
  | (Err e, st) => (Err e, st)
  | (Ok None, st) => (Ok None, st)
  | (Ok (Some c), st) =>
      (Ok (Some (mkSummary (ConversationID c) (Mode c) (Z.of_nat (length (Entries c)))
                   (NextTurnSeq c) (NextEntrySeq c))), st)
  end.

(** ** Lemmas: lines *)

Lemma split_lines_app a b :
  (split_lines a).2 = [] ->
  split_lines (a ++ b) = ((split_lines a).1 ++ (split_lines b).1, (split_lines b).2).
Proof.
  induction a as [|c a IH]; simpl; [by destruct (split_lines b)|].
  destruct (split_lines a) as [la ta] eqn:Ea. simpl in IH.
  case_decide as Hc; simpl.
  - intros ->. by rewrite IH.
  - destruct la as [|l la]; simpl; [done|]. intros ->. by rewrite IH.
Qed.

Lemma split_lines_tail l : newline ∉ l -> split_lines l = ([], l).
Proof.
  induction l as [|c l IH]; intros Hl; simpl; [done|].
  rewrite IH by set_solver. rewrite decide_False by set_solver. done.
Qed.

Lemma split_lines_line l : newline ∉ l -> split_lines (l ++ [newline]) = ([l], []).
Proof.
  induction l as [|c l IH]; intros Hl; simpl.
  - done.
  - rewrite IH by set_solver. by rewrite decide_False by set_solver.
Qed.

(** What a line contributes. *)
Definition decode_line (line : bytes) : option HistoryEntry :=
  if decide (trim_space line = []) then None else unmarshal_entry (trim_space line).

Lemma read_lines_omap lines tail : read_lines lines tail = omap decode_line (lines ++ [tail]).
Proof.
  unfold decode_line. induction lines as [|line lines IH]; simpl.
  - case_decide; [done|]. by destruct (unmarshal_entry _).
  - case_decide as Hl; [done|]. destruct (unmarshal_entry _) as [e|]; [by rewrite IH|].
    case_decide as Hlast; [|done]. destruct Hlast as [-> ->]. done.
Qed.

Lemma readContextJSONL_omap body :
  readContextJSONL body = omap decode_line ((split_lines body).1 ++ [(split_lines body).2]).
Proof.
  unfold readContextJSONL. destruct (split_lines body) as [lines tail]. apply read_lines_omap.
Qed.

Lemma decode_line_nil : omap decode_line [[]] = [].
Proof. done. Qed.

(** A file that ends in a newline reads as its lines. *)
Lemma readContextJSONL_app a b :
  (split_lines a).2 = [] -> readContextJSONL (a ++ b) = readContextJSONL a ++ readContextJSONL b.
Proof.
  intros Ha. rewrite !readContextJSONL_omap, (split_lines_app a b Ha), Ha.
  cbn [fst snd]. by rewrite !omap_app, decode_line_nil, app_nil_r, app_assoc.
Qed.

(** ** Lemmas: the line encoding *)

(** What the code relies on of the JSON encoding of the entries in [ok]: one trimmed line,
    decoded back, no proper prefix of which decodes. *)
Record codec_ok (ok : HistoryEntry -> Prop) : Prop := {
  co_line : forall e, ok e -> newline ∉ marshal_entry e;
  co_trim : forall e, ok e -> trim_space (marshal_entry e) = marshal_entry e;
  co_some : forall e, ok e -> marshal_entry e <> [];
  co_round : forall e, ok e -> unmarshal_entry (marshal_entry e) = Some e;
  co_prefix : forall e p q, ok e -> marshal_entry e = p ++ q -> q <> [] ->
    unmarshal_entry (trim_space p) = None;
  co_number : forall e seq at_, ok e ->
    ok (e <| Seq := seq |>) /\ ok (e <| EntryCreatedAt := at_ |>);
  co_glue : forall e e' p q, ok e -> ok e' -> marshal_entry e = p ++ q -> p <> [] -> q <> [] ->
    unmarshal_entry (trim_space (p ++ marshal_entry e')) = None
}.

Section Codec.
Context (ok : HistoryEntry -> Prop) (Hcodec : codec_ok ok).

Lemma decode_marshal e : ok e -> decode_line (marshal_entry e) = Some e.
Proof.
  intros He. unfold decode_line. rewrite (co_trim _ Hcodec) by done.
  rewrite decide_False by by apply (co_some _ Hcodec). by apply (co_round _ Hcodec).
Qed.

Lemma encode_ends entries : Forall ok entries -> (split_lines (encode_entries entries)).2 = [].
Proof.
  induction 1 as [|e l He Hl IH]; [done|].
  change (encode_entries (e :: l)) with ((marshal_entry e ++ [newline]) ++ encode_entries l).
  rewrite split_lines_app; [exact IH|].
  by rewrite split_lines_line by by apply (co_line _ Hcodec).
Qed.

Lemma read_encode entries : Forall ok entries -> readContextJSONL (encode_entries entries) = entries.
Proof.
  induction 1 as [|e l He Hl IH]; [done|].
  change (encode_entries (e :: l)) with ((marshal_entry e ++ [newline]) ++ encode_entries l).
  rewrite readContextJSONL_app by by rewrite split_lines_line by by apply (co_line _ Hcodec).
  rewrite IH, readContextJSONL_omap, split_lines_line by by apply (co_line _ Hcodec).
  cbn [fst snd]. by rewrite omap_app, decode_line_nil; simpl; rewrite decode_marshal.
Qed.

(** The bytes an interrupted append leaves behind read as some of the first entries. *)
Lemma read_torn entries n :
  Forall ok entries ->
  exists k, readContextJSONL (take n (encode_entries entries)) = take k entries.
Proof.
  intros Hl. revert n. induction Hl as [|e l He Hl IH]; intros n.
  { exists 0%nat. change (encode_entries []) with (@nil ascii). by rewrite take_nil. }
  change (encode_entries (e :: l)) with ((marshal_entry e ++ [newline]) ++ encode_entries l).
  destruct (decide (length (marshal_entry e ++ [newline]) <= n)%nat) as [Hn|Hn].
  - rewrite take_app_ge by done. destruct (IH (n - length (marshal_entry e ++ [newline]))%nat)
      as [k Hk]. exists (S k).
    rewrite readContextJSONL_app by by rewrite split_lines_line by by apply (co_line _ Hcodec).
    rewrite Hk, readContextJSONL_omap, split_lines_line by by apply (co_line _ Hcodec).
    cbn [fst snd]. by rewrite omap_app, decode_line_nil; simpl; rewrite decode_marshal.
  - rewrite take_app_le by lia.
    assert (Hle : (n <= length (marshal_entry e))%nat) by (rewrite length_app in Hn; simpl in Hn; lia).
    rewrite take_app_le by done.
    assert (Hno : newline ∉ take n (marshal_entry e)).
    { intros Hin. apply (co_line _ Hcodec e He). apply elem_of_take in Hin as (i & Hi & _).
      by eapply list_elem_of_lookup_2. }
    rewrite readContextJSONL_omap, split_lines_tail by done. simpl. unfold decode_line.
    destruct (decide (n = length (marshal_entry e))) as [->|Hne].
    + exists 1%nat. rewrite firstn_all. fold (decode_line (marshal_entry e)).
      by rewrite decode_marshal.
    + exists 0%nat. case_decide; [done|].
      rewrite (co_prefix _ Hcodec e (take n (marshal_entry e)) (drop n (marshal_entry e)));
        [done|done|by rewrite take_drop|].
      intros Hd. apply (f_equal length) in Hd. rewrite length_drop in Hd. simpl in Hd. lia.
Qed.

(** ** Lemmas: the cache is transparent *)

(** The entries the context files of a directory hold. *)
Definition dir_entries (d : ConversationDir) : list HistoryEntry :=
  match context_jsonl d with
  | Some body => readContextJSONL body
  | None => default [] (context_json d)
  end.

(** A directory no operation was interrupted in: its lines are complete, its entries are
    encodable, and context files come with a state file. *)
Definition dir_sound (d : ConversationDir) : Prop :=
  (forall body, context_jsonl d = Some body -> (split_lines body).2 = []) /\
  Forall ok (dir_entries d) /\
  (state_json d = StateMissing -> context_jsonl d = None /\ context_json d = None).

Definition cache_coherent (st : ConversationFileStore) : Prop :=
  forall id cached, entriesCache st !! id = Some cached ->
    cached_entries cached = dir_entries (dir_of id st).

Definition cache_bounded (st : ConversationFileStore) : Prop :=
  (size (entriesCache st) <= maxCachedConversations)%nat /\ entriesCache st !! EmptyString = None.

Record store_sound (st : ConversationFileStore) : Prop := {
  ss_dirs : forall id, dir_sound (dir_of id st);
  ss_cache : cache_coherent st;
  ss_bound : cache_bounded st
}.

Lemma dir_of_set id id' d st :
  dir_of id' (set_dir id d st) = if decide (id = id') then d else dir_of id' st.
Proof.
  unfold dir_of, set_dir. simpl. case_decide as H.
  - subst. by rewrite lookup_insert_eq.
  - by rewrite lookup_insert_ne.
Qed.

Lemma older_fold l acc :
  let r := fold_left older l acc in
  r = acc \/ exists kv, kv ∈ l /\ r.1 = kv.1.
Proof.
  revert acc. induction l as [|kv l IH]; intros acc; simpl; [by left|].
  destruct (IH (older acc kv)) as [H|(kv' & Hin & H)].
  - rewrite H. unfold older. repeat case_match; (by left) || (right; exists kv; set_solver).
  - right. exists kv'. set_solver.
Qed.

Lemma oldest_nonempty cache :
  cache !! EmptyString = None -> cache <> ∅ -> oldest_cached cache <> EmptyString.
Proof.
  intros Hno Hne. unfold oldest_cached.
  destruct (map_to_list cache) as [|kv l] eqn:El.
  { apply map_to_list_empty_iff in El. done. }
  assert (Hall : forall kv', kv' ∈ kv :: l -> kv'.1 <> EmptyString).
  { intros [k v] Hin. simpl. rewrite <- El in Hin. apply elem_of_map_to_list in Hin.
    intros ->. congruence. }
  simpl. destruct (older_fold l (older (EmptyString, 0) kv)) as [H|(kv' & Hin & H)]; rewrite H.
  - apply (Hall kv). set_solver.
  - apply Hall. set_solver.
Qed.

Lemma oldest_in cache : oldest_cached cache <> EmptyString -> is_Some (cache !! oldest_cached cache).
Proof.
  unfold oldest_cached. intros Hne.
  destruct (older_fold (map_to_list cache) (EmptyString, 0)) as [H|([k v] & Hin & H)].
  - by rewrite H in Hne.
  - rewrite H. apply elem_of_map_to_list in Hin. by exists v.
Qed.

#[local] Arguments Nat.leb : simpl never.
#[local] Arguments maxCachedConversations : simpl never.

Lemma update_cache_bounded now id version entries st :
  id <> EmptyString -> cache_bounded st -> cache_bounded (updateCacheLocked now id version entries st).
Proof.
  intros Hid [Hs He]. unfold updateCacheLocked, cache_bounded. simpl.
  set (cache := entriesCache st) in *. split.
  2: { rewrite lookup_insert_ne by done. case_match; [by rewrite lookup_delete_None; right|done]. }
  destruct (cache !! id) as [old|] eqn:Hold.
  - destruct (_ && _) eqn:E.
    + bools_to_props. assert (Hd : is_Some (delete (oldest_cached cache) cache !! id)).
      { exists old. by rewrite lookup_delete_ne. }
      destruct Hd as [v Hv]. rewrite map_size_insert, Hv, map_size_delete.
      destruct (cache !! oldest_cached cache); unfold Datatypes.id; lia.
    + rewrite map_size_insert, Hold. unfold Datatypes.id. lia.
  - destruct (_ && _) eqn:E.
    + bools_to_props. rewrite map_size_insert, map_size_delete.
      assert (Ho : oldest_cached cache <> EmptyString) by done.
      apply oldest_in in Ho as [v Hv]. rewrite Hv.
      rewrite lookup_delete_ne by done. rewrite Hold. unfold maxCachedConversations in *. lia.
    + rewrite map_size_insert, Hold.
      destruct (decide (maxCachedConversations <= size cache)%nat) as [Hge|Hlt]; [exfalso|lia].
      rewrite (proj2 (Nat.leb_le _ _) Hge) in E. simpl in E.
      assert (Hne : cache <> ∅).
      { intros Hem. rewrite Hem, map_size_empty in Hge. unfold maxCachedConversations in Hge. lia. }
      pose proof (oldest_nonempty cache He Hne) as Ho. rewrite bool_decide_eq_false_2 in E by done.
      simpl in E. apply negb_false_iff, bool_decide_eq_true in E.
      apply oldest_in in Ho as [v Hv]. congruence.
Qed.

Lemma update_cache_coherent now id version st :
  cache_coherent st ->
  cache_coherent (updateCacheLocked now id version (dir_entries (dir_of id st)) st).
Proof.
  intros Hc id' cached. unfold updateCacheLocked. simpl. rewrite lookup_insert_Some.
  intros [[<- <-]|[Hne Hl]]; [done|]. apply Hc. revert Hl.
  case_match; [|done]. by intros [_ ?]%lookup_delete_Some.
Qed.

Lemma update_cache_dirs now id version entries st :
  dirs (updateCacheLocked now id version entries st) = dirs st.
Proof. done. Qed.

Lemma store_sound_cache now id version st :
  id <> EmptyString -> store_sound st ->
  store_sound (updateCacheLocked now id version (dir_entries (dir_of id st)) st).
Proof.
  intros Hid [Hd Hc Hb]. split; [done|by apply update_cache_coherent|by apply update_cache_bounded].
Qed.

(** Whatever is cached, reading the context gives what the files hold. *)
Lemma readContextLocked_spec now id version st :
  id <> EmptyString -> store_sound st ->
  let r := readContextLocked now id version st in
  r.1 = dir_entries (dir_of id st) /\ dirs r.2 = dirs st /\ store_sound r.2.
Proof.
  intros Hid Hst. unfold readContextLocked, getCachedEntries.
  destruct (version <=? 0) eqn:Ev.
  2: destruct (entriesCache st !! id) as [cached|] eqn:Ec;
       [destruct (contextVersion cached =? version)|].
  2: { split_and!; [by apply (ss_cache _ Hst)|done|done]. }
  all: pose proof (fun v => store_sound_cache now id v st Hid Hst) as Hs;
    unfold dir_entries in *;
    destruct (context_jsonl (dir_of id st)) as [body|] eqn:Ej; simpl;
    [by split_and!|]; destruct (context_json (dir_of id st)) as [l|] eqn:El; simpl; by split_and!.
Qed.

(** ** Lemmas: the operations *)

Lemma readConversationLocked_spec now id st :
  id <> EmptyString -> store_sound st ->
  let r := readConversationLocked now id st in
  r.1 = match state_json (dir_of id st) with
        | StateMissing => Ok None
        | StateCorrupt => Err "decode conversation state"
        | StateValid meta => Ok (Some (normalizeLoadedConversation now id
                                  (meta <| Entries := dir_entries (dir_of id st) |>)))
        end /\
  dirs r.2 = dirs st /\ store_sound r.2.
Proof.
  intros Hid Hst. unfold readConversationLocked.
  destruct (state_json (dir_of id st)) as [| |meta]; [done|done|].
  destruct (readContextLocked_spec now id (ContextVersion meta) st Hid Hst) as (H1 & H2 & H3).
  destruct (readContextLocked now id (ContextVersion meta) st) as [entries st1].
  simpl in *. by subst.
Qed.

(** The conversation an operation works on holds exactly the stored entries. *)
Lemma loaded_entries now id st c mode :
  id <> EmptyString -> store_sound st ->
  (readConversationLocked now id st).1 = Ok c ->
  Entries (default (fresh_conversation now id mode) c) = dir_entries (dir_of id st).
Proof.
  intros Hid Hst. destruct (readConversationLocked_spec now id st Hid Hst) as (-> & _ & _).
  destruct (state_json (dir_of id st)) as [| |meta] eqn:Es; [|done|]; intros [= <-]; simpl.
  - destruct (ss_dirs _ Hst id) as (_ & _ & Hm). destruct (Hm Es) as [H1 H2].
    unfold dir_entries. by rewrite H1, H2.
  - destruct (normalize_keeps now id (meta <| Entries := dir_entries (dir_of id st) |>)) as [He _].
    exact He.
Qed.

(** The state of the store after [c] was written under [id]. *)
Record stored (id : string) (c : ConversationFile) (st st' : ConversationFileStore) : Prop := {
  sd_sound : store_sound st';
  sd_entries : dir_entries (dir_of id st') = Entries c;
  sd_meta : exists meta, state_json (dir_of id st') = StateValid meta /\
              ContextVersion meta = contextVersionForEntries (Entries c);
  sd_other : forall id', id' <> id -> dir_of id' st' = dir_of id' st
}.

(** Writing the state file completes a write of the context file. *)
Lemma write_meta_stored now id c st st1 n st' :
  cache_coherent st1 -> cache_bounded st1 ->
  (forall id', id' <> id -> dir_of id' st1 = dir_of id' st) -> store_sound st ->
  dir_entries (dir_of id st1) = Entries c -> Forall ok (Entries c) ->
  (forall body, context_jsonl (dir_of id st1) = Some body -> (split_lines body).2 = []) ->
  writeConversationMetaLocked now id c st1 = (Ok n, st') ->
  Entries n = Entries c /\ stored id c st st'.
Proof.
  intros Hc Hb Hoth Hst He Hok Htail Hw. unfold writeConversationMetaLocked in Hw.
  destruct (normalize_keeps now id c) as [Hn _].
  set (m := if _ && _ then _ else normalizeLoadedConversation now id c) in Hw.
  assert (Hm : Entries m = Entries c) by (subst m; destruct (_ && _); done).
  destruct (runtime_documents m) as [docs|]; [|done]. injection Hw as <- <-. split; [done|].
  assert (Hdirs : forall id', dir_entries (dir_of id' (set_dir id
      (dir_of id st1 <| state_json := StateValid
         (m <| Documents := docs |> <| SchemaVersion := conversationSchemaVersion |>
            <| ContextVersion := contextVersionForEntries (Entries (m <| Documents := docs |>)) |>
            <| Entries := [] |>) |>) st1)) = dir_entries (dir_of id' st1)).
  { intros id'. rewrite dir_of_set. case_decide; [by subst|done]. }
  split.
  - split; [| |done].
    + intros id'. rewrite dir_of_set. case_decide as Hid.
      * subst. split_and!; simpl; [done|by rewrite <- He in Hok|done].
      * rewrite Hoth by done. apply (ss_dirs _ Hst).
    + intros id' cached Hl. rewrite Hdirs. by apply Hc.
  - by rewrite Hdirs.
  - eexists. rewrite dir_of_set, decide_True by done. split; [done|]. simpl. by rewrite Hm.
  - intros id' Hne. rewrite dir_of_set, decide_False by done. by apply Hoth.
Qed.

(** Replacing the context file of one conversation and caching its entries. *)
Lemma write_context_sound now id version entries d st :
  id <> EmptyString -> store_sound st -> dir_entries d = entries ->
  let st1 := updateCacheLocked now id version entries (set_dir id d st) in
  cache_coherent st1 /\ cache_bounded st1 /\
  (forall id', id' <> id -> dir_of id' st1 = dir_of id' st) /\ dir_of id st1 = d.
Proof.
  intros Hid Hst <- st1.
  assert (Hd : dir_of id st1 = d).
  { change (dir_of id (set_dir id d st) = d). by rewrite dir_of_set, decide_True. }
  split_and!; [| | |done].
  - intros id' cached. subst st1. unfold updateCacheLocked. simpl. rewrite lookup_insert_Some.
    intros [[<- <-]|[Hne Hl]]; simpl.
    + change (dir_of id _) with (dir_of id (set_dir id d st)). by rewrite dir_of_set, decide_True.
    + change (dir_of id' _) with (dir_of id' (set_dir id d st)).
      rewrite dir_of_set, decide_False by done. apply (ss_cache _ Hst). revert Hl.
      case_match; [|done]. by intros [_ ?]%lookup_delete_Some.
  - apply update_cache_bounded; [done|]. apply (ss_bound _ Hst).
  - intros id' Hne. change (dir_of id' (set_dir id d st) = dir_of id' st).
    by rewrite dir_of_set, decide_False.
Qed.

Lemma writeConversationLocked_spec now id c st n st' :
  id <> EmptyString -> store_sound st -> Forall ok (Entries c) ->
  writeConversationLocked now id c st = (Ok n, st') ->
  Entries n = Entries c /\ stored id c st st'.
Proof.
  intros Hid Hst Hok Hw. unfold writeConversationLocked in Hw.
  destruct (normalize_keeps now id c) as [Hn _].
  set (m := normalizeLoadedConversation now id c) in *. unfold writeContextLocked in Hw.
  assert (Hd : dir_entries (writeContextJSONLAtomic (Entries m) (dir_of id st)
                              <| context_json := None |>) = Entries m).
  { unfold dir_entries. simpl. apply read_encode. by rewrite Hn. }
  destruct (write_context_sound now id (ContextVersion m) (Entries m) _ st Hid Hst Hd)
    as (H1 & H2 & H3 & H4).
  apply (write_meta_stored now id m st) in Hw; try done; [| | |].
  - destruct Hw as [He [S1 S2 S3 S4]]. rewrite Hn in *. by split.
  - by rewrite H4.
  - by rewrite Hn.
  - rewrite H4. simpl. intros body [= <-]. apply encode_ends. by rewrite Hn.
Qed.

Lemma append_files_spec entries assigned d :
  dir_sound d -> entries = dir_entries d ++ assigned -> Forall ok entries ->
  let d' := append_files entries assigned d in
  dir_entries d' = entries /\
  (forall body, context_jsonl d' = Some body -> (split_lines body).2 = []).
Proof.
  intros (Htail & _ & _) -> Hok d'. subst d'. unfold append_files, appendContextJSONL.
  destruct (context_jsonl d) as [body|] eqn:Ej.
  - specialize (Htail body eq_refl). apply Forall_app in Hok as [_ Hoka].
    case_decide as Ha.
    + subst. rewrite app_nil_r. split; [done|]. rewrite Ej. by intros ? [= <-].
    + unfold dir_entries. simpl. rewrite Ej. simpl.
      rewrite readContextJSONL_app by done. rewrite read_encode by done. split; [done|].
      intros ? [= <-]. rewrite split_lines_app by done. by apply encode_ends.
  - unfold dir_entries at 1. simpl. split; [by apply read_encode|].
    intros ? [= <-]. by apply encode_ends.
Qed.

Lemma appendConversationEntriesLocked_spec now id c assigned st n st' :
  id <> EmptyString -> store_sound st ->
  Entries c = dir_entries (dir_of id st) ++ assigned -> Forall ok (Entries c) ->
  appendConversationEntriesLocked now id c assigned st = (Ok n, st') ->
  Entries n = Entries c /\ stored id c st st'.
Proof.
  intros Hid Hst He Hok Hw. unfold appendConversationEntriesLocked in Hw.
  destruct (normalize_keeps now id c) as [Hn _].
  set (m := normalizeLoadedConversation now id c) in *.
  destruct (append_files_spec (Entries m) assigned (dir_of id st)) as [Hd Htail];
    [by apply (ss_dirs _ Hst)|congruence|by rewrite Hn|].
  destruct (write_context_sound now id (ContextVersion m) (Entries m) _ st Hid Hst Hd)
    as (H1 & H2 & H3 & H4).
  apply (write_meta_stored now id m st) in Hw; try done; [| | |].
  - destruct Hw as [Hn' [S1 S2 S3 S4]]. rewrite Hn in *. by split.
  - by rewrite H4.
  - by rewrite Hn.
  - by rewrite H4.
Qed.

Lemma ok_numbered now n e : ok e -> ok (numbered now n e).
Proof.
  intros He. unfold numbered.
  assert (H : ok (if EntryCreatedAt e =? 0 then e <| EntryCreatedAt := now |> else e)).
  { case_match; [|done]. by apply (co_number _ Hcodec e 0 now). }
  revert H. generalize (if EntryCreatedAt e =? 0 then e <| EntryCreatedAt := now |> else e).
  intros x Hx. destruct (Seq x <=? 0); [by apply (co_number _ Hcodec x n 0)|done].
Qed.

Lemma ok_assigned now (c : ConversationFile) entries :
  Forall ok entries -> Forall ok (appendEntriesInPlace now c entries).1.
Proof.
  intros Hok. destruct (append_in_place_entries now c entries) as (_ & kept & Hs & Hf).
  assert (Hk : Forall ok kept).
  { apply Forall_forall. intros e He. rewrite Forall_forall in Hok. apply Hok.
    by eapply elem_of_sublist. }
  clear Hs. induction Hf as [|e e' l l' [n ->] Hf IH]; [done|].
  apply Forall_cons in Hk as [? ?]. constructor; [by apply ok_numbered|auto].
Qed.

Lemma ok_reset entries : Forall ok entries -> Forall ok (resetEntrySequences entries).
Proof.
  intros H. unfold resetEntrySequences. apply Forall_fmap. eapply list.Forall_impl; [exact H|].
  intros e He. by apply (co_number _ Hcodec e 0 0).
Qed.

Lemma validate_nonempty cid id : validateConversationID cid = Ok id -> id <> EmptyString.
Proof.
  unfold validateConversationID. case_decide; [done|]. case_match; [done|]. by intros [= <-].
Qed.

Lemma dir_of_cache id now i version entries st :
  dir_of id (updateCacheLocked now i version entries st) = dir_of id st.
Proof. done. Qed.

(** The state file does not hold entries. *)
Lemma write_meta_files now id c st n st' :
  writeConversationMetaLocked now id c st = (Ok n, st') ->
  Entries n = Entries c /\ dir_entries (dir_of id st') = dir_entries (dir_of id st).
Proof.
  unfold writeConversationMetaLocked. destruct (normalize_keeps now id c) as [Hn _].
  generalize dependent (normalizeLoadedConversation now id c). intros m Hn.
  set (x := if _ && _ then _ else m).
  assert (Hx : Entries x = Entries c) by (subst x; destruct (_ && _); exact Hn). clearbody x.
  destruct (runtime_documents x) as [docs|]; [|done]. intros [= <- <-]. split; [exact Hx|].
  by rewrite dir_of_set, decide_True.
Qed.

Lemma append_locked_files now id c assigned st n st' :
  appendConversationEntriesLocked now id c assigned st = (Ok n, st') ->
  Entries n = Entries c /\
  dir_entries (dir_of id st') = dir_entries (append_files (Entries c) assigned (dir_of id st)).
Proof.
  unfold appendConversationEntriesLocked. destruct (normalize_keeps now id c) as [Hn _].
  generalize dependent (normalizeLoadedConversation now id c). intros m Hn Hw.
  apply write_meta_files in Hw as [He Hd].
  rewrite Hd, dir_of_cache, dir_of_set, decide_True by done. by rewrite <- Hn.
Qed.

(** Loading a conversation that has a state file. *)
Lemma load_spec now cid id st meta :
  validateConversationID cid = Ok id -> store_sound st ->
  state_json (dir_of id st) = StateValid meta ->
  exists c, (LoadConversation now cid st).1 = Ok (Some c) /\
    Entries c = dir_entries (dir_of id st).
Proof.
  intros Hv Hst Hm. pose proof (validate_nonempty _ _ Hv) as Hid.
  unfold LoadConversation, mutateConversation. rewrite Hv.
  destruct (readConversationLocked_spec now id st Hid Hst) as (Hr & _ & _).
  pose proof (loaded_entries now id st) as Hl.
  destruct (readConversationLocked now id st) as [r st1]. simpl in *. subst r. rewrite Hm in *.
  eexists. split; [done|]. by apply (Hl (Some _) EmptyString).
Qed.

(** The next process: same files, empty cache. *)
Definition restart (st : ConversationFileStore) : ConversationFileStore :=
  st <| entriesCache := ∅ |>.

Lemma restart_sound st : store_sound st -> store_sound (restart st).
Proof.
  intros [Hd _ _]. split; [done| |].
  - intros id cached. simpl. by rewrite lookup_empty.
  - split; simpl; [rewrite map_size_empty; lia|apply lookup_empty].
Qed.

(** What was stored is loaded, by this process and by the next. *)
Lemma stored_loads now cid id c st st' :
  validateConversationID cid = Ok id -> stored id c st st' ->
  (exists c', (LoadConversation now cid st').1 = Ok (Some c') /\ Entries c' = Entries c) /\
  (exists c', (LoadConversation now cid (restart st')).1 = Ok (Some c') /\ Entries c' = Entries c).
Proof.
  intros Hv [Hs He (meta & Hm & _) _]. rewrite <- He. split.
  - by apply (load_spec now cid id st' meta).
  - apply (load_spec now cid id (restart st') meta); [done|by apply restart_sound|done].
Qed.

Lemma append_stored now cid entries st c assigned st' :
  store_sound st -> Forall ok entries -> entries <> [] ->
  AppendEntries now cid entries st = (Ok (Some c, assigned), st') ->
  exists id, validateConversationID cid = Ok id /\ stored id c st st' /\
    Entries c = dir_entries (dir_of id st) ++ assigned /\
    exists kept, sublist kept entries /\
      Forall2 (fun e e' => exists n, e' = numbered now n e) kept assigned.
Proof.
  intros Hst Hok Hne Hop. unfold AppendEntries, AppendEntriesWithUpdate in Hop.
  rewrite bool_decide_eq_false_2 in Hop by done. cbn [andb] in Hop.
  destruct (validateConversationID cid) as [id|] eqn:Hv; [|done].
  pose proof (validate_nonempty _ _ Hv) as Hid. exists id. split; [done|].
  destruct (readConversationLocked_spec now id st Hid Hst) as (_ & Hd & Hst1).
  pose proof (fun c => loaded_entries now id st c "agent" Hid Hst) as Hl.
  destruct (readConversationLocked now id st) as [[loaded|] st1]; [|done]. simpl in Hd, Hst1, Hl.
  specialize (Hl loaded eq_refl). set (c0 := default _ loaded) in *.
  destruct (append_in_place_entries now c0 entries) as (He & kept & Hs & Hf).
  pose proof (ok_assigned now c0 entries Hok) as Hoka.
  destruct (appendEntriesInPlace now c0 entries) as [assigned0 c1]. simpl in *.
  assert (Hdir : dir_of id st1 = dir_of id st) by (unfold dir_of; by rewrite Hd).
  destruct (derive_keeps c1) as (Hke & _).
  destruct (appendConversationEntriesLocked now id (deriveConversationLoopState c1) assigned0 st1)
    as [[n|] st2] eqn:Ha; [|done]. injection Hop as <- <- <-.
  assert (Hall : Forall ok (Entries c1)).
  { rewrite He, Hl. apply Forall_app_2; [|done]. apply (ss_dirs _ Hst). }
  apply appendConversationEntriesLocked_spec in Ha as [Hn [S1 S2 S3 S4]]; [|done|done| |].
  - rewrite Hke in *. rewrite Hn. split; [|split; [by rewrite He, Hl|by exists kept]].
    split; rewrite ?Hn; [done|done|done|]. intros id' Hne'. rewrite S4 by done.
    unfold dir_of. by rewrite Hd.
  - rewrite Hke, He, Hl. by rewrite Hdir.
  - by rewrite Hke.
Qed.

Lemma replace_stored now cid entries st c st' :
  store_sound st -> Forall ok entries ->
  ReplaceEntries now cid entries None st = (Ok c, st') ->
  exists id, validateConversationID cid = Ok id /\ stored id c st st' /\
    exists kept, sublist kept (resetEntrySequences entries) /\
      Forall2 (fun e e' => exists n, e' = numbered now n e) kept (Entries c).
Proof.
  intros Hst Hok Hop. unfold ReplaceEntries in Hop.
  destruct (validateConversationID cid) as [id|] eqn:Hv; [|done].
  pose proof (validate_nonempty _ _ Hv) as Hid. exists id. split; [done|].
  destruct (readConversationLocked_spec now id st Hid Hst) as (_ & Hd & Hst1).
  destruct (readConversationLocked now id st) as [[loaded|] st1]; [|done]. simpl in Hd, Hst1.
  set (c0 := cleared _) in *.
  destruct (append_in_place_entries now c0 (resetEntrySequences entries)) as (He & kept & Hs & Hf).
  pose proof (ok_assigned now c0 _ (ok_reset _ Hok)) as Hoka.
  destruct (appendEntriesInPlace now c0 (resetEntrySequences entries)) as [assigned0 c1].
  cbn [fst snd apply_update] in *.
  destruct (derive_keeps c1) as (Hke & _). change (Entries c0) with (@nil HistoryEntry) in He.
  simpl in He. apply writeConversationLocked_spec in Hop as [Hn [S1 S2 S3 S4]]; [|done|done|].
  - rewrite Hke in *. rewrite Hn, He. split; [|by exists kept].
    split; rewrite ?Hn; [done|done|done|]. intros id' Hne'. rewrite S4 by done.
    unfold dir_of. by rewrite Hd.
  - by rewrite Hke, He.
Qed.

End Codec.

(** ** Properties *)

(** C7: an append is durable.  When [AppendEntries] succeeds on a sound store, the
    conversation holds the entries it held before followed by the new ones (numbered, without
    repeated keys), the store is sound again, no other conversation changed, and loading it
    gives exactly these entries, through the cache of this process and from the files in the
    next. *)
Theorem append_is_durable ok now now' cid entries st c assigned st' :
  codec_ok ok -> store_sound ok st -> Forall ok entries -> entries <> [] ->
  AppendEntries now cid entries st = (Ok (Some c, assigned), st') ->
  exists id, validateConversationID cid = Ok id /\ store_sound ok st' /\
    Entries c = dir_entries (dir_of id st) ++ assigned /\
    (exists kept, sublist kept entries /\
       Forall2 (fun e e' => exists n, e' = numbered now n e) kept assigned) /\
    (forall id', id' <> id -> dir_of id' st' = dir_of id' st) /\
    (exists c', (LoadConversation now' cid st').1 = Ok (Some c') /\ Entries c' = Entries c) /\
    (exists c', (LoadConversation now' cid (restart st')).1 = Ok (Some c') /\
                Entries c' = Entries c).
Proof.
  intros Hcodec Hst Hok Hne Hop.
  destruct (append_stored ok Hcodec now cid entries st c assigned st' Hst Hok Hne Hop)
    as (id & Hv & Hs & He & Hk).
  destruct (stored_loads ok Hcodec now' cid id c st st' Hv Hs) as [H1 H2]. destruct Hs.
  exists id. by split_and!.
Qed.

(** a replacement is durable.  When [ReplaceEntries] succeeds on a sound store, the
    conversation holds the given entries only, numbered anew, the store is sound, no other
    conversation changed, and loading it gives exactly these entries in this process and in
    the next. *)
Theorem replace_is_durable ok now now' cid entries st c st' :
  codec_ok ok -> store_sound ok st -> Forall ok entries ->
  ReplaceEntries now cid entries None st = (Ok c, st') ->
  exists id, validateConversationID cid = Ok id /\ store_sound ok st' /\
    (exists kept, sublist kept (resetEntrySequences entries) /\
       Forall2 (fun e e' => exists n, e' = numbered now n e) kept (Entries c)) /\
    (forall id', id' <> id -> dir_of id' st' = dir_of id' st) /\
    (exists c', (LoadConversation now' cid st').1 = Ok (Some c') /\ Entries c' = Entries c) /\
    (exists c', (LoadConversation now' cid (restart st')).1 = Ok (Some c') /\
                Entries c' = Entries c).
Proof.
  intros Hcodec Hst Hok Hop.
  destruct (replace_stored ok Hcodec now cid entries st c st' Hst Hok Hop) as (id & Hv & Hs & Hk).
  destruct (stored_loads ok Hcodec now' cid id c st st' Hv Hs) as [H1 H2]. destruct Hs.
  exists id. by split_and!.
Qed.

(** C31: a torn append loses only unfinished entries.  When a process dies while it appends,
    after any number of bytes reached the file, the next process reads every entry that was
    there before, followed by some of the first entries of the interrupted append. *)
Theorem torn_append_recovers ok body entries n :
  codec_ok ok -> (split_lines body).2 = [] -> Forall ok entries ->
  exists k, readContextJSONL (body ++ take n (encode_entries entries)) =
              readContextJSONL body ++ take k entries.
Proof.
  intros Hcodec Hbody Hok. destruct (read_torn ok Hcodec entries n Hok) as [k Hk].
  exists k. by rewrite readContextJSONL_app, Hk.
Qed.

(** the next append after a torn one is lost.  [readContextJSONL] drops the torn last
    line but nothing removes its bytes: the next append continues that line, so its first
    entry does not decode any more and the file reads as if it had never been appended. *)
Theorem append_after_torn_is_lost ok body e p q e' rest :
  codec_ok ok -> (split_lines body).2 = [] -> ok e -> ok e' -> Forall ok rest ->
  marshal_entry e = p ++ q -> p <> [] -> q <> [] ->
  readContextJSONL (body ++ p ++ encode_entries (e' :: rest)) = readContextJSONL body ++ rest.
Proof.
  intros Hcodec Hbody He He' Hrest Hpq Hp Hq. rewrite readContextJSONL_app by done. f_equal.
  assert (Hnl : newline ∉ p ++ marshal_entry e').
  { pose proof (co_line _ Hcodec e He) as Hl. pose proof (co_line _ Hcodec e' He').
    rewrite Hpq in Hl. set_solver. }
  replace (p ++ encode_entries (e' :: rest))
    with (((p ++ marshal_entry e') ++ [newline]) ++ encode_entries rest)
    by (unfold encode_entries; simpl; by rewrite <- !app_assoc).
  rewrite readContextJSONL_app by by rewrite split_lines_line.
  rewrite (read_encode ok Hcodec rest Hrest), readContextJSONL_omap, split_lines_line by done.
  cbn [fst snd]. rewrite omap_app, decode_line_nil. simpl. unfold decode_line.
  case_decide; [done|]. by rewrite (co_glue _ Hcodec e e' p q).
Qed.

(** a crash between the two files of a first append brings the entries back.  The
    context file is written before the state file; when only the first was written, the next
    [AppendEntries] starts a fresh conversation, which does not see the old entries (nor
    their idempotency keys), but appends to the old file: the conversation it returns holds
    the new entries only, and the files hold the old entries followed by the new ones. *)
Theorem first_append_crash_resurrects ok now cid id entries old st c assigned st' :
  codec_ok ok -> Forall ok entries -> Forall ok old -> entries <> [] ->
  validateConversationID cid = Ok id ->
  dir_of id st = mkDir StateMissing (Some (encode_entries old)) None ->
  AppendEntries now cid entries st = (Ok (Some c, assigned), st') ->
  Entries c = assigned /\ dir_entries (dir_of id st') = old ++ assigned.
Proof.
  intros Hcodec Hok Hold Hne Hv Hdir Hop. unfold AppendEntries, AppendEntriesWithUpdate in Hop.
  rewrite bool_decide_eq_false_2, Hv in Hop by done. cbn [andb] in Hop.
  unfold readConversationLocked in Hop. rewrite Hdir in Hop. cbn [state_json default] in Hop.
  set (c0 := fresh_conversation now id "agent") in *.
  destruct (append_in_place_entries now c0 entries) as (He & _).
  pose proof (ok_assigned ok Hcodec now c0 entries Hok) as Hoka.
  change (default c0 None) with c0 in Hop.
  destruct (appendEntriesInPlace now c0 entries) as [assigned0 c1]. cbn [fst snd apply_update] in *.
  change (Entries c0) with (@nil HistoryEntry) in He. simpl in He.
  destruct (derive_keeps c1) as (Hke & _).
  destruct (appendConversationEntriesLocked now id (deriveConversationLoopState c1) assigned0 st)
    as [[n|] st2] eqn:Ha; [|done]. injection Hop as <- <- <-.
  apply append_locked_files in Ha as [Hn Hd]. rewrite Hn, Hke, He. split; [done|].
  rewrite Hd, Hdir, Hke, He. unfold append_files, appendContextJSONL, dir_entries. simpl.
  case_decide as Hnil; simpl.
  - rewrite Hnil, app_nil_r. by apply (read_encode ok).
  - rewrite readContextJSONL_app by by apply (encode_ends ok).
    by rewrite !(read_encode ok).
Qed.

(** [CreateConversation] forgets the parent.  Under the lock, the conversation that is
    created already carries its id when the initialisation runs, so the branch that stores
    the parent, the parent tool call and the root is never reached: whatever is passed, the
    new conversation has no parent and is its own root. *)
Theorem create_forgets_parent now cid id mode alias parent toolCall root st :
  validateConversationID cid = Ok id -> state_json (dir_of id st) = StateMissing ->
  modeAlias mode = Ok alias ->
  initialise_conversation now cid mode parent toolCall root
    (fresh_conversation now id EmptyString) =
    Ok (fresh_conversation now id EmptyString <| Mode := alias |>) /\
  forall parent' toolCall' root',
    CreateConversation now cid mode parent toolCall root st =
    CreateConversation now cid mode parent' toolCall' root' st.
Proof.
  intros Hv Hm Ha.
  assert (Hinit : forall p t r, initialise_conversation now cid mode p t r
    (fresh_conversation now id EmptyString) =
    Ok (fresh_conversation now id EmptyString <| Mode := alias |>)).
  { intros p t r. unfold initialise_conversation. rewrite decide_True; [by rewrite decide_True, Ha|].
    simpl. unfold validateConversationID in Hv. case_decide as Hne; [done|].
    case_match; [done|]. injection Hv as <-. by rewrite TrimSpace_idem. }
  split; [done|]. intros p' t' r'. unfold CreateConversation, mutateConversation. rewrite Hv.
  unfold readConversationLocked. rewrite Hm. by rewrite !Hinit.
Qed.

End Store.

#[export] Existing Instances eta_dir eta_store.

(** ** Witnesses: a codec for entries that differ in their numbers and times *)

Module Demo.

#[export] Instance decoders : Decoders unit := {
  decode_metadata _ := None;
  decode_tool_call_id _ := None;
  decode_tool_result_id _ := None;
  decode_request_folder _ := None;
  path_IsAbs _ := false;
  path_Clean p := p;
  path_Base p := p;
  PathSeparator := "/"%char
}.

Definition entry (seq at_ : Z) : @HistoryEntry unit :=
  mkEntry seq 1 "req" EmptyString "user" "user_message" EmptyString EmptyString tt at_.

Definition one : ascii := "1"%char.

Definition enc (z : Z) : bytes :=
  (if z <? 0 then "-"%char else "+"%char) :: replicate (Z.to_nat (Z.abs z)) one.

Fixpoint ones (b : bytes) : nat :=
  match b with c :: b => if decide (c = one) then S (ones b) else 0%nat | [] => 0%nat end.

Definition dec (b : bytes) : option (Z * bytes) :=
  match b with
  | [] => None
  | s :: b =>
      let n := ones b in
      if decide (s = "+"%char) then Some (Z.of_nat n, drop n b)
      else if decide (s = "-"%char) then Some (- Z.of_nat n, drop n b) else None
  end.

Definition body (e : @HistoryEntry unit) : bytes :=
  "{"%char :: enc (Seq e) ++ ","%char :: enc (EntryCreatedAt e).

Definition marshal (e : @HistoryEntry unit) : bytes := body e ++ ["}"%char].

Definition unmarshal (b : bytes) : option (@HistoryEntry unit) :=
  match b with
  | o :: b =>
      if decide (o = "{"%char) then
        match dec b with
        | Some (seq, c :: b) =>
            if decide (c = ","%char) then
              match dec b with
              | Some (at_, b) => if decide (b = ["}"%char]) then Some (entry seq at_) else None
              | None => None
              end
            else None
        | _ => None
        end
      else None
  | [] => None
  end.

#[export] Instance env : StoreEnv unit unit := {
  marshal_entry := marshal;
  unmarshal_entry := unmarshal;
  runtime_documents _ := Ok tt;
  empty_documents := tt
}.

Definition ok (e : @HistoryEntry unit) : Prop := exists seq at_, e = entry seq at_.

Lemma ones_replicate n c b : c <> one -> ones (replicate n one ++ c :: b) = n.
Proof. intros Hc. induction n as [|n IH]; simpl; [by rewrite decide_False|by rewrite IH]. Qed.

Lemma ones_split b : b = replicate (ones b) one ++ drop (ones b) b.
Proof.
  induction b as [|c b IH]; simpl; [done|]. case_decide as Hc; simpl; [|done].
  rewrite Hc. by f_equal.
Qed.

Lemma dec_enc z c b : c <> one -> dec (enc z ++ c :: b) = Some (z, c :: b).
Proof.
  intros Hc. unfold enc, dec. simpl. rewrite ones_replicate by done.
  rewrite drop_app_length' by by rewrite length_replicate.
  destruct (z <? 0) eqn:E; zbool.
  - rewrite decide_False, decide_True by done. do 2 f_equal. lia.
  - rewrite decide_True by done. do 2 f_equal. lia.
Qed.

#[local] Arguments dec : simpl never.
#[local] Arguments enc : simpl never.

Lemma dec_shape b z b' :
  dec b = Some (z, b') ->
  exists s n, b = s :: replicate n one ++ b' /\ (s = "+"%char \/ s = "-"%char).
Proof.
  unfold dec. destruct b as [|s b]; [done|]. repeat case_decide; [| |done]; intros [= _ <-];
    (exists s, (ones b); split; [by rewrite <- ones_split|auto]).
Qed.

Lemma unmarshal_shape b e :
  unmarshal b = Some e ->
  exists r, b = "{"%char :: r ++ ["}"%char] /\ "{"%char ∉ r ++ ["}"%char].
Proof.
  unfold unmarshal. destruct b as [|o b]; [done|]. case_decide as Ho; [|done].
  destruct (dec b) as [[seq [|c b1]]|] eqn:E1; try done. case_decide as Hc; [|done].
  destruct (dec b1) as [[at_ b2]|] eqn:E2; [|done]. case_decide as Hb; [|done]. intros _. subst.
  apply dec_shape in E1 as (s1 & n1 & -> & H1). apply dec_shape in E2 as (s2 & n2 & -> & H2).
  exists (s1 :: replicate n1 one ++ ","%char :: s2 :: replicate n2 one). split.
  { simpl. by rewrite <- app_assoc. }
  assert (Hr : forall n, "{"%char ∉ replicate n one) by (intros n [? _]%elem_of_replicate; done).
  pose proof (Hr n1). pose proof (Hr n2).
  destruct H1 as [-> | ->], H2 as [-> | ->]; rewrite elem_of_app, elem_of_cons, elem_of_app,
    !elem_of_cons, elem_of_nil; naive_solver.
Qed.

Lemma body_graphic e c : ok e -> c ∈ body e -> graphic c = true /\ c <> "}"%char /\ c <> newline.
Proof.
  intros (seq & at_ & ->). unfold body, enc. rewrite elem_of_cons, elem_of_app, !elem_of_cons,
    !elem_of_replicate. intros [->|[[->|[-> _]]|[->|[->|[-> _]]]]]; try case_match; done.
Qed.

Lemma trim_graphic l : Forall (fun c => graphic c = true) l -> trim_space l = l.
Proof.
  intros Hl. destruct l as [|c s]; [done|].
  destruct (exists_last (l := c :: s)) as (t & d & Heq); [done|].
  apply (trim_space_graphic _ c s t d); [done|done| |].
  - by apply Forall_cons in Hl as [? _].
  - rewrite Heq in Hl. apply Forall_app in Hl as [_ Hl]. by apply Forall_cons in Hl as [? _].
Qed.

Lemma body_all e : ok e -> Forall (fun c => graphic c = true) (body e).
Proof. intros He. apply Forall_forall. intros c Hc. by apply (body_graphic e c He). Qed.

Lemma marshal_all e : ok e -> Forall (fun c => graphic c = true) (marshal e).
Proof. intros He. apply Forall_app_2; [by apply body_all|]. by constructor. Qed.

(** A proper prefix of an encoding is a prefix of its body. *)
Lemma prefix_body e p q : marshal e = p ++ q -> q <> [] -> exists q', body e = p ++ q'.
Proof.
  intros Heq Hq. destruct (exists_last Hq) as (q' & x & ->). exists q'.
  unfold marshal in Heq. rewrite app_assoc in Heq. by apply app_inj_tail in Heq as [? _].
Qed.

Lemma unmarshal_marshal seq at_ : unmarshal (marshal (entry seq at_)) = Some (entry seq at_).
Proof.
  assert (Hm : marshal (entry seq at_) =
               "{"%char :: enc seq ++ ","%char :: enc at_ ++ ["}"%char]).
  { unfold marshal, body. cbn [Seq EntryCreatedAt entry]. by rewrite <- app_comm_cons, <- app_assoc. }
  rewrite Hm. unfold unmarshal. rewrite decide_True by done.
  rewrite (dec_enc seq ","%char) by done. rewrite decide_True by done.
  rewrite (dec_enc at_ "}"%char []) by done. by rewrite decide_True.
Qed.

Lemma codec : codec_ok ok.
Proof.
  split.
  - intros e He Hin. unfold marshal_entry, env, marshal in Hin.
    apply elem_of_app in Hin as [Hin|Hin%list_elem_of_singleton]; [|done].
    by apply (body_graphic e _ He) in Hin as (_ & _ & ?).
  - intros e He. by apply trim_graphic, marshal_all.
  - done.
  - intros e (seq & at_ & ->). apply unmarshal_marshal.
  - intros e p q He Heq Hq. destruct (prefix_body e p q Heq Hq) as [q' Hb].
    pose proof (body_all e He) as Hall. rewrite Hb in Hall. apply Forall_app in Hall as [Hall _].
    rewrite (trim_graphic p Hall). simpl. destruct (unmarshal p) as [e0|] eqn:Eu; [|done].
    apply unmarshal_shape in Eu as (r & Hp & _). exfalso.
    assert (Hin : "}"%char ∈ body e) by (rewrite Hb, Hp; set_solver).
    by apply (body_graphic e _ He) in Hin as (_ & ? & _).
  - intros e seq at_ (s & a & ->) . split; by eexists _, _.
  - intros e e' p q He He' Heq Hp Hq. destruct (prefix_body e p q Heq Hq) as [q' Hb].
    pose proof (body_all e He) as Hall. rewrite Hb in Hall. apply Forall_app in Hall as [Hall _].
    simpl. rewrite trim_graphic by (apply Forall_app_2; [done|by apply marshal_all]).
    destruct (unmarshal _) as [e0|] eqn:Eu; [|done].
    apply unmarshal_shape in Eu as (r & Hr & Hno). exfalso. apply Hno.
    destruct p as [|c p]; [done|]. injection Hr as _ Hr. rewrite <- Hr.
    apply elem_of_app. right. unfold marshal, body. set_solver.
Qed.

Lemma empty_sound : store_sound ok NewConversationFileStore.
Proof.
  split.
  - intros id. unfold dir_of. simpl. rewrite lookup_empty. split_and!; [done|constructor|done].
  - intros id cached. simpl. by rewrite lookup_empty.
  - split; simpl; [rewrite map_size_empty; lia|apply lookup_empty].
Qed.

End Demo.

#[local] Existing Instances Demo.decoders Demo.env.

Lemma append_is_durable_witness :
  exists c c', (AppendEntries 5 "c" [Demo.entry 0 0; Demo.entry 0 7] NewConversationFileStore).1 =
    Ok (Some c, [Demo.entry 1 5; Demo.entry 2 7]) /\
  (LoadConversation 9 "c" (restart
     (AppendEntries 5 "c" [Demo.entry 0 0; Demo.entry 0 7] NewConversationFileStore).2)).1 =
    Ok (Some c') /\ Entries c' = Entries c.
Proof.
  destruct (AppendEntries 5 "c" [Demo.entry 0 0; Demo.entry 0 7] NewConversationFileStore)
    as [r st'] eqn:E.
  assert (Hr : exists c, r = Ok (Some c, [Demo.entry 1 5; Demo.entry 2 7])).
  { apply (f_equal fst) in E. vm_compute in E. subst r. eexists. reflexivity. }
  destruct Hr as [c ->]. exists c.
  destruct (append_is_durable Demo.ok 5 9 "c" [Demo.entry 0 0; Demo.entry 0 7] _ c _ st'
    Demo.codec Demo.empty_sound ltac:(repeat constructor; by eexists _, _) ltac:(done) E)
    as (id & _ & _ & _ & _ & _ & _ & c' & Hl & He).
  exists c'. split; [reflexivity|]. split; [exact Hl|exact He].
Defined.

Lemma replace_is_durable_witness :
  exists c c', (ReplaceEntries 5 "c" [Demo.entry 9 3] None NewConversationFileStore).1 = Ok c /\
  (LoadConversation 9 "c" (restart
     (ReplaceEntries 5 "c" [Demo.entry 9 3] None NewConversationFileStore).2)).1 = Ok (Some c') /\
  Entries c' = Entries c.
Proof.
  destruct (ReplaceEntries 5 "c" [Demo.entry 9 3] None NewConversationFileStore)
    as [r st'] eqn:E.
  assert (Hr : exists c, r = Ok c).
  { apply (f_equal fst) in E. vm_compute in E. subst r. eexists. reflexivity. }
  destruct Hr as [c ->]. exists c.
  destruct (replace_is_durable Demo.ok 5 9 "c" [Demo.entry 9 3] _ c st'
    Demo.codec Demo.empty_sound ltac:(repeat constructor; by eexists _, _) E)
    as (id & _ & _ & _ & _ & _ & c' & Hl & He).
  exists c'. split; [reflexivity|]. split; [exact Hl|exact He].
Defined.

Lemma torn_append_recovers_witness :
  exists k, readContextJSONL (encode_entries [Demo.entry 1 1] ++
                              take 9 (encode_entries [Demo.entry 2 1; Demo.entry 3 1])) =
    [Demo.entry 1 1] ++ take k [Demo.entry 2 1; Demo.entry 3 1].
Proof.
  destruct (torn_append_recovers Demo.ok (encode_entries [Demo.entry 1 1])
    [Demo.entry 2 1; Demo.entry 3 1] 9 Demo.codec) as [k Hk];
    [reflexivity|by repeat constructor; eexists _, _|]. exists k. exact Hk.
Defined.

Lemma append_after_torn_is_lost_witness :
  readContextJSONL (encode_entries [Demo.entry 1 1] ++ take 3 (marshal_entry (Demo.entry 2 1)) ++
                    encode_entries [Demo.entry 3 1; Demo.entry 4 1]) =
    readContextJSONL (encode_entries [Demo.entry 1 1]) ++ [Demo.entry 4 1].
Proof.
  apply (append_after_torn_is_lost Demo.ok _ (Demo.entry 2 1) _ (drop 3 (marshal_entry (Demo.entry 2 1))));
    try done; try apply Demo.codec; try (by repeat constructor; eexists _, _); by eexists _, _.
Defined.

Lemma create_forgets_parent_witness :
  CreateConversation 5 "c" MODE_AGENT "parent" "call" "root" (NewConversationFileStore (Payload := unit)) =
  CreateConversation 5 "c" MODE_AGENT EmptyString EmptyString EmptyString NewConversationFileStore.
Proof.
  apply (create_forgets_parent 5 "c" "c" MODE_AGENT "agent" "parent" "call" "root"
           NewConversationFileStore); vm_compute; reflexivity.
Defined.

(** The same entry appended, lost its state file, and appended again: it is there twice. *)
Lemma first_append_crash_resurrects_witness :
  let crashed := set_dir "c" (mkDir StateMissing (Some (encode_entries [Demo.entry 1 5])) None)
                   NewConversationFileStore in
  exists c, (AppendEntries 5 "c" [Demo.entry 0 5] crashed).1 = Ok (Some c, [Demo.entry 1 5]) /\
  dir_entries (dir_of "c" (AppendEntries 5 "c" [Demo.entry 0 5] crashed).2) =
    [Demo.entry 1 5; Demo.entry 1 5].
Proof.
  intros crashed. destruct (AppendEntries 5 "c" [Demo.entry 0 5] crashed) as [r st'] eqn:E.
  assert (Hr : exists c, r = Ok (Some c, [Demo.entry 1 5])).
  { apply (f_equal fst) in E. vm_compute in E. subst r. eexists. reflexivity. }
  destruct Hr as [c ->]. exists c. split; [reflexivity|].
  apply (first_append_crash_resurrects Demo.ok 5 "c" "c" [Demo.entry 0 5] [Demo.entry 1 5]
    crashed c [Demo.entry 1 5] st' Demo.codec); try exact E; try done;
    by repeat constructor; eexists _, _.
Defined.
