(* ===== verification/Rewind.v ===== *)
(** * Rewinding a conversation to an edited message (forwarder/rewind.go).

    A run whose user message is already in the history cuts the conversation before the
    turn of that message.  The decoding of a stored user message (protojson) is the
    parameter [stored_message_id]; a message of the intent is a value of the parameter type
    [UserMessage]; [ActionCase] is the case [conversationActionCase] reads off the client
    message. *)

From S2P Require Import Prelude Go Conversation.

Section Rewind.
Context {Payload Docs : Type} `{!Decoders Payload}.
Context {UserMessage : Type}.
Variable GetMessageId : UserMessage -> string.
(** [protojson.Unmarshal] of an entry body into a user message, and its message id; [None]
    for an empty or undecodable body. *)
Variable stored_message_id : Payload -> option string.

Notation HistoryEntry := (@HistoryEntry Payload).
Notation ConversationFile := (@ConversationFile Payload Docs).

(** ** Data *)

Record InboundIntent := mkIntent {
  IntentKind : string;
  IntentRequestID : string;
  Prewarm : bool;
  ActionCase : string;
  ClientTurns : option nat;
  IntentUserMessage : option UserMessage;
  PrependUserMessages : list (option UserMessage)
}.

Record runRewindDecision := mkDecision {
  Evaluated : bool;
  Apply : bool;
  Reason : string;
  SkipReason : string;
  IncomingMessageID : string;
  HasClientTurnCount : bool;
  ClientTurnCount : Z;
  ServerTailTurnSeq : Z;
  ServerNextTurnSeq : Z;
  TargetTurnSeq : Z;
  TargetEntrySeq : Z;
  TargetRequestID : string;
  MatchCount : Z;
  DroppedEntryCount : Z;
  DroppedTurnCount : Z;
  DroppedSeqStart : Z;
  DroppedSeqEnd : Z;
  PrefixEntries : list HistoryEntry
}.

#[export] Instance eta_decision : Eta runRewindDecision := fun d =>
  mkDecision (Evaluated d) (Apply d) (Reason d) (SkipReason d) (IncomingMessageID d)
    (HasClientTurnCount d) (ClientTurnCount d) (ServerTailTurnSeq d) (ServerNextTurnSeq d)
    (TargetTurnSeq d) (TargetEntrySeq d) (TargetRequestID d) (MatchCount d)
    (DroppedEntryCount d) (DroppedTurnCount d) (DroppedSeqStart d) (DroppedSeqEnd d)
    (PrefixEntries d).

(** ** Operations *)

Definition shouldEvaluateRunRewind (intent : InboundIntent) : bool :=
  bool_decide (TrimSpace (IntentKind intent) = "run") && negb (Prewarm intent) &&
  match IntentUserMessage intent with Some _ => true | None => false end &&
  bool_decide (ActionCase intent = "user_message_action").

(** The trimmed id of the user message an entry stores. *)
Definition entry_message_id (entry : HistoryEntry) : option string :=
  if decide (TrimSpace (Kind entry) = "user_message")
  then TrimSpace <$> stored_message_id (Payload_ entry) else None.

Definition findUserMessageEntriesByMessageID (entries : list HistoryEntry) (messageID : string)
  : list HistoryEntry :=
  if decide (TrimSpace messageID = EmptyString) then []
  else filter (fun entry => entry_message_id entry = Some (TrimSpace messageID)) entries.

Definition earlierHistoryEntry (left right : HistoryEntry) : bool :=
  if negb (TurnSeq left =? TurnSeq right) then TurnSeq left <? TurnSeq right
  else if negb (Seq left =? Seq right) then Seq left <? Seq right
  else EntryCreatedAt left <? EntryCreatedAt right.

Definition maxHistoryTurnSeq (entries : list HistoryEntry) : Z :=
  fold_left (fun m entry => if m <? TurnSeq entry then TurnSeq entry else m) entries 0.

Definition prefixEntriesBeforeTurn (entries : list HistoryEntry) (targetTurnSeq : Z)
  : list HistoryEntry := filter (fun entry => TurnSeq entry < targetTurnSeq) entries.

(** The earliest of the candidates, the first one on a tie. *)
Definition earliest (candidate : option HistoryEntry) (match_ : HistoryEntry)
  : option HistoryEntry :=
  match candidate with
  | None => Some match_
  | Some c => if earlierHistoryEntry match_ c then Some match_ else Some c
  end.

Definition selectRunRewindMatch (matches : list HistoryEntry) (clientTurnCount : Z)
    (hasClientTurnCount : bool) : option (HistoryEntry * string) :=
  match matches with
  | [] => None
  | first :: rest =>
      let fallback :=
        match fold_left earliest rest (Some first) with
        | Some e => Some (e, "earliest_message_id_match")
        | None => None
        end in
      if hasClientTurnCount && (0 <=? clientTurnCount) then
        match list_find (fun e => TurnSeq e = wrap_int64 (clientTurnCount + 1)) matches with
        | Some (_, e) => Some (e, "client_turn_count_aligned")
        | None =>
            match fold_left (fun c e => if TurnSeq e <=? clientTurnCount then c else earliest c e)
                    matches None with
            | Some e => Some (e, "first_match_after_client_turn_count")
            | None => fallback
            end
        end
      else fallback
  end.

(** The counters of [droppedEntryStats]: entries, distinct turns, least and greatest
    sequence number of what a rewind drops. *)
Definition droppedEntryStats (entries : list HistoryEntry) (targetTurnSeq : Z)
  : Z * Z * Z * Z :=
  let dropped := filter (fun entry => targetTurnSeq <= TurnSeq entry) entries in
  let turns : gset Z := list_to_set (filter (fun turn => 0 < turn) (map TurnSeq dropped)) in
  (Z.of_nat (length dropped), Z.of_nat (size turns),
   fold_left (fun start entry => if (0 <? Seq entry) && ((start =? 0) || (Seq entry <? start))
                                 then Seq entry else start) dropped 0,
   fold_left (fun stop entry => if stop <? Seq entry then Seq entry else stop) dropped 0).

Definition empty_decision : runRewindDecision :=
  mkDecision false false EmptyString EmptyString EmptyString false (-1) 0 0 0 0 EmptyString
    0 0 0 0 0 [].

(** The decision before the history is searched. *)
Definition decision_start (intent : InboundIntent) (conversation : option ConversationFile)
  : runRewindDecision :=
  empty_decision
    <| Evaluated := true |>
    <| IncomingMessageID := match IntentUserMessage intent with
                            | Some m => TrimSpace (GetMessageId m)
                            | None => EmptyString
                            end |>
    <| HasClientTurnCount := match ClientTurns intent with Some _ => true | None => false end |>
    <| ClientTurnCount := match ClientTurns intent with Some n => Z.of_nat n | None => -1 end |>
    <| ServerTailTurnSeq := match conversation with
                            | Some c => maxHistoryTurnSeq (Entries c)
                            | None => 0
                            end |>
    <| ServerNextTurnSeq := match conversation with Some c => NextTurnSeq c | None => 0 end |>.

(** The decision once the message was found in the history. *)
Definition decide_match (d : runRewindDecision) (entries : list HistoryEntry)
    (selected : HistoryEntry) (reason : string) : runRewindDecision :=
  let target := TurnSeq selected in
  let found := d <| TargetTurnSeq := target |>
                 <| TargetEntrySeq := Seq selected |>
                 <| TargetRequestID := TrimSpace (RequestID selected) |> in
  if target <=? 0 then found <| SkipReason := "target_turn_seq_missing" |>
  else if negb (target <? ServerTailTurnSeq d) &&
          negb (HasClientTurnCount d && (ClientTurnCount d <? ServerTailTurnSeq d))
  then found <| SkipReason := "message_id_at_active_tail" |>
  else
    let '(n, turns, seqStart, seqEnd) := droppedEntryStats entries target in
    found <| Apply := true |>
          <| Reason := reason |>
          <| PrefixEntries := prefixEntriesBeforeTurn entries target |>
          <| DroppedEntryCount := n |>
          <| DroppedTurnCount := turns |>
          <| DroppedSeqStart := seqStart |>
          <| DroppedSeqEnd := seqEnd |>.

Definition decideRunRewind (intent : InboundIntent) (conversation : option ConversationFile)
  : runRewindDecision :=
  if negb (shouldEvaluateRunRewind intent) then empty_decision
  else
    let d := decision_start intent conversation in
    if decide (IncomingMessageID d = EmptyString) then d <| SkipReason := "missing_message_id" |>
    else
      let entries := match conversation with Some c => Entries c | None => [] end in
      let matches := findUserMessageEntriesByMessageID entries (IncomingMessageID d) in
      let d := d <| MatchCount := Z.of_nat (length matches) |> in
      match selectRunRewindMatch matches (ClientTurnCount d) (HasClientTurnCount d) with
      | None => d <| SkipReason := "message_id_not_found" |>
      | Some (selected, reason) => decide_match d entries selected reason
      end.

(** Whether a message of the intent is not in the history yet: its id is blank or
    unknown. *)
Definition unprocessed (known : gset string) (message : UserMessage) : bool :=
  bool_decide (TrimSpace (GetMessageId message) = EmptyString) ||
  negb (bool_decide (TrimSpace (GetMessageId message) ∈ known)).

Definition existing_message_ids (entries : list HistoryEntry) : gset string :=
  list_to_set (filter (fun id => id <> EmptyString) (omap entry_message_id entries)).

(** The last message of a list, and the list without it. *)
Definition pop_last (messages : list UserMessage) : option UserMessage * list UserMessage :=
  match last messages with
  | Some m => (Some m, take (length messages - 1) messages)
  | None => (None, [])
  end.

Definition filterUnprocessedUserMessages (intent : InboundIntent)
    (conversation : option ConversationFile)
  : option UserMessage * list (option UserMessage) * bool :=
  match conversation with
  | Some c =>
      if decide (Entries c = []) then
        (IntentUserMessage intent, PrependUserMessages intent,
         bool_decide (is_Some (IntentUserMessage intent)) ||
         negb (bool_decide (length (PrependUserMessages intent) = 0%nat)))
      else
        let known := existing_message_ids (Entries c) in
        let prepends := filter (fun m => unprocessed known m = true)
                          (omap id (PrependUserMessages intent)) in
        let '(active, prepends) :=
          match IntentUserMessage intent with
          | Some m => if unprocessed known m then (Some m, prepends) else pop_last prepends
          | None => pop_last prepends
          end in
        (active, Some <$> prepends,
         bool_decide (is_Some active) || negb (bool_decide (length prepends = 0%nat)))
  | None =>
      (IntentUserMessage intent, PrependUserMessages intent,
       bool_decide (is_Some (IntentUserMessage intent)) ||
       negb (bool_decide (length (PrependUserMessages intent) = 0%nat)))
  end.

Definition projectedConversationMaxTokens : Z := 130000.

Definition clearConversationAutoCompactionState (c : ConversationFile) : ConversationFile :=
  c <| AutoCompactionPending := false |>
    <| AutoCompactionPromptTokens := 0 |>
    <| AutoCompactionReserveTokens := 0 |>
    <| AutoCompactionTriggeredAt := EmptyString |>
    <| AutoCompactionSourceModelCallID := EmptyString |>.

Definition applyRunRewindConversationState (c : ConversationFile) (intent : InboundIntent)
    (turnSeq : Z) : ConversationFile :=
  let c := c <| TokenDetailsUsedTokens := 0 |>
             <| TokenDetailsMaxTokens := if TokenDetailsMaxTokens c =? 0
                                         then projectedConversationMaxTokens
                                         else TokenDetailsMaxTokens c |> in
  clearConversationAutoCompactionState c
    <| LatestRequestPrefix := None |>
    <| LastProviderCall := None |>
    <| CurrentLoopID := Sprintd turnSeq +:+ ":" +:+ TrimSpace (IntentRequestID intent) |>
    <| CurrentLoopStatus := "running" |>
    <| CurrentRequestID := TrimSpace (IntentRequestID intent) |>
    <| CurrentTurnSeq := turnSeq |>.

(** [rewindImportedTurnPrefix]; its arguments are the two fields of the decision it reads. *)
Definition rewindImportedTurnPrefix (importedTurnIDs : list bytes) (targetTurnSeq : Z)
    (clientTurns : option Z) : list bytes :=
  let keep := match clientTurns with Some n => n | None => wrap_int64 (targetTurnSeq - 1) end in
  if keep <=? 0 then [] else take (Z.to_nat keep) importedTurnIDs.

Definition decision_turns (d : runRewindDecision) : option Z :=
  if HasClientTurnCount d then Some (ClientTurnCount d) else None.

Definition appendReplacementRunEntries (prefix entries : list HistoryEntry) : list HistoryEntry :=
  prefix ++ entries.

Definition applyRunRewindToConversation (now : Z) (c : ConversationFile) (d : runRewindDecision)
    (entries : list HistoryEntry) (intent : InboundIntent) (turnSeq : Z) : ConversationFile :=
  if negb (Apply d) then c
  else
    let c := c <| Entries := [] |> <| NextEntrySeq := 1 |> <| NextTurnSeq := 1 |>
               <| ImportedTurnIDs := rewindImportedTurnPrefix (ImportedTurnIDs c)
                                       (TargetTurnSeq d) (decision_turns d) |> in
    let '(_, c) := appendEntriesInPlace now c
                     (appendReplacementRunEntries (PrefixEntries d) entries) in
    deriveConversationLoopState (applyRunRewindConversationState c intent turnSeq).

Definition applyRunRewindMetadata (c : ConversationFile) (source : option ConversationFile)
    (intent : InboundIntent) (turnSeq : Z) : ConversationFile :=
  let c :=
    match source with
    | None => c
    | Some source =>
        let keep_blank (new old : string) :=
          if decide (TrimSpace new = EmptyString) then old else TrimSpace new in
        let folder := normalizeAgentTranscriptsFolder (AgentTranscriptsFolder source) in
        c <| ConversationID := keep_blank (ConversationID source) (ConversationID c) |>
          <| RootConversationID := keep_blank (RootConversationID source) (RootConversationID c) |>
          <| ParentConversationID := TrimSpace (ParentConversationID source) |>
          <| ParentToolCallID := TrimSpace (ParentToolCallID source) |>
          <| SubagentTypeName := TrimSpace (SubagentTypeName source) |>
          <| AgentTranscriptsFolder := if decide (folder = EmptyString)
                                       then AgentTranscriptsFolder c else folder |>
          <| Mode := keep_blank (Mode source) (Mode c) |>
          <| TokenDetailsMaxTokens := if 0 <? TokenDetailsMaxTokens source
                                      then TokenDetailsMaxTokens source
                                      else TokenDetailsMaxTokens c |>
          <| ImportedTurnIDs := rewindImportedTurnPrefix (ImportedTurnIDs source) turnSeq
                                  (Z.of_nat <$> ClientTurns intent) |>
    end in
  applyRunRewindConversationState c intent turnSeq.

(** ** Lemmas *)

Lemma earliest_in l c e : fold_left earliest l c = Some e -> Some e = c \/ e ∈ l.
Proof.
  revert c. induction l as [|x l IH]; intros c; simpl; [by left|].
  intros H. apply IH in H as [H|H]; [|right; set_solver].
  unfold earliest in H. destruct c as [c|]; [|right; set_solver].
  destruct (earlierHistoryEntry x c); [right; set_solver|by left].
Qed.

Lemma earliest_after_in n l c e :
  fold_left (fun c e => if TurnSeq e <=? n then c else earliest c e) l c = Some e ->
  Some e = c \/ e ∈ l.
Proof.
  revert c. induction l as [|x l IH]; intros c; simpl; [by left|].
  intros H. apply IH in H as [H|H]; [|right; set_solver].
  destruct (TurnSeq x <=? n); [by left|]. unfold earliest in H. destruct c as [c|]; [|right; set_solver].
  destruct (earlierHistoryEntry x c); [right; set_solver|by left].
Qed.

Lemma select_in matches count has e reason :
  selectRunRewindMatch matches count has = Some (e, reason) -> e ∈ matches.
Proof.
  unfold selectRunRewindMatch. destruct matches as [|first rest]; [done|].
  assert (Hfall : forall e r, match fold_left earliest rest (Some first) with
      | Some e => Some (e, "earliest_message_id_match") | None => None end = Some (e, r) ->
      e ∈ first :: rest).
  { intros e' r. destruct (fold_left earliest rest (Some first)) as [x|] eqn:E; [|done].
    intros [= <- _]. apply earliest_in in E as [[= ->]|?]; set_solver. }
  destruct (has && (0 <=? count)); [|by apply Hfall].
  destruct (list_find _ (first :: rest)) as [[i x]|] eqn:Ef.
  { intros [= <- _]. apply list_find_Some in Ef as (Hl & _). by eapply list_elem_of_lookup_2. }
  destruct (fold_left _ (first :: rest) None) as [x|] eqn:E; [|by apply Hfall].
  intros [= <- _]. apply earliest_after_in in E as [?|?]; [done|done].
Qed.

Lemma find_message_spec entries id e :
  e ∈ findUserMessageEntriesByMessageID entries id ->
  e ∈ entries /\ entry_message_id e = Some (TrimSpace id).
Proof.
  unfold findUserMessageEntriesByMessageID. case_decide; [by intros ?%not_elem_of_nil|].
  rewrite list_elem_of_filter. tauto.
Qed.

(** The entries before a turn and the dropped ones split the history. *)
Lemma prefix_dropped_length entries turn :
  Z.of_nat (length (filter (fun e => turn <= TurnSeq e) entries)) =
  Z.of_nat (length entries) - Z.of_nat (length (prefixEntriesBeforeTurn entries turn)).
Proof.
  unfold prefixEntriesBeforeTurn. induction entries as [|e l IH]; [done|].
  rewrite !filter_cons. case_decide; case_decide; simpl; lia.
Qed.

Lemma pop_last_app messages active rest :
  pop_last messages = (active, rest) -> rest ++ option_list active = messages.
Proof.
  unfold pop_last. destruct (last messages) as [m|] eqn:E; intros [= <- <-]; simpl.
  - apply last_Some in E as [l' ->]. rewrite length_app. simpl.
    by rewrite Nat.add_sub, take_app_length.
  - by apply last_None in E.
Qed.

Lemma work_iff (a : option UserMessage) (p : list UserMessage) :
  bool_decide (is_Some a) || negb (bool_decide (length p = 0%nat)) = true <->
  p ++ option_list a <> [].
Proof.
  destruct a as [m|]; cbn [option_list].
  - rewrite bool_decide_eq_true_2 by done. cbn [orb]. split; [|done].
    intros _ H. apply (f_equal length) in H. rewrite length_app in H. simpl in H. lia.
  - rewrite (bool_decide_eq_false_2 (is_Some None)) by (by intros []). simpl.
    rewrite app_nil_r. by destruct p.
Qed.

Lemma omap_Some (p : list UserMessage) : omap id (Some <$> p) = p.
Proof.
  induction p as [|x p IH]; [done|].
  change (omap id (Some <$> (x :: p))) with (x :: omap id (Some <$> p)). by rewrite IH.
Qed.

(** Cutting a well-formed history keeps it ready for numbering from 1. *)
Lemma prefix_seqs_ok entries extra turn next lo :
  Forall (fun e => 1 <= Seq e < next) entries -> chained seq_lt entries ->
  (forall e, head entries = Some e -> lo <= Seq e) -> 1 <= lo ->
  (forall n, n <= next -> 1 <= n -> seqs_ok n extra) -> lo <= next ->
  seqs_ok lo (prefixEntriesBeforeTurn entries turn ++ extra).
Proof.
  unfold prefixEntriesBeforeTurn. revert lo.
  induction entries as [|e l IH]; intros lo Hs Hc Hlo Hpos Hx Hle.
  { simpl. by apply Hx. }
  apply Forall_cons in Hs as [He Hs].
  assert (Hle' : lo <= Seq e) by by apply Hlo.
  assert (Hc' : chained seq_lt l) by (intros i x y Hi Hj; by apply (Hc (S i) x y)).
  assert (Hnext : forall x, head l = Some x -> Seq e + 1 <= Seq x).
  { intros x Hx'. destruct l as [|y l]; [done|]. injection Hx' as ->.
    specialize (Hc 0%nat e x eq_refl eq_refl). unfold seq_lt in Hc. lia. }
  rewrite filter_cons. case_decide.
  - simpl. destruct (Seq e <=? 0) eqn:E; zbool. split; [done|]. apply IH; try done; lia.
  - apply IH; try done. intros x Hx'. specialize (Hnext x Hx'). lia.
Qed.

Lemma decide_match_apply d entries selected reason :
  Apply d = false -> Apply (decide_match d entries selected reason) = true ->
  let d' := decide_match d entries selected reason in
  IncomingMessageID d' = IncomingMessageID d /\
  TurnSeq selected = TargetTurnSeq d' /\ 0 < TargetTurnSeq d' /\
  PrefixEntries d' = prefixEntriesBeforeTurn entries (TargetTurnSeq d') /\
  DroppedEntryCount d' =
    Z.of_nat (length (filter (fun x => TargetTurnSeq d' <= TurnSeq x) entries)).
Proof.
  intros Hno. unfold decide_match. destruct (TurnSeq selected <=? 0) eqn:E; [simpl; congruence|].
  destruct (negb _ && negb _); [simpl; congruence|]. unfold droppedEntryStats. simpl. zbool.
  intros _. by split_and!.
Qed.

Lemma decision_start_id intent conversation :
  TrimSpace (IncomingMessageID (decision_start intent conversation)) =
  IncomingMessageID (decision_start intent conversation).
Proof. simpl. destruct (IntentUserMessage intent); [apply TrimSpace_idem|done]. Qed.

(** What a decision to rewind says about the history. *)
Lemma apply_decision intent c :
  let d := decideRunRewind intent (Some c) in
  Apply d = true ->
  shouldEvaluateRunRewind intent = true /\
  exists e, e ∈ Entries c /\ entry_message_id e = Some (IncomingMessageID d) /\
    IncomingMessageID d <> EmptyString /\ TurnSeq e = TargetTurnSeq d /\ 0 < TargetTurnSeq d /\
    PrefixEntries d = prefixEntriesBeforeTurn (Entries c) (TargetTurnSeq d) /\
    DroppedEntryCount d =
      Z.of_nat (length (filter (fun x => TargetTurnSeq d <= TurnSeq x) (Entries c))).
Proof.
  unfold decideRunRewind. destruct (shouldEvaluateRunRewind intent); cbn [negb]; [|done].
  pose proof (decision_start_id intent (Some c)) as Htrim.
  assert (Hno : Apply (decision_start intent (Some c)) = false) by done.
  generalize dependent (decision_start intent (Some c)). intros d0 Htrim Hno.
  case_decide as Hid; [simpl; congruence|].
  destruct (selectRunRewindMatch _ _ _) as [[e reason]|] eqn:Es; [|simpl; congruence].
  apply select_in, find_message_spec in Es as [Hin Hmsg]. intros Happ.
  apply decide_match_apply in Happ as (H1 & H2 & H3 & H4 & H5); [|exact Hno].
  split; [done|]. exists e. rewrite H1. rewrite Htrim in Hmsg. by split_and!.
Qed.

Lemma cleared_wf (c : ConversationFile) imported :
  conversation_wf (c <| Entries := [] |> <| NextEntrySeq := 1 |> <| NextTurnSeq := 1 |>
                     <| ImportedTurnIDs := imported |>).
Proof.
  split; [done|]. split; [done|]. split; simpl; [constructor|apply chained_nil|constructor|].
  intros i j x y Hx. by rewrite lookup_nil in Hx.
Qed.

Lemma unnumbered_seqs_ok n (entries : list HistoryEntry) :
  Forall (fun e => Seq e <= 0) entries -> n + Z.of_nat (length entries) <= max_int64 ->
  seqs_ok n entries.
Proof.
  revert n. induction entries as [|e l IH]; intros n Hs Hn; simpl in *; [lia|].
  apply Forall_cons in Hs as [He Hs]. rewrite (proj2 (Z.leb_le _ _) He). apply IH; [done|lia].
Qed.

Lemma unique_keys_filter entries turn :
  unique_keys entries -> unique_keys (prefixEntriesBeforeTurn entries turn).
Proof.
  unfold prefixEntriesBeforeTurn. induction entries as [|e l IH]; intros Hu; [done|].
  assert (Hl : unique_keys l).
  { intros i j x y Hi Hj Hk Hne. specialize (Hu (S i) (S j) x y Hi Hj Hk Hne). lia. }
  rewrite filter_cons. case_decide; [|by apply IH].
  assert (Hno : forall i x, filter (fun x => TurnSeq x < turn) l !! i = Some x ->
    entry_key x = entry_key e -> entry_key e = EmptyString).
  { intros i x Hi Hk. apply list_elem_of_lookup_2, list_elem_of_filter in Hi as [_ Hin].
    apply list_elem_of_lookup in Hin as [j Hj].
    destruct (decide (entry_key e = EmptyString)) as [|Hne]; [done|].
    by specialize (Hu 0%nat (S j) e x eq_refl Hj (eq_sym Hk) Hne). }
  intros [|i] [|j] x y Hi Hj Hk Hne; simpl in *; simplify_eq; [done| | |].
  - exfalso. apply Hne. eapply Hno; [exact Hj|done].
  - exfalso. apply Hne. rewrite Hk. eapply Hno; [exact Hi|done].
  - f_equal. by apply (IH Hl i j x y).
Qed.

(** Appending a kept prefix and new entries to an empty conversation. *)
Lemma prefix_kept now (c : ConversationFile) prefix entries :
  Entries c = [] -> unique_keys prefix -> Forall (fun e => 1 <= Seq e) prefix ->
  exists assigned,
    Entries (appendEntriesInPlace now c (prefix ++ entries)).2 =
      map (numbered now 0) prefix ++ assigned /\
    exists kept, sublist kept entries /\
      Forall2 (fun e e' => exists n, e' = numbered now n e) kept assigned.
Proof.
  intros Hc Hu Hs. destruct (append_in_place_entries now c (prefix ++ entries)) as [-> _].
  rewrite Hc. unfold appendEntriesInPlace. case_decide as Hne.
  { apply app_eq_nil in Hne as [-> ->]. exists []. split; [done|]. by exists []; split. }
  cbn [fst app]. rewrite fold_left_app.
  destruct (append_assigned_sublist now entries (fold_left (append_entry now) prefix (append_start c)))
    as (kept & assigned & Hsub & -> & Hf).
  rewrite append_kept; [|done|done|].
  - exists assigned. split; [done|]. by exists kept.
  - intros x _ _. unfold append_start. rewrite Hc. simpl. set_solver.
Qed.

(** ** Properties *)

(** C12: a rewind cuts exactly at the edited message.  When the decision is to rewind, the
    history holds a user message with the incoming, non-blank id; the target is the positive
    turn of that entry; the prefix is, in order, exactly the entries of earlier turns, so
    the edited message and everything of its turn or later is dropped; and the dropped count
    is their number, which is not zero. *)
Theorem rewind_cuts_before_message intent c :
  let d := decideRunRewind intent (Some c) in
  Apply d = true ->
  shouldEvaluateRunRewind intent = true /\
  exists e, e ∈ Entries c /\ entry_message_id e = Some (IncomingMessageID d) /\
    IncomingMessageID d <> EmptyString /\ TurnSeq e = TargetTurnSeq d /\ 0 < TargetTurnSeq d /\
    PrefixEntries d = filter (fun x => TurnSeq x < TargetTurnSeq d) (Entries c) /\
    e ∉ PrefixEntries d /\
    DroppedEntryCount d = Z.of_nat (length (Entries c)) - Z.of_nat (length (PrefixEntries d)) /\
    0 < DroppedEntryCount d.
Proof.
  intros d Happ. destruct (apply_decision intent c Happ) as (Hev & e & Hin & Hmsg & Hne & Hd).
  destruct Hd as (Ht & Hpos & Hp & Hn). split; [done|]. exists e. fold d in Hmsg, Hne, Ht, Hpos, Hp, Hn.
  rewrite Hp, Hn. split_and!; try done.
  - unfold prefixEntriesBeforeTurn. rewrite list_elem_of_filter. lia.
  - apply prefix_dropped_length.
  - assert (Hd : e ∈ filter (fun x => TargetTurnSeq d <= TurnSeq x) (Entries c))
      by (apply list_elem_of_filter; split; [lia|done]).
    destruct (filter (fun x => TargetTurnSeq d <= TurnSeq x) (Entries c));
      [by apply not_elem_of_nil in Hd|simpl; lia].
Qed.

(** no user message runs twice.  On a conversation with history, what is left to run is,
    in order, exactly the messages of the intent (the prepended ones, then the main one)
    whose id is blank or not in the history; the last of them becomes the active message,
    and there is work exactly when one is left. *)
Theorem unprocessed_messages_exact intent c active rest work :
  Entries c <> [] ->
  filterUnprocessedUserMessages intent (Some c) = (active, rest, work) ->
  let known := existing_message_ids (Entries c) in
  omap id rest ++ option_list active =
    filter (fun m => unprocessed known m = true)
      (omap id (PrependUserMessages intent) ++ option_list (IntentUserMessage intent)) /\
  (forall m, m ∈ omap id rest ++ option_list active -> TrimSpace (GetMessageId m) = EmptyString \/
     TrimSpace (GetMessageId m) ∉ known) /\
  (work = true <-> omap id rest ++ option_list active <> []) /\
  (active = None -> rest = []).
Proof.
  intros Hne Hf known. unfold filterUnprocessedUserMessages in Hf. rewrite decide_False in Hf by done.
  fold known in Hf. set (fresh := filter _ (omap id (PrependUserMessages intent))) in Hf.
  destruct (match IntentUserMessage intent with Some m => _ | None => _ end) as [a p] eqn:Em.
  injection Hf as <- <- <-.
  assert (Homap : omap id (Some <$> p) = p) by apply omap_Some.
  assert (Happ : p ++ option_list a = filter (fun m => unprocessed known m = true)
    (omap id (PrependUserMessages intent) ++ option_list (IntentUserMessage intent))).
  { rewrite filter_app. fold fresh. destruct (IntentUserMessage intent) as [m|]; simpl.
    - rewrite filter_cons. destruct (unprocessed known m) eqn:Eu.
      + injection Em as <- <-. by rewrite decide_True.
      + rewrite decide_False by done. rewrite (pop_last_app _ _ _ Em). by rewrite app_nil_r.
    - rewrite (pop_last_app _ _ _ Em). by rewrite app_nil_r. }
  rewrite Homap. split_and!; [done| | |].
  - intros m. rewrite Happ, list_elem_of_filter. intros [Hu _]. unfold unprocessed in Hu.
    apply orb_true_iff in Hu as [Hu|Hu]; bools_to_props; auto.
  - apply work_iff.
  - intros ->. destruct (IntentUserMessage intent) as [m|] eqn:Ei.
    + destruct (unprocessed known m); [done|]. unfold pop_last in Em.
      destruct (last fresh); [done|]. by injection Em as <-.
    + unfold pop_last in Em. destruct (last fresh); [done|]. by injection Em as <-.
Qed.

(** applying a rewind leaves a well-formed conversation.  From a well-formed
    conversation and new entries that ask for a number, the result holds the kept prefix
    followed by new entries, is well formed again and belongs to the new run. *)
Theorem rewind_apply_wf now c intent entries turnSeq :
  let d := decideRunRewind intent (Some c) in
  Apply d = true -> conversation_wf c -> Forall (fun e => Seq e <= 0) entries ->
  Forall (fun e => TurnSeq e < max_int64) entries ->
  NextEntrySeq c + Z.of_nat (length entries) <= max_int64 ->
  let c' := applyRunRewindToConversation now c d entries intent turnSeq in
  conversation_wf c' /\
  exists assigned, Entries c' = map (numbered now 0) (PrefixEntries d) ++ assigned /\
    exists kept, sublist kept entries /\
      Forall2 (fun e e' => exists n, e' = numbered now n e) kept assigned.
Proof.
  intros d Happ Hw Hs Ht Hmax c'. subst c'. unfold applyRunRewindToConversation. rewrite Happ.
  cbn [negb]. destruct (apply_decision intent c Happ) as (_ & e & _ & _ & _ & _ & _ & Hp & _).
  fold d in Hp. unfold appendReplacementRunEntries.
  generalize (rewindImportedTurnPrefix (ImportedTurnIDs c) (TargetTurnSeq d) (decision_turns d)).
  intros imported. set (c0 := c <| Entries := [] |> <| NextEntrySeq := 1 |> <| NextTurnSeq := 1 |>
                                <| ImportedTurnIDs := imported |>).
  assert (Hw0 : conversation_wf c0) by apply cleared_wf.
  destruct Hw as (Hpos & Hturn & [Wseq Wsort Wturn Wkeys]).
  assert (Hok : seqs_ok (NextEntrySeq c0) (PrefixEntries d ++ entries)).
  { rewrite Hp. apply (prefix_seqs_ok (Entries c) entries _ (NextEntrySeq c)); try done.
    - intros x Hx. apply head_Some_elem_of in Hx. rewrite Forall_forall in Wseq.
      specialize (Wseq x Hx). simpl. lia.
    - intros n Hn Hn1. apply unnumbered_seqs_ok; [done|lia]. }
  assert (Htu : Forall (fun e => TurnSeq e < max_int64) (PrefixEntries d ++ entries)).
  { apply Forall_app_2; [|done]. rewrite Hp. unfold prefixEntriesBeforeTurn.
    apply Forall_forall. intros x [_ Hx]%list_elem_of_filter. rewrite Forall_forall in Wturn.
    specialize (Wturn x Hx). lia. }
  destruct (append_in_place_wf now c0 _ Hw0 Htu Hok) as (Hw' & _).
  destruct (prefix_kept now c0 (PrefixEntries d) entries) as (assigned & He & Hk); [done|..].
  { rewrite Hp. by apply unique_keys_filter. }
  { rewrite Hp. unfold prefixEntriesBeforeTurn. apply Forall_forall.
    intros x [_ Hx]%list_elem_of_filter. rewrite Forall_forall in Wseq.
    specialize (Wseq x Hx). lia. }
  destruct (appendEntriesInPlace now c0 (PrefixEntries d ++ entries)) as [as_ c1]. simpl in *.
  match goal with |- context [deriveConversationLoopState ?x] =>
    destruct (derive_keeps x) as (K1 & K2 & K3 & _) end.
  unfold conversation_wf. rewrite K1, K2, K3. split; [exact Hw'|]. by exists assigned.
Qed.

End Rewind.

#[export] Existing Instances eta_decision.

(** ** Witnesses: messages and bodies are their own ids *)

#[local] Existing Instances demo_decoders.

Definition demo_history (seq turn : Z) (id : string) : @HistoryEntry string :=
  mkEntry seq turn "req" EmptyString "user" "user_message" EmptyString EmptyString id 5.

(** Three turns; the client resends the message of the second one. *)
Definition demo_three : @ConversationFile string unit :=
  demo_conversation <| Entries := [demo_history 1 1 "m1"; demo_history 2 2 "m2";
                                   demo_history 3 3 "m3"] |>
    <| NextEntrySeq := 4 |> <| NextTurnSeq := 4 |>.

Definition demo_intent : @InboundIntent string :=
  mkIntent "run" "req2" false "user_message_action" (Some 1%nat) (Some "m2")
    [Some "m1"; None; Some "m9"].

Definition demo_rewind := decideRunRewind (fun m => m) Some demo_intent (Some demo_three).

Lemma demo_three_wf : conversation_wf demo_three.
Proof.
  split; [done|]. split; [done|]. split.
  - by repeat constructor.
  - intros i x y Hx Hy. destruct i as [|[|[|i]]]; simplify_eq/=; done.
  - by repeat constructor.
  - intros i j x y Hx Hy _ Hne. exfalso. apply Hne.
    destruct i as [|[|[|i]]]; simplify_eq/=; vm_compute; reflexivity.
Qed.

Lemma rewind_cuts_before_message_witness :
  Apply demo_rewind = true /\ map Seq (PrefixEntries demo_rewind) = [1] /\
  0 < DroppedEntryCount demo_rewind.
Proof.
  split; [vm_compute; reflexivity|]. split; [vm_compute; reflexivity|].
  destruct (rewind_cuts_before_message (fun m => m) Some demo_intent demo_three
    ltac:(vm_compute; reflexivity)) as (_ & e & _ & _ & _ & _ & _ & _ & _ & _ & Hpos).
  exact Hpos.
Defined.

Lemma unprocessed_messages_exact_witness :
  exists active rest work,
    filterUnprocessedUserMessages (fun m => m) Some demo_intent (Some demo_three) =
      (active, rest, work) /\
    omap id rest ++ option_list active = ["m9"].
Proof.
  eexists _, _, _. split; [vm_compute; reflexivity|].
  etransitivity; [eapply (unprocessed_messages_exact (fun m => m) Some demo_intent demo_three);
                  [done|vm_compute; reflexivity]|].
  vm_compute. reflexivity.
Defined.

Lemma rewind_apply_wf_witness :
  let c' := applyRunRewindToConversation 9 demo_three demo_rewind
              [demo_history 0 2 "m2"] demo_intent 2 in
  map Seq (Entries c') = [1; 2] /\ conversation_wf c'.
Proof.
  intros c'. split; [vm_compute; reflexivity|].
  destruct (rewind_apply_wf (fun m => m) Some 9 demo_three demo_intent [demo_history 0 2 "m2"] 2
    ltac:(vm_compute; reflexivity) demo_three_wf ltac:(by repeat constructor)
    ltac:(by repeat constructor) ltac:(done)) as [H _]. exact H.
Defined.
