(* ===== verification/Timers.v ===== *)
(** * Timer tokens of a stream (forwarder/actor.go).

    A timer that was started keeps the token of its key; firing it counts only while the key
    still has that token, so scheduling or clearing the key makes it stale. *)

From S2P Require Import Prelude Go.

Notation TimerTokens := (gmap string Z).

Definition timer_token (tokens : TimerTokens) (key : string) : Z := default 0 (tokens !! key).

(** [providerTimerKey]. *)
Definition providerTimerKey (kind execID : string) : string :=
  if decide (TrimSpace execID = EmptyString) then kind else kind +:+ ":" +:+ TrimSpace execID.

(** [scheduleStreamTimer]: the token the fired event will carry, [None] when the key is
    blank. *)
Definition scheduleStreamTimer (key : string) (tokens : TimerTokens)
  : option Z * TimerTokens :=
  if decide (TrimSpace key = EmptyString) then (None, tokens)
  else
    let token := wrap_uint64 (timer_token tokens key + 1) in
    (Some token, <[key := token]> tokens).

Definition timerEventMatches (key : string) (token : Z) (tokens : TimerTokens) : bool :=
  negb (bool_decide (TrimSpace key = EmptyString)) && (timer_token tokens key =? token).

Definition clearStreamTimer (key : string) (tokens : TimerTokens) : TimerTokens :=
  if decide (TrimSpace key = EmptyString) then tokens
  else
    let token := wrap_uint64 (timer_token tokens key + 1) in
    <[key := if token =? 0 then 1 else token]> tokens.

Inductive TimerOp :=
| TimerSchedule (key : string)
| TimerClear (key : string).

Definition op_key (op : TimerOp) : string :=
  match op with TimerSchedule key | TimerClear key => key end.

Definition run_timer (tokens : TimerTokens) (op : TimerOp) : TimerTokens :=
  match op with
  | TimerSchedule key => (scheduleStreamTimer key tokens).2
  | TimerClear key => clearStreamTimer key tokens
  end.

(** ** Lemmas *)

(** While it does not wrap, every operation on a key moves its token up by one. *)
Lemma run_timer_token tokens op key :
  TrimSpace key <> EmptyString -> 0 <= timer_token tokens key < max_uint64 ->
  timer_token (run_timer tokens op) key =
    timer_token tokens key + (if decide (op_key op = key) then 1 else 0).
Proof.
  intros Hkey Hr. assert (Hw : wrap_uint64 (timer_token tokens key + 1) = timer_token tokens key + 1).
  { apply wrap_uint64_id. unfold is_uint64. lia. }
  destruct op as [k|k]; simpl; unfold scheduleStreamTimer, clearStreamTimer;
    case_decide as Hk; simpl; case_decide as Hkk; subst; try done; try lia;
    unfold timer_token at 1; rewrite ?lookup_insert_eq, ?lookup_insert_ne by done; simpl;
    rewrite ?Hw; try (unfold timer_token in *; lia).
  destruct (_ =? 0) eqn:E; zbool.
Qed.

Lemma run_timers_token ops tokens key :
  TrimSpace key <> EmptyString -> 0 <= timer_token tokens key ->
  timer_token tokens key + Z.of_nat (length ops) <= max_uint64 ->
  timer_token tokens key <= timer_token (fold_left run_timer ops tokens) key /\
  (timer_token (fold_left run_timer ops tokens) key = timer_token tokens key <->
   Forall (fun op => op_key op <> key) ops).
Proof.
  intros Hkey. revert tokens. induction ops as [|op ops IH]; intros tokens H0 Hlen; simpl.
  - by split.
  - simpl in Hlen. pose proof (run_timer_token tokens op key Hkey ltac:(lia)) as Ht.
    destruct (IH (run_timer tokens op)) as [I1 I2]; [case_decide; lia..|].
    rewrite Forall_cons. case_decide as Hk.
    + split; [lia|]. split; [lia|]. by intros [? _].
    + rewrite Ht, Z.add_0_r in *. split; [done|]. rewrite I2. tauto.
Qed.

(** ** Property *)

(** only the latest timer of a key fires.  The event of a scheduled timer still matches
    after any sequence of schedules and clears exactly when none of them was on its key;
    in particular clearing a key disarms every timer started for it before. *)
Theorem timer_fires_iff_latest key tokens token tokens' ops :
  0 <= timer_token tokens key ->
  timer_token tokens key + 1 + Z.of_nat (length ops) <= max_uint64 ->
  scheduleStreamTimer key tokens = (Some token, tokens') ->
  timerEventMatches key token (fold_left run_timer ops tokens') = true <->
  Forall (fun op => op_key op <> key) ops.
Proof.
  intros H0 Hlen Hs. unfold scheduleStreamTimer in Hs. case_decide as Hkey; [done|].
  injection Hs as <- <-. rewrite wrap_uint64_id by (unfold is_uint64; lia).
  set (tokens' := <[key := _]> tokens).
  assert (Ht : timer_token tokens' key = timer_token tokens key + 1).
  { unfold tokens', timer_token at 1. by rewrite lookup_insert_eq. }
  destruct (run_timers_token ops tokens' key Hkey) as [_ Hiff]; [lia|lia|].
  rewrite <- Hiff, Ht. unfold timerEventMatches. rewrite bool_decide_eq_false_2 by done.
  simpl. by rewrite Z.eqb_eq.
Qed.

Lemma timer_fires_iff_latest_witness :
  timerEventMatches "checkpoint_blobs" 1
    (fold_left run_timer [TimerSchedule "orphan_cancel"; TimerClear "checkpoint_blobs"]
       (scheduleStreamTimer "checkpoint_blobs" ∅).2) <> true.
Proof.
  intros H. apply (timer_fires_iff_latest "checkpoint_blobs" ∅) in H;
    [|vm_compute; discriminate..|reflexivity].
  apply Forall_cons in H as [_ H]. apply Forall_cons in H as [H _]. by apply H.
Defined.
