(* ===== verification/Strings.v ===== *)
(** * The part of Go's [strings] package that the modelled files use, on byte sequences.

    [Count], [Replace] and [ReplaceAll] scan from the left and never overlap; the code calls
    them with a non-empty [old] only, and so do the theorems.  Each matched or skipped byte
    consumes fuel, so the length of the text is enough. *)

From S2P Require Import Prelude Go.

Notation LF := (byte_of 10).
Notation CR := (byte_of 13).

(** ** Operations *)

(** [strings.Replace(s, old, new, n)], [None] being a negative [n]. *)
Fixpoint replace_fuel (fuel : nat) (s old new : bytes) (n : option nat) : bytes :=
  match fuel, n, s with
  | O, _, _ | _, Some O, _ | _, _, [] => s
  | S fuel, _, c :: s' =>
      match strip_prefix old s with
      | Some rest => new ++ replace_fuel fuel rest old new (pred <$> n)
      | None => c :: replace_fuel fuel s' old new n
      end
  end.

Definition Replace (s old new : bytes) (n : option nat) : bytes :=
  replace_fuel (length s) s old new n.

Definition ReplaceAll (s old new : bytes) : bytes := Replace s old new None.

(** [strings.Count]. *)
Fixpoint count_fuel (fuel : nat) (s old : bytes) : nat :=
  match fuel, s with
  | O, _ | _, [] => 0
  | S fuel, _ :: s' =>
      match strip_prefix old s with
      | Some rest => S (count_fuel fuel rest old)
      | None => count_fuel fuel s' old
      end
  end.

Definition Count (s old : bytes) : nat := count_fuel (length s) s old.

(** [strings.Split] on a single byte. *)
Fixpoint Split (s : bytes) (sep : ascii) : list bytes :=
  match s with
  | [] => [[]]
  | c :: s' =>
      if decide (c = sep) then [] :: Split s' sep
      else match Split s' sep with
           | [] => [[c]]
           | line :: rest => (c :: line) :: rest
           end
  end.

Definition ContainsAny (s chars : bytes) : bool := existsb (fun c => bool_decide (c ∈ chars)) s.

Definition HasSuffix (s suffix : bytes) : bool :=
  match strip_prefix (rev suffix) (rev s) with Some _ => true | None => false end.

Definition TrimSuffix (s suffix : bytes) : bytes :=
  match strip_prefix (rev suffix) (rev s) with Some rest => rev rest | None => s end.

(** [strings.Cut]. *)
Fixpoint Cut (s sep : bytes) : option (bytes * bytes) :=
  match strip_prefix sep s with
  | Some rest => Some ([], rest)
  | None =>
      match s with
      | [] => None
      | c :: s => match Cut s sep with
                  | Some (before, after) => Some (c :: before, after)
                  | None => None
                  end
      end
  end.

(** [strings.Index] *)
Definition Index (s sub : bytes) : option nat :=
  match Cut s sub with Some (before, _) => Some (length before) | None => None end.

(** ** Lemmas: the equations of the scans, free of fuel *)

Lemma strip_prefix_shorter old s rest :
  old <> [] -> strip_prefix old s = Some rest -> (length rest < length s)%nat.
Proof.
  intros Hold ->%strip_prefix_Some. rewrite length_app. destruct old; [done|]. simpl. lia.
Qed.

Lemma replace_fuel_enough fuel fuel' s old new n :
  old <> [] -> (length s <= fuel)%nat -> (length s <= fuel')%nat ->
  replace_fuel fuel s old new n = replace_fuel fuel' s old new n.
Proof.
  intros Hold. revert fuel' s n. induction fuel as [|fuel IH]; intros fuel' s n H1 H2.
  - destruct s; [|simpl in H1; lia]. by destruct fuel', n as [[]|].
  - destruct s as [|c s]; [by destruct fuel', n as [[]|]|]. destruct fuel' as [|fuel']; [simpl in H2; lia|].
    cbn [replace_fuel]. destruct (strip_prefix old (c :: s)) as [rest|] eqn:E.
    + apply strip_prefix_shorter in E; [|done]. simpl in *.
      destruct n as [[]|]; [done|..]; f_equal; apply IH; lia.
    + simpl in *. destruct n as [[]|]; [done|..]; f_equal; apply IH; lia.
Qed.

Lemma count_fuel_enough fuel fuel' s old :
  old <> [] -> (length s <= fuel)%nat -> (length s <= fuel')%nat ->
  count_fuel fuel s old = count_fuel fuel' s old.
Proof.
  intros Hold. revert fuel' s. induction fuel as [|fuel IH]; intros fuel' s H1 H2.
  - destruct s; [|simpl in H1; lia]. by destruct fuel'.
  - destruct s as [|c s]; [by destruct fuel'|]. destruct fuel' as [|fuel']; [simpl in H2; lia|].
    cbn [count_fuel]. destruct (strip_prefix old (c :: s)) as [rest|] eqn:E.
    + apply strip_prefix_shorter in E; [|done]. simpl in *. f_equal. apply IH; lia.
    + simpl in *. apply IH; lia.
Qed.

Section Equations.
Context (old : bytes) (Hold : old <> []).

Lemma Replace_nil new n : Replace [] old new n = [].
Proof using. by destruct n as [[]|]. Qed.

Lemma Replace_0 s new : Replace s old new (Some 0%nat) = s.
Proof using. unfold Replace. by destruct s. Qed.

Lemma Replace_match s rest new n :
  n <> Some 0%nat -> strip_prefix old s = Some rest ->
  Replace s old new n = new ++ Replace rest old new (pred <$> n).
Proof using Hold.
  intros Hn E. pose proof (strip_prefix_shorter _ _ _ Hold E) as Hl. unfold Replace.
  destruct s as [|c s]; [simpl in Hl; lia|]. cbn [length replace_fuel]. rewrite E.
  destruct n as [[]|]; [done|..]; f_equal; apply replace_fuel_enough; simpl in *; auto; lia.
Qed.

Lemma Replace_skip c s new n :
  n <> Some 0%nat -> strip_prefix old (c :: s) = None ->
  Replace (c :: s) old new n = c :: Replace s old new n.
Proof using Hold.
  intros Hn E. unfold Replace. cbn [length replace_fuel]. rewrite E.
  destruct n as [[]|]; done.
Qed.

Lemma Count_match s rest :
  strip_prefix old s = Some rest -> Count s old = S (Count rest old).
Proof using Hold.
  intros E. pose proof (strip_prefix_shorter _ _ _ Hold E) as Hl. unfold Count.
  destruct s as [|c s]; [simpl in Hl; lia|]. cbn [length count_fuel]. rewrite E. f_equal.
  apply count_fuel_enough; simpl in *; auto; lia.
Qed.

Lemma Count_skip c s :
  strip_prefix old (c :: s) = None -> Count (c :: s) old = Count s old.
Proof using. intros E. unfold Count. cbn [length count_fuel]. by rewrite E. Qed.

(** Induction along the scan. *)
Lemma scan_ind (P : bytes -> Prop) :
  P [] -> (forall s rest, strip_prefix old s = Some rest -> P rest -> P s) ->
  (forall c s, strip_prefix old (c :: s) = None -> P s -> P (c :: s)) -> forall s, P s.
Proof using Hold.
  intros H0 Hm Hs s. remember (length s) as n eqn:Hn. revert s Hn.
  induction n as [n IH] using lt_wf_ind. intros s ->.
  destruct s as [|c s]; [done|]. destruct (strip_prefix old (c :: s)) as [rest|] eqn:E.
  - eapply Hm; [exact E|]. apply (IH (length rest)); [|done]. by eapply strip_prefix_shorter.
  - apply Hs; [done|]. apply (IH (length s)); [simpl; lia|done].
Qed.

(** No match at all. *)
Lemma Count_0 s : Count s old = 0%nat <-> forall a b, s <> a ++ old ++ b.
Proof using Hold.
  revert s. apply (scan_ind (fun s => Count s old = 0%nat <-> forall a b, s <> a ++ old ++ b)).
  - split; [|done]. intros _ a b E. symmetry in E. apply app_eq_nil in E as [_ [E _]%app_eq_nil]. by apply Hold.
  - intros s rest E _. rewrite (Count_match s rest E). split; [done|]. intros H.
    apply strip_prefix_Some in E. by destruct (H [] rest).
  - intros c s E IH. rewrite (Count_skip c s E), IH. split.
    + intros H a b Eq. destruct a as [|x a]; simpl in Eq.
      * assert (strip_prefix old (c :: s) = Some b) by by apply strip_prefix_Some. congruence.
      * injection Eq as -> Eq. by apply (H a b).
    + intros H a b Eq. apply (H (c :: a) b). by rewrite Eq.
Qed.

Definition first_match_at (s a b : bytes) : Prop :=
  s = a ++ old ++ b /\ Count s old = S (Count b old) /\
  (forall a' b', s = a' ++ old ++ b' -> (length a <= length a')%nat) /\
  (forall new n, n <> Some 0%nat ->
     Replace s old new n = a ++ new ++ Replace b old new (pred <$> n)).

(** The first match, and what replacing it once gives. *)
Lemma first_match s :
  (0 < Count s old)%nat -> exists a b, first_match_at s a b.
Proof using Hold.
  revert s. apply (scan_ind (fun s => (0 < Count s old)%nat -> exists a b, first_match_at s a b)).
  - unfold Count. simpl. lia.
  - intros s rest E _ _. exists [], rest. split; [exact (proj1 (strip_prefix_Some old s rest) E)|].
    split; [by apply Count_match|]. split; [simpl; lia|]. intros new n Hn.
    by apply Replace_match.
  - intros c s E IH Hc. rewrite (Count_skip c s E) in *.
    destruct (IH Hc) as (a & b & -> & H2 & H3 & H4). exists (c :: a), b.
    split; [done|]. split; [by rewrite Count_skip|]. split.
    + intros a' b' Eq. destruct a' as [|x a']; simpl in Eq.
      * assert (strip_prefix old (c :: a ++ old ++ b) = Some b') by by apply strip_prefix_Some.
        congruence.
      * injection Eq as -> Eq. apply H3 in Eq. simpl. lia.
    + intros new n Hn. rewrite Replace_skip by done. simpl. by rewrite H4.
Qed.

(** Replacing brings in no byte that neither text has. *)
Lemma replace_no_byte b s new n : b ∉ s -> b ∉ new -> b ∉ Replace s old new n.
Proof using Hold.
  intros Hs Hn. revert s n Hs. apply (scan_ind (fun s => forall n, b ∉ s -> b ∉ Replace s old new n)).
  - intros n _. rewrite Replace_nil. apply not_elem_of_nil.
  - intros s rest E IH n Hs. destruct (decide (n = Some 0%nat)) as [->|Hz]; [by rewrite Replace_0|].
    rewrite (Replace_match s rest) by done. apply strip_prefix_Some in E as ->.
    rewrite not_elem_of_app. split; [exact Hn|]. apply IH. intros H. apply Hs.
    rewrite elem_of_app. by right.
  - intros c s E IH n Hs. destruct (decide (n = Some 0%nat)) as [->|Hz]; [by rewrite Replace_0|].
    rewrite Replace_skip by done. apply not_elem_of_cons in Hs as [Hb Hs]. rewrite not_elem_of_cons.
    split; [done|]. by apply IH.
Qed.

End Equations.

(** ** Lemmas: splitting *)

Lemma Split_nonempty s sep : Split s sep <> [].
Proof. destruct s; simpl; [done|]. case_decide; [done|]. by case_match. Qed.

Lemma Split_app s t sep :
  exists front last first rest, Split s sep = front ++ [last] /\ Split t sep = first :: rest /\
    Split (s ++ t) sep = front ++ (last ++ first) :: rest.
Proof.
  induction s as [|c s IH]; simpl.
  - destruct (Split t sep) as [|first rest] eqn:E; [by apply Split_nonempty in E|].
    by exists [], [], first, rest.
  - destruct IH as (front & last & first & rest & H1 & H2 & H3). case_decide as Hc.
    + exists ([] :: front), last, first, rest. by rewrite H1, H2, H3.
    + rewrite H1, H3. destruct front as [|line front]; simpl.
      * by exists [], (c :: last), first, rest.
      * by exists ((c :: line) :: front), last, first, rest.
Qed.

Lemma Split_no_sep s sep line : line ∈ Split s sep -> sep ∉ line.
Proof.
  revert line. induction s as [|c s IH]; intros line; simpl.
  - intros ->%list_elem_of_singleton. apply not_elem_of_nil.
  - case_decide as Hc.
    + intros [->|H]%elem_of_cons; [apply not_elem_of_nil|by apply IH].
    + destruct (Split s sep) as [|l rest]; [intros ->%list_elem_of_singleton; set_solver|].
      intros [->|H]%elem_of_cons; [|apply IH; set_solver].
      intros [->|H]%elem_of_cons; [done|]. by apply (IH l); [set_solver|].
Qed.

(** ** Lemmas: cutting at the first occurrence *)

Lemma Cut_spec s sep before after : Cut s sep = Some (before, after) -> s = before ++ sep ++ after.
Proof.
  revert before. induction s as [|c s IH]; intros before; simpl; destruct (strip_prefix sep _) eqn:E;
    try done; try (intros [= <- <-]; by apply strip_prefix_Some in E).
  destruct (Cut s sep) as [[b a]|]; [|done]. intros [= <- <-]. simpl. f_equal. by apply IH.
Qed.

Lemma Index_bound s sub n : Index s sub = Some n -> (n + length sub <= length s)%nat.
Proof.
  unfold Index. destruct (Cut s sub) as [[b a]|] eqn:E; [|done]. intros [= <-].
  apply Cut_spec in E as ->. rewrite !length_app. lia.
Qed.

Lemma strip_prefix_short p s : (length s < length p)%nat -> strip_prefix p s = None.
Proof.
  intros H. destruct (strip_prefix p s) eqn:E; [|done]. apply strip_prefix_Some in E as ->.
  rewrite length_app in H. lia.
Qed.

(** What follows a text that is as long as the pattern does not matter. *)
Lemma strip_prefix_app_None p s rest :
  strip_prefix p s = None -> (length p <= length s)%nat -> strip_prefix p (s ++ rest) = None.
Proof.
  intros H Hl. destruct (strip_prefix p (s ++ rest)) eqn:E; [|done]. exfalso.
  apply strip_prefix_Some in E.
  assert (Hs : s = p ++ drop (length p) s).
  { rewrite <- (take_drop (length p) s) at 1. f_equal.
    rewrite <- (take_app_le s rest) by done. rewrite E. by rewrite take_app_length. }
  apply strip_prefix_Some in Hs. congruence.
Qed.

Lemma Cut_first s sep before after p :
  Cut s sep = Some (before, after) -> (p < length before)%nat -> strip_prefix sep (drop p s) = None.
Proof.
  revert before p. induction s as [|c s IH]; intros before p; simpl; destruct (strip_prefix sep _) eqn:E;
    try done; try (intros [= <- <-]; simpl; lia).
  destruct (Cut s sep) as [[b a]|]; [|done]. intros [= <- <-] Hp. destruct p as [|p]; [done|].
  simpl in *. apply (IH b); [done|lia].
Qed.

Lemma Cut_None s sep p : Cut s sep = None -> strip_prefix sep (drop p s) = None.
Proof.
  revert p. induction s as [|c s IH]; intros p; simpl; destruct (strip_prefix sep _) eqn:E; try done.
  - by rewrite drop_nil.
  - destruct (Cut s sep) as [[b a]|]; [done|]. intros _. destruct p as [|p]; [done|]. by apply IH.
Qed.

Lemma HasSuffix_spec s suffix : HasSuffix s suffix = true <-> exists front, s = front ++ suffix.
Proof.
  unfold HasSuffix. destruct (strip_prefix (rev suffix) (rev s)) as [r|] eqn:E.
  - split; [|done]. intros _. apply strip_prefix_Some in E. exists (rev r).
    rewrite <- (rev_involutive s), E. by rewrite rev_app_distr, rev_involutive.
  - split; [done|]. intros [front ->]. rewrite rev_app_distr in E.
    assert (strip_prefix (rev suffix) (rev suffix ++ rev front) = Some (rev front))
      by by apply strip_prefix_Some. congruence.
Qed.

Lemma TrimSuffix_app s suffix : TrimSuffix (s ++ suffix) suffix = s.
Proof.
  unfold TrimSuffix. rewrite rev_app_distr.
  assert (E : strip_prefix (rev suffix) (rev suffix ++ rev s) = Some (rev s)) by by apply strip_prefix_Some.
  rewrite E. apply rev_involutive.
Qed.

(** The first occurrence stays the first when the text grows. *)
Lemma Cut_here s sep rest : s = sep ++ rest -> Cut s sep = Some ([], rest).
Proof. intros E%strip_prefix_Some. destruct s; cbn [Cut]; by rewrite E. Qed.

Lemma Cut_app s sep before after rest :
  Cut s sep = Some (before, after) -> Cut (s ++ rest) sep = Some (before, after ++ rest).
Proof.
  revert before. induction s as [|c s IH]; intros before; cbn [Cut]; destruct (strip_prefix sep _) eqn:E;
    try done; try (intros [= <- <-]; apply strip_prefix_Some in E; apply Cut_here; by rewrite app_assoc, <- E).
  destruct (Cut s sep) as [[b a]|] eqn:Ec; [|done]. intros [= <- <-].
  pose proof (Cut_spec _ _ _ _ Ec) as Es. cbn [app Cut].
  change (c :: s ++ rest) with ((c :: s) ++ rest).
  rewrite (strip_prefix_app_None _ _ _ E) by (rewrite Es; simpl; rewrite !length_app; lia).
  by rewrite (IH b).
Qed.

Lemma Index_app s sub n rest : Index s sub = Some n -> Index (s ++ rest) sub = Some n.
Proof.
  unfold Index. destruct (Cut s sub) as [[b a]|] eqn:E; [|done]. by rewrite (Cut_app _ _ _ _ rest E).
Qed.

Lemma Cut_absent s sep : (forall p, strip_prefix sep (drop p s) = None) -> Cut s sep = None.
Proof.
  intros H. destruct (Cut s sep) as [[b a]|] eqn:E; [|done]. apply Cut_spec in E.
  specialize (H (length b)). rewrite E, drop_app_length in H.
  assert (strip_prefix sep (sep ++ a) = Some a) by by apply strip_prefix_Some. congruence.
Qed.

(** Nothing is found before the first byte of the pattern. *)
Lemma Cut_skip_front front s c sep : c ∉ front ->
  Cut (front ++ s) (c :: sep) = match Cut s (c :: sep) with
                                | Some (before, after) => Some (front ++ before, after)
                                | None => None
                                end.
Proof.
  intros Hc. induction front as [|x front IH]; [cbn [app]; by destruct (Cut s (c :: sep)) as [[]|]|].
  cbn [Cut app strip_prefix]. rewrite decide_False by set_solver. rewrite IH by set_solver.
  by destruct (Cut s (c :: sep)) as [[]|].
Qed.
