(* ===== verification/ThinkTag.v ===== *)
(** * Thinking inside the text of a provider (agent/model/openai.go, anthropic.go).

    Some providers stream their reasoning inside the text, between [<think>] and [</think>].
    The text comes in pieces that are cut anywhere, also inside a tag;
    [openAIThinkTagParser] splits it into text and reasoning as it comes, and holds back what
    may be the start of a tag.  [anthropicThinkTagParser] is the same code under other names.
    Here a reference [scan] reads the whole text at once, and the parser is shown to deliver
    what it reads whatever the pieces are. *)

From S2P Require Import Prelude Go Strings.

(** ** The parser *)

Inductive openAIContentPartKind :=
| openAIContentPartText
| openAIContentPartReasoning
| openAIContentPartThinkingCompleted.

Record openAIContentPart := mkPart { PartKind : openAIContentPartKind; PartText : bytes }.

Record openAIThinkTagParser := mkParser { carry : bytes; inThink : bool }.

Definition openAIThinkOpenTag : bytes := bytes_of "<think>".
Definition openAIThinkCloseTag : bytes := bytes_of "</think>".

(** The loop [for size := maxLen; size > 0; size--]. *)
Fixpoint suffix_size (size : nat) (text tag : bytes) : nat :=
  match size with
  | O => O
  | S smaller => if HasSuffix text (take size tag) then size else suffix_size smaller text tag
  end.

Definition trailingTagPrefixLength (text tag : bytes) : nat :=
  let maxLen := length text in
  let maxLen := if (length tag - 1 <? maxLen)%nat then (length tag - 1)%nat else maxLen in
  suffix_size maxLen text tag.

Definition part_unless_empty (kind : openAIContentPartKind) (text : bytes) : list openAIContentPart :=
  if decide (text = []) then [] else [mkPart kind text].

(** What an iteration that finds no tag does: all but a possible start of the tag is emitted. *)
Definition emit_and_carry (kind : openAIContentPartKind) (tag : bytes) (inThink : bool) (input : bytes)
  : list openAIContentPart * openAIThinkTagParser :=
  let carryLen := trailingTagPrefixLength input tag in
  let kept := (length input - carryLen)%nat in
  (part_unless_empty kind (take kept input), mkParser (drop kept input) inThink).

(** The loop over the input; every turn but the last takes a tag off it, so that the length
    of the input is enough fuel. *)
Fixpoint consume_loop (fuel : nat) (inThink : bool) (input : bytes)
  : list openAIContentPart * openAIThinkTagParser :=
  match fuel with
  | O => ([], mkParser input inThink)
  | S fuel =>
      if decide (input = []) then ([], mkParser [] inThink)
      else if inThink then
        match Index input openAIThinkCloseTag with
        | Some closeIndex =>
            let '(parts, parser) :=
              consume_loop fuel false (drop (closeIndex + length openAIThinkCloseTag) input) in
            (part_unless_empty openAIContentPartReasoning (take closeIndex input) ++
             mkPart openAIContentPartThinkingCompleted [] :: parts, parser)
        | None => emit_and_carry openAIContentPartReasoning openAIThinkCloseTag true input
        end
      else
        match Index input openAIThinkOpenTag with
        | Some openIndex =>
            let '(parts, parser) :=
              consume_loop fuel true (drop (openIndex + length openAIThinkOpenTag) input) in
            (part_unless_empty openAIContentPartText (take openIndex input) ++ parts, parser)
        | None => emit_and_carry openAIContentPartText openAIThinkOpenTag false input
        end
  end.

Definition Consume (text : bytes) (parser : openAIThinkTagParser)
  : list openAIContentPart * openAIThinkTagParser :=
  if decide (text = []) then ([], parser)
  else
    let input := carry parser ++ text in
    consume_loop (S (length input)) (inThink parser) input.

Definition Flush (parser : openAIThinkTagParser) : list openAIContentPart * openAIThinkTagParser :=
  if decide (carry parser = []) then ([], parser)
  else
    let kind := if inThink parser then openAIContentPartReasoning else openAIContentPartText in
    ([mkPart kind (carry parser)], mkParser [] (inThink parser)).

(** A stream: its pieces, then its end. *)
Fixpoint consume_all (pieces : list bytes) (parser : openAIThinkTagParser)
  : list openAIContentPart * openAIThinkTagParser :=
  match pieces with
  | [] => ([], parser)
  | piece :: pieces =>
      let '(parts, parser) := Consume piece parser in
      let '(more, parser) := consume_all pieces parser in
      (parts ++ more, parser)
  end.

Definition stream_parts (pieces : list bytes) : list openAIContentPart :=
  let '(parts, parser) := consume_all pieces (mkParser [] false) in
  parts ++ (Flush parser).1.

(** ** The reference: one pass over the whole text *)

(** What a reader of the stream sees: bytes of text, bytes of reasoning, ends of thinking. *)
Inductive Seen :=
| SeenText (c : ascii)
| SeenReasoning (c : ascii)
| SeenThinkingCompleted.

Definition seen_byte (inThink : bool) (c : ascii) : Seen :=
  if inThink then SeenReasoning c else SeenText c.

Definition tag_of (inThink : bool) : bytes :=
  if inThink then openAIThinkCloseTag else openAIThinkOpenTag.

Definition seen_tag (inThink : bool) : list Seen := if inThink then [SeenThinkingCompleted] else [].

(** [skip] counts the bytes that are left of a tag. *)
Fixpoint scan (skip : nat) (inThink : bool) (text : bytes) : list Seen :=
  match text with
  | [] => []
  | c :: rest =>
      match skip with
      | S skip => scan skip inThink rest
      | O =>
          match strip_prefix (tag_of inThink) text with
          | Some _ => seen_tag inThink ++ scan (length (tag_of inThink) - 1) (negb inThink) rest
          | None => seen_byte inThink c :: scan 0 inThink rest
          end
      end
  end.

Definition seen_part (part : openAIContentPart) : list Seen :=
  match PartKind part with
  | openAIContentPartText => map SeenText (PartText part)
  | openAIContentPartReasoning => map SeenReasoning (PartText part)
  | openAIContentPartThinkingCompleted => [SeenThinkingCompleted]
  end.

Definition seen (parts : list openAIContentPart) : list Seen := List.flat_map seen_part parts.

(** ** Lemmas: the reference *)

Lemma tag_long i : (1 < length (tag_of i))%nat.
Proof. destruct i; vm_compute; lia. Qed.

Lemma scan_skip k i s : scan k i s = scan 0 i (drop k s).
Proof. revert s. induction k as [|k IH]; intros [|c s]; try done. apply IH. Qed.

Lemma scan_tag i s : scan 0 i (tag_of i ++ s) = seen_tag i ++ scan 0 (negb i) s.
Proof.
  assert (E : strip_prefix (tag_of i) (tag_of i ++ s) = Some s) by by apply strip_prefix_Some.
  pose proof (tag_long i) as Hl. destruct (tag_of i) as [|c tag] eqn:Et; [simpl in Hl; lia|].
  cbn [app scan]. rewrite Et. cbn [app] in E. rewrite E. f_equal. rewrite scan_skip. f_equal.
  cbn [length]. by rewrite Nat.sub_succ, Nat.sub_0_r, drop_app_length.
Qed.

(** Up to [n] no tag starts. *)
Lemma scan_plain i n s : (n <= length s)%nat ->
  (forall p, (p < n)%nat -> strip_prefix (tag_of i) (drop p s) = None) ->
  scan 0 i s = map (seen_byte i) (take n s) ++ scan 0 i (drop n s).
Proof.
  revert s. induction n as [|n IH]; intros s Hl Hn; [done|].
  destruct s as [|c s]; [simpl in Hl; lia|].
  pose proof (Hn 0%nat ltac:(lia)) as H0. rewrite drop_0 in H0.
  cbn [scan take drop map app]. rewrite H0. f_equal.
  apply IH; [simpl in Hl; lia|]. intros p Hp. apply (Hn (S p)). lia.
Qed.

(** ** Lemmas: the parser *)

Lemma suffix_size_spec size text tag :
  (suffix_size size text tag <= size)%nat /\
  forall n, (suffix_size size text tag < n <= size)%nat -> HasSuffix text (take n tag) = false.
Proof.
  induction size as [|size [IH1 IH2]]; cbn [suffix_size]; [split; [done|lia]|].
  destruct (HasSuffix text (take (S size) tag)) eqn:E; [split; [done|lia]|].
  split; [lia|]. intros n Hn. destruct (decide (n = S size)) as [->|]; [done|]. apply IH2. lia.
Qed.

Lemma trailing_spec text tag : (0 < length tag)%nat ->
  (trailingTagPrefixLength text tag < length tag)%nat /\
  (trailingTagPrefixLength text tag <= length text)%nat /\
  forall n, (trailingTagPrefixLength text tag < n < length tag)%nat -> (n <= length text)%nat ->
    HasSuffix text (take n tag) = false.
Proof.
  intros Ht. unfold trailingTagPrefixLength. cbv zeta.
  destruct (Nat.ltb_spec (length tag - 1) (length text)) as [H|H];
    match goal with |- context [suffix_size ?m _ _] => destruct (suffix_size_spec m text tag) as [H1 H2] end;
    (split_and!; [lia|lia|]); intros n Hn Hl; apply H2; lia.
Qed.

Lemma seen_emitted (i : bool) text :
  seen (part_unless_empty (if i then openAIContentPartReasoning else openAIContentPartText) text) =
  map (seen_byte i) text.
Proof.
  unfold part_unless_empty. case_decide; subst; destruct i; cbn; by rewrite ?app_nil_r.
Qed.

Lemma seen_app l k : seen (l ++ k) = seen l ++ seen k.
Proof. apply List.flat_map_app. Qed.

(** No tag starts in what an iteration without a tag emits, whatever comes next. *)
Lemma no_tag_starts tag input rest p : (0 < length tag)%nat -> Index input tag = None ->
  (p < length input - trailingTagPrefixLength input tag)%nat ->
  strip_prefix tag (drop p (input ++ rest)) = None.
Proof.
  intros Ht Hi Hp. destruct (trailing_spec input tag Ht) as (H1 & H2 & H3).
  assert (Hn : strip_prefix tag (drop p input) = None).
  { apply Cut_None. unfold Index in Hi. by destruct (Cut input tag) as [[]|]. }
  rewrite drop_app_le by lia.
  destruct (decide (length tag <= length input - p)%nat) as [Hl|Hl].
  { apply strip_prefix_app_None; [exact Hn|]. rewrite length_drop. lia. }
  destruct (strip_prefix tag (drop p input ++ rest)) eqn:E; [|done]. exfalso. apply strip_prefix_Some in E.
  assert (Hs : HasSuffix input (take (length input - p) tag) = true).
  { apply HasSuffix_spec. exists (take p input).
    rewrite <- (take_drop p input) at 1. f_equal.
    apply (f_equal (take (length input - p))) in E.
    rewrite take_app_le in E by (rewrite length_drop; lia).
    rewrite take_app_le in E by lia. rewrite take_ge in E by (rewrite length_drop; lia). done. }
  rewrite H3 in Hs; [done|lia|lia].
Qed.

(** The state between two pieces: less than a tag is held back. *)
Definition parser_ok (parser : openAIThinkTagParser) : Prop :=
  (length (carry parser) < length (tag_of (inThink parser)))%nat.

Definition continues (i : bool) (input : bytes) (r : list openAIContentPart * openAIThinkTagParser) : Prop :=
  parser_ok r.2 /\
  forall rest, seen r.1 ++ scan 0 (inThink r.2) (carry r.2 ++ rest) = scan 0 i (input ++ rest).

Lemma emit_continues i input : Index input (tag_of i) = None ->
  continues i input
    (emit_and_carry (if i then openAIContentPartReasoning else openAIContentPartText) (tag_of i) i input).
Proof.
  intros Hi. pose proof (tag_long i) as Hl.
  destruct (trailing_spec input (tag_of i) ltac:(lia)) as (H1 & H2 & _).
  unfold emit_and_carry. cbv zeta. split.
  - unfold parser_ok. cbn [snd carry inThink]. rewrite length_drop. lia.
  - intros rest. cbn [fst snd inThink carry]. rewrite seen_emitted.
    rewrite (scan_plain i (length input - trailingTagPrefixLength input (tag_of i)) (input ++ rest)).
    + rewrite take_app_le, drop_app_le by lia. done.
    + rewrite length_app. lia.
    + intros p Hp. apply no_tag_starts; [lia|done|done].
Qed.

(** An iteration that finds the tag. *)
Lemma tag_found i input n rest : Index input (tag_of i) = Some n ->
  scan 0 i (input ++ rest) =
  map (seen_byte i) (take n input) ++ seen_tag i ++
    scan 0 (negb i) (drop (n + length (tag_of i)) input ++ rest).
Proof.
  intros Hi. unfold Index in Hi. destruct (Cut input (tag_of i)) as [[before after]|] eqn:E; [|done].
  injection Hi as <-. pose proof (Cut_spec _ _ _ _ E) as Es.
  rewrite (scan_plain i (length before)).
  - rewrite Es. rewrite take_app_length, <- app_assoc, take_app_length, drop_app_length.
    rewrite <- app_assoc, scan_tag. f_equal. f_equal. f_equal.
    rewrite <- drop_drop, drop_app_length, drop_app_length. done.
  - rewrite Es, !length_app. lia.
  - intros p Hp. pose proof (Cut_first _ _ _ _ p E Hp) as Hn.
    assert (Hlen : (p + length (tag_of i) <= length input)%nat) by (rewrite Es, !length_app; lia).
    rewrite drop_app_le by lia. apply strip_prefix_app_None; [done|]. rewrite length_drop. lia.
Qed.

Lemma seen_cons part parts : seen (part :: parts) = seen_part part ++ seen parts.
Proof. done. Qed.

Lemma consume_loop_continues fuel i input : (length input < fuel)%nat ->
  continues i input (consume_loop fuel i input).
Proof.
  revert i input. induction fuel as [|fuel IH]; intros i input Hf; [lia|]. cbn [consume_loop].
  destruct (decide (input = [])) as [->|Hne].
  { split; [|done]. unfold parser_ok. pose proof (tag_long i). cbn in *. lia. }
  pose proof (tag_long i) as Hl.
  destruct (Index input (tag_of i)) as [n|] eqn:En.
  - pose proof (Index_bound _ _ _ En) as Hb.
    destruct (IH (negb i) (drop (n + length (tag_of i)) input)) as [Hok Hs];
      [rewrite length_drop; lia|].
    pose proof (fun rest => tag_found i input n rest En) as Hf'.
    destruct i; cbn [tag_of negb] in *; rewrite En;
    destruct (consume_loop fuel _ _) as [parts parser]; (split; [exact Hok|]).
    + intros rest. cbn [fst snd] in *. rewrite Hf', <- Hs, seen_app, <- !app_assoc, seen_cons, <- app_assoc.
      f_equal. apply (seen_emitted true).
    + intros rest. cbn [fst snd] in *. rewrite Hf', <- Hs, seen_app, <- !app_assoc.
      f_equal. apply (seen_emitted false).
  - pose proof (emit_continues i input En) as He.
    destruct i; cbn [tag_of] in *; rewrite En; exact He.
Qed.

Lemma Consume_continues parser text : parser_ok parser ->
  continues (inThink parser) (carry parser ++ text) (Consume text parser).
Proof.
  intros Hok. unfold Consume. case_decide as E; [|apply consume_loop_continues; lia].
  subst. split; [done|]. intros rest. cbn. by rewrite app_nil_r.
Qed.

Lemma consume_all_continues pieces parser : parser_ok parser ->
  continues (inThink parser) (carry parser ++ concat pieces) (consume_all pieces parser).
Proof.
  revert parser. induction pieces as [|piece pieces IH]; intros parser Hok; cbn [consume_all concat].
  { split; [done|]. intros rest. cbn. by rewrite app_nil_r. }
  destruct (Consume_continues parser piece Hok) as [Hok1 Hs1].
  destruct (Consume piece parser) as [parts p1]. cbn [fst snd] in *.
  destruct (IH p1 Hok1) as [Hok2 Hs2]. destruct (consume_all pieces p1) as [more p2]. cbn [fst snd] in *.
  split; [exact Hok2|]. intros rest. cbn [fst snd]. rewrite seen_app, <- app_assoc, Hs2.
  rewrite <- !app_assoc. by rewrite Hs1, <- app_assoc.
Qed.

(** What is held back is too short for a tag, and [Flush] delivers it. *)
Lemma Flush_seen parser : parser_ok parser ->
  seen (Flush parser).1 = scan 0 (inThink parser) (carry parser).
Proof.
  intros Hok. rewrite (scan_plain _ (length (carry parser)) (carry parser)); [|done|].
  - rewrite take_ge, drop_ge, app_nil_r by done. unfold Flush.
    case_decide as E; [by rewrite E|]. destruct (inThink parser); cbn; by rewrite app_nil_r.
  - intros p Hp. apply strip_prefix_short. rewrite length_drop. unfold parser_ok in Hok. lia.
Qed.

(** ** The stream does not depend on how it is cut *)

(** C24: text and reasoning are told apart as a single pass over the whole text would, however
    the provider cuts the text, also inside a tag: together with what [Flush] delivers, the
    parts of any pieces are those of the scan of their concatenation, so that nothing is lost,
    doubled or put on the wrong side.  And no more than the start of a tag is ever held back. *)
Theorem think_parts_independent_of_pieces pieces :
  seen (stream_parts pieces) = scan 0 false (concat pieces) /\
  forall n, (length (carry (consume_all (take n pieces) (mkParser [] false)).2) < 8)%nat.
Proof.
  assert (H0 : parser_ok (mkParser [] false)) by (unfold parser_ok; vm_compute; lia).
  split.
  - unfold stream_parts. destruct (consume_all_continues pieces _ H0) as [Hok Hs].
    destruct (consume_all pieces _) as [parts p]. cbn [fst snd] in *.
    rewrite seen_app, Flush_seen by done. specialize (Hs []). by rewrite !app_nil_r in Hs.
  - intros n. destruct (consume_all_continues (take n pieces) _ H0) as [Hok _].
    unfold parser_ok in Hok. destruct (inThink _); cbn in Hok; lia.
Qed.

(** ** Examples *)

Module Demo.
Definition text (s : String.string) : bytes := bytes_of s.

Example one_piece : stream_parts [text "a<think>b</think>c"] =
  [mkPart openAIContentPartText (text "a"); mkPart openAIContentPartReasoning (text "b");
   mkPart openAIContentPartThinkingCompleted []; mkPart openAIContentPartText (text "c")].
Proof. vm_compute. reflexivity. Qed.

Example cut_in_the_tags :
  stream_parts [text "a<thi"; text "nk>b</"; text "think"; text ">c<th"] =
  [mkPart openAIContentPartText (text "a"); mkPart openAIContentPartReasoning (text "b");
   mkPart openAIContentPartThinkingCompleted []; mkPart openAIContentPartText (text "c");
   mkPart openAIContentPartText (text "<th")].
Proof. vm_compute. reflexivity. Qed.
End Demo.
