(* ===== verification/ToolCallId.v ===== *)
(** * Identifiers of tool calls (agent/model/tool_call_id.go).

    A provider may number its calls anew in every answer, and refuses identifiers that are too
    long.  An identifier is therefore stored with a hash of its model call in front, and
    shortened when it is sent back.  SHA-256 is a parameter: 32 bytes for every text. *)

From S2P Require Import Prelude Go Strings.

Section ToolCallId.
Context (sha256 : bytes -> bytes).

Definition maxProviderToolCallIDLen : Z := 64.
Definition toolCallNamespaceHashLen : Z := 12.
Definition toolCallValueHashLen : Z := 12.

Definition separator : bytes := bytes_of "::".

(** [hex.EncodeToString]. *)
Definition hex_char (n : nat) : ascii := byte_of (if (n <? 10)%nat then 48 + n else 87 + n)%nat.

Definition EncodeToString (s : bytes) : bytes :=
  List.flat_map (fun c => [hex_char (nat_of_ascii c / 16); hex_char (nat_of_ascii c mod 16)]) s.

Definition shortToolCallHash (value : bytes) (size : Z) : bytes :=
  let encoded := EncodeToString (sha256 (trim_space value)) in
  if (size <=? 0) || (Z.of_nat (length encoded) <? size) then encoded
  else take (Z.to_nat size) encoded.

Definition splitLegacyToolCallID (value : bytes) : option (bytes * bytes) :=
  match Cut (trim_space value) separator with
  | None => None
  | Some (namespace, raw) =>
      let namespace := trim_space namespace in
      let raw := trim_space raw in
      if decide (namespace = [] \/ raw = []) then None else Some (namespace, raw)
  end.

Definition buildProviderSafeToolCallID (namespace raw : bytes) : bytes :=
  let trimmedRaw := trim_space raw in
  if decide (trimmedRaw = []) then []
  else if bool_decide (namespace = []) && (Z.of_nat (length trimmedRaw) <=? maxProviderToolCallIDLen)
          && negb (bool_decide (is_Some (Index trimmedRaw separator)))
  then trimmedRaw
  else
    let prefix := bytes_of "tc" in
    let prefix := if decide (namespace = []) then prefix else prefix ++ bytes_of "_" ++ namespace in
    let candidate := prefix ++ bytes_of "_" ++ trimmedRaw in
    if Z.of_nat (length candidate) <=? maxProviderToolCallIDLen then candidate
    else
      let rawHash := shortToolCallHash trimmedRaw toolCallValueHashLen in
      let remaining := maxProviderToolCallIDLen - Z.of_nat (length prefix) - Z.of_nat (length rawHash) - 2 in
      if remaining <=? 0 then prefix ++ bytes_of "_" ++ rawHash
      else
        let suffix := if remaining <? Z.of_nat (length trimmedRaw)
                      then drop (length trimmedRaw - Z.to_nat remaining) trimmedRaw
                      else trimmedRaw in
        prefix ++ bytes_of "_" ++ rawHash ++ bytes_of "_" ++ suffix.

Definition providerToolCallID (toolCallID : bytes) : bytes :=
  let trimmed := trim_space toolCallID in
  if decide (trimmed = []) then []
  else
    match splitLegacyToolCallID trimmed with
    | Some (namespace, raw) =>
        buildProviderSafeToolCallID (shortToolCallHash namespace toolCallNamespaceHashLen) raw
    | None =>
        if Z.of_nat (length trimmed) <=? maxProviderToolCallIDLen then trimmed
        else buildProviderSafeToolCallID [] trimmed
    end.

Definition namespaceToolCallID (modelCallID rawToolCallID : bytes) : bytes :=
  let raw := trim_space rawToolCallID in
  if decide (raw = []) then []
  else if decide (is_Some (Index raw separator)) then providerToolCallID raw
  else
    let model := trim_space modelCallID in
    if decide (model = []) then providerToolCallID raw
    else buildProviderSafeToolCallID (shortToolCallHash model toolCallNamespaceHashLen) raw.

(** ** Lemmas *)

Context (Hsha : forall s, length (sha256 s) = 32%nat).

Lemma hash_length value : length (shortToolCallHash value 12) = 12%nat.
Proof.
  assert (H : length (EncodeToString (sha256 (trim_space value))) = 64%nat).
  { unfold EncodeToString. assert (Hl : forall s, length
      (List.flat_map (fun c => [hex_char (nat_of_ascii c / 16); hex_char (nat_of_ascii c mod 16)]) s) =
      (2 * length s)%nat) by (induction s as [|c s IH]; simpl in *; lia).
    rewrite Hl, Hsha. done. }
  unfold shortToolCallHash. cbv zeta. rewrite H.
  change ((12 <=? 0) || (Z.of_nat 64 <? 12)) with false. cbv iota. rewrite length_take, H. done.
Qed.

(** A raw identifier with the namespace of its model call. *)
Definition namespaced (namespace raw : bytes) : bytes :=
  if decide (namespace = []) then bytes_of "tc_" ++ raw else bytes_of "tc_" ++ namespace ++ bytes_of "_" ++ raw.

Definition room (namespace : bytes) : nat := if decide (namespace = []) then 48%nat else 35%nat.

(** What replaces an identifier that is too long. *)
Definition shortened (namespace raw : bytes) : bytes :=
  namespaced namespace
    (shortToolCallHash raw 12 ++ bytes_of "_" ++ drop (length raw - room namespace) raw).

Lemma build_cases namespace raw : namespace = [] \/ length namespace = 12%nat ->
  trim_space raw = raw -> raw <> [] ->
  (namespace = [] /\ (length raw <= 64)%nat /\ ~ is_Some (Index raw separator) /\
     buildProviderSafeToolCallID namespace raw = raw) \/
  ((length (namespaced namespace raw) <= 64)%nat /\
     buildProviderSafeToolCallID namespace raw = namespaced namespace raw) \/
  ((64 < length (namespaced namespace raw))%nat /\
     buildProviderSafeToolCallID namespace raw = shortened namespace raw).
Proof using Hsha.
  intros Hn Ht Hne. unfold buildProviderSafeToolCallID. rewrite Ht. cbv zeta.
  rewrite decide_False by done.
  destruct (bool_decide (namespace = []) && _ && _) eqn:E.
  { left. apply andb_prop in E as [E E3]. apply andb_prop in E as [E1 E2]. zbool.
    unfold maxProviderToolCallIDLen in *. split_and!; [done|lia|done|done]. }
  right. clear E. unfold toolCallValueHashLen, maxProviderToolCallIDLen. rewrite hash_length.
  assert (Hc : (if decide (namespace = []) then bytes_of "tc" else bytes_of "tc" ++ bytes_of "_" ++ namespace)
    ++ bytes_of "_" ++ raw = namespaced namespace raw).
  { unfold namespaced. case_decide; [done|]. by rewrite <- !app_assoc. }
  rewrite Hc. destruct (Z.leb_spec (Z.of_nat (length (namespaced namespace raw))) 64) as [Hl|Hl];
    [left; split; [lia|done]|right]. split; [lia|].
  unfold shortened, namespaced, room in *. destruct (decide (namespace = [])) as [->|Hns].
  - rewrite !length_app in Hl. cbn in Hl.
    rewrite (proj2 (Z.leb_gt _ 0)) by (cbn; lia). rewrite (proj2 (Z.ltb_lt _ _)) by (cbn; lia). done.
  - destruct Hn as [|Hn]; [done|]. rewrite !length_app in Hl |- *. rewrite Hn in *. cbn in Hl.
    rewrite (proj2 (Z.leb_gt _ 0)) by (cbn; lia). rewrite (proj2 (Z.ltb_lt _ _)) by (cbn; lia).
    by rewrite <- !app_assoc.
Qed.

(** No byte of a space is graphic, so that what follows a graphic byte is trimmed on its own. *)
Lemma trim_keeps_suffix front d raw k : graphic d = true -> trim_space raw = raw ->
  (k < length raw)%nat -> (forall c s, front ++ [d] = c :: s -> graphic c = true) ->
  trim_space (front ++ d :: drop k raw) = front ++ d :: drop k raw.
Proof using.
  intros Hd Hraw Hk Hfront.
  assert (Hs : strip_any (map (@rev ascii) space_seqs) (rev (front ++ d :: drop k raw)) = None).
  { assert (Hr : strip_any (map (@rev ascii) space_seqs) (rev raw) = None).
    { rewrite <- Hraw. unfold trim_space. apply trim_right_stuck. }
    rewrite rev_app_distr. cbn [rev]. rewrite <- app_assoc. cbn [app].
    rewrite <- (take_drop k raw), rev_app_distr in Hr.
    rewrite strip_any_None in Hr |- *. intros p s' Hp E.
    destruct (decide (length p <= length (rev (drop k raw)))%nat) as [Hl|Hl].
    - apply (f_equal (take (length p))) in E. rewrite take_app_le, take_app_length in E by done.
      apply (Hr p (drop (length p) (rev (drop k raw)) ++ rev (take k raw)) Hp).
      rewrite app_assoc. f_equal. rewrite <- E at 1. by rewrite take_drop.
    - assert (Hin : d ∈ p).
      { apply (f_equal (fun l => l !! length (rev (drop k raw)))) in E.
        rewrite list_lookup_middle in E by done. rewrite lookup_app_l in E by lia.
        by eapply list_elem_of_lookup_2. }
      assert (Hall : forallb (fun p => forallb (fun c => negb (graphic c)) p) (map (@rev ascii) space_seqs) = true)
        by by vm_compute.
      rewrite forallb_forall in Hall. apply list_elem_of_In in Hp. specialize (Hall p Hp).
      rewrite forallb_forall in Hall. apply list_elem_of_In in Hin. specialize (Hall d Hin).
      by rewrite Hd in Hall. }
  unfold trim_space, trim_left. rewrite trim_front_None.
  - unfold trim_right. rewrite (trim_front_None _ _ Hs). by rewrite rev_involutive.
  - destruct (front ++ [d]) as [|c s] eqn:E; [by destruct front|].
    specialize (Hfront c s eq_refl). change (d :: drop k raw) with ([d] ++ drop k raw).
    rewrite app_assoc, E. cbn [app]. by apply strip_any_graphic.
Qed.

Lemma hex_no_colon n : (n < 16)%nat -> hex_char n <> ":"%char.
Proof using. intros H. do 16 (destruct n as [|n]; [by vm_compute|]). lia. Qed.

Lemma hash_no_colon value size : ":"%char ∉ shortToolCallHash value size.
Proof using.
  assert (H : forall s, ":"%char ∉ EncodeToString s).
  { induction s as [|c s IH]; [apply not_elem_of_nil|].
    unfold EncodeToString. cbn [List.flat_map app]. fold (EncodeToString s).
    pose proof (nat_ascii_bounded c) as Hb.
    rewrite !not_elem_of_cons. split_and!; [| |exact IH]; apply not_eq_sym, hex_no_colon.
    - apply Nat.Div0.div_lt_upper_bound. lia.
    - apply Nat.mod_upper_bound. lia. }
  unfold shortToolCallHash. cbv zeta. case_match; [apply H|]. intros Hin.
  eapply H. rewrite <- (take_drop (Z.to_nat size)). apply elem_of_app. by left.
Qed.

(** What [namespaceToolCallID] builds, a namespace in front of an identifier or of the end of one,
    is left alone when it is sent. *)
Lemma namespaced_stable namespace head raw k :
  namespace <> [] -> ":"%char ∉ namespace -> ":"%char ∉ head -> trim_space raw = raw ->
  Cut raw separator = None -> (k < length raw)%nat ->
  (head = [] /\ k = 0%nat \/ exists h, head = h ++ bytes_of "_") ->
  (length (namespaced namespace (head ++ drop k raw)) <= 64)%nat ->
  providerToolCallID (namespaced namespace (head ++ drop k raw)) = namespaced namespace (head ++ drop k raw).
Proof using.
  intros Hn Hc1 Hc2 Ht Hs Hk Hh Hl. set (id := namespaced namespace (head ++ drop k raw)) in *.
  assert (Eid : exists front, id = (front ++ ["_"%char]) ++ drop k raw /\ ":"%char ∉ front ++ ["_"%char] /\
    forall c s, front ++ ["_"%char] = c :: s -> graphic c = true).
  { subst id. unfold namespaced. rewrite decide_False by done.
    destruct Hh as [[-> ->]|[h ->]].
    - exists (bytes_of "tc_" ++ namespace). split_and!.
      + cbn [app]. by rewrite <- !app_assoc.
      + rewrite !not_elem_of_app. split_and!; [|done|]; apply (bool_decide_unpack _); by vm_compute.
      + by intros c s [= <- _].
    - exists (bytes_of "tc_" ++ namespace ++ bytes_of "_" ++ h). split_and!.
      + by rewrite <- !app_assoc.
      + rewrite !not_elem_of_app in *. destruct Hc2 as [? ?].
        split_and!; try done; apply (bool_decide_unpack _); by vm_compute.
      + by intros c s [= <- _]. }
  destruct Eid as (front & Eid & Hfront & Hg).
  assert (Htrim : trim_space id = id).
  { rewrite Eid, <- app_assoc. by apply trim_keeps_suffix. }
  assert (Hcut : Cut id separator = None).
  { rewrite Eid. unfold separator. cbn [bytes_of]. rewrite Cut_skip_front by done.
    rewrite Cut_absent; [done|]. intros p. rewrite drop_drop. by apply Cut_None. }
  unfold providerToolCallID. rewrite Htrim. cbv zeta.
  rewrite decide_False by (rewrite Eid; by destruct front).
  unfold splitLegacyToolCallID. rewrite Htrim, Hcut. unfold maxProviderToolCallIDLen.
  by rewrite (proj2 (Z.leb_le _ 64)) by lia.
Qed.

Lemma shortened_length namespace raw : namespace = [] \/ length namespace = 12%nat ->
  (length (shortened namespace raw) <= 64)%nat.
Proof using Hsha.
  intros Hn. unfold shortened, namespaced, room.
  destruct (decide (namespace = [])) as [->|Hne]; rewrite !length_app, hash_length, length_drop.
  - cbn [length bytes_of]. lia.
  - destruct Hn as [|Hn]; [done|]. rewrite Hn. cbn [length bytes_of]. lia.
Qed.

Lemma build_bounded namespace raw : namespace = [] \/ length namespace = 12%nat ->
  trim_space raw = raw -> raw <> [] ->
  buildProviderSafeToolCallID namespace raw <> [] /\
  (length (buildProviderSafeToolCallID namespace raw) <= 64)%nat.
Proof using Hsha.
  intros Hn Ht Hne.
  destruct (build_cases namespace raw Hn Ht Hne) as [(_ & ? & _ & ->)|[(? & ->)|(_ & ->)]]; [done|..].
  - split; [|done]. unfold namespaced. by case_decide.
  - split; [|by apply shortened_length]. unfold shortened, namespaced. by case_decide.
Qed.

Lemma hash_namespace value : shortToolCallHash value 12 <> [].
Proof using Hsha. intros H. pose proof (hash_length value) as Hl. by rewrite H in Hl. Qed.

(** what is sent to a provider as the identifier of a call is never longer than the 64 bytes
    the providers accept, and is empty exactly for a blank identifier. *)
Theorem provider_id_bounded toolCallID :
  (length (providerToolCallID toolCallID) <= 64)%nat /\
  (providerToolCallID toolCallID = [] <-> trim_space toolCallID = []).
Proof using Hsha.
  unfold providerToolCallID. cbv zeta. pose proof (trim_space_idem toolCallID) as Ht.
  set (trimmed := trim_space toolCallID) in *. clearbody trimmed.
  destruct (decide (trimmed = [])) as [->|Hne]; [split; [cbn; lia|done]|].
  destruct (splitLegacyToolCallID trimmed) as [[namespace raw]|] eqn:E.
  - unfold splitLegacyToolCallID in E. destruct (Cut _ _) as [[n r]|]; [|done].
    cbv zeta in E. case_decide as Hd; [done|]. injection E as <- <-. unfold toolCallNamespaceHashLen.
    destruct (build_bounded (shortToolCallHash (trim_space n) 12) (trim_space r)) as [H1 H2];
      [right; apply hash_length|apply trim_space_idem|tauto|].
    split; [done|]. split; intros; [done|congruence].
  - unfold maxProviderToolCallIDLen. destruct (Z.leb_spec (Z.of_nat (length trimmed)) 64).
    + split; [lia|done].
    + destruct (build_bounded [] trimmed) as [H1 H2]; [by left|done|done|].
      split; [done|]. split; intros; [done|congruence].
Qed.

(** An identifier a provider gave, under the call of a model. *)
Definition proper (modelCallID raw : bytes) : Prop :=
  trim_space modelCallID <> [] /\ trim_space raw <> [] /\ Cut (trim_space raw) separator = None.

Lemma namespace_cases m r : proper m r ->
  let h := shortToolCallHash (trim_space m) 12 in
  let raw := trim_space r in
  ((length (namespaced h raw) <= 64)%nat /\ namespaceToolCallID m r = namespaced h raw) \/
  ((64 < length (namespaced h raw))%nat /\ namespaceToolCallID m r = shortened h raw).
Proof using Hsha.
  intros (Hm & Hr & Hc) h raw. fold raw in Hr, Hc. unfold namespaceToolCallID. cbv zeta. fold raw.
  rewrite decide_False by done. unfold Index. rewrite Hc. rewrite decide_False by (by intros [? [=]]).
  rewrite decide_False by done. unfold toolCallNamespaceHashLen. fold h.
  destruct (build_cases h raw) as [(Hn & _)|H]; [right; apply hash_length|apply trim_space_idem|done| |exact H].
  by apply hash_namespace in Hn.
Qed.

(** a stored identifier is fit to be sent and tells calls apart.  It is what the provider is
    sent later, unchanged.  Two calls get one identifier only when they have one identifier of
    one model call, up to a collision of the twelve hexadecimal digits kept of SHA-256, or an
    identifier that spells the shortened form of the other. *)
Theorem namespaced_ids_tell_calls_apart m r m' r' :
  proper m r -> proper m' r' ->
  let short := fun raw => shortToolCallHash raw 12 ++ bytes_of "_" ++ drop (length raw - 35) raw in
  (length (namespaceToolCallID m r) <= 64)%nat /\
  providerToolCallID (namespaceToolCallID m r) = namespaceToolCallID m r /\
  (namespaceToolCallID m r = namespaceToolCallID m' r' ->
     shortToolCallHash (trim_space m) 12 = shortToolCallHash (trim_space m') 12 /\
     (trim_space r = trim_space r' \/
      shortToolCallHash (trim_space r) 12 = shortToolCallHash (trim_space r') 12 \/
      trim_space r = short (trim_space r') \/ trim_space r' = short (trim_space r))).
Proof using Hsha.
  intros Hp Hp' short. pose proof (namespace_cases m r Hp) as H. pose proof (namespace_cases m' r' Hp') as H'.
  cbv zeta in H, H'. destruct Hp as (_ & Hr & Hc).
  pose proof (hash_length (trim_space m)) as Lh. pose proof (hash_length (trim_space m')) as Lh'.
  pose proof (hash_namespace (trim_space m)) as Nh. pose proof (hash_namespace (trim_space m')) as Nh'.
  pose proof (hash_no_colon (trim_space m) 12) as Ch.
  set (h := shortToolCallHash (trim_space m) 12) in *. set (h' := shortToolCallHash (trim_space m') 12) in *.
  pose proof (trim_space_idem r) as Tr. set (raw := trim_space r) in *. set (raw' := trim_space r') in *.
  assert (Hsh : forall n x, n <> [] -> shortened n x = namespaced n (short x)).
  { intros n x Hn. unfold shortened, short, room. by rewrite decide_False. }
  rewrite Hsh in H, H' by done. split_and!.
  - destruct H as [[H ->]|[_ ->]]; [done|]. rewrite <- Hsh by done. apply shortened_length. by right.
  - assert (Hlen : (0 < length raw)%nat) by (destruct raw; [done|simpl; lia]).
    destruct H as [[H ->]|[_ ->]].
    + change raw with ([] ++ drop 0 raw). apply namespaced_stable; try done; [apply not_elem_of_nil|by left].
    + unfold short. rewrite app_assoc. apply namespaced_stable; try done.
      * rewrite not_elem_of_app. split; [apply hash_no_colon|]. apply (bool_decide_unpack _). by vm_compute.
      * lia.
      * right. eauto.
      * rewrite <- app_assoc. fold (short raw). rewrite <- Hsh by done. apply shortened_length. by right.
  - intros E. assert (Hinj : forall x y, namespaced h x = namespaced h' y -> h = h' /\ x = y).
    { intros x y. unfold namespaced. rewrite !decide_False by done. intros Exy.
      apply app_inv_head in Exy. apply app_inj_1 in Exy as [? Exy]; [|congruence].
      by apply app_inv_head in Exy. }
    assert (Hinj' : forall x y, short x = short y -> shortToolCallHash x 12 = shortToolCallHash y 12).
    { intros x y Exy. by apply app_inj_1 in Exy as [? _]; [|rewrite !hash_length]. }
    destruct H as [[_ Em]|[_ Em]], H' as [[_ E']|[_ E']]; rewrite Em, E' in E; apply Hinj in E as [Ehh E];
      (split; [exact Ehh|]); auto.
Qed.

End ToolCallId.

(** An identifier that holds the separator is not given the namespace of its model call. *)
Lemma separated_id_not_namespaced sha256 m m' raw :
  is_Some (Index (trim_space raw) separator) ->
  namespaceToolCallID sha256 m raw = namespaceToolCallID sha256 m' raw.
Proof.
  intros H. unfold namespaceToolCallID. cbv zeta. destruct (decide (trim_space raw = [])); [done|].
  by rewrite !decide_True.
Qed.

Module Demo.
(** A stand-in for SHA-256: thirty-two bytes that depend on the first byte only. *)
Definition sample_hash (s : bytes) : bytes := repeat (default "0"%char (head s)) 32.

Lemma sample_hash_length s : length (sample_hash s) = 32%nat.
Proof. apply repeat_length. Qed.

Example short_id : string_of (namespaceToolCallID sample_hash (bytes_of "call") (bytes_of " functions.Shell:0 ")) =
  "tc_636363636363_functions.Shell:0".
Proof. vm_compute. reflexivity. Qed.
End Demo.

Lemma provider_id_bounded_witness :
  (length (providerToolCallID Demo.sample_hash (repeat "x"%char 100)) <= 64)%nat /\
  (providerToolCallID Demo.sample_hash (repeat "x"%char 100) = [] <-> trim_space (repeat "x"%char 100) = []).
Proof. exact (provider_id_bounded Demo.sample_hash Demo.sample_hash_length (repeat "x"%char 100)). Defined.

Lemma namespaced_ids_tell_calls_apart_witness :
  let id := namespaceToolCallID Demo.sample_hash (bytes_of "call") (repeat "x"%char 100) in
  (length id <= 64)%nat /\ providerToolCallID Demo.sample_hash id = id.
Proof.
  cbv zeta. destruct (namespaced_ids_tell_calls_apart Demo.sample_hash Demo.sample_hash_length
    (bytes_of "call") (repeat "x"%char 100) (bytes_of "call") (repeat "x"%char 100)) as (H1 & H2 & _).
  - repeat split; vm_compute; done.
  - repeat split; vm_compute; done.
  - split; [exact H1|exact H2].
Defined.
