(* ===== verification/EditText.v ===== *)
(** * Line endings and unified diffs of edits (forwarder/edit_result_helpers.go).

    Texts are byte sequences.  The line diff itself comes from a third-party library and is a
    parameter [line_diffs]; [LineDiffLaws] states what its documentation promises.  A rendered
    diff is related to its hunks ([unified_hunks]), and the hunks to a reference [apply_hunks]
    that patches the lines of the file. *)

From S2P Require Import Prelude Go Strings.

(** ** Line endings *)

Definition normalizeLineEndingsToLF (value : bytes) : bytes :=
  if negb (ContainsAny value [CR; LF]) then value
  else ReplaceAll (ReplaceAll value [CR; LF] [LF]) [CR] [LF].

Record normalizedEditContent := mkNormalized {
  NormalizedText : bytes;
  OriginalOffsets : list Z
}.

(** The loop of [normalizeEditContentLineEndings] from an index on. *)
Fixpoint normalize_from (index : Z) (content : bytes) : bytes * list Z :=
  match content with
  | [] => ([], [])
  | c :: rest =>
      if decide (c = CR) then
        match rest with
        | d :: rest' =>
            if decide (d = LF)
            then let '(text, offsets) := normalize_from (index + 2) rest' in
                 (LF :: text, (index + 2) :: offsets)
            else let '(text, offsets) := normalize_from (index + 1) rest in
                 (LF :: text, (index + 1) :: offsets)
        | [] => ([LF], [index + 1])
        end
      else let '(text, offsets) := normalize_from (index + 1) rest in
           (c :: text, (index + 1) :: offsets)
  end.

Definition normalizeEditContentLineEndings (content : bytes) : normalizedEditContent :=
  let '(text, offsets) := normalize_from 0 content in mkNormalized text (0 :: offsets).

(** The counters of [dominantLineEnding], and the first line ending met. *)
Record EndingCounts := mkCounts {
  crlf_count : Z;
  lf_count : Z;
  cr_count : Z;
  first_ending : bytes
}.

#[export] Instance eta_counts : Eta EndingCounts := fun c =>
  mkCounts (crlf_count c) (lf_count c) (cr_count c) (first_ending c).

Definition note_first (ending : bytes) (c : EndingCounts) : EndingCounts :=
  if decide (first_ending c = []) then c <| first_ending := ending |> else c.

Fixpoint count_endings (content : bytes) (c : EndingCounts) : EndingCounts :=
  match content with
  | [] => c
  | x :: rest =>
      if decide (x = CR) then
        match rest with
        | y :: rest' =>
            if decide (y = LF)
            then count_endings rest' (note_first [CR; LF] (c <| crlf_count := crlf_count c + 1 |>))
            else count_endings rest (note_first [CR] (c <| cr_count := cr_count c + 1 |>))
        | [] => note_first [CR] (c <| cr_count := cr_count c + 1 |>)
        end
      else if decide (x = LF)
      then count_endings rest (note_first [LF] (c <| lf_count := lf_count c + 1 |>))
      else count_endings rest c
  end.

Definition ending_count (c : EndingCounts) (candidate : bytes) : Z :=
  if decide (candidate = [CR; LF]) then crlf_count c
  else if decide (candidate = [LF]) then lf_count c
  else if decide (candidate = [CR]) then cr_count c else 0.

Definition candidates : list bytes := [[CR; LF]; [LF]; [CR]].

Definition dominantLineEnding (content fallback : bytes) : bytes :=
  let fallback := if decide (fallback = []) then [LF] else fallback in
  let c := count_endings content (mkCounts 0 0 0 []) in
  let '(best, bestCount) :=
    fold_left (fun '(best, bestCount) candidate =>
                 if bestCount <? ending_count c candidate
                 then (candidate, ending_count c candidate) else (best, bestCount))
      candidates ([], 0) in
  if bestCount =? 0 then fallback
  else match List.find (fun candidate => (ending_count c candidate =? bestCount) &&
                                         bool_decide (candidate = first_ending c)) candidates with
       | Some candidate => candidate
       | None => best
       end.

Definition detectPreferredFileLineEnding (content : bytes) : bytes :=
  dominantLineEnding content [LF].

Record editMatch := mkMatch { Start : Z; End : Z }.

(** [content[match.Start:match.End]]; [None] is the panic of a slice out of range. *)
Definition slice (content : bytes) (start stop : Z) : option bytes :=
  if (0 <=? start) && (start <=? stop) && (stop <=? Z.of_nat (length content))
  then Some (take (Z.to_nat (stop - start)) (drop (Z.to_nat start) content)) else None.

Definition preferredMatchLineEnding (content : bytes) (m : editMatch)
    (defaultLineEnding : bytes) : option bytes :=
  (fun s => dominantLineEnding s defaultLineEnding) <$> slice content (Start m) (End m).

Definition normalizeReplacementLineEndings (newString lineEnding : bytes) : bytes :=
  if negb (ContainsAny newString [CR; LF]) then newString
  else
    let normalized := normalizeLineEndingsToLF newString in
    if decide (lineEnding = [CR; LF]) then ReplaceAll normalized [LF] [CR; LF]
    else if decide (lineEnding = [CR]) then ReplaceAll normalized [LF] [CR]
    else normalized.

(** ** Lines *)

Definition drop_last_empty (lines : list bytes) : list bytes :=
  match list.last lines with
  | Some [] => removelast lines
  | _ => lines
  end.

Definition splitLinesForUnifiedDiff (text : bytes) : list bytes :=
  if decide (text = []) then []
  else drop_last_empty (Split (ReplaceAll (ReplaceAll text [CR; LF] [LF]) [CR] [LF]) LF).

Definition countChangedLines (text : bytes) : Z :=
  if decide (text = []) then 0
  else
    let count := wrap_int32 (Z.of_nat (Count text [LF])) in
    if HasSuffix text [LF] then count else wrap_int32 (count + 1).

(** ** Diffs *)

Inductive Operation := DiffDelete | DiffInsert | DiffEqual.

#[export] Instance Operation_eq_dec : EqDecision Operation.
Proof. solve_decision. Defined.

Record Diff := mkDiff { Type_ : Operation; Text : bytes }.

Record lineDiffItem := mkItem { op : Operation; text : bytes }.

Definition splitDiffLines (diffs : list Diff) : list lineDiffItem :=
  flat_map (fun d => if decide (Text d = []) then []
                     else map (mkItem (Type_ d)) (splitLinesForUnifiedDiff (Text d))) diffs.

Definition formatHunkRange (start count : Z) (prefix : bytes) : bytes :=
  if count =? 0 then
    let start := if start =? 1 then 0 else start in
    prefix ++ decimal start ++ bytes_of ",0"
  else if count =? 1 then prefix ++ decimal start
  else prefix ++ decimal start ++ bytes_of "," ++ decimal count.

Definition contextRadius : nat := 3.

Definition is_change (item : lineDiffItem) : bool := negb (bool_decide (op item = DiffEqual)).

(** Mark [start..stop]. *)
Definition mark_range (start stop : nat) (include : list bool) : list bool :=
  imap (fun j b => b || ((start <=? j) && (j <=? stop))%nat) include.

(** [include]: the items at most [contextRadius] away from a change. *)
Definition include_of (items : list lineDiffItem) : list bool :=
  fold_left (fun include i =>
      match items !! i with
      | Some item =>
          if is_change item
          then mark_range (i - contextRadius) (min (length items - 1) (i + contextRadius)) include
          else include
      | None => include
      end) (seq 0 (length items)) (repeat false (length items)).

(** One step of the two line counters. *)
Definition orig_step (o : Operation) : Z := match o with DiffInsert => 0 | _ => 1 end.
Definition new_step (o : Operation) : Z := match o with DiffDelete => 0 | _ => 1 end.

Fixpoint orig_lines (items : list lineDiffItem) : Z :=
  match items with [] => 0 | i :: rest => orig_step (op i) + orig_lines rest end.

Fixpoint new_lines (items : list lineDiffItem) : Z :=
  match items with [] => 0 | i :: rest => new_step (op i) + new_lines rest end.

(** The longest prefix that is included: a hunk. *)
Fixpoint span_included (l : list (lineDiffItem * bool)) : list lineDiffItem * list (lineDiffItem * bool) :=
  match l with
  | (item, true) :: rest => let '(run, rest') := span_included rest in (item :: run, rest')
  | _ => ([], l)
  end.

Record Hunk := mkHunk {
  HunkOrigStart : Z;
  HunkOrigCount : Z;
  HunkNewStart : Z;
  HunkNewCount : Z;
  HunkItems : list lineDiffItem
}.

(** The main loop of [renderUnifiedDiff]: every iteration consumes an item. *)
Fixpoint hunks_loop (fuel : nat) (origLineNum newLineNum : Z) (l : list (lineDiffItem * bool))
  : list Hunk :=
  match fuel, l with
  | O, _ | _, [] => []
  | S fuel, (item, false) :: rest =>
      hunks_loop fuel (origLineNum + orig_step (op item)) (newLineNum + new_step (op item)) rest
  | S fuel, (_, true) :: _ =>
      let '(run, rest) := span_included l in
      mkHunk origLineNum (orig_lines run) newLineNum (new_lines run) run ::
      hunks_loop fuel (origLineNum + orig_lines run) (newLineNum + new_lines run) rest
  end.

Definition op_mark (o : Operation) : ascii :=
  match o with DiffEqual => " " | DiffDelete => "-" | DiffInsert => "+" end%char.

Definition render_line (item : lineDiffItem) : bytes := op_mark (op item) :: text item ++ [LF].

Definition render_hunk (h : Hunk) : bytes :=
  bytes_of "@@ " ++ formatHunkRange (HunkOrigStart h) (HunkOrigCount h) (bytes_of "-") ++
  bytes_of " " ++ formatHunkRange (HunkNewStart h) (HunkNewCount h) (bytes_of "+") ++
  bytes_of " @@" ++ [LF] ++ flat_map render_line (HunkItems h).

Definition renderUnifiedDiff (beforeContent afterContent : bytes) (diffs : list Diff) : bytes :=
  if decide (beforeContent = afterContent) then []
  else if decide (beforeContent = []) then
    let lines := splitLinesForUnifiedDiff afterContent in
    match lines with
    | [] => []
    | _ =>
        let count := Z.of_nat (length lines) in
        (if count =? 1 then bytes_of "@@ -0,0 +1 @@" ++ [LF]
         else bytes_of "@@ -0,0 +1," ++ decimal count ++ bytes_of " @@" ++ [LF]) ++
        flat_map (fun line => "+"%char :: line ++ [LF]) lines
    end
  else if decide (afterContent = []) then
    let lines := splitLinesForUnifiedDiff beforeContent in
    match lines with
    | [] => []
    | _ =>
        let count := Z.of_nat (length lines) in
        (if count =? 1 then bytes_of "@@ -1 +0,0 @@" ++ [LF]
         else bytes_of "@@ -1," ++ decimal count ++ bytes_of " +0,0 @@" ++ [LF]) ++
        flat_map (fun line => "-"%char :: line ++ [LF]) lines
    end
  else
    let items := splitDiffLines diffs in
    if negb (existsb is_change items) then []
    else flat_map render_hunk
           (hunks_loop (length items) 1 1 (zip items (include_of items))).

(** The counters of [computeEditDiff]. *)
Definition diff_step (acc : Z * Z) (d : Diff) : Z * Z :=
  let '(added, removed) := acc in
  match Type_ d with
  | DiffInsert => (wrap_int32 (added + countChangedLines (Text d)), removed)
  | DiffDelete => (added, wrap_int32 (removed + countChangedLines (Text d)))
  | DiffEqual => (added, removed)
  end.

Section ComputeEditDiff.
Context (line_diffs : bytes -> bytes -> list Diff).

(** [computeEditDiff]: the rendered diff, the lines added and the lines removed. *)
Definition computeEditDiff (beforeContent afterContent : bytes) : bytes * Z * Z :=
  let diffs := line_diffs beforeContent afterContent in
  let '(added, removed) := fold_left diff_step diffs (0, 0) in
  (renderUnifiedDiff beforeContent afterContent diffs, added, removed).

End ComputeEditDiff.

(** ** The reference: hunks, and patching the lines of a file *)

Definition unified_hunks (beforeContent afterContent : bytes) (diffs : list Diff) : list Hunk :=
  if decide (beforeContent = afterContent) then []
  else if decide (beforeContent = []) then
    match splitLinesForUnifiedDiff afterContent with
    | [] => []
    | lines => [mkHunk 1 0 1 (Z.of_nat (length lines)) (map (mkItem DiffInsert) lines)]
    end
  else if decide (afterContent = []) then
    match splitLinesForUnifiedDiff beforeContent with
    | [] => []
    | lines => [mkHunk 1 (Z.of_nat (length lines)) 1 0 (map (mkItem DiffDelete) lines)]
    end
  else
    let items := splitDiffLines diffs in
    if negb (existsb is_change items) then []
    else hunks_loop (length items) 1 1 (zip items (include_of items)).

(** Apply the body of a hunk: the new lines and the rest of the old ones; the context and the
    deleted lines have to match. *)
Fixpoint apply_body (body : list lineDiffItem) (lines : list bytes)
  : option (list bytes * list bytes) :=
  match body with
  | [] => Some ([], lines)
  | item :: body =>
      match op item, lines with
      | DiffInsert, _ => '(out, rest) ← apply_body body lines; Some (text item :: out, rest)
      | _, [] => None
      | o, line :: lines =>
          if decide (line = text item) then
            '(out, rest) ← apply_body body lines;
            Some (if decide (o = DiffEqual) then line :: out else out, rest)
          else None
      end
  end.

(** Apply hunks to the lines from [orig] on, [new] being the next line of the result; line
    numbers and counts have to agree. *)
Fixpoint apply_hunks (hunks : list Hunk) (orig new : Z) (lines : list bytes)
  : option (list bytes) :=
  match hunks with
  | [] => Some lines
  | h :: hunks =>
      let skip := Z.to_nat (HunkOrigStart h - orig) in
      if (HunkOrigStart h <? orig) || (length lines <? skip)%nat ||
         negb (HunkNewStart h =? new + Z.of_nat skip) then None
      else
        '(out, rest) ← apply_body (HunkItems h) (drop skip lines);
        if negb (Z.of_nat (length out) =? HunkNewCount h) ||
           negb (Z.of_nat (length lines) =?
                 Z.of_nat skip + HunkOrigCount h + Z.of_nat (length rest)) then None
        else
          out' ← apply_hunks hunks (HunkOrigStart h + HunkOrigCount h)
                   (HunkNewStart h + HunkNewCount h) rest;
          Some (take skip lines ++ out ++ out')
  end.

(** ** Lemmas: normalisation in one pass *)

Fixpoint norm (s : bytes) : bytes :=
  match s with
  | [] => []
  | c :: s' =>
      if decide (c = CR) then
        match s' with
        | d :: s'' => if decide (d = LF) then LF :: norm s'' else LF :: norm s'
        | [] => [LF]
        end
      else c :: norm s'
  end.

(** Induction that removes a line ending or a byte at a time. *)
Lemma norm_ind (P : bytes -> Prop) :
  P [] -> (forall s, P s -> P (CR :: LF :: s)) ->
  (forall s, (forall s', s <> LF :: s') -> P s -> P (CR :: s)) ->
  (forall c s, c <> CR -> P s -> P (c :: s)) -> forall s, P s.
Proof.
  intros H0 H1 H2 H3 s. remember (length s) as n eqn:Hn. revert s Hn.
  induction n as [n IH] using lt_wf_ind. intros s ->. destruct s as [|c s]; [done|].
  destruct (decide (c = CR)) as [->|Hc].
  - destruct s as [|d s]; [by apply H2|]. destruct (decide (d = LF)) as [->|Hd].
    + apply H1, (IH (length s)); simpl; [lia|done].
    + apply H2; [congruence|]. apply (IH (length (d :: s))); simpl; [lia|done].
  - apply H3; [done|]. apply (IH (length s)); simpl; [lia|done].
Qed.

Lemma norm_crlf s : norm (CR :: LF :: s) = LF :: norm s.
Proof. done. Qed.

Lemma norm_cr s : (forall s', s <> LF :: s') -> norm (CR :: s) = LF :: norm s.
Proof.
  intros Hs. destruct s as [|d s]; [done|]. cbn [norm]. case_decide as H1; [|done].
  case_decide as H2; [|done]. subst. by destruct (Hs s).
Qed.

Lemma norm_other c s : c <> CR -> norm (c :: s) = c :: norm s.
Proof. intros Hc. cbn [norm]. by rewrite decide_False. Qed.

Lemma replace_crlf s :
  ReplaceAll (CR :: LF :: s) [CR; LF] [LF] = LF :: ReplaceAll s [CR; LF] [LF].
Proof. unfold ReplaceAll. by rewrite (Replace_match [CR; LF] ltac:(done) _ s). Qed.

Lemma replace_crlf_other c s :
  c <> CR \/ (forall s', s <> LF :: s') ->
  ReplaceAll (c :: s) [CR; LF] [LF] = c :: ReplaceAll s [CR; LF] [LF].
Proof.
  intros H. unfold ReplaceAll. apply Replace_skip; [done..|]. cbn [strip_prefix].
  case_decide as H1; [|done]. destruct s as [|d s]; [done|]. case_decide as H2; [|done].
  subst. destruct H as [H|H]; [done|by destruct (H s)].
Qed.

Lemma replace_one_match x new s : ReplaceAll (x :: s) [x] new = new ++ ReplaceAll s [x] new.
Proof.
  unfold ReplaceAll. rewrite (Replace_match [x] ltac:(done) _ s); [done|done|].
  cbn. by rewrite decide_True.
Qed.

Lemma replace_one_skip x new c s : c <> x -> ReplaceAll (c :: s) [x] new = c :: ReplaceAll s [x] new.
Proof.
  intros Hc. unfold ReplaceAll. apply Replace_skip; [done..|]. cbn. by rewrite decide_False.
Qed.

Lemma replace_both s : ReplaceAll (ReplaceAll s [CR; LF] [LF]) [CR] [LF] = norm s.
Proof.
  revert s. apply norm_ind; [done|..].
  - intros s IH. rewrite replace_crlf, replace_one_skip by done. by rewrite IH.
  - intros s Hs IH. rewrite replace_crlf_other by auto. rewrite replace_one_match, IH.
    by rewrite norm_cr.
  - intros c s Hc IH. rewrite replace_crlf_other by auto. rewrite replace_one_skip by done.
    by rewrite IH, norm_other.
Qed.

Lemma norm_no_cr s : CR ∉ s -> norm s = s.
Proof.
  induction s as [|c s IH]; [done|]. rewrite not_elem_of_cons. intros [Hc Hs].
  rewrite norm_other by congruence. by rewrite IH.
Qed.

Lemma norm_result_no_cr s : CR ∉ norm s.
Proof.
  revert s. apply norm_ind.
  - apply not_elem_of_nil.
  - intros s IH. rewrite norm_crlf, not_elem_of_cons. done.
  - intros s Hs IH. rewrite norm_cr, not_elem_of_cons by done. done.
  - intros c s Hc IH. rewrite norm_other, not_elem_of_cons by done. split; [congruence|done].
Qed.

Lemma contains_line_ending s : ContainsAny s [CR; LF] = false -> CR ∉ s /\ LF ∉ s.
Proof.
  unfold ContainsAny. induction s as [|c s IH]; simpl; [intros; split; apply not_elem_of_nil|].
  intros [Hc Hs]%orb_false_elim. apply bool_decide_eq_false in Hc.
  rewrite !not_elem_of_cons. destruct (IH Hs). set_solver.
Qed.

Lemma normalize_norm s : normalizeLineEndingsToLF s = norm s.
Proof.
  unfold normalizeLineEndingsToLF. destruct (ContainsAny s [CR; LF]) eqn:E; simpl.
  - apply replace_both.
  - apply contains_line_ending in E as [Hc _]. by rewrite norm_no_cr.
Qed.

(** Turning the LF of a text without CR into another line ending is undone. *)
Lemma norm_replace_lf s ending :
  ending = [CR; LF] \/ ending = [CR] -> CR ∉ s -> norm (ReplaceAll s [LF] ending) = s.
Proof.
  intros He. induction s as [|c s IH]; [done|]. rewrite not_elem_of_cons. intros [Hc Hs].
  destruct (decide (c = LF)) as [->|Hlf].
  - rewrite replace_one_match. destruct He as [-> | ->]; simpl app.
    + by rewrite norm_crlf, IH.
    + rewrite norm_cr, IH; [done|done|]. intros s' E.
      destruct s as [|d s]; [done|]. destruct (decide (d = LF)) as [->|Hd].
      * rewrite replace_one_match in E. by injection E as E.
      * rewrite replace_one_skip in E by done. by injection E as -> _.
  - rewrite replace_one_skip, norm_other by congruence. by rewrite IH.
Qed.

(** ** Lemmas: the offsets of the one-pass normaliser *)

Lemma nf_crlf index s :
  normalize_from index (CR :: LF :: s) =
  let '(text, offsets) := normalize_from (index + 2) s in (LF :: text, (index + 2) :: offsets).
Proof. done. Qed.

Lemma nf_cr index s :
  (forall s', s <> LF :: s') ->
  normalize_from index (CR :: s) =
  let '(text, offsets) := normalize_from (index + 1) s in (LF :: text, (index + 1) :: offsets).
Proof.
  intros Hs. destruct s as [|d s]; [done|]. cbn [normalize_from]. rewrite decide_True by done.
  destruct (decide (d = LF)) as [->|]; [by destruct (Hs s)|done].
Qed.

Lemma nf_other index c s :
  c <> CR ->
  normalize_from index (c :: s) =
  let '(text, offsets) := normalize_from (index + 1) s in (c :: text, (index + 1) :: offsets).
Proof. intros Hc. cbn [normalize_from]. by rewrite decide_False. Qed.

(** The offsets name the positions of the content behind each normalised byte: between two of
    them lies exactly what the bytes between come from. *)
Definition offsets_ok (content : bytes) (index : Z) (text : bytes) (offsets : list Z) : Prop :=
  length offsets = length text /\
  default index (list.last offsets) = index + Z.of_nat (length content) /\
  forall i x, offsets !! i = Some x ->
    index < x <= index + Z.of_nat (length content) /\
    norm (take (Z.to_nat (x - index)) content) = take (S i) text /\
    norm (drop (Z.to_nat (x - index)) content) = drop (S i) text.

Lemma offsets_cons p b s index t o :
  (0 < length p)%nat -> norm p = [b] ->
  (forall k, norm (p ++ take k s) = b :: norm (take k s)) -> t = norm s ->
  offsets_ok s (index + Z.of_nat (length p)) t o ->
  offsets_ok (p ++ s) index (b :: t) ((index + Z.of_nat (length p)) :: o).
Proof.
  intros Hp Hb Hk Ht (H1 & H2 & H3). split; [simpl; by rewrite H1|]. split.
  - rewrite length_app, Nat2Z.inj_add, Z.add_assoc, <- H2. rewrite last_cons.
    by destruct (list.last o).
  - intros [|i] x; simpl.
    + intros [= <-]. rewrite length_app. split; [lia|].
      replace (Z.to_nat _) with (length p) by lia.
      rewrite take_app_length, drop_app_length. by rewrite drop_0.
    + intros Hx. destruct (H3 i x Hx) as (Hr & Htake & Hdrop). rewrite length_app.
      split; [lia|].
      replace (Z.to_nat (x - index)) with
        (length p + Z.to_nat (x - (index + Z.of_nat (length p))))%nat by lia.
      rewrite take_app_add, drop_app_add, Hk, Htake, Hdrop. done.
Qed.

Lemma normalize_from_spec s index :
  let '(t, o) := normalize_from index s in t = norm s /\ offsets_ok s index t o.
Proof.
  revert index. revert s.
  apply (norm_ind (fun s => forall index,
    let '(t, o) := normalize_from index s in t = norm s /\ offsets_ok s index t o)).
  - intros index. simpl. split; [done|]. split; [done|]. split; [simpl; lia|].
    intros i x. by rewrite lookup_nil.
  - intros s IH index. rewrite nf_crlf. specialize (IH (index + 2)).
    destruct (normalize_from (index + 2) s) as [t o]. destruct IH as [Ht Ho].
    split; [by rewrite norm_crlf, Ht|]. by apply (offsets_cons [CR; LF]); [simpl; lia|..].
  - intros s Hs IH index. rewrite nf_cr by done. specialize (IH (index + 1)).
    destruct (normalize_from (index + 1) s) as [t o]. destruct IH as [Ht Ho].
    split; [by rewrite norm_cr, Ht|]. apply (offsets_cons [CR]); [simpl; lia|done| |done|done].
    intros k. simpl app. apply norm_cr. intros s' E. destruct k, s as [|d s]; try done.
    simpl in E. injection E as -> _. by destruct (Hs s).
  - intros c s Hc IH index. rewrite nf_other by done. specialize (IH (index + 1)).
    destruct (normalize_from (index + 1) s) as [t o]. destruct IH as [Ht Ho].
    split; [by rewrite norm_other, Ht|].
    apply (offsets_cons [c]); [simpl; lia|by rewrite norm_other| |done|done].
    intros k. by apply norm_other.
Qed.

(** ** Lemmas: lines *)

Lemma norm_app_lf a b :
  exists z, norm (a ++ [LF]) = z ++ [LF] /\ norm (a ++ LF :: b) = z ++ LF :: norm b.
Proof.
  revert a. apply (norm_ind (fun a => exists z, norm (a ++ [LF]) = z ++ [LF] /\
    norm (a ++ LF :: b) = z ++ LF :: norm b)).
  - by exists [].
  - intros a (z & H1 & H2). exists (LF :: z). simpl app. by rewrite !norm_crlf, H1, H2.
  - intros a Ha (z & H1 & H2). destruct a as [|d a].
    + by exists [].
    + exists (LF :: z). simpl app in *.
      rewrite !norm_cr by (intros s' [= -> _]; by destruct (Ha a)). by rewrite H1, H2.
  - intros c a Hc (z & H1 & H2). exists (c :: z). simpl app. by rewrite !norm_other, H1, H2.
Qed.

Lemma split_lines_norm text :
  splitLinesForUnifiedDiff text = if decide (text = []) then [] else drop_last_empty (Split (norm text) LF).
Proof. unfold splitLinesForUnifiedDiff. by rewrite replace_both. Qed.

Lemma Split_app_lf a b : Split (a ++ LF :: b) LF = Split a LF ++ Split b LF.
Proof.
  induction a as [|c a IH]; [done|]. simpl app. cbn [Split]. case_decide as Hc; [by rewrite IH|].
  rewrite IH. destruct (Split a LF) eqn:E; [by apply Split_nonempty in E|done].
Qed.

Lemma drop_last_empty_app l1 l2 : l2 <> [] -> drop_last_empty (l1 ++ l2) = l1 ++ drop_last_empty l2.
Proof.
  intros H2. unfold drop_last_empty. rewrite last_app.
  destruct (list.last l2) as [[|c x]|] eqn:E; [|done|by apply last_None in E].
  by rewrite removelast_app.
Qed.

(** Lines of a text that follows whole lines. *)
Lemma unified_lines_app a b :
  splitLinesForUnifiedDiff ((a ++ [LF]) ++ b) =
  splitLinesForUnifiedDiff (a ++ [LF]) ++ splitLinesForUnifiedDiff b.
Proof.
  rewrite !split_lines_norm. rewrite <- app_assoc. simpl app.
  rewrite !(decide_False (P := _ ++ _ = [])) by (by intros [_ ?]%app_eq_nil).
  destruct (norm_app_lf a b) as (z & H1 & H2). rewrite H1, H2, !Split_app_lf.
  rewrite (drop_last_empty_app _ (Split [] LF)) by done.
  change (drop_last_empty (Split [] LF)) with (@nil bytes). rewrite app_nil_r.
  case_decide as Hb.
  - subst b. simpl norm. rewrite (drop_last_empty_app _ (Split [] LF)) by done. by rewrite !app_nil_r.
  - by rewrite drop_last_empty_app by apply Split_nonempty.
Qed.

(** A series of texts all of which, but the last, consist of whole lines. *)
Fixpoint whole_lines (texts : list bytes) : Prop :=
  match texts with
  | [] | [_] => True
  | t :: rest => (t = [] \/ exists a, t = a ++ [LF]) /\ whole_lines rest
  end.

Lemma whole_lines_tail t texts : whole_lines (t :: texts) -> whole_lines texts.
Proof. destruct texts; simpl; tauto. Qed.

Lemma split_lines_concat texts :
  whole_lines texts ->
  flat_map splitLinesForUnifiedDiff texts = splitLinesForUnifiedDiff (concat texts).
Proof.
  induction texts as [|t texts IH]; [done|]. intros Hw. simpl.
  rewrite IH by (by eapply whole_lines_tail).
  destruct texts as [|u texts]; [simpl; by rewrite !app_nil_r|].
  destruct Hw as [[-> | [a ->]] _]; [done|]. by rewrite unified_lines_app.
Qed.

(** ** The third-party line diff *)

Definition before_side (o : Operation) : bool := negb (bool_decide (o = DiffInsert)).
Definition after_side (o : Operation) : bool := negb (bool_decide (o = DiffDelete)).

Definition side_texts (side : Operation -> bool) (diffs : list Diff) : list bytes :=
  map Text (List.filter (fun d => side (Type_ d)) diffs).

(** The documented behaviour of a line-mode diff: the parts of each side are that side's text,
    cut into whole lines. *)
Record line_diff_ok (before after : bytes) (diffs : list Diff) : Prop := {
  diff_before : concat (side_texts before_side diffs) = before;
  diff_after : concat (side_texts after_side diffs) = after;
  diff_before_lines : whole_lines (side_texts before_side diffs);
  diff_after_lines : whole_lines (side_texts after_side diffs)
}.

Definition side_lines (side : Operation -> bool) (items : list lineDiffItem) : list bytes :=
  map text (List.filter (fun i => side (op i)) items).

Lemma side_lines_app side l1 l2 : side_lines side (l1 ++ l2) = side_lines side l1 ++ side_lines side l2.
Proof. unfold side_lines. by rewrite List.filter_app, map_app. Qed.

Lemma side_lines_diff side diffs :
  side_lines side (splitDiffLines diffs) =
  flat_map splitLinesForUnifiedDiff (side_texts side diffs).
Proof.
  induction diffs as [|d diffs IH]; [done|]. unfold splitDiffLines in *. cbn [flat_map].
  rewrite side_lines_app, IH. unfold side_texts. cbn [List.filter].
  assert (Hmap : forall lines, side_lines side (map (mkItem (Type_ d)) lines) =
    if side (Type_ d) then lines else []).
  { intros lines. unfold side_lines. induction lines as [|x lines IHl]; simpl; [by destruct (side _)|].
    destruct (side (Type_ d)); simpl in *; [by rewrite IHl|done]. }
  case_decide as Ht.
  - destruct (side (Type_ d)); [|done]. cbn [map flat_map]. by rewrite Ht.
  - rewrite Hmap. by destruct (side (Type_ d)).
Qed.

Lemma items_before before after diffs :
  line_diff_ok before after diffs ->
  side_lines before_side (splitDiffLines diffs) = splitLinesForUnifiedDiff before.
Proof. intros [H1 _ H3 _]. by rewrite side_lines_diff, split_lines_concat, H1. Qed.

Lemma items_after before after diffs :
  line_diff_ok before after diffs ->
  side_lines after_side (splitDiffLines diffs) = splitLinesForUnifiedDiff after.
Proof. intros [_ H2 _ H4]. by rewrite side_lines_diff, split_lines_concat, H2. Qed.

(** ** Lemmas: hunks *)

Lemma orig_lines_length items : orig_lines items = Z.of_nat (length (side_lines before_side items)).
Proof.
  induction items as [|[o t] items IH]; [done|]. cbn [orig_lines]. rewrite IH.
  unfold side_lines. by destruct o; simpl; lia.
Qed.

Lemma new_lines_length items : new_lines items = Z.of_nat (length (side_lines after_side items)).
Proof.
  induction items as [|[o t] items IH]; [done|]. cbn [new_lines]. rewrite IH.
  unfold side_lines. by destruct o; simpl; lia.
Qed.

Lemma apply_body_spec body rest :
  apply_body body (side_lines before_side body ++ rest) = Some (side_lines after_side body, rest).
Proof.
  induction body as [|[o t] body IH]; [done|]. unfold side_lines in *.
  destruct o; simpl; rewrite ?decide_True by done; by rewrite IH.
Qed.

Definition marks_changes (l : list (lineDiffItem * bool)) : Prop :=
  forall item, (item, false) ∈ l -> op item = DiffEqual.

Lemma span_included_spec l :
  let '(run, rest) := span_included l in
  map fst l = run ++ map fst rest /\ (forall x, x ∈ rest -> x ∈ l) /\
  (length rest + length run = length l)%nat.
Proof.
  induction l as [|[item []] l IH]; simpl; [done| |done].
  destruct (span_included l) as [run rest]. destruct IH as (-> & H2 & H3).
  split; [done|]. split; [set_solver|]. simpl. lia.
Qed.

Lemma apply_hunks_loop fuel l orig new pre :
  (length l <= fuel)%nat -> marks_changes l ->
  apply_hunks (hunks_loop fuel orig new l) (orig - Z.of_nat (length pre))
    (new - Z.of_nat (length pre)) (pre ++ side_lines before_side (map fst l)) =
  Some (pre ++ side_lines after_side (map fst l)).
Proof.
  revert l orig new pre. induction fuel as [|fuel IH]; intros l orig new pre Hl Hm.
  { destruct l; [done|simpl in Hl; lia]. }
  destruct l as [|[item []] l]; [done|..].
  - assert (Hspan := span_included_spec ((item, true) :: l)). cbn [hunks_loop].
    assert (Hrun : (0 < length (span_included ((item, true) :: l)).1)%nat)
      by (simpl; destruct (span_included l); simpl; lia).
    destruct (span_included ((item, true) :: l)) as [run rest]. destruct Hspan as (E & Hin & Hlen).
    rewrite E, !side_lines_app. cbn [apply_hunks HunkOrigStart HunkNewStart HunkItems
      HunkOrigCount HunkNewCount].
    replace (Z.to_nat (orig - (orig - Z.of_nat (length pre)))) with (length pre) by lia.
    rewrite (proj2 (Z.ltb_ge orig _)) by lia.
    rewrite (proj2 (Nat.ltb_ge (length (pre ++ _)) _)) by (rewrite length_app; lia).
    rewrite (proj2 (Z.eqb_eq new _)) by lia. cbn [orb negb].
    rewrite drop_app_length, apply_body_spec. cbn [mbind option_bind].
    rewrite new_lines_length, Z.eqb_refl, orig_lines_length. cbn [negb orb].
    rewrite (proj2 (Z.eqb_eq (Z.of_nat (length (pre ++ _))) _)) by (rewrite !length_app; lia).
    cbn [negb]. pose proof (IH rest (orig + Z.of_nat (length (side_lines before_side run)))
      (new + Z.of_nat (length (side_lines after_side run))) []) as IH'. simpl length in IH'.
    rewrite !Z.sub_0_r, !app_nil_l in IH'. rewrite IH'.
    + cbn [mbind option_bind]. by rewrite take_app_length.
    + simpl in *. lia.
    + intros x Hx. apply Hm. by apply Hin.
  - assert (Hop : op item = DiffEqual) by (apply Hm; set_solver).
    cbn [hunks_loop]. rewrite Hop. cbn [orig_step new_step].
    pose proof (IH l (orig + 1) (new + 1) (pre ++ [text item])) as IH'.
    rewrite length_app in IH'. cbn [length] in IH'.
    replace (orig + 1 - Z.of_nat (length pre + 1)) with (orig - Z.of_nat (length pre)) in IH' by lia.
    replace (new + 1 - Z.of_nat (length pre + 1)) with (new - Z.of_nat (length pre)) in IH' by lia.
    assert (Hside : forall side, side DiffEqual = true ->
      side_lines side (map fst ((item, false) :: l)) = text item :: side_lines side (map fst l)).
    { intros side Hs. unfold side_lines. cbn. by rewrite Hop, Hs. }
    rewrite !Hside by done. rewrite <- !app_assoc in IH'. apply IH'; [simpl in Hl; lia|].
    intros x Hx. apply Hm. set_solver.
Qed.

(** The marks of [include_of]. *)
Lemma mark_range_lookup start stop include j :
  mark_range start stop include !! j =
  (fun b => b || ((start <=? j) && (j <=? stop))%nat) <$> include !! j.
Proof. unfold mark_range. by rewrite list_lookup_imap. Qed.

Lemma include_of_spec items :
  length (include_of items) = length items /\
  forall i item, items !! i = Some item -> is_change item = true -> include_of items !! i = Some true.
Proof.
  unfold include_of.
  match goal with |- context [fold_left ?f] => set (step := f) end.
  assert (Hstep : forall idxs include, length include = length items ->
    length (fold_left step idxs include) = length items /\
    (forall j, include !! j = Some true -> fold_left step idxs include !! j = Some true) /\
    (forall i item, i ∈ idxs -> items !! i = Some item -> is_change item = true ->
       fold_left step idxs include !! i = Some true)).
  { intros idxs. induction idxs as [|i idxs IH]; intros include Hlen; simpl; [split; [done|]; split; [done|set_solver]|].
    assert (Hlen' : length (step include i) = length items).
    { unfold step. repeat case_match; try done. unfold mark_range. by rewrite length_imap. }
    destruct (IH (step include i) Hlen') as (H1 & H2 & H3). split; [done|]. split.
    - intros j Hj. apply H2. unfold step. repeat case_match; try done.
      rewrite mark_range_lookup, Hj. done.
    - intros k item Hk Hitem Hc. apply elem_of_cons in Hk as [->|Hk]; [|by eapply H3].
      apply H2. unfold step. rewrite Hitem, Hc. rewrite mark_range_lookup.
      assert (Hi : (i < length items)%nat) by by eapply lookup_lt_Some.
      destruct (lookup_lt_is_Some_2 include i) as [b ->]; [lia|]. simpl.
      rewrite (proj2 (Nat.leb_le _ i)) by lia. rewrite (proj2 (Nat.leb_le i _)) by lia.
      by rewrite orb_true_r. }
  destruct (Hstep (seq 0 (length items)) (repeat false (length items))) as (H1 & _ & H3);
    [by rewrite repeat_length|].
  split; [done|]. intros i item Hitem Hc. eapply H3; [|done|done].
  apply elem_of_seq. apply lookup_lt_Some in Hitem. lia.
Qed.

Lemma include_marks items : marks_changes (zip items (include_of items)).
Proof.
  intros item [i Hi]%list_elem_of_lookup. destruct (include_of_spec items) as [Hlen Hinc].
  apply lookup_zip_Some in Hi as [Hitem Hf].
  destruct (is_change item) eqn:Hc.
  - rewrite (Hinc i item Hitem Hc) in Hf. done.
  - unfold is_change in Hc. by apply negb_false_iff, bool_decide_eq_true in Hc.
Qed.

Lemma fst_zip_include items : map fst (zip items (include_of items)) = items.
Proof. apply fst_zip. by rewrite (proj1 (include_of_spec items)). Qed.

Lemma no_change_sides items :
  existsb is_change items = false -> side_lines before_side items = side_lines after_side items.
Proof.
  induction items as [|[o t] items IH]; [done|]. simpl. intros [Hc Hi]%orb_false_elim.
  specialize (IH Hi). unfold side_lines in *. destruct o; simpl in *; [done..|]. by rewrite IH.
Qed.

Lemma side_lines_all side o lines :
  side_lines side (map (mkItem o) lines) = if side o then lines else [].
Proof.
  unfold side_lines. induction lines as [|x lines IH]; simpl; [by destruct (side o)|].
  destruct (side o); simpl in *; [by rewrite IH|done].
Qed.

(** A file whose lines all change is a single hunk. *)
Lemma single_hunk o lines :
  lines <> [] ->
  let items := map (mkItem o) lines in
  apply_hunks [mkHunk 1 (orig_lines items) 1 (new_lines items) items] 1 1
    (side_lines before_side items) = Some (side_lines after_side items).
Proof.
  intros Hne items. set (l := map (fun i => (i, true)) items).
  assert (Hspan : forall items : list lineDiffItem,
    span_included (map (fun i => (i, true)) items) = (items, [])).
  { intros its. induction its as [|x its IH]; simpl; [done|]. by rewrite IH. }
  assert (Hloop : hunks_loop (length l) 1 1 l = [mkHunk 1 (orig_lines items) 1 (new_lines items) items]).
  { assert (Hl : span_included l = (items, [])) by apply Hspan. subst l.
    destruct items as [|x rest] eqn:E; [destruct lines; done|]. cbn [map length hunks_loop] in *.
    rewrite Hl. by destruct (length _). }
  pose proof (apply_hunks_loop (length l) l 1 1 []) as H. rewrite Hloop in H.
  rewrite !Z.sub_0_r, !app_nil_l in H.
  assert (Hfst : map fst l = items).
  { subst l. rewrite map_map. simpl. apply List.map_id. }
  rewrite Hfst in H. apply H; [lia|]. intros x Hx. subst l.
  apply list_elem_of_In, in_map_iff in Hx as (y & E & _). discriminate E.
Qed.

(** Rendering the hunks of a whole file. *)
Lemma render_all_added lines :
  flat_map render_line (map (mkItem DiffInsert) lines) =
  flat_map (fun line => "+"%char :: line ++ [LF]) lines.
Proof. induction lines as [|l lines IH]; [done|]. cbn [map flat_map]. by rewrite IH. Qed.

Lemma render_all_removed lines :
  flat_map render_line (map (mkItem DiffDelete) lines) =
  flat_map (fun line => "-"%char :: line ++ [LF]) lines.
Proof. induction lines as [|l lines IH]; [done|]. cbn [map flat_map]. by rewrite IH. Qed.

Lemma added_header n :
  1 <= n ->
  (if n =? 1 then bytes_of "@@ -0,0 +1 @@" ++ [LF]
   else bytes_of "@@ -0,0 +1," ++ decimal n ++ bytes_of " @@" ++ [LF]) =
  bytes_of "@@ " ++ formatHunkRange 1 0 (bytes_of "-") ++ bytes_of " " ++
  formatHunkRange 1 n (bytes_of "+") ++ bytes_of " @@" ++ [LF].
Proof.
  intros Hn. unfold formatHunkRange. rewrite (proj2 (Z.eqb_neq n 0)) by lia.
  change (decimal 1) with (bytes_of "1"). change (decimal (if 1 =? 1 then 0 else 1)) with (bytes_of "0").
  destruct (n =? 1); [done|]. cbn -[decimal]. rewrite <- ?app_assoc. done.
Qed.

Lemma removed_header n :
  1 <= n ->
  (if n =? 1 then bytes_of "@@ -1 +0,0 @@" ++ [LF]
   else bytes_of "@@ -1," ++ decimal n ++ bytes_of " +0,0 @@" ++ [LF]) =
  bytes_of "@@ " ++ formatHunkRange 1 n (bytes_of "-") ++ bytes_of " " ++
  formatHunkRange 1 0 (bytes_of "+") ++ bytes_of " @@" ++ [LF].
Proof.
  intros Hn. unfold formatHunkRange. rewrite (proj2 (Z.eqb_neq n 0)) by lia.
  change (decimal 1) with (bytes_of "1"). change (decimal (if 1 =? 1 then 0 else 1)) with (bytes_of "0").
  destruct (n =? 1); [done|]. cbn -[decimal]. rewrite <- ?app_assoc. done.
Qed.

(** ** Lemmas: counting changed lines *)

Lemma count_lf s : S (Count s [LF]) = length (Split s LF).
Proof.
  induction s as [|c s IH]; [done|]. cbn [Split]. case_decide as Hc.
  - subst c. rewrite (Count_match [LF] ltac:(done) (LF :: s) s) by done. simpl. by rewrite IH.
  - rewrite Count_skip by (cbn; by rewrite decide_False). rewrite IH.
    destruct (Split s LF) eqn:E; [by apply Split_nonempty in E|done].
Qed.

Lemma has_suffix_lf a c : HasSuffix (a ++ [c]) [LF] = bool_decide (c = LF).
Proof.
  unfold HasSuffix. rewrite rev_app_distr. cbn. case_decide as H; case_bool_decide; congruence.
Qed.

Lemma split_length s : (length (Split s LF) <= S (length s))%nat.
Proof.
  induction s as [|x s IH]; simpl; [lia|]. case_decide; simpl; [lia|].
  destruct (Split s LF); simpl in *; lia.
Qed.

Lemma changed_lines_length t :
  CR ∉ t -> Z.of_nat (length t) < 2 ^ 31 - 1 ->
  countChangedLines t = Z.of_nat (length (splitLinesForUnifiedDiff t)).
Proof.
  intros Hcr Hlen. unfold countChangedLines. rewrite split_lines_norm, norm_no_cr by done.
  case_decide as Ht; [done|]. destruct t as [|c a _] using rev_ind; [done|].
  assert (Hw : forall z, 0 <= z < 2 ^ 31 -> wrap_int32 z = z).
  { intros z Hz. unfold wrap_int32. rewrite Z.mod_small; lia. }
  pose proof (count_lf (a ++ [c])) as Hc. pose proof (split_length (a ++ [c])) as Hb.
  assert (H31 : 2 ^ 31 = 2147483648) by done. rewrite has_suffix_lf. case_bool_decide as Hlf.
  - subst c. rewrite Hw by lia. rewrite Split_app_lf in Hc |- *.
    rewrite drop_last_empty_app by done. change (drop_last_empty (Split [] LF)) with (@nil bytes).
    rewrite app_nil_r. rewrite length_app in Hc. simpl in Hc. lia.
  - rewrite (Hw (Z.of_nat _)) by lia. rewrite Hw by lia.
    destruct (Split_app a [c] LF) as (front & l & first & rest & H1 & H2 & H3).
    rewrite H3. cbn in H2. rewrite decide_False in H2 by done. injection H2 as <- <-.
    rewrite drop_last_empty_app by done. unfold drop_last_empty. simpl list.last.
    destruct (l ++ [c]) as [|x y] eqn:E; [by apply app_eq_nil in E as [_ ?]|].
    rewrite H3 in Hc. rewrite length_app in *. simpl in *. lia.
Qed.

Lemma drop_last_empty_length l : (length (drop_last_empty l) <= length l)%nat.
Proof.
  unfold drop_last_empty. destruct (list.last l) as [[|]|]; [|done..].
  rewrite removelast_firstn_len, length_take. lia.
Qed.

Lemma norm_length s : (length (norm s) <= length s)%nat.
Proof.
  revert s. apply (norm_ind (fun s => (length (norm s) <= length s)%nat)).
  - done.
  - intros s IH. rewrite norm_crlf. simpl. lia.
  - intros s Hs IH. rewrite norm_cr by done. simpl. lia.
  - intros c s Hc IH. rewrite norm_other by done. simpl. lia.
Qed.

Definition changed (o : Operation) (items : list lineDiffItem) : Z :=
  Z.of_nat (length (List.filter (fun i => bool_decide (op i = o)) items)).

Lemma changed_app o l1 l2 : changed o (l1 ++ l2) = changed o l1 + changed o l2.
Proof. unfold changed. rewrite List.filter_app, length_app. lia. Qed.

Lemma changed_map o o' lines :
  changed o (map (mkItem o') lines) = if decide (o' = o) then Z.of_nat (length lines) else 0.
Proof.
  unfold changed. case_decide as H.
  - subst. induction lines as [|x lines IH]; [done|]. cbn. rewrite bool_decide_true by done.
    cbn [length]. lia.
  - induction lines as [|x lines IH]; [done|]. cbn. by rewrite bool_decide_false.
Qed.

Lemma changed_nonneg o items : 0 <= changed o items.
Proof. unfold changed. lia. Qed.

Lemma diff_counts_fold diffs added removed :
  (forall d, d ∈ diffs -> CR ∉ Text d /\ Z.of_nat (length (Text d)) < 2 ^ 31 - 1) ->
  0 <= added -> 0 <= removed ->
  added + changed DiffInsert (splitDiffLines diffs) < 2 ^ 31 ->
  removed + changed DiffDelete (splitDiffLines diffs) < 2 ^ 31 ->
  fold_left diff_step diffs (added, removed) =
    (added + changed DiffInsert (splitDiffLines diffs),
     removed + changed DiffDelete (splitDiffLines diffs)).
Proof.
  revert added removed. induction diffs as [|d diffs IH]; intros added removed Hd Ha Hr H1 H2.
  { simpl. unfold changed. simpl. f_equal; lia. }
  destruct (Hd d) as [Hcr Hlen]; [set_solver|].
  assert (Hsplit : forall o, changed o (splitDiffLines (d :: diffs)) =
    (if decide (Type_ d = o) then countChangedLines (Text d) else 0) + changed o (splitDiffLines diffs)).
  { intros o. unfold splitDiffLines. cbn [flat_map]. rewrite changed_app. f_equal.
    rewrite changed_lines_length by done. case_decide as Ht.
    - rewrite Ht. by case_decide.
    - apply changed_map. }
  rewrite !Hsplit in *. cbn [fold_left].
  pose proof (changed_nonneg DiffInsert (splitDiffLines diffs)).
  pose proof (changed_nonneg DiffDelete (splitDiffLines diffs)).
  assert (0 <= countChangedLines (Text d)) by (rewrite changed_lines_length by done; lia).
  assert (Hw : forall z, 0 <= z < 2 ^ 31 -> wrap_int32 z = z).
  { intros z Hz. unfold wrap_int32. rewrite Z.mod_small; lia. }
  clear Hsplit. unfold diff_step at 2. destruct d as [o t]. destruct o; cbn [Type_ Text] in *;
    rewrite ?decide_True, ?decide_False in * by done; rewrite ?decide_True by done;
    rewrite ?Hw by lia;
    (rewrite IH; [f_equal; lia|set_solver|lia..]).
Qed.

(** ** Properties *)

(** C15: the unified diff of an edit is exact.  Given a line diff that keeps its documented
    behaviour, the text [renderUnifiedDiff] writes is the rendering of hunks that, applied to
    the lines of the old content, with all line numbers, counts and context lines checked, give
    the lines of the new content. *)
Theorem unified_diff_patches before after diffs :
  line_diff_ok before after diffs ->
  renderUnifiedDiff before after diffs = flat_map render_hunk (unified_hunks before after diffs) /\
  apply_hunks (unified_hunks before after diffs) 1 1 (splitLinesForUnifiedDiff before) =
    Some (splitLinesForUnifiedDiff after).
Proof.
  intros Hd. unfold renderUnifiedDiff, unified_hunks.
  destruct (decide (before = after)) as [->|Hne]; [done|].
  destruct (decide (before = [])) as [->|Hb].
  { change (splitLinesForUnifiedDiff []) with (@nil bytes).
    destruct (splitLinesForUnifiedDiff after) as [|l lines] eqn:El; [done|].
    split.
    - cbn [flat_map]. rewrite app_nil_r. unfold render_hunk. cbn [HunkItems].
      rewrite render_all_added, added_header by (simpl; lia).
      by rewrite <- !app_assoc.
    - pose proof (single_hunk DiffInsert (l :: lines) ltac:(done)) as H. cbv zeta in H.
      rewrite new_lines_length, orig_lines_length, !side_lines_all in H. exact H. }
  destruct (decide (after = [])) as [->|Ha].
  { change (splitLinesForUnifiedDiff []) with (@nil bytes).
    destruct (splitLinesForUnifiedDiff before) as [|l lines] eqn:El; [done|].
    split.
    - cbn [flat_map]. rewrite app_nil_r. unfold render_hunk. cbn [HunkItems].
      rewrite render_all_removed, removed_header by (simpl; lia).
      by rewrite <- !app_assoc.
    - pose proof (single_hunk DiffDelete (l :: lines) ltac:(done)) as H. cbv zeta in H.
      rewrite new_lines_length, orig_lines_length, !side_lines_all in H. exact H. }
  rewrite <- (items_before before after diffs Hd), <- (items_after before after diffs Hd).
  set (items := splitDiffLines diffs).
  destruct (existsb is_change items) eqn:Hc; cbn [negb].
  - split; [done|].
    pose proof (apply_hunks_loop (length items) (zip items (include_of items)) 1 1 []) as H.
    rewrite fst_zip_include, !Z.sub_0_r, !app_nil_l in H. apply H; [|apply include_marks].
    rewrite length_zip, (proj1 (include_of_spec items)). lia.
  - split; [done|]. cbn [apply_hunks]. by rewrite no_change_sides.
Qed.

(** the line counts of an edit are those of its diff.  For contents of LF line endings,
    and of less than 2^31 - 1 bytes, [computeEditDiff] reports as added and removed exactly the
    numbers of lines that its diff inserts and deletes. *)
Theorem edit_counts_exact line_diffs before after :
  let diffs := line_diffs before after in
  line_diff_ok before after diffs ->
  CR ∉ before -> CR ∉ after ->
  Z.of_nat (length before) < 2 ^ 31 - 1 -> Z.of_nat (length after) < 2 ^ 31 - 1 ->
  computeEditDiff line_diffs before after =
    (renderUnifiedDiff before after diffs, changed DiffInsert (splitDiffLines diffs),
     changed DiffDelete (splitDiffLines diffs)).
Proof.
  intros diffs Hd Hcb Hca Hlb Hla. unfold computeEditDiff. fold diffs.
  assert (Hside : forall d, d ∈ diffs -> exists side t, t ∈ side_texts side diffs /\ t = Text d /\
    (concat (side_texts side diffs) = before \/ concat (side_texts side diffs) = after)).
  { intros d Hin. destruct (Type_ d) eqn:Et.
    - exists before_side, (Text d). split; [|split; [done|left; apply Hd]].
      apply list_elem_of_In, in_map. apply filter_In. rewrite Et. split; [by apply list_elem_of_In|done].
    - exists after_side, (Text d). split; [|split; [done|right; apply Hd]].
      apply list_elem_of_In, in_map. apply filter_In. rewrite Et. split; [by apply list_elem_of_In|done].
    - exists before_side, (Text d). split; [|split; [done|left; apply Hd]].
      apply list_elem_of_In, in_map. apply filter_In. rewrite Et. split; [by apply list_elem_of_In|done]. }
  assert (Hpart : forall (t : bytes) ts, t ∈ ts -> (length t <= length (concat ts))%nat /\
    (CR ∉ concat ts -> CR ∉ t)).
  { intros t ts [l1 [l2 ->]]%list_elem_of_split. rewrite concat_app. simpl. rewrite !length_app.
    split; [lia|]. rewrite !not_elem_of_app. tauto. }
  assert (Hlines : forall items, changed DiffInsert items <= Z.of_nat (length (side_lines after_side items)) /\
    changed DiffDelete items <= Z.of_nat (length (side_lines before_side items))).
  { intros items. unfold changed, side_lines. induction items as [|[o t] items IH]; [simpl; lia|].
    destruct o; simpl in *; lia. }
  assert (Hshort : forall t, (length (splitLinesForUnifiedDiff t) <= S (length t))%nat).
  { intros t. unfold splitLinesForUnifiedDiff. case_decide; [simpl; lia|]. rewrite replace_both.
    etrans; [apply drop_last_empty_length|]. etrans; [apply split_length|]. by apply le_n_S, norm_length. }
  destruct (Hlines (splitDiffLines diffs)) as [Hi Hdel].
  rewrite (items_after before after diffs Hd) in Hi. rewrite (items_before before after diffs Hd) in Hdel.
  pose proof (Hshort before). pose proof (Hshort after).
  rewrite diff_counts_fold; [by rewrite !Z.add_0_l| |lia..].
  intros d Hin. destruct (Hside d Hin) as (side & t & Ht & -> & E).
  destruct (Hpart _ _ Ht) as [Hl Hc]. destruct E as [E|E]; rewrite E in *; (split; [auto|lia]).
Qed.

(** the two normalisers agree.  The one-pass normaliser that tracks offsets gives the text
    of [normalizeLineEndingsToLF]; each offset splits the content where that byte's position
    splits the normalised text; normalising twice, or after changing the line endings of a
    replacement, changes nothing. *)
Theorem edit_normalizers_agree content :
  let n := normalizeEditContentLineEndings content in
  NormalizedText n = normalizeLineEndingsToLF content /\
  length (OriginalOffsets n) = S (length (NormalizedText n)) /\
  (forall i x, OriginalOffsets n !! i = Some x ->
     0 <= x <= Z.of_nat (length content) /\
     normalizeLineEndingsToLF (take (Z.to_nat x) content) = take i (NormalizedText n) /\
     normalizeLineEndingsToLF (drop (Z.to_nat x) content) = drop i (NormalizedText n)) /\
  CR ∉ NormalizedText n /\
  normalizeLineEndingsToLF (NormalizedText n) = NormalizedText n /\
  forall ending, normalizeLineEndingsToLF (normalizeReplacementLineEndings content ending) =
    NormalizedText n.
Proof.
  unfold normalizeEditContentLineEndings. pose proof (normalize_from_spec content 0) as H.
  destruct (normalize_from 0 content) as [t o]. destruct H as (Ht & Hlen & _ & Hoff).
  simpl. rewrite !normalize_norm. subst t. split; [done|]. split; [by rewrite Hlen|]. split.
  - intros [|i] x; simpl.
    + intros [= <-]. simpl. rewrite !normalize_norm, take_0, drop_0. split; [lia|done].
    + intros Hx. destruct (Hoff i x Hx) as (Hr & H1 & H2). rewrite !normalize_norm.
      rewrite Z.sub_0_r in H1, H2. rewrite H1, H2. split; [lia|done].
  - pose proof (norm_result_no_cr content) as Hcr. split; [done|]. split; [by apply norm_no_cr|].
    intros ending. rewrite normalize_norm. unfold normalizeReplacementLineEndings.
    destruct (ContainsAny content [CR; LF]); cbn [negb]; [|done].
    rewrite normalize_norm. repeat case_decide; subst.
    + apply norm_replace_lf; auto.
    + apply norm_replace_lf; auto.
    + by apply norm_no_cr.
Qed.

(** ** A concrete diff *)

Module Demo.

(** The coarsest line diff. *)
Definition whole_diff (before after : bytes) : list Diff :=
  if decide (before = after) then [mkDiff DiffEqual before]
  else [mkDiff DiffDelete before; mkDiff DiffInsert after].

Lemma whole_diff_ok before after : line_diff_ok before after (whole_diff before after).
Proof.
  unfold whole_diff. case_decide as H; [subst|]; split; simpl; rewrite ?app_nil_r; done.
Qed.

Definition old_text : bytes := bytes_of "a" ++ [LF] ++ bytes_of "b".
Definition new_text : bytes := bytes_of "a" ++ [LF] ++ bytes_of "c" ++ [LF].

Lemma unified_diff_patches_witness :
  apply_hunks (unified_hunks old_text new_text (whole_diff old_text new_text)) 1 1
    [bytes_of "a"; bytes_of "b"] = Some [bytes_of "a"; bytes_of "c"].
Proof.
  exact (proj2 (unified_diff_patches old_text new_text (whole_diff old_text new_text)
    (whole_diff_ok old_text new_text))).
Defined.

Lemma edit_counts_exact_witness :
  (computeEditDiff whole_diff old_text new_text).1.2 = 2.
Proof.
  rewrite (edit_counts_exact whole_diff old_text new_text (whole_diff_ok old_text new_text));
    [reflexivity|..].
  - apply (bool_decide_unpack (CR ∉ old_text)). reflexivity.
  - apply (bool_decide_unpack (CR ∉ new_text)). reflexivity.
  - reflexivity.
  - reflexivity.
Defined.

End Demo.
