(* ===== verification/Utf8.v ===== *)
(** * UTF-8 validity, as [unicode/utf8] decides it.

    [utf8_valid] is [utf8.ValidString]: the byte ranges of a lead byte's continuation bytes
    are those of the table of accepted ranges, so overlong forms, surrogates and code points
    above U+10FFFF are rejected.  The lemmas cut a valid string near any position. *)

From S2P Require Import Prelude Go.

Definition code (c : ascii) : Z := Z.of_nat (nat_of_ascii c).

Definition in_range (lo hi : Z) (c : ascii) : bool := (lo <=? code c) && (code c <=? hi).

Definition continuation (c : ascii) : bool := in_range 128 191 c.

(** What follows a lead byte. *)
Inductive LeadKind :=
| LeadInvalid
| Lead1
| Lead2
| Lead3 (lo hi : Z)
| Lead4 (lo hi : Z).

Definition lead_kind (c : ascii) : LeadKind :=
  if code c <? 128 then Lead1
  else if in_range 194 223 c then Lead2
  else if code c =? 224 then Lead3 160 191
  else if code c =? 237 then Lead3 128 159
  else if in_range 225 239 c then Lead3 128 191
  else if code c =? 240 then Lead4 144 191
  else if in_range 241 243 c then Lead4 128 191
  else if code c =? 244 then Lead4 128 143
  else LeadInvalid.

Fixpoint utf8_valid (s : bytes) : bool :=
  match s with
  | [] => true
  | c :: s1 =>
      match lead_kind c, s1 with
      | LeadInvalid, _ => false
      | Lead1, _ => utf8_valid s1
      | Lead2, c2 :: s2 => continuation c2 && utf8_valid s2
      | Lead3 lo hi, c2 :: c3 :: s3 => in_range lo hi c2 && continuation c3 && utf8_valid s3
      | Lead4 lo hi, c2 :: c3 :: c4 :: s4 =>
          in_range lo hi c2 && continuation c3 && continuation c4 && utf8_valid s4
      | _, _ => false
      end
  end.

(** The encoding of one code point. *)
Definition is_rune (r : bytes) : Prop :=
  r <> [] /\ (length r <= 4)%nat /\ forall s, utf8_valid (r ++ s) = utf8_valid s.

Lemma utf8_first_rune s :
  utf8_valid s = true -> s <> [] -> exists r t, s = r ++ t /\ is_rune r /\ utf8_valid t = true.
Proof.
  destruct s as [|c s1]; [done|]. simpl. intros Hv _.
  destruct (lead_kind c) as [| | |lo hi|lo hi] eqn:Hk; [done|..].
  - exists [c], s1. split; [done|]. split; [|done]. split; [done|]. split; [simpl; lia|].
    intros s. simpl. by rewrite Hk.
  - destruct s1 as [|c2 s2]; [done|]. apply andb_prop in Hv as [H2 Hv].
    exists [c; c2], s2. split; [done|]. split; [|done]. split; [done|]. split; [simpl; lia|].
    intros s. simpl. by rewrite Hk, H2.
  - destruct s1 as [|c2 [|c3 s3]]; [done..|]. apply andb_prop in Hv as [[H2 H3]%andb_prop Hv].
    exists [c; c2; c3], s3. split; [done|]. split; [|done]. split; [done|]. split; [simpl; lia|].
    intros s. simpl. by rewrite Hk, H2, H3.
  - destruct s1 as [|c2 [|c3 [|c4 s4]]]; [done..|].
    apply andb_prop in Hv as [[[H2 H3]%andb_prop H4]%andb_prop Hv].
    exists [c; c2; c3; c4], s4. split; [done|]. split; [|done]. split; [done|].
    split; [simpl; lia|]. intros s. simpl. by rewrite Hk, H2, H3, H4.
Qed.

(** Induction on the code points of a valid string. *)
Lemma utf8_ind (P : bytes -> Prop) :
  P [] -> (forall r t, is_rune r -> utf8_valid t = true -> P t -> P (r ++ t)) ->
  forall s, utf8_valid s = true -> P s.
Proof.
  intros H0 Hr s. remember (length s) as n eqn:Hn. revert s Hn.
  induction n as [n IH] using lt_wf_ind. intros s -> Hv.
  destruct s as [|c s]; [done|].
  destruct (utf8_first_rune (c :: s) Hv) as (r & t & E & Hrune & Ht); [done|].
  rewrite E. apply Hr; [done|done|]. apply (IH (length t)); [|done|done].
  rewrite E, length_app. destruct Hrune as (Hne & _). destruct r; [done|]. simpl. lia.
Qed.

Lemma utf8_valid_app a b : utf8_valid a = true -> utf8_valid (a ++ b) = utf8_valid b.
Proof.
  intros Ha. revert a Ha. apply (utf8_ind (fun a => utf8_valid (a ++ b) = utf8_valid b)); [done|].
  intros r t (_ & _ & Hr) _ IH. by rewrite <- app_assoc, Hr.
Qed.

Lemma utf8_valid_app_true a b :
  utf8_valid a = true -> utf8_valid b = true -> utf8_valid (a ++ b) = true.
Proof. intros Ha Hb. by rewrite utf8_valid_app. Qed.

(** A valid string can be cut at most three bytes before any position. *)
Lemma utf8_cut_before s n :
  utf8_valid s = true ->
  exists m, (m <= n <= m + 3 \/ m = length s /\ length s <= n)%nat /\
    utf8_valid (take m s) = true.
Proof.
  intros Hs. revert n.
  revert s Hs. apply (utf8_ind (fun s => forall n, exists m,
    (m <= n <= m + 3 \/ m = length s /\ length s <= n)%nat /\ utf8_valid (take m s) = true)).
  - intros n. exists 0%nat. split; [simpl; lia|done].
  - intros r t (Hne & Hlen & Hr) Ht IH n. destruct (decide (n < length r)%nat).
    + exists 0%nat. split; [lia|done].
    + destruct (IH (n - length r)%nat) as (m & Hm & Hv). exists (length r + m)%nat.
      rewrite length_app. split; [lia|]. by rewrite take_app_add, Hr.
Qed.

(** ... and at most three bytes after it. *)
Lemma utf8_cut_after s n :
  utf8_valid s = true -> (n <= length s)%nat ->
  exists m, (n <= m <= n + 3 /\ m <= length s)%nat /\ utf8_valid (drop m s) = true.
Proof.
  intros Hs. revert n.
  revert s Hs. apply (utf8_ind (fun s => forall n, (n <= length s)%nat -> exists m,
    (n <= m <= n + 3 /\ m <= length s)%nat /\ utf8_valid (drop m s) = true)).
  - intros n Hn. exists 0%nat. simpl in *. split; [lia|done].
  - intros r t (Hne & Hlen & Hr) Ht IH n Hn. rewrite length_app in *.
    destruct (decide (n = 0)%nat) as [->|]; [exists 0%nat; split; [lia|by rewrite drop_0, Hr]|].
    destruct (decide (n <= length r)%nat).
    + exists (length r). split; [lia|]. by rewrite drop_app_length.
    + destruct (IH (n - length r)%nat) as (m & Hm & Hv); [lia|]. exists (length r + m)%nat.
      split; [lia|]. by rewrite drop_app_add.
Qed.

(** ASCII strings are valid. *)
Definition is_ascii (c : ascii) : bool := code c <? 128.

Lemma utf8_valid_ascii s : forallb is_ascii s = true -> utf8_valid s = true.
Proof.
  induction s as [|c s IH]; [done|]. simpl. intros [Hc Hs]%andb_prop.
  unfold lead_kind. unfold is_ascii in Hc. rewrite Hc. auto.
Qed.

Lemma digit_ascii n : 0 <= n < 10 -> is_ascii (digit n) = true.
Proof.
  intros Hn. unfold is_ascii, code, digit, byte_of. rewrite nat_ascii_embedding by lia.
  apply Z.ltb_lt. lia.
Qed.

Lemma decimal_ascii n : 0 <= n -> forallb is_ascii (decimal n) = true.
Proof.
  intros Hn. unfold decimal. rewrite (proj2 (Z.ltb_ge n 0) Hn). unfold decimal_nonneg.
  generalize (S (Z.to_nat (Z.log2 n))). intros f. revert n Hn.
  induction f as [|f IH]; intros n Hn; [done|].
  cbn [decimal_fuel]. destruct (n <? 10) eqn:E; cbn [forallb].
  - by rewrite digit_ascii by zbool.
  - rewrite forallb_app. cbn [forallb]. rewrite IH by (apply Z.div_pos; lia).
    by rewrite digit_ascii by (apply Z.mod_pos_bound; lia).
Qed.
