(* ===== verification/Truncation.v ===== *)
(** * Truncating a tool result for replay (forwarder/tool_result_replay_truncation.go).

    Texts are byte sequences and a limit is a number of bytes.  A loop of the code is a
    [Fixpoint]: the trimming loops recurse on what is left of the text, the two notice loops
    on fuel, and the theorems show that one iteration is always enough. *)

From S2P Require Import Prelude Go Utf8.

Definition len (s : bytes) : Z := Z.of_nat (length s).

(** ** Cutting at a code point *)

(** [for !utf8.ValidString(truncated) && len(truncated) > 0], [truncated] being the first [n]
    bytes. *)
Fixpoint shrink_prefix (n : nat) (text : bytes) : bytes :=
  if utf8_valid (take n text) then take n text
  else match n with O => [] | S m => shrink_prefix m text end.

Definition truncateProjectedUTF8 (text : bytes) (limit : Z) : bytes :=
  if limit <=? 0 then []
  else if len text <=? limit then text
  else shrink_prefix (Z.to_nat limit) text.

(** [for !utf8.ValidString(suffix) && start < len(text)]. *)
Fixpoint shrink_suffix (suffix : bytes) : bytes :=
  if utf8_valid suffix then suffix
  else match suffix with [] => [] | _ :: rest => shrink_suffix rest end.

Definition truncateProjectedUTF8Suffix (text : bytes) (limit : Z) : bytes :=
  if limit <=? 0 then []
  else if len text <=? limit then text
  else shrink_suffix (drop (Z.to_nat (len text - limit)) text).

(** ** Truncation with a notice *)

Definition newline : ascii := byte_of 10.

Definition replay_notice (toolName : bytes) (limit kept original : Z) : bytes :=
  newline :: newline :: bytes_of "[truncated: " ++ toolName ++ bytes_of " result exceeded " ++
  decimal limit ++ bytes_of " bytes; showing " ++ decimal kept ++ bytes_of " of " ++
  decimal original ++ bytes_of " bytes]".

(** The [for] loop of [truncateProjectedReplayText], [None] when out of fuel. *)
Fixpoint replay_loop (fuel : nat) (toolName text : bytes) (limit : Z) (notice : bytes)
  : option bytes :=
  match fuel with
  | O => None
  | S fuel =>
      let keep := limit - len notice in
      if keep <=? 0 then Some (truncateProjectedUTF8 text limit)
      else
        let kept := truncateProjectedUTF8 text keep in
        let nextNotice := replay_notice toolName limit (len kept) (len text) in
        let output := trim_right_newlines kept ++ nextNotice in
        if (len output <=? limit) || bool_decide (nextNotice = notice) then Some output
        else replay_loop fuel toolName text limit nextNotice
  end.

Definition truncateProjectedReplayText_fuel (fuel : nat) (toolName text : bytes) (limit : Z)
  : option bytes :=
  if (limit <=? 0) || (len text <=? limit) then Some (trim_space text)
  else replay_loop fuel toolName text limit (replay_notice toolName limit limit (len text)).

Definition middle_notice (toolName : bytes) (limit kept original : Z) : bytes :=
  newline :: newline :: bytes_of "[truncated: " ++ toolName ++ bytes_of " result exceeded " ++
  decimal limit ++ bytes_of " bytes; omitted middle; showing " ++ decimal kept ++
  bytes_of " of " ++ decimal original ++ bytes_of " bytes]" ++ [newline; newline].

Fixpoint middle_loop (fuel : nat) (toolName text : bytes) (limit : Z) (notice : bytes)
  : option bytes :=
  match fuel with
  | O => None
  | S fuel =>
      let keep := limit - len notice in
      if keep <=? 0 then Some (truncateProjectedUTF8 text limit)
      else
        let headLimit := keep / 2 in
        let tailLimit := keep - headLimit in
        let head := truncateProjectedUTF8 text headLimit in
        let tail := truncateProjectedUTF8Suffix text tailLimit in
        let kept := len head + len tail in
        let nextNotice := middle_notice toolName limit kept (len text) in
        let output := head ++ nextNotice ++ tail in
        if (len output <=? limit) || bool_decide (nextNotice = notice) then Some output
        else middle_loop fuel toolName text limit nextNotice
  end.

Definition truncateProjectedReplayTextMiddle_fuel (fuel : nat) (toolName text : bytes)
    (limit : Z) : option bytes :=
  if limit <=? 0 then Some []
  else if len text <=? limit then Some text
  else middle_loop fuel toolName text limit (middle_notice toolName limit limit (len text)).

(** The two functions, with the fuel that [replay_returns] and [middle_returns] show to be
    enough. *)
Definition truncateProjectedReplayText (toolName text : bytes) (limit : Z) : bytes :=
  default [] (truncateProjectedReplayText_fuel 1 toolName text limit).

Definition truncateProjectedReplayTextMiddle (toolName text : bytes) (limit : Z) : bytes :=
  default [] (truncateProjectedReplayTextMiddle_fuel 1 toolName text limit).

(** ** Lemmas: cutting *)

Lemma shrink_prefix_spec n text :
  exists m, (m <= n)%nat /\ shrink_prefix n text = take m text /\
    utf8_valid (take m text) = true /\
    forall k, (k <= n)%nat -> utf8_valid (take k text) = true -> (k <= m)%nat.
Proof.
  induction n as [|n IH].
  - exists 0%nat. split; [lia|]. split; [done|]. split; [done|]. intros k Hk. lia.
  - cbn [shrink_prefix]. destruct (utf8_valid (take (S n) text)) eqn:E.
    + exists (S n). split; [lia|]. done.
    + destruct IH as (m & Hm & -> & Hv & Hmax). exists m. split; [lia|]. split; [done|].
      split; [done|]. intros k Hk Hkv. apply Hmax; [|done].
      destruct (decide (k = S n)) as [->|]; [congruence|lia].
Qed.

Lemma shrink_suffix_spec s :
  exists m, (m <= length s)%nat /\ shrink_suffix s = drop m s /\
    utf8_valid (drop m s) = true /\
    forall k, (k <= length s)%nat -> utf8_valid (drop k s) = true -> (m <= k)%nat.
Proof.
  induction s as [|c s IH].
  - exists 0%nat. split; [simpl; lia|]. split; [done|]. split; [done|]. lia.
  - cbn [shrink_suffix]. destruct (utf8_valid (c :: s)) eqn:E.
    + exists 0%nat. split; [lia|]. split; [done|]. split; [done|]. lia.
    + destruct IH as (m & Hm & -> & Hv & Hmax). exists (S m). split; [simpl; lia|].
      split; [done|]. split; [done|]. intros k Hk Hkv. destruct k as [|k].
      * rewrite drop_0 in Hkv. congruence.
      * simpl in Hk, Hkv. pose proof (Hmax k ltac:(lia) Hkv). lia.
Qed.

Lemma truncate_prefix text limit :
  exists t, text = truncateProjectedUTF8 text limit ++ t /\
    len (truncateProjectedUTF8 text limit) <= Z.max 0 limit.
Proof.
  unfold truncateProjectedUTF8.
  destruct (Z.leb_spec limit 0); [exists text; split; [done|unfold len; simpl; lia]|].
  destruct (Z.leb_spec (len text) limit); [exists []; rewrite app_nil_r; split; [done|lia]|].
  destruct (shrink_prefix_spec (Z.to_nat limit) text) as (m & Hm & -> & _).
  exists (drop m text). rewrite take_drop. split; [done|]. unfold len. rewrite length_take. lia.
Qed.

Lemma truncate_suffix text limit :
  exists t, text = t ++ truncateProjectedUTF8Suffix text limit /\
    len (truncateProjectedUTF8Suffix text limit) <= Z.max 0 limit.
Proof.
  unfold truncateProjectedUTF8Suffix.
  destruct (Z.leb_spec limit 0); [exists text; rewrite app_nil_r; split; [done|unfold len; simpl; lia]|].
  destruct (Z.leb_spec (len text) limit); [exists []; split; [done|lia]|].
  destruct (shrink_suffix_spec (drop (Z.to_nat (len text - limit)) text)) as (m & Hm & -> & _).
  rewrite drop_drop. exists (take (Z.to_nat (len text - limit) + m) text).
  rewrite take_drop. split; [done|]. unfold len in *. rewrite length_drop in *. lia.
Qed.

Lemma truncate_valid text limit :
  0 < limit < len text -> utf8_valid (truncateProjectedUTF8 text limit) = true.
Proof.
  intros Hl. unfold truncateProjectedUTF8. destruct (Z.leb_spec limit 0); [lia|].
  destruct (Z.leb_spec (len text) limit); [lia|].
  by destruct (shrink_prefix_spec (Z.to_nat limit) text) as (m & _ & -> & Hv & _).
Qed.

Lemma truncate_suffix_valid text limit :
  0 <= limit < len text -> utf8_valid (truncateProjectedUTF8Suffix text limit) = true.
Proof.
  intros Hl. unfold truncateProjectedUTF8Suffix. destruct (Z.leb_spec limit 0); [done|].
  destruct (Z.leb_spec (len text) limit); [lia|].
  by destruct (shrink_suffix_spec (drop (Z.to_nat (len text - limit)) text))
    as (m & _ & -> & Hv & _).
Qed.

Lemma trim_right_newlines_prefix s :
  exists t, s = trim_right_newlines s ++ t /\ (forall c, c ∈ t -> c = newline).
Proof.
  unfold trim_right_newlines.
  assert (H : forall fuel s, exists p, s = p ++ trim_front_fuel fuel [[byte_of 10]] s /\
    forall c, c ∈ p -> c = newline).
  { intros fuel. induction fuel as [|fuel IH]; intros l; simpl; [exists []; split; [done|set_solver]|].
    destruct l as [|c l]; [exists []; split; [done|set_solver]|].
    case_decide as Hc; [|exists []; split; [done|set_solver]].
    destruct (IH l) as (p & Hp & Hall). exists (c :: p). split; [simpl; congruence|].
    intros x [->|Hx]%elem_of_cons; [done|auto]. }
  destruct (H (length (rev s)) (rev s)) as (p & Hp & Hall).
  exists (rev p). split.
  - rewrite <- rev_app_distr. unfold trim_front. rewrite <- Hp. by rewrite rev_involutive.
  - intros c Hc. apply Hall. apply list_elem_of_In in Hc. apply list_elem_of_In.
    by apply in_rev.
Qed.

(** ** Lemmas: the notices *)

Ltac len_app := unfold len in *; cbn [length] in *; rewrite ?length_app in *; cbn [length] in *.

Lemma replay_notice_mono toolName limit kept limit' original :
  0 <= kept <= limit' ->
  len (replay_notice toolName limit kept original) <=
  len (replay_notice toolName limit limit' original).
Proof.
  intros H. pose proof (decimal_length_mono kept limit' H). unfold replay_notice.
  unfold len. cbn [length]. rewrite !length_app. lia.
Qed.

Lemma middle_notice_mono toolName limit kept limit' original :
  0 <= kept <= limit' ->
  len (middle_notice toolName limit kept original) <=
  len (middle_notice toolName limit limit' original).
Proof.
  intros H. pose proof (decimal_length_mono kept limit' H). unfold middle_notice.
  unfold len. cbn [length]. rewrite !length_app. lia.
Qed.

(** What the first iteration returns. *)
Lemma replay_first fuel toolName text limit :
  0 < limit < len text ->
  let notice := replay_notice toolName limit limit (len text) in
  let kept := truncateProjectedUTF8 text (limit - len notice) in
  truncateProjectedReplayText_fuel (S fuel) toolName text limit =
    Some (if limit <=? len notice then truncateProjectedUTF8 text limit
          else trim_right_newlines kept ++ replay_notice toolName limit (len kept) (len text)) /\
  (len notice < limit ->
   len (trim_right_newlines kept ++ replay_notice toolName limit (len kept) (len text)) <= limit).
Proof.
  intros Hl notice kept. unfold truncateProjectedReplayText_fuel.
  destruct (Z.leb_spec limit 0); [lia|]. destruct (Z.leb_spec (len text) limit); [lia|].
  cbn [orb replay_loop]. fold notice. fold kept.
  assert (Hbound : len notice < limit ->
    len (trim_right_newlines kept ++ replay_notice toolName limit (len kept) (len text)) <= limit).
  { intros Hn. destruct (truncate_prefix text (limit - len notice)) as (t & _ & Hk). fold kept in Hk.
    destruct (trim_right_newlines_prefix kept) as (u & Hu & _).
    assert (Hmono : len (replay_notice toolName limit (len kept) (len text)) <= len notice)
      by (apply replay_notice_mono; unfold len in *; lia).
    apply (f_equal (@length _)) in Hu. unfold len in *. rewrite length_app in *. lia. }
  split; [|done].
  destruct (Z.leb_spec (limit - len notice) 0), (Z.leb_spec limit (len notice)); try lia; [done|].
  rewrite (proj2 (Z.leb_le _ limit)); [done|]. by apply Hbound.
Qed.

Lemma replay_fits toolName text limit : 0 < limit ->
  len (truncateProjectedReplayText toolName text limit) <= limit.
Proof.
  intros Hl. destruct (Z.leb_spec (len text) limit) as [Hs|Hs].
  - unfold truncateProjectedReplayText, truncateProjectedReplayText_fuel.
    rewrite (proj2 (Z.leb_gt limit 0)), (proj2 (Z.leb_le (len text) limit)) by lia. cbn [orb default].
    pose proof (trim_space_length text). unfold len in *. simpl. lia.
  - unfold truncateProjectedReplayText.
    destruct (replay_first 0 toolName text limit (conj Hl Hs)) as [-> Hlen]. cbn [default].
    destruct (Z.leb_spec limit (len (replay_notice toolName limit limit (len text)))) as [Hn|Hn].
    + destruct (truncate_prefix text limit) as (t & Ht & Htl). simpl. lia.
    + by apply Hlen.
Qed.

Lemma middle_first fuel toolName text limit :
  0 < limit < len text ->
  let notice := middle_notice toolName limit limit (len text) in
  let keep := limit - len notice in
  let head := truncateProjectedUTF8 text (keep / 2) in
  let tail := truncateProjectedUTF8Suffix text (keep - keep / 2) in
  let output := head ++ middle_notice toolName limit (len head + len tail) (len text) ++ tail in
  truncateProjectedReplayTextMiddle_fuel (S fuel) toolName text limit =
    Some (if limit <=? len notice then truncateProjectedUTF8 text limit else output) /\
  (len notice < limit -> len head <= keep / 2 /\ len tail <= keep - keep / 2 /\ len output <= limit).
Proof.
  intros Hl notice keep head tail output. unfold truncateProjectedReplayTextMiddle_fuel.
  destruct (Z.leb_spec limit 0); [lia|]. destruct (Z.leb_spec (len text) limit); [lia|].
  cbn [middle_loop]. fold notice. fold keep. fold head. fold tail. fold output.
  assert (Hbound : len notice < limit ->
    len head <= keep / 2 /\ len tail <= keep - keep / 2 /\ len output <= limit).
  { intros Hn. assert (0 <= keep / 2 <= keep) by (subst keep; split; [apply Z.div_pos; lia|apply Z.div_le_upper_bound; lia]).
    destruct (truncate_prefix text (keep / 2)) as (t & _ & Hh). fold head in Hh.
    destruct (truncate_suffix text (keep - keep / 2)) as (u & _ & Ht). fold tail in Ht.
    assert (Hmono : len (middle_notice toolName limit (len head + len tail) (len text)) <= len notice)
      by (apply middle_notice_mono; unfold len in *; lia).
    split; [lia|]. split; [lia|]. subst output keep. unfold len in *. rewrite !length_app. lia. }
  split; [|done].
  destruct (Z.leb_spec keep 0), (Z.leb_spec limit (len notice)); try lia; [done|].
  rewrite (proj2 (Z.leb_le _ limit)); [done|]. by apply Hbound.
Qed.

Lemma middle_fits toolName text limit : 0 < limit ->
  len (truncateProjectedReplayTextMiddle toolName text limit) <= limit.
Proof.
  intros Hl. unfold truncateProjectedReplayTextMiddle.
  destruct (Z.leb_spec (len text) limit) as [Hs|Hs].
  - unfold truncateProjectedReplayTextMiddle_fuel.
    by rewrite (proj2 (Z.leb_gt limit 0)), (proj2 (Z.leb_le (len text) limit)) by lia.
  - destruct (middle_first 0 toolName text limit (conj Hl Hs)) as [-> Hlen]. cbn [default].
    destruct (Z.leb_spec limit (len (middle_notice toolName limit limit (len text)))) as [Hn|Hn].
    + destruct (truncate_prefix text limit) as (t & Ht & Htl). simpl. lia.
    + by apply Hlen.
Qed.

(** A newline is no continuation byte, so dropping it keeps the rest valid. *)
Lemma utf8_valid_newline a : utf8_valid (a ++ [newline]) = true -> utf8_valid a = true.
Proof.
  remember (length a) as n eqn:Hn. revert a Hn. induction n as [n IH] using lt_wf_ind.
  intros [|c a1] -> Hv; [done|]. cbn [app utf8_valid] in *.
  destruct (lead_kind c) as [| | |lo hi|lo hi] eqn:Hk; [done|..].
  - apply (IH (length a1)); simpl; [lia|done|done].
  - destruct a1 as [|c2 a2]; [done|]. apply andb_prop in Hv as [-> Hv].
    apply (IH (length a2)); simpl; [lia|done|done].
  - destruct a1 as [|c2 [|c3 a3]]; simpl in Hv; [done|by rewrite andb_false_r in Hv|].
    apply andb_prop in Hv as [-> Hv]. apply (IH (length a3)); simpl; [lia|done|done].
  - destruct a1 as [|c2 [|c3 [|c4 a4]]]; simpl in Hv; [done|done|by rewrite andb_false_r in Hv|].
    apply andb_prop in Hv as [-> Hv]. apply (IH (length a4)); simpl; [lia|done|done].
Qed.

Lemma utf8_valid_newlines a t :
  (forall c, c ∈ t -> c = newline) -> utf8_valid (a ++ t) = true -> utf8_valid a = true.
Proof.
  revert a. induction t as [|c t IH] using rev_ind; intros a Ht Hv; [by rewrite app_nil_r in Hv|].
  rewrite (Ht c) in Hv by set_solver. rewrite app_assoc in Hv.
  apply utf8_valid_newline in Hv. apply IH; [set_solver|done].
Qed.

(** ** Properties *)

(** cutting at a code point keeps as much as it can.  Cutting a longer text to a positive
    limit gives its longest prefix of at most that many bytes that is valid UTF-8; when the
    text itself is valid, at most three bytes below the limit are given up, and the suffix cut
    gives up at most three as well. *)
Theorem utf8_truncation_maximal text limit :
  0 < limit < len text ->
  let out := truncateProjectedUTF8 text limit in
  let tail := truncateProjectedUTF8Suffix text limit in
  (exists rest, text = out ++ rest) /\ utf8_valid out = true /\ len out <= limit /\
  (forall p rest, text = p ++ rest -> utf8_valid p = true -> len p <= limit -> len p <= len out) /\
  (exists start, text = start ++ tail) /\ utf8_valid tail = true /\ len tail <= limit /\
  (utf8_valid text = true -> limit - 3 <= len out /\ limit - 3 <= len tail).
Proof.
  intros Hl out tail.
  destruct (truncate_prefix text limit) as (t & Ht & Hlen). fold out in Ht, Hlen.
  destruct (truncate_suffix text limit) as (u & Hu & Hulen). fold tail in Hu, Hulen.
  split; [by eexists|]. split; [by apply truncate_valid|]. split; [lia|].
  assert (Hmax : forall p rest, text = p ++ rest -> utf8_valid p = true -> len p <= limit ->
    len p <= len out).
  { intros p rest Hp Hv Hpl. subst out. unfold truncateProjectedUTF8.
    destruct (Z.leb_spec limit 0); [lia|]. destruct (Z.leb_spec (len text) limit); [lia|].
    destruct (shrink_prefix_spec (Z.to_nat limit) text) as (m & Hm & -> & _ & Hmax).
    assert (H' : (length p <= m)%nat).
    { apply Hmax; [unfold len in *; lia|]. rewrite Hp. by rewrite take_app_length. }
    unfold len in *. rewrite length_take. rewrite Hp, length_app. lia. }
  split; [exact Hmax|]. split; [by eexists|]. split; [by apply truncate_suffix_valid; lia|].
  split; [lia|]. intros Hv. split.
  - destruct (utf8_cut_before text (Z.to_nat limit) Hv) as (m & Hm & Hmv).
    pose proof (Hmax (take m text) (drop m text)) as H. rewrite take_drop in H.
    unfold len in *. rewrite length_take in H. specialize (H eq_refl Hmv). lia.
  - subst tail. unfold truncateProjectedUTF8Suffix. destruct (Z.leb_spec limit 0); [lia|].
    destruct (Z.leb_spec (len text) limit); [lia|].
    destruct (utf8_cut_after text (Z.to_nat (len text - limit)) Hv) as (m & Hm & Hmv);
      [unfold len; lia|].
    destruct (shrink_suffix_spec (drop (Z.to_nat (len text - limit)) text))
      as (k & Hk & -> & _ & Hmin).
    assert (Hle : (k <= m - Z.to_nat (len text - limit))%nat).
    { apply Hmin; [rewrite length_drop; unfold len in *; lia|]. rewrite drop_drop.
      by replace (Z.to_nat (len text - limit) + (m - Z.to_nat (len text - limit)))%nat with m by lia. }
    unfold len in *. rewrite !length_drop. lia.
Qed.

(** C33: the notice loop of [truncateProjectedReplayText] ends in its first iteration, and its
    result fits the limit.  A text within the limit is only trimmed; a longer one becomes a
    prefix of it, valid UTF-8, followed by a notice or, when the notice alone would not fit, by
    nothing. *)
Theorem replay_truncation_ends toolName text limit :
  0 < limit ->
  let out := truncateProjectedReplayText toolName text limit in
  (forall fuel, truncateProjectedReplayText_fuel (S fuel) toolName text limit = Some out) /\
  len out <= limit /\
  (len text <= limit -> out = trim_space text) /\
  (limit < len text -> exists kept rest notice, text = kept ++ rest /\ out = kept ++ notice /\
     utf8_valid kept = true /\
     (notice = [] \/ exists shown, notice = replay_notice toolName limit shown (len text) /\
        len kept <= shown)).
Proof.
  intros Hl out. subst out. unfold truncateProjectedReplayText.
  destruct (Z.leb_spec (len text) limit) as [Hs|Hs].
  { unfold truncateProjectedReplayText_fuel. rewrite (proj2 (Z.leb_gt limit 0)) by lia.
    rewrite (proj2 (Z.leb_le (len text) limit)) by lia. cbn [orb default].
    split; [done|]. pose proof (trim_space_length text). split; [unfold len in *; simpl; lia|].
    split; [done|lia]. }
  pose proof (fun fuel => replay_first fuel toolName text limit (conj Hl Hs)) as Hfirst.
  cbv zeta in Hfirst. destruct (Hfirst 0%nat) as [-> Hlen]. cbn [default].
  split; [intros fuel; apply Hfirst|].
  destruct (Z.leb_spec limit (len (replay_notice toolName limit limit (len text)))) as [Hn|Hn].
  - destruct (truncate_prefix text limit) as (t & Ht & Htl). split; [simpl; lia|].
    split; [lia|]. intros _. exists (truncateProjectedUTF8 text limit), t, [].
    rewrite app_nil_r. split; [done|]. split; [done|]. split; [by apply truncate_valid|by left].
  - split; [by apply Hlen|]. split; [lia|]. intros _.
    set (keep := limit - _) in *.
    destruct (truncate_prefix text keep) as (t & Ht & Htl).
    destruct (trim_right_newlines_prefix (truncateProjectedUTF8 text keep)) as (u & Hu & Hall).
    exists (trim_right_newlines (truncateProjectedUTF8 text keep)), (u ++ t). eexists.
    rewrite app_assoc, <- Hu. split; [done|]. split; [done|]. split.
    + apply (utf8_valid_newlines _ u); [done|]. rewrite <- Hu.
      apply truncate_valid. pose proof (Z.le_refl 0). subst keep.
      assert (0 <= len (replay_notice toolName limit limit (len text))) by (unfold len; lia). lia.
    + right. eexists. split; [done|]. apply (f_equal (@length _)) in Hu.
      rewrite length_app in Hu. unfold len in *. lia.
Qed.

(** the notice loop of [truncateProjectedReplayTextMiddle] ends in its first iteration, and
    its result fits the limit.  A text within the limit is unchanged; a longer one keeps
    disjoint parts of its two ends, both valid UTF-8, around a notice that counts what is
    kept, or just a prefix when the notice would not fit. *)
Theorem middle_truncation_ends toolName text limit :
  0 < limit ->
  let out := truncateProjectedReplayTextMiddle toolName text limit in
  (forall fuel, truncateProjectedReplayTextMiddle_fuel (S fuel) toolName text limit = Some out) /\
  len out <= limit /\
  (len text <= limit -> out = text) /\
  (limit < len text -> exists head mid tail, text = head ++ mid ++ tail /\ mid <> [] /\
     utf8_valid head = true /\ utf8_valid tail = true /\
     (out = head /\ tail = [] \/
      out = head ++ middle_notice toolName limit (len head + len tail) (len text) ++ tail)).
Proof.
  intros Hl out. subst out. unfold truncateProjectedReplayTextMiddle.
  destruct (Z.leb_spec (len text) limit) as [Hs|Hs].
  { unfold truncateProjectedReplayTextMiddle_fuel. rewrite (proj2 (Z.leb_gt limit 0)) by lia.
    rewrite (proj2 (Z.leb_le (len text) limit)) by lia. cbn [default]. split; [done|].
    split; [done|]. split; [done|lia]. }
  pose proof (fun fuel => middle_first fuel toolName text limit (conj Hl Hs)) as Hfirst.
  cbv zeta in Hfirst. destruct (Hfirst 0%nat) as [-> Hlen]. cbn [default].
  split; [intros fuel; apply Hfirst|]. clear Hfirst.
  set (notice := middle_notice toolName limit limit (len text)) in *.
  destruct (Z.leb_spec limit (len notice)) as [Hn|Hn].
  - destruct (truncate_prefix text limit) as (t & Ht & Htl). split; [simpl; lia|].
    split; [lia|]. intros _. exists (truncateProjectedUTF8 text limit), t, [].
    rewrite app_nil_r. split; [done|]. split.
    { intros ->. rewrite app_nil_r in Ht. rewrite Ht in Hs at 1. lia. }
    split; [by apply truncate_valid|]. split; [done|by left].
  - destruct (Hlen Hn) as (Hh & Ht & Hout). split; [exact Hout|]. split; [lia|]. intros _.
    assert (0 <= len notice) by (unfold len; lia).
    set (keep := limit - len notice) in *.
    assert (Hhalf : 0 <= keep / 2 <= keep) by
      (subst keep; split; [apply Z.div_pos; lia|apply Z.div_le_upper_bound; lia]).
    set (head := truncateProjectedUTF8 text (keep / 2)) in *.
    set (tail := truncateProjectedUTF8Suffix text (keep - keep / 2)) in *.
    destruct (truncate_prefix text (keep / 2)) as (t & Ett & _). fold head in Ett.
    destruct (truncate_suffix text (keep - keep / 2)) as (u & Euu & _). fold tail in Euu.
    assert (Hsum : len head + len tail < len text) by lia.
    assert (Hlt : (length head <= length u)%nat).
    { apply (f_equal (@length _)) in Euu. rewrite length_app in Euu. unfold len in *. lia. }
    assert (Eu : u = head ++ drop (length head) u).
    { assert (Etake : take (length head) u = head).
      { apply (f_equal (take (length head))) in Ett. rewrite take_app_length in Ett.
        rewrite Euu, take_app_le in Ett by done. done. }
      rewrite <- Etake at 1. by rewrite take_drop. }
    exists head, (drop (length head) u), tail. split; [by rewrite app_assoc, <- Eu|]. split.
    { intros E. rewrite E, app_nil_r in Eu. rewrite Euu, Eu in Hsum. unfold len in Hsum.
      rewrite length_app in Hsum. lia. }
    split.
    { destruct (decide (keep / 2 = 0)) as [E|]; [subst head; by rewrite E|].
      apply truncate_valid. lia. }
    split; [apply truncate_suffix_valid; lia|]. by right.
Qed.

Lemma utf8_truncation_maximal_witness :
  0 < 5 < len (bytes_of "aéé€") /\
  utf8_valid (truncateProjectedUTF8 (bytes_of "aéé€") 5) = true.
Proof.
  split; [vm_compute; split; reflexivity|].
  apply (utf8_truncation_maximal (bytes_of "aéé€") 5). vm_compute. split; reflexivity.
Defined.

Lemma replay_truncation_ends_witness :
  len (truncateProjectedReplayText (bytes_of "Read") (repeat newline 200) 100) <= 100.
Proof. apply (replay_truncation_ends (bytes_of "Read") (repeat newline 200) 100). reflexivity. Defined.

Lemma middle_truncation_ends_witness :
  len (truncateProjectedReplayTextMiddle (bytes_of "Shell stdout") (repeat newline 300) 150) <= 150.
Proof.
  apply (middle_truncation_ends (bytes_of "Shell stdout") (repeat newline 300) 150). reflexivity.
Defined.
