(* ===== verification/EditResult.v ===== *)
(** * The results of edits (forwarder/edit_result_helpers.go, write_tool.go, events.go).

    The oneofs of the agent protocol are inductive types ([...Unset] is a message without a
    variant, an absent pointer is [None]); the functions translate read and write results into
    edit results, summarise them for the model and compact them for the history. *)

From S2P Require Import Prelude Go Strings Utf8 Truncation EditText.

(** ** Data *)

Record EditSuccess := mkEditSuccess {
  SuccessPath : string;
  BeforeFullFileContent : option string;
  AfterFullFileContent : string;
  DiffString : option string;
  LinesAdded : option Z;
  LinesRemoved : option Z;
  SuccessMessage : option string
}.

Inductive EditResult :=
| EditResultSuccess (success : EditSuccess)
| EditResultFileNotFound (path : string)
| EditResultReadPermissionDenied (path : string)
| EditResultWritePermissionDenied (path error : string)
| EditResultRejected (path reason : string)
| EditResultError (path error : string) (modelVisibleError : option string)
| EditResultUnset.

Inductive ReadOutput :=
| ReadSuccessContent (content : string)
| ReadSuccessData (data : bytes)
| ReadSuccessNoOutput.

Record ReadSuccess := mkReadSuccess {
  ReadPath : string;
  ReadTruncated : bool;
  ReadOutput_ : ReadOutput;
  OutputBlobId : option bytes
}.

Inductive ReadResult :=
| ReadResultFileNotFound (path : string)
| ReadResultPermissionDenied (path : string)
| ReadResultRejected (path reason : string)
| ReadResultInvalidFile (path reason : string)
| ReadResultError (path error : string)
| ReadResultSuccess (success : ReadSuccess)
| ReadResultUnset.

Inductive WriteResult :=
| WriteResultPermissionDenied (path error : string)
| WriteResultRejected (path reason : string)
| WriteResultNoSpace (path : string)
| WriteResultError (path error : string)
| WriteResultSuccess (path fileContentAfterWrite : string)
| WriteResultUnset.

Record editResultPayload := mkEditPayload {
  PayloadBefore : string;
  PayloadAfter : string;
  PayloadDiff : string;
  PayloadAdded : Z;
  PayloadRemoved : Z;
  PayloadMessage : string
}.

Definition editReadBinaryContentLimit : Z := 32 * 1024.

Definition projectedEditReplayLimit : Z := 32 * 1024.

(** ** Operations *)

Definition stringPtr (value : string) : option string :=
  if decide (TrimSpace value = EmptyString) then None else Some (TrimSpace value).

Definition literalStringPtr (value : string) : option string :=
  if decide (value = EmptyString) then None else Some value.

Definition normalize_lf (s : string) : string := string_of (normalizeLineEndingsToLF (bytes_of s)).

Definition truncate_text (toolName text : string) (limit : Z) : string :=
  string_of (truncateProjectedReplayText (bytes_of toolName) (bytes_of text) limit).

(** [success.LinesAdded] is set when the count is not zero. *)
Definition nonzero_ptr (n : Z) : option Z := if n =? 0 then None else Some n.

Definition buildSuccessfulEditResult (path beforeContent afterContent diffString : string)
    (linesAdded linesRemoved : Z) (message : string) : EditResult :=
  EditResultSuccess (mkEditSuccess (TrimSpace path) (literalStringPtr beforeContent) afterContent
    (literalStringPtr diffString) (nonzero_ptr linesAdded) (nonzero_ptr linesRemoved)
    (if decide (message = EmptyString) then None else stringPtr message)).

Definition buildEditErrorResult (path errorMessage : string) : EditResult :=
  EditResultError (TrimSpace path) (TrimSpace errorMessage) (stringPtr (TrimSpace errorMessage)).

Definition decodeReadDataAsEditableText (data : bytes) : string * bool * string :=
  if editReadBinaryContentLimit <? len data then
    (EmptyString, false,
     "Read returned binary data larger than " +:+ Sprintd editReadBinaryContentLimit +:+ " bytes")
  else if negb (utf8_valid data) then
    (EmptyString, false, "Read returned binary data that is not valid UTF-8 text")
  else (string_of data, true, EmptyString).

Definition buildEditResultFromReadResult (path : string) (result : option ReadResult)
  : EditResult :=
  match result with
  | None => buildEditErrorResult path "read result missing"
  | Some (ReadResultFileNotFound p) => EditResultFileNotFound (firstNonEmpty [p; path])
  | Some (ReadResultPermissionDenied p) => EditResultReadPermissionDenied (firstNonEmpty [p; path])
  | Some (ReadResultRejected p reason) => EditResultRejected (firstNonEmpty [p; path]) reason
  | Some (ReadResultInvalidFile p reason) => buildEditErrorResult (firstNonEmpty [p; path]) reason
  | Some (ReadResultError p error) => buildEditErrorResult (firstNonEmpty [p; path]) error
  | Some (ReadResultSuccess s) =>
      buildEditErrorResult (firstNonEmpty [ReadPath s; path])
        "read result did not include editable text content"
  | Some ReadResultUnset => buildEditErrorResult path "unknown read result"
  end.

Definition buildEditResultFromWriteResult (path : string) (result : option WriteResult)
  : EditResult :=
  match result with
  | None => buildEditErrorResult path "write result missing"
  | Some (WriteResultPermissionDenied p error) =>
      EditResultWritePermissionDenied (firstNonEmpty [p; path]) error
  | Some (WriteResultRejected p reason) => EditResultRejected (firstNonEmpty [p; path]) reason
  | Some (WriteResultNoSpace p) => buildEditErrorResult (firstNonEmpty [p; path]) "no space left"
  | Some (WriteResultError p error) => buildEditErrorResult (firstNonEmpty [p; path]) error
  | Some (WriteResultSuccess p content) =>
      buildSuccessfulEditResult (firstNonEmpty [p; path]) EmptyString content EmptyString 0 0
        EmptyString
  | Some WriteResultUnset => buildEditErrorResult path "unknown write result"
  end.

(** [extractReadContentForEdit]: the text and whether there is one. *)
Definition extractReadContentForEdit (result : ReadResult) : string * bool :=
  match result with
  | ReadResultSuccess success =>
      match ReadOutput_ success with
      | ReadSuccessContent content => (normalize_lf content, true)
      | ReadSuccessData data =>
          let '(text, ok, _) := decodeReadDataAsEditableText data in (normalize_lf text, ok)
      | ReadSuccessNoOutput =>
          match OutputBlobId success with
          | Some _ => (EmptyString, false)
          | None => (EmptyString, true)
          end
      end
  | _ => (EmptyString, false)
  end.

Definition summarizeEditResult (result : option EditResult) : string :=
  match result with
  | None => "edit result missing"
  | Some (EditResultSuccess s) => AfterFullFileContent s
  | Some (EditResultFileNotFound p) => "file not found: " +:+ p
  | Some (EditResultReadPermissionDenied p) => "permission denied: " +:+ p
  | Some (EditResultWritePermissionDenied _ error) => error
  | Some (EditResultRejected _ reason) => reason
  | Some (EditResultError _ error _) => error
  | Some EditResultUnset => "unknown edit result"
  end.

Definition summarizeEditResultWithoutPath (result : option EditResult) : string :=
  match result with
  | None => "edit result missing"
  | Some (EditResultSuccess s) => AfterFullFileContent s
  | Some (EditResultFileNotFound _) => "file not found"
  | Some (EditResultReadPermissionDenied _) => "permission denied"
  | Some (EditResultWritePermissionDenied _ error) => error
  | Some (EditResultRejected _ reason) => reason
  | Some (EditResultError _ error _) => error
  | Some EditResultUnset => "unknown edit result"
  end.

Definition editResultWithoutPath (result : EditResult) : EditResult :=
  match result with
  | EditResultSuccess s =>
      EditResultSuccess (mkEditSuccess EmptyString (BeforeFullFileContent s)
        (AfterFullFileContent s) (DiffString s) (LinesAdded s) (LinesRemoved s)
        (SuccessMessage s))
  | EditResultFileNotFound _ => EditResultFileNotFound EmptyString
  | EditResultReadPermissionDenied _ => EditResultReadPermissionDenied EmptyString
  | EditResultWritePermissionDenied _ error => EditResultWritePermissionDenied EmptyString error
  | EditResultRejected _ reason => EditResultRejected EmptyString reason
  | EditResultError _ error visible => EditResultError EmptyString error visible
  | EditResultUnset => EditResultUnset
  end.

Definition resultPath (result : option EditResult) : string :=
  match result with
  | Some (EditResultSuccess s) => TrimSpace (SuccessPath s)
  | Some (EditResultFileNotFound p) | Some (EditResultReadPermissionDenied p)
  | Some (EditResultWritePermissionDenied p _) | Some (EditResultRejected p _)
  | Some (EditResultError p _ _) => TrimSpace p
  | Some EditResultUnset | None => EmptyString
  end.

Section Diffs.
Context (line_diffs : bytes -> bytes -> list Diff).

(** [computeEditDiff] on strings. *)
Definition diff_strings (before after : string) : string * Z * Z :=
  let '(diff, added, removed) := computeEditDiff line_diffs (bytes_of before) (bytes_of after) in
  (string_of diff, added, removed).

Definition buildFinalEditSuccessResult (path afterContent : string) (payload : editResultPayload)
  : EditResult :=
  let '(diffString, linesAdded, linesRemoved) :=
    if decide (afterContent = PayloadAfter payload)
    then (PayloadDiff payload, PayloadAdded payload, PayloadRemoved payload)
    else diff_strings (PayloadBefore payload) afterContent in
  buildSuccessfulEditResult path (PayloadBefore payload) afterContent diffString linesAdded
    linesRemoved (PayloadMessage payload).

Definition compactEditHistoryResult (path : string) (result : option EditResult)
    (contentLimit : Z) : EditResult :=
  match result with
  | None => buildEditErrorResult EmptyString "edit result missing"
  | Some (EditResultSuccess success) =>
      let contentLimit := if contentLimit <? 1 then projectedEditReplayLimit else contentLimit in
      let get p := default EmptyString p in
      let beforeContent := truncate_text "Edit" (get (BeforeFullFileContent success)) contentLimit in
      let afterContent := truncate_text "Edit" (AfterFullFileContent success) contentLimit in
      let diffString := truncate_text "Edit" (get (DiffString success)) contentLimit in
      let diffString :=
        if bool_decide (diffString = EmptyString) &&
           negb (bool_decide (beforeContent = EmptyString) && bool_decide (afterContent = EmptyString))
        then truncate_text "Edit" (diff_strings beforeContent afterContent).1.1 contentLimit
        else diffString in
      EditResultSuccess (mkEditSuccess (firstNonEmpty [SuccessPath success; path])
        (literalStringPtr beforeContent) afterContent (literalStringPtr diffString)
        (LinesAdded success) (LinesRemoved success) (SuccessMessage success))
  | Some result => editResultWithoutPath result
  end.

(** ** Property *)

Definition size (s : string) : Z := len (bytes_of s).

Lemma truncate_text_bound toolName text limit :
  0 < limit -> size (truncate_text toolName text limit) <= limit.
Proof.
  intros Hl. unfold size, truncate_text. rewrite bytes_of_string_of.
  unfold truncateProjectedReplayText.
  destruct (Z.leb_spec (len (bytes_of text)) limit) as [Hs|Hs].
  - unfold truncateProjectedReplayText_fuel. rewrite (proj2 (Z.leb_gt limit 0)) by lia.
    rewrite (proj2 (Z.leb_le _ limit)) by lia. cbn [orb default].
    pose proof (trim_space_length (bytes_of text)). unfold len in *. simpl. lia.
  - destruct (replay_first 0 (bytes_of toolName) (bytes_of text) limit (conj Hl Hs)) as [-> Hout].
    cbn [default]. destruct (Z.leb_spec limit (len (replay_notice (bytes_of toolName) limit limit
      (len (bytes_of text))))) as [Hn|Hn].
    + destruct (truncate_prefix (bytes_of text) limit) as (t & _ & H). simpl. lia.
    + by apply Hout.
Qed.

(** what an edit leaves in the history is bounded.  The compacted result of a successful
    edit keeps at most the limit of each of the three texts, the line counts and the message,
    under the result's path or else the given one; a failed edit keeps its kind and error and
    loses its path. *)
Theorem compact_history_bounded path result limit :
  let bound := if limit <? 1 then projectedEditReplayLimit else limit in
  match compactEditHistoryResult path result limit with
  | EditResultSuccess s =>
      size (AfterFullFileContent s) <= bound /\
      (forall t, BeforeFullFileContent s = Some t -> 0 < size t <= bound) /\
      (forall t, DiffString s = Some t -> 0 < size t <= bound) /\
      exists s0, result = Some (EditResultSuccess s0) /\
        SuccessPath s = firstNonEmpty [SuccessPath s0; path] /\
        LinesAdded s = LinesAdded s0 /\ LinesRemoved s = LinesRemoved s0 /\
        SuccessMessage s = SuccessMessage s0
  | compacted =>
      resultPath (Some compacted) = EmptyString /\
      summarizeEditResultWithoutPath (Some compacted) = summarizeEditResultWithoutPath result
  end.
Proof.
  intros bound. assert (Hbound : 0 < bound).
  { subst bound. destruct (Z.ltb_spec limit 1); [done|lia]. }
  assert (Hlit : forall text t, size text <= bound -> literalStringPtr text = Some t ->
    0 < size t <= bound).
  { intros text t Hs. unfold literalStringPtr. case_decide as He; [done|]. intros [= <-].
    split; [|done]. unfold size, len. destruct text; [done|]. simpl. lia. }
  destruct result as [[s|p|p|p e|p r|p e v|]|]; cbn [compactEditHistoryResult]; try done.
  fold bound. cbv zeta. cbn [AfterFullFileContent BeforeFullFileContent DiffString].
  split; [by apply truncate_text_bound|]. split; [intros t; by apply Hlit, truncate_text_bound|].
  split; [|by eexists]. intros t. apply Hlit. case_match; by apply truncate_text_bound.
Qed.

End Diffs.
