(* ===== verification/Effect.v ===== *)
(** * The state and error monad of the components that call services.

    [SE W A] is a call that reads and changes a world [W] and returns an [A] or an error; the
    changes made before an error stay, as they do in Go. *)

From S2P Require Import Prelude Go.

Definition SE (W A : Type) : Type := W -> result A * W.

Definition ret {W A} (a : A) : SE W A := fun w => (Ok a, w).

Definition bind {W A C} (m : SE W A) (k : A -> SE W C) : SE W C := fun w =>
  match m w with
  | (Ok a, w) => k a w
  | (Err e, w) => (Err e, w)
  end.

(** A call whose error the caller handles. *)
Definition try {W A} (m : SE W A) : SE W (result A) := fun w => let '(r, w) := m w in (Ok r, w).

Declare Scope effect_scope.
Delimit Scope effect_scope with effect.
Notation "x <- m ;; k" := (bind m (fun x => k))
  (at level 100, m at next level, right associativity) : effect_scope.
Notation "m ;;; k" := (bind m (fun _ => k)) (at level 100, right associativity) : effect_scope.
#[global] Open Scope effect_scope.

(** The result of a sequence that returned. *)
Lemma bind_ok {W A C} (m : SE W A) (k : A -> SE W C) w c w' :
  bind m k w = (Ok c, w') -> exists a w1, m w = (Ok a, w1) /\ k a w1 = (Ok c, w').
Proof. unfold bind. destruct (m w) as [[a|e] w1]; [by eauto|done]. Qed.

Lemma bind_step {W A C} (m : SE W A) (k : A -> SE W C) w a w1 :
  m w = (Ok a, w1) -> bind m k w = k a w1.
Proof. unfold bind. by intros ->. Qed.

(** ** Weakest preconditions

    What holds of a call in terms of a view of the world, the part a proof is about: [Q] of the
    value when it returns, [E] when it fails. *)

Section WP.
Context {W V : Type} (view : W -> V).

Definition wp {A} (m : SE W A) (Q : A -> V -> Prop) (E : V -> Prop) (v : V) : Prop :=
  forall w, view w = v ->
    match m w with
    | (Ok a, w') => Q a (view w')
    | (Err _, w') => E (view w')
    end.

Lemma wp_ret {A} (a : A) (Q : A -> V -> Prop) (E : V -> Prop) v : Q a v -> wp (ret a) Q E v.
Proof. by intros H w <-. Qed.

Lemma wp_bind {A B} (m : SE W A) (k : A -> SE W B) (Q : B -> V -> Prop) (E : V -> Prop) v :
  wp m (fun a v' => wp (k a) Q E v') E v -> wp (bind m k) Q E v.
Proof.
  intros H w Hw. specialize (H w Hw). unfold bind. destruct (m w) as [[a|e] w'].
  - by apply H.
  - exact H.
Qed.

Lemma wp_try {A} (m : SE W A) (Q : result A -> V -> Prop) (E : V -> Prop) v :
  wp m (fun a v' => Q (Ok a) v') (fun v' => forall e, Q (Err e) v') v -> wp (try m) Q E v.
Proof.
  intros H w Hw. specialize (H w Hw). unfold try. destruct (m w) as [[a|e] w']; [exact H|apply H].
Qed.

Lemma wp_mono {A} (m : SE W A) (Q Q' : A -> V -> Prop) (E E' : V -> Prop) v :
  wp m Q E v -> (forall a v', Q a v' -> Q' a v') -> (forall v', E v' -> E' v') -> wp m Q' E' v.
Proof.
  intros H HQ HE w Hw. specialize (H w Hw). destruct (m w) as [[a|e] w']; [by apply HQ|by apply HE].
Qed.
End WP.
