(* ===== verification/ToolArgs.v ===== *)
(** * Reading the arguments of a tool call (agent/core/tool_args.go).

    The arguments are a JSON object decoded with [UseNumber]: a number is its text.  The floats and
    native integers that the functions also accept never come from such a decoder and are left out,
    and so are float arguments.  Decoding itself is a parameter of the files that use it. *)

From S2P Require Import Prelude Go Strings.

Inductive ArgValue :=
| ArgNull
| ArgBool (b : bool)
| ArgString (s : string)
| ArgNumber (text : string)
| ArgArray (items : list ArgValue)
| ArgObject (members : list (string * ArgValue)).

Definition ArgsMap : Type := gmap string ArgValue.

Section ToolArgs.
Context (args : ArgsMap).

Fixpoint readArgValue (keys : list string) : option (ArgValue * string) :=
  match keys with
  | [] => None
  | key :: keys =>
      match args !! key with
      | None | Some ArgNull => readArgValue keys
      | Some value => Some (value, key)
      end
  end.

Definition HasArgKey (keys : list string) : bool := bool_decide (is_Some (readArgValue keys)).

Fixpoint ReadStringArg (keys : list string) : string :=
  match keys with
  | [] => EmptyString
  | key :: keys => match args !! key with Some (ArgString text) => text | _ => ReadStringArg keys end
  end.

Fixpoint ReadBoolArg (keys : list string) : bool :=
  match keys with
  | [] => false
  | key :: keys => match args !! key with Some (ArgBool item) => item | _ => ReadBoolArg keys end
  end.

Definition BoolPtrIfPresent (keys : list string) : option bool :=
  if HasArgKey keys then Some (ReadBoolArg keys) else None.

Definition trimmed_texts (items : list ArgValue) : list string :=
  List.filter (fun text => negb (bool_decide (text = EmptyString)))
    (List.flat_map (fun item => match item with ArgString text => [TrimSpace text] | _ => [] end) items).

Fixpoint ReadStringSliceArg (keys : list string) : list string :=
  match keys with
  | [] => []
  | key :: keys => match args !! key with Some (ArgArray items) => trimmed_texts items | _ => ReadStringSliceArg keys end
  end.

(** ** Numbers *)

(** The number of a text of digits. *)
Fixpoint digits_value (n : Z) (s : bytes) : option Z :=
  match s with
  | [] => Some n
  | c :: s =>
      let d := Z.of_nat (nat_of_ascii c) - 48 in
      if (0 <=? d) && (d <=? 9) then digits_value (n * 10 + d) s else None
  end.

(** [strconv.ParseUint] in base 10, [None] being an error. *)
Definition ParseUint (s : bytes) (max : Z) : option Z :=
  if decide (s = []) then None
  else match digits_value 0 s with
       | Some n => if n <=? max then Some n else None
       | None => None
       end.

(** [strconv.ParseInt] in base 10. *)
Definition ParseInt (s : bytes) (min max : Z) : option Z :=
  let '(neg, digits) := signed_digits s in
  if decide (digits = []) then None
  else match digits_value 0 digits with
       | Some n => if neg then if - n <? min then None else Some (- n)
                   else if max <? n then None else Some n
       | None => None
       end.

Definition parseIntegerLiteral (raw key : string) (minValue maxValue : Z) : result Z :=
  if decide (raw = EmptyString) then Err (key +:+ " must be an integer")
  else match ParseInt (bytes_of raw) (- 2 ^ 63) max_int64 with
       | None => Err (key +:+ " must be an integer")
       | Some parsed =>
           if (parsed <? minValue) || (maxValue <? parsed)
           then Err (key +:+ " is outside supported integer range") else Ok parsed
       end.

Definition parseUnsignedIntegerLiteral (raw key : string) (maxValue : Z) : result Z :=
  if decide (raw = EmptyString) then Err (key +:+ " must be a non-negative integer")
  else match ParseUint (bytes_of raw) max_uint64 with
       | None => Err (key +:+ " must be a non-negative integer")
       | Some parsed =>
           if maxValue <? parsed then Err (key +:+ " is outside supported unsigned integer range") else Ok parsed
       end.

Definition parseIntegerValue (value : ArgValue) (key : string) (minValue maxValue : Z) : result Z :=
  match value with
  | ArgNumber item => parseIntegerLiteral item key minValue maxValue
  | ArgString item => parseIntegerLiteral (TrimSpace item) key minValue maxValue
  | _ => Err (key +:+ " must be an integer")
  end.

Definition parseUnsignedIntegerValue (value : ArgValue) (key : string) (maxValue : Z) : result Z :=
  match value with
  | ArgNumber item => parseUnsignedIntegerLiteral item key maxValue
  | ArgString item => parseUnsignedIntegerLiteral (TrimSpace item) key maxValue
  | _ => Err (key +:+ " must be a non-negative integer")
  end.

(** The value, and whether there is one. *)
Definition read_integer (parse : ArgValue -> string -> result Z) (keys : list string) : result Z * bool :=
  match readArgValue keys with
  | None => (Ok 0, false)
  | Some (value, key) => (parse value key, true)
  end.

Definition int64MinForBits (bits : Z) : Z := if 64 <=? bits then - 2 ^ 63 else - 2 ^ (bits - 1).
Definition int64MaxForBits (bits : Z) : Z := if 64 <=? bits then max_int64 else 2 ^ (bits - 1) - 1.

(** [strconv.IntSize] is 64. *)
Definition ReadIntArg : list string -> result Z * bool :=
  read_integer (fun value key => parseIntegerValue value key (int64MinForBits 64) (int64MaxForBits 64)).

Definition ReadInt32Arg : list string -> result Z * bool :=
  read_integer (fun value key => parseIntegerValue value key (- 2 ^ 31) (2 ^ 31 - 1)).

Definition ReadInt64Arg : list string -> result Z * bool :=
  read_integer (fun value key => parseIntegerValue value key (- 2 ^ 63) max_int64).

Definition ReadUint32Arg : list string -> result Z * bool :=
  read_integer (fun value key => parseUnsignedIntegerValue value key (2 ^ 32 - 1)).

End ToolArgs.

(** ** Theorems *)

Lemma digits_value_parsed k s n : parse_uint k s = Some n -> n < max_uint64 -> digits_value k s = Some n.
Proof.
  revert k. induction s as [|c s IH]; intros k; cbn [parse_uint digits_value]; [done|].
  destruct (_ && _); [|done]. destruct (max_uint64 <? _); [intros [= <-]; lia|apply IH].
Qed.

(** A number that fits is read as it was written, with a sign where it is negative. *)
Lemma ParseInt_decimal n min max : min <= n <= max -> - max_int64 <= n <= max_int64 -> ParseInt (decimal n) min max = Some n.
Proof.
  intros Hr Hb. destruct (decide (n < 0)) as [Hneg|Hpos].
  - destruct (decimal_parsed (- n)) as (_ & Hne & Hp); [lia|]. unfold decimal in *.
    rewrite (proj2 (Z.ltb_ge (- n) 0)) in Hne, Hp by lia. rewrite (proj2 (Z.ltb_lt n 0)) by lia.
    assert (Hs : signed_digits (byte_of 45 :: decimal_nonneg (- n)) = (true, decimal_nonneg (- n))) by done.
    unfold ParseInt. rewrite Hs, decide_False by done.
    rewrite (digits_value_parsed 0 _ _ Hp) by (unfold max_uint64, max_int64 in *; lia).
    rewrite (proj2 (Z.ltb_ge _ _)) by lia. f_equal. lia.
  - pose proof (Atoi_decimal n ltac:(lia)) as Ha. destruct (decimal_parsed n) as (_ & Hne & Hp); [lia|].
    unfold Atoi, ParseInt in *. destruct (signed_digits (decimal n)) as [neg digits].
    destruct (decide (digits = [])); [done|]. destruct (parse_uint 0 digits) as [un|] eqn:Hun; [|done].
    assert (Hle : un <= 2 ^ 63).
    { destruct neg; [destruct (Z.leb_spec un (2 ^ 63)); [done|discriminate Ha]|].
      destruct (Z.leb_spec un max_int64); [unfold max_int64 in *; lia|discriminate Ha]. }
    rewrite (digits_value_parsed 0 _ _ Hun) by (unfold max_uint64; lia).
    destruct neg.
    + destruct (Z.leb_spec un (2 ^ 63)); [|done]. injection Ha as Ha. rewrite (proj2 (Z.ltb_ge _ _)) by lia. by f_equal.
    + destruct (Z.leb_spec un max_int64); [|done]. injection Ha as Ha. rewrite (proj2 (Z.ltb_ge _ _)) by lia. by f_equal.
Qed.

(** Integer arguments are lossless.  What an integer argument is read as lies in the range of its
    type, never wrapped into it; and an integer of this range is read back from its decimal text, given as a
    number or as a string with space around it, under the first of the keys that has a value. *)
Theorem integer_arguments_lossless (args : ArgsMap) keys minValue maxValue :
  - max_int64 <= minValue -> maxValue <= max_int64 ->
  let read := read_integer args (fun value key => parseIntegerValue value key minValue maxValue) keys in
  (forall v, read.1 = Ok v -> read.2 = true -> minValue <= v <= maxValue) /\
  (forall value key n, readArgValue args keys = Some (value, key) -> minValue <= n <= maxValue ->
     value = ArgNumber (Sprintd n) \/ (exists text, value = ArgString text /\ TrimSpace text = Sprintd n) ->
     read = (Ok n, true)).
Proof.
  intros Hmin Hmax. cbv zeta. unfold read_integer. split.
  - intros v. destruct (readArgValue args keys) as [[value key]|]; cbn [fst snd]; [|done]. intros Hv _.
    assert (Hlit : forall raw, parseIntegerLiteral raw key minValue maxValue = Ok v -> minValue <= v <= maxValue).
    { intros raw. unfold parseIntegerLiteral. destruct (decide (raw = EmptyString)); [done|].
      destruct (ParseInt _ _ _) as [parsed|]; [|done]. destruct (Z.ltb_spec parsed minValue), (Z.ltb_spec maxValue parsed);
        cbn; try done. intros [= <-]. lia. }
    destruct value; try done; by eapply Hlit.
  - intros value key n -> Hn Hvalue.
    assert (Hlit : parseIntegerLiteral (Sprintd n) key minValue maxValue = Ok n).
    { unfold parseIntegerLiteral. rewrite decide_False.
      - unfold Sprintd. rewrite bytes_of_string_of, ParseInt_decimal by (unfold max_int64 in *; lia).
        rewrite (proj2 (Z.ltb_ge n minValue)), (proj2 (Z.ltb_ge maxValue n)) by lia. done.
      - intros E. apply (f_equal bytes_of) in E. unfold Sprintd in E. rewrite bytes_of_string_of in E.
        pose proof (ParseInt_decimal n minValue maxValue Hn ltac:(lia)) as Hp. rewrite E in Hp. done. }
    destruct Hvalue as [-> | (text & -> & Ht)]; cbn [parseIntegerValue]; rewrite ?Ht; by rewrite Hlit.
Qed.

Module Demo.
Definition args : ArgsMap := <["timeoutMs" := ArgString " -250 "]> (<["timeout_ms" := ArgNull]> ∅).

Definition keys : list string := ["timeout_ms"; "timeoutMs"].

Example read_from_text : ReadInt32Arg args keys = (Ok (- 250), true).
Proof. vm_compute. reflexivity. Qed.

Example out_of_range_refused :
  ReadUint32Arg (<["id" := ArgNumber "4294967296"]> ∅) ["id"] = (Err "id is outside supported unsigned integer range", true).
Proof. vm_compute. reflexivity. Qed.
End Demo.

Lemma integer_arguments_lossless_witness :
  - max_int64 <= - 2 ^ 31 /\ 2 ^ 31 - 1 <= max_int64 /\ ReadInt32Arg Demo.args Demo.keys = (Ok (- 250), true).
Proof.
  assert (H1 : - max_int64 <= - 2 ^ 31) by (vm_compute; discriminate).
  assert (H2 : 2 ^ 31 - 1 <= max_int64) by (vm_compute; discriminate).
  split; [exact H1|]. split; [exact H2|].
  apply (proj2 (integer_arguments_lossless Demo.args Demo.keys (- 2 ^ 31) (2 ^ 31 - 1) H1 H2)
    (ArgString " -250 ") "timeoutMs" (- 250)).
  - vm_compute. reflexivity.
  - split; vm_compute; discriminate.
  - right. exists " -250 ". split; [reflexivity|vm_compute; reflexivity].
Defined.
