(* ===== verification/ToolProgress.v ===== *)
(** * Showing a tool call while its arguments still stream (agent/model/anthropic.go,
    openai.go, create_plan_progress.go).

    A provider streams the arguments of a tool call as pieces of a JSON text.  At every piece
    [emitOpenAIToolProgress] reads what it can of the unfinished text
    ([extractJSONStringFieldPrefix]) and sends the client the path of an edit and what was added
    to its content ([emitAnthropicToolProgress] is the same code for another provider).  The
    events go to a sink that may refuse one, which ends the stream.  The full decoding of the
    arguments of a plan and their rendering are the interface [CreatePlanCodec]. *)

From S2P Require Import Prelude Go Strings Effect.

Notation quote_byte := (byte_of 34).
Notation backslash := (byte_of 92).

(** ** Reading a JSON string that may not be finished *)

Definition isJSONWhitespace (c : ascii) : bool :=
  bool_decide (c ∈ [byte_of 32; byte_of 9; byte_of 10; byte_of 13]).

(** The loop [for index < len(input) && isJSONWhitespace(input[index])]. *)
Fixpoint skip_whitespace (s : bytes) : bytes :=
  match s with
  | [] => []
  | c :: s' => if isJSONWhitespace c then skip_whitespace s' else s
  end.

Definition byte_code (c : ascii) : Z := Z.of_nat (nat_of_ascii c).

(** [strconv.ParseUint(_, 16, 16)], of four bytes. *)
Definition hex_digit (c : ascii) : option Z :=
  let n := byte_code c in
  if (48 <=? n) && (n <=? 57) then Some (n - 48)
  else if (97 <=? n) && (n <=? 102) then Some (n - 87)
  else if (65 <=? n) && (n <=? 70) then Some (n - 55)
  else None.

Fixpoint hex_number (acc : Z) (s : bytes) : option Z :=
  match s with
  | [] => Some acc
  | c :: s => match hex_digit c with Some d => hex_number (16 * acc + d) s | None => None end
  end.

Definition ParseUint16 (s : bytes) : option Z := if decide (s = []) then None else hex_number 0 s.

(** [utf16.IsSurrogate], and [utf16.DecodeRune] when it is not the replacement character. *)
Definition IsSurrogate (r : Z) : bool := (0xd800 <=? r) && (r <? 0xe000).

Definition DecodeRune (r1 r2 : Z) : option Z :=
  if (0xd800 <=? r1) && (r1 <? 0xdc00) && (0xdc00 <=? r2) && (r2 <? 0xe000)
  then Some (Z.lor (Z.shiftl (r1 - 0xd800) 10) (r2 - 0xdc00) + 0x10000)
  else None.

Definition starts_unicode_escape (s : bytes) : bool :=
  match s with
  | a :: b :: _ => bool_decide (a = backslash) && bool_decide (b = "u"%char)
  | _ => false
  end.

(** The rune and the bytes it takes. *)
Definition decodeUnicodeEscape (input : bytes) : option (Z * nat) :=
  if (length input <? 6)%nat || negb (starts_unicode_escape input) then None
  else
    match ParseUint16 (take 4 (drop 2 input)) with
    | None => None
    | Some r =>
        if IsSurrogate r then
          if (length input <? 12)%nat || negb (starts_unicode_escape (drop 6 input)) then None
          else
            match ParseUint16 (take 4 (drop 8 input)) with
            | None => None
            | Some next =>
                match DecodeRune r next with
                | None => None
                | Some decoded => Some (decoded, 12%nat)
                end
            end
        else Some (r, 6%nat)
    end.

(** [utf8.AppendRune], as [strings.Builder.WriteRune] uses it. *)
Definition byte_at (n : Z) : ascii := byte_of (Z.to_nat n).

Definition EncodeRune (r : Z) : bytes :=
  let three r :=
    [byte_at (Z.lor 0xe0 (Z.shiftr r 12)); byte_at (Z.lor 0x80 (Z.land (Z.shiftr r 6) 0x3f));
     byte_at (Z.lor 0x80 (Z.land r 0x3f))] in
  if r <? 0x80 then [byte_at r]
  else if r <? 0x800 then
    [byte_at (Z.lor 0xc0 (Z.shiftr r 6)); byte_at (Z.lor 0x80 (Z.land r 0x3f))]
  else if IsSurrogate r || (0x10ffff <? r) then three 0xfffd
  else if r <? 0x10000 then three r
  else
    [byte_at (Z.lor 0xf0 (Z.shiftr r 18)); byte_at (Z.lor 0x80 (Z.land (Z.shiftr r 12) 0x3f));
     byte_at (Z.lor 0x80 (Z.land (Z.shiftr r 6) 0x3f)); byte_at (Z.lor 0x80 (Z.land r 0x3f))].

(** What a backslash and a letter stand for, [\u] apart. *)
Definition simple_escape (next : ascii) : ascii :=
  if decide (next = "b"%char) then byte_of 8
  else if decide (next = "f"%char) then byte_of 12
  else if decide (next = "n"%char) then byte_of 10
  else if decide (next = "r"%char) then byte_of 13
  else if decide (next = "t"%char) then byte_of 9
  else next.

(** The loop that reads the body of a string: what it stands for, and whether its closing
    quote was read.  An iteration takes at least a byte, so the length is enough fuel. *)
Fixpoint string_body (fuel : nat) (input : bytes) : bytes * bool :=
  match fuel, input with
  | O, _ | _, [] => ([], false)
  | S fuel, character :: rest =>
      let continue (out input : bytes) :=
        let '(value, complete) := string_body fuel input in (out ++ value, complete) in
      if decide (character = quote_byte) then ([], true)
      else if decide (character <> backslash) then continue [character] rest
      else
        match rest with
        | [] => ([], false)
        | next :: rest =>
            if decide (next = "u"%char) then
              match decodeUnicodeEscape input with
              | None => ([], false)
              | Some (runeValue, width) => continue (EncodeRune runeValue) (drop width input)
              end
            else continue [simple_escape next] rest
        end
  end.

(** [None] when the field is not found; otherwise its value as far as it goes, and whether it is
    complete. *)
Definition extractJSONStringFieldPrefix (input : bytes) (field : string) : option (bytes * bool) :=
  let keyToken := quote_byte :: bytes_of (TrimSpace field) ++ [quote_byte] in
  match Index input keyToken with
  | None => None
  | Some start =>
      match skip_whitespace (drop (start + length keyToken) input) with
      | ":"%char :: rest =>
          match skip_whitespace rest with
          | c :: body =>
              if decide (c = quote_byte) then Some (string_body (length body) body) else None
          | [] => None
          end
      | _ => None
      end
  end.

(** The loop over the common prefix. *)
Fixpoint suffix_after (previous current : bytes) : bytes :=
  match previous, current with
  | a :: previous', b :: current' => if decide (a = b) then suffix_after previous' current' else current
  | _, _ => current
  end.

Definition suffixAfterCommonPrefix (previous current : bytes) : bytes :=
  if decide (previous = []) then current else suffix_after previous current.

(** The first of the fields that is found. *)
Fixpoint first_field (rawArgs : bytes) (fields : list string) : option bytes :=
  match fields with
  | [] => None
  | field :: fields =>
      match extractJSONStringFieldPrefix rawArgs field with
      | Some (value, _) => Some value
      | None => first_field rawArgs fields
      end
  end.

Definition content_fields (toolName : string) : list string :=
  if decide (TrimSpace toolName = "PatchEdit") then ["new_string"]
  else if decide (TrimSpace toolName = "Write")
  then ["contents"; "content"; "stream_content"; "streamContent"]
  else [].

Definition extractToolStreamContentPrefix (rawArgs : bytes) (toolName : string) : option bytes :=
  first_field rawArgs (content_fields toolName).

(** ** The events of a provider *)

Record CreatePlanArgs := mkPlanArgs {
  Plan : bytes; Overview : bytes; PlanName : bytes; IsProject : bool;
  Todos : list string; Phases : list string
}.

Class CreatePlanCodec := {
  (** [DecodeCreatePlanArgsJSON] of agent/core: JSON to protobuf. *)
  DecodeCreatePlanArgsJSON : bytes -> option CreatePlanArgs;
  (** [protojson.Marshal]. *)
  marshal_plan : CreatePlanArgs -> result bytes
}.

Inductive ToolCallSnapshot :=
| EditToolCall (path : bytes)
| CreatePlanToolCall (args : CreatePlanArgs).

Record ToolInvocation := mkInvocation { InvocationCallID : string; ToolName : string; ArgsJSON : bytes }.

Record Usage := mkUsage {
  InputTokens : Z; OutputTokens : Z; CacheReadTokens : Z; CacheWriteTokens : Z;
  UsagePresent : bool; CacheReadPresent : bool; CacheWritePresent : bool
}.

(** A [ModelEvent] by its kind; when it occurred is left out. *)
Inductive EventBody :=
| TextDelta (text : bytes)
| ThinkingDelta (text : bytes)
| ThinkingCompleted (durationMS : Z) (signature source : string)
| PartialToolCall (callID : string) (argsTextDelta : bytes) (toolCall : ToolCallSnapshot)
| ToolCallDelta (callID : string) (streamContentDelta : bytes)
| ToolLikeCompleted (invocation : ToolInvocation)
| TurnFinished (usage : Usage) (finishReason : string).

Record ModelEvent := mkEvent { EventProvider : string; EventModel : string; Body : EventBody }.

(** The sink: the events it took, and what it will answer; it takes every event once the list
    is used up. *)
Record Sink := mkSink { taken : list ModelEvent; answers : list (option string) }.

#[export] Instance eta_sink : Eta Sink := fun s => mkSink (taken s) (answers s).

Definition sink_event (event : ModelEvent) (s : Sink) : result unit * Sink :=
  match answers s with
  | Some e :: rest => (Err e, s <| answers := rest |>)
  | None :: rest => (Ok tt, mkSink (taken s ++ [event]) rest)
  | [] => (Ok tt, s <| taken := taken s ++ [event] |>)
  end.

(** ** The progress of a tool call *)

Record ToolAccumulator := mkAccumulator {
  CallID : string;
  Name : string;
  Args : bytes;
  LastEmittedPath : bytes;
  LastStreamContent : bytes;
  LastCreatePlanSnapshot : bytes
}.

#[export] Instance eta_accumulator : Eta ToolAccumulator := fun a =>
  mkAccumulator (CallID a) (Name a) (Args a) (LastEmittedPath a) (LastStreamContent a)
    (LastCreatePlanSnapshot a).

Definition empty_accumulator : ToolAccumulator := mkAccumulator EmptyString EmptyString [] [] [] [].

Section Progress.
Context {PC : CreatePlanCodec} (provider model : string).

Definition hasCreatePlanArgsProgress (args : CreatePlanArgs) : bool :=
  negb (bool_decide (Plan args = [])) || negb (bool_decide (Overview args = [])) ||
  negb (bool_decide (PlanName args = [])) || IsProject args ||
  negb (bool_decide (Todos args = [])) || negb (bool_decide (Phases args = [])).

Definition createPlanArgsProgressSnapshot (rawArgs : bytes) : option CreatePlanArgs :=
  let trimmed := trim_space rawArgs in
  let read_prefixes :=
    let args := mkPlanArgs
      (match extractJSONStringFieldPrefix trimmed "plan" with Some (value, _) => value | None => [] end)
      (match extractJSONStringFieldPrefix trimmed "overview" with Some (value, _) => value | None => [] end)
      (match extractJSONStringFieldPrefix trimmed "name" with
       | Some (value, true) => trim_space value
       | _ => []
       end) false [] [] in
    if negb (hasCreatePlanArgsProgress args) then None else Some args in
  if decide (trimmed = []) then None
  else
    match DecodeCreatePlanArgsJSON trimmed with
    | Some args => if hasCreatePlanArgsProgress args then Some args else read_prefixes
    | None => read_prefixes
    end.

Definition Progress (A : Type) : Type := SE (ToolAccumulator * Sink) A.

Definition get : Progress ToolAccumulator := fun w => (Ok w.1, w).
Definition update (f : ToolAccumulator -> ToolAccumulator) : Progress unit := fun w => (Ok tt, (f w.1, w.2)).
Definition send (body : EventBody) : Progress unit := fun w =>
  let '(r, s) := sink_event (mkEvent provider model body) w.2 in (r, (w.1, s)).

Definition emitCreatePlanToolProgress (argsTextDelta : bytes) : Progress unit :=
  a <- get;;
  let trimmedCallID := TrimSpace (CallID a) in
  if decide (trimmedCallID = EmptyString) then ret tt
  else
    match createPlanArgsProgressSnapshot (Args a) with
    | None => ret tt
    | Some args =>
        match marshal_plan args with
        | Err e => fun w => (Err e, w)
        | Ok signature =>
            if decide (signature = [] \/ signature = LastCreatePlanSnapshot a) then ret tt
            else
              update (fun a => a <| LastCreatePlanSnapshot := signature |>) ;;;
              send (PartialToolCall trimmedCallID argsTextDelta (CreatePlanToolCall args))
        end
    end.

(** The path, once it is complete. *)
Definition emit_path (toolName : string) (argsTextDelta : bytes) : Progress unit :=
  a <- get;;
  let found := match extractJSONStringFieldPrefix (Args a) "path" with
               | Some r => Some r
               | None => extractJSONStringFieldPrefix (Args a) "file_path"
               end in
  match found with
  | Some (path, true) =>
      let trimmedPath := trim_space path in
      if decide (trimmedPath = []) then ret tt
      else
        let pathChanged := negb (bool_decide (trimmedPath = LastEmittedPath a)) in
        update (fun a => a <| LastEmittedPath := trimmedPath |>) ;;;
        if negb pathChanged then ret tt
        else if decide (toolName = "PatchEdit")
        then send (PartialToolCall (TrimSpace (CallID a)) [] (EditToolCall trimmedPath))
        else send (PartialToolCall (TrimSpace (CallID a)) argsTextDelta (EditToolCall trimmedPath))
  | _ => ret tt
  end.

(** What was added to the content. *)
Definition emit_content (toolName : string) : Progress unit :=
  a <- get;;
  match extractToolStreamContentPrefix (Args a) toolName with
  | None => ret tt
  | Some streamContent =>
      let delta := suffixAfterCommonPrefix (LastStreamContent a) streamContent in
      if decide (delta = []) then ret tt
      else
        update (fun a => a <| LastStreamContent := streamContent |>) ;;;
        send (ToolCallDelta (TrimSpace (CallID a)) delta)
  end.

Definition emitOpenAIToolProgress (argsTextDelta : bytes) : Progress unit :=
  a <- get;;
  let toolName := TrimSpace (Name a) in
  if decide (toolName = "CreatePlan") then emitCreatePlanToolProgress argsTextDelta
  else if decide (toolName <> "Write" /\ toolName <> "PatchEdit") then ret tt
  else emit_path toolName argsTextDelta ;;; emit_content toolName.

(** A piece of the arguments. *)
Definition take_arguments (piece : bytes) : Progress unit :=
  update (fun a => a <| Args := Args a ++ piece |>) ;;;
  emitOpenAIToolProgress piece.

End Progress.

(** ** Lemmas: what is read only grows *)

Lemma skip_whitespace_app s t c r : skip_whitespace s = c :: r -> skip_whitespace (s ++ t) = c :: r ++ t.
Proof.
  induction s as [|x s IH]; cbn; [done|]. destruct (isJSONWhitespace x); [done|]. by intros [= -> ->].
Qed.

Lemma starts_unicode_app s t : (2 <= length s)%nat -> starts_unicode_escape (s ++ t) = starts_unicode_escape s.
Proof. destruct s as [|a [|b s]]; simpl; [lia|lia|done]. Qed.

Lemma decode_escape_app s t r w : decodeUnicodeEscape s = Some (r, w) ->
  (0 < w <= length s)%nat /\ decodeUnicodeEscape (s ++ t) = Some (r, w).
Proof.
  unfold decodeUnicodeEscape. rewrite length_app.
  destruct (Nat.ltb_spec (length s) 6) as [H6|H6]; [done|]. cbn [orb].
  rewrite (proj2 (Nat.ltb_ge (length s + length t) 6)) by lia. cbn [orb].
  rewrite starts_unicode_app by lia. destruct (negb (starts_unicode_escape s)); [done|].
  rewrite drop_app_le by lia. rewrite take_app_le by (rewrite length_drop; lia).
  destruct (ParseUint16 _) as [r1|]; [|done]. destruct (IsSurrogate r1).
  - destruct (Nat.ltb_spec (length s) 12) as [H12|H12]; [done|]. cbn [orb].
    rewrite (proj2 (Nat.ltb_ge (length s + length t) 12)) by lia. cbn [orb].
    rewrite drop_app_le by lia. rewrite starts_unicode_app by (rewrite length_drop; lia).
    destruct (negb _); [done|]. rewrite drop_app_le by lia.
    rewrite take_app_le by (rewrite length_drop; lia).
    destruct (ParseUint16 _); [|done]. destruct (DecodeRune _ _); [|done]. intros [= <- <-].
    split; [lia|done].
  - intros [= <- <-]. split; [lia|done].
Qed.

(** What was read of a field when less of the text was known. *)
Definition earlier (r r' : bytes * bool) : Prop :=
  r.1 `prefix_of` r'.1 /\ (r.2 = true -> r' = r).

Lemma earlier_continue out r r' : earlier r r' -> earlier (out ++ r.1, r.2) (out ++ r'.1, r'.2).
Proof.
  intros [H1 H2]. split; cbn; [by apply prefix_app|]. intros Hc. by rewrite (H2 Hc).
Qed.

Lemma earlier_nothing r : earlier ([], false) r.
Proof. split; [apply prefix_nil|done]. Qed.

Lemma string_body_app fuel fuel' s t : (length s <= fuel)%nat -> (length (s ++ t) <= fuel')%nat ->
  earlier (string_body fuel s) (string_body fuel' (s ++ t)).
Proof.
  revert fuel' s. induction fuel as [|fuel IH]; intros fuel' s Hf Hf'; [apply earlier_nothing|].
  destruct s as [|c s]; [apply earlier_nothing|]. destruct fuel' as [|fuel']; [simpl in Hf'; lia|].
  cbn [string_body app]. destruct (decide (c = quote_byte)); [split; [done|by intros]|].
  assert (Hgo : forall out x, (length x <= length s)%nat ->
    earlier (let '(value, complete) := string_body fuel x in (out ++ value, complete))
            (let '(value, complete) := string_body fuel' (x ++ t) in (out ++ value, complete))).
  { intros out x Hx. specialize (IH fuel' x). simpl in Hf, Hf'. rewrite length_app in *.
    specialize (IH ltac:(lia) ltac:(lia)).
    destruct (string_body fuel x), (string_body fuel' (x ++ t)). by apply (earlier_continue out) in IH. }
  destruct (decide (c <> backslash)); [apply (Hgo [c] s); lia|].
  destruct s as [|next s]; [apply earlier_nothing|]. cbn [app]. destruct (decide (next = "u"%char)).
  - destruct (decodeUnicodeEscape (c :: next :: s)) as [[r w]|] eqn:E; [|apply earlier_nothing].
    apply (decode_escape_app _ t) in E as [Hw E].
    change (c :: next :: s ++ t) with ((c :: next :: s) ++ t). rewrite E.
    rewrite drop_app_le by lia. apply (Hgo (EncodeRune r)). rewrite length_drop. simpl in *. lia.
  - apply (Hgo [simple_escape next] s). simpl. lia.
Qed.

Lemma extract_app s t field r : extractJSONStringFieldPrefix s field = Some r ->
  exists r', extractJSONStringFieldPrefix (s ++ t) field = Some r' /\ earlier r r'.
Proof.
  unfold extractJSONStringFieldPrefix. cbv zeta. set (key := _ :: _). clearbody key.
  destruct (Index s key) as [n|] eqn:Ei; [|done]. pose proof (Index_bound _ _ _ Ei) as Hb.
  rewrite (Index_app _ _ _ t Ei), drop_app_le by lia.
  destruct (skip_whitespace (drop (n + length key) s)) as [|c s1] eqn:E1; [done|].
  rewrite (skip_whitespace_app _ t _ _ E1).
  intros H. assert (Hc : c = ":"%char).
  { by destruct c as [[] [] [] [] [] [] [] []]. }
  subst c. destruct (skip_whitespace s1) as [|c body] eqn:E2; [done|].
  rewrite (skip_whitespace_app _ t _ _ E2).
  destruct (decide (c = quote_byte)); [|done]. injection H as <-.
  eexists. split; [done|]. apply string_body_app; lia.
Qed.

(** The first of the fields that is found, with its completeness. *)
Fixpoint first_found (s : bytes) (fields : list string) : option (bytes * bool) :=
  match fields with
  | [] => None
  | field :: fields =>
      match extractJSONStringFieldPrefix s field with
      | Some r => Some r
      | None => first_found s fields
      end
  end.

Lemma first_field_found s fields : first_field s fields = fst <$> first_found s fields.
Proof.
  induction fields as [|f fields IH]; cbn; [done|]. by destruct (extractJSONStringFieldPrefix s f) as [[]|].
Qed.

(** The text holds at most one of the fields. *)
Definition one_of (fields : list string) (s : bytes) : Prop :=
  forall f g, f ∈ fields -> g ∈ fields -> is_Some (extractJSONStringFieldPrefix s f) ->
    is_Some (extractJSONStringFieldPrefix s g) -> f = g.

Lemma first_found_in s fields r : first_found s fields = Some r ->
  exists f, f ∈ fields /\ extractJSONStringFieldPrefix s f = Some r.
Proof.
  induction fields as [|f fields IH]; cbn; [done|].
  destruct (extractJSONStringFieldPrefix s f) eqn:E; [intros [= ->]; exists f; set_solver|].
  intros H. destruct (IH H) as (g & Hg & ?). exists g. split; [by right|done].
Qed.

Lemma first_found_only s fields f r : one_of fields s -> f ∈ fields ->
  extractJSONStringFieldPrefix s f = Some r -> first_found s fields = Some r.
Proof.
  intros Ho Hf E. destruct (first_found s fields) as [r'|] eqn:E'.
  - apply first_found_in in E' as (g & Hg & E'). assert (f = g) by (apply Ho; eauto). congruence.
  - exfalso. clear Ho. induction fields as [|g fields IH]; [by apply elem_of_nil in Hf|]. cbn in E'.
    destruct (extractJSONStringFieldPrefix s g) eqn:Eg; [done|].
    apply elem_of_cons in Hf as [->|Hf]; [congruence|by apply IH].
Qed.

Lemma first_found_app s t fields r : one_of fields (s ++ t) -> first_found s fields = Some r ->
  exists r', first_found (s ++ t) fields = Some r' /\ earlier r r'.
Proof.
  intros Ho H. apply first_found_in in H as (f & Hf & E). apply (extract_app _ t) in E as (r' & E & He).
  exists r'. split; [by eapply first_found_only|done].
Qed.

Lemma one_of_prefix fields s t : one_of fields (s ++ t) -> one_of fields s.
Proof.
  intros H f g Hf Hg [r1 E1] [r2 E2]. apply (extract_app _ t) in E1 as (? & E1 & _), E2 as (? & E2 & _).
  by apply H; eauto.
Qed.

Lemma suffix_after_prefix a b : suffixAfterCommonPrefix a (a ++ b) = b.
Proof.
  unfold suffixAfterCommonPrefix. case_decide as H; [by subst|]. clear H.
  induction a as [|x a IH]; cbn; [by destruct b|]. by rewrite decide_True.
Qed.

(** ** What the client is shown of an edit *)

Section Shown.
Context {PC : CreatePlanCodec} (provider model : string).

(** The pieces of one call, one after the other. *)
Fixpoint take_pieces (pieces : list bytes) : Progress unit :=
  match pieces with
  | [] => ret tt
  | piece :: pieces => take_arguments provider model piece ;;; take_pieces pieces
  end.

Definition path_fields : list string := ["path"; "file_path"].

(** The path the arguments name, once it is complete. *)
Definition announced (args : bytes) : bytes :=
  match first_found args path_fields with
  | Some (path, true) => trim_space path
  | _ => []
  end.

Definition shown_paths (events : list ModelEvent) : list bytes :=
  omap (fun e => match Body e with PartialToolCall _ _ (EditToolCall path) => Some path | _ => None end) events.

Definition shown_content (events : list ModelEvent) : bytes :=
  List.flat_map (fun e => match Body e with ToolCallDelta _ delta => delta | _ => [] end) events.

Definition content_of (toolName : string) (args : bytes) : bytes :=
  default [] (extractToolStreamContentPrefix args toolName).

Definition is_edit_tool (toolName : string) : Prop :=
  TrimSpace toolName = "Write" \/ TrimSpace toolName = "PatchEdit".

(** The accumulator and the events after the arguments [args] came in pieces. *)
Record shows (a0 : ToolAccumulator) (args : bytes) (a : ToolAccumulator) (events : list ModelEvent) : Prop := {
  shows_args : Args a = args;
  shows_name : Name a = Name a0;
  shows_path : LastEmittedPath a = announced args;
  shows_last : LastStreamContent a = content_of (Name a0) args;
  shows_paths : shown_paths events = if decide (announced args = []) then [] else [announced args];
  shows_content : shown_content events = content_of (Name a0) args
}.

Lemma shown_paths_app l k : shown_paths (l ++ k) = shown_paths l ++ shown_paths k.
Proof. apply omap_app. Qed.

Lemma shown_content_app l k : shown_content (l ++ k) = shown_content l ++ shown_content k.
Proof. apply List.flat_map_app. Qed.

(** A complete path does not change. *)
Lemma announced_app args piece : one_of path_fields (args ++ piece) -> announced args <> [] ->
  announced (args ++ piece) = announced args.
Proof.
  intros Ho. unfold announced at 1 3. destruct (first_found args path_fields) as [[p []]|] eqn:E; [|done..].
  intros _. apply (first_found_app _ piece) in E as (r' & E & _ & Hr); [|done].
  unfold announced. rewrite E. by rewrite (Hr eq_refl).
Qed.

Lemma content_app toolName args piece : one_of (content_fields toolName) (args ++ piece) ->
  content_of toolName args `prefix_of` content_of toolName (args ++ piece).
Proof.
  intros Ho. unfold content_of, extractToolStreamContentPrefix. rewrite !first_field_found.
  destruct (first_found args _) as [[v c]|] eqn:E; [|apply prefix_nil].
  apply (first_found_app _ piece) in E as (r' & E & Hp & _); [|done]. rewrite E. exact Hp.
Qed.

Lemma emit_path_shows toolName piece a w :
  answers w = [] -> (announced (Args a) = [] -> LastEmittedPath a = []) ->
  exists events,
    emit_path provider model toolName piece (a, w) =
      (Ok tt, (if decide (announced (Args a) = []) then a else a <| LastEmittedPath := announced (Args a) |>,
               mkSink (taken w ++ events) [])) /\
    shown_paths events = (if decide (announced (Args a) = [] \/ announced (Args a) = LastEmittedPath a)
                          then [] else [announced (Args a)]) /\
    shown_content events = [].
Proof.
  intros Hw Hlast. destruct w as [log ans]. cbn in Hw. subst ans. unfold emit_path, bind at 1. cbn [get fst].
  assert (Hf : match extractJSONStringFieldPrefix (Args a) "path" with
               | Some r => Some r
               | None => extractJSONStringFieldPrefix (Args a) "file_path"
               end = first_found (Args a) path_fields).
  { cbn. destruct (extractJSONStringFieldPrefix (Args a) "path"); [done|].
    by destruct (extractJSONStringFieldPrefix (Args a) "file_path"). }
  cbv zeta. rewrite Hf. unfold announced in *.
  assert (Hnone : forall P : Prop, forall d : Decision P, P -> exists events,
    @ret (ToolAccumulator * Sink) unit tt (a, mkSink log []) = (Ok tt, (a, mkSink (log ++ events) [])) /\
    shown_paths events = [] /\ shown_content events = []).
  { intros P d _. exists []. by rewrite app_nil_r. }
  destruct (first_found (Args a) path_fields) as [[p []]|].
  2, 3: rewrite !decide_True by auto; by apply (Hnone True _).
  destruct (decide (trim_space p = [])) as [Hp|Hp].
  { rewrite decide_True by auto. by apply (Hnone True _). }
  unfold bind, update. cbn [fst snd].
  destruct (decide (trim_space p = LastEmittedPath a)) as [He|He].
  - rewrite bool_decide_eq_true_2 by done. cbn [negb]. rewrite decide_True by auto.
    exists []. by rewrite app_nil_r.
  - rewrite bool_decide_eq_false_2 by done. cbn [negb].
    rewrite (decide_False (P := trim_space p = [] \/ _)) by tauto.
    destruct (decide (toolName = "PatchEdit")); eexists [_]; done.
Qed.

Lemma emit_content_shows toolName args a w :
  answers w = [] -> Args a = args -> LastStreamContent a `prefix_of` content_of toolName args ->
  exists a' events,
    emit_content provider model toolName (a, w) = (Ok tt, (a', mkSink (taken w ++ events) [])) /\
    Args a' = args /\ Name a' = Name a /\ LastEmittedPath a' = LastEmittedPath a /\
    LastStreamContent a' = content_of toolName args /\
    shown_paths events = [] /\ LastStreamContent a ++ shown_content events = content_of toolName args.
Proof.
  intros Hw <- [added Hp]. destruct w as [log ans]. cbn in Hw. subst ans.
  unfold emit_content, bind at 1. cbn [get fst]. unfold content_of in *.
  destruct (extractToolStreamContentPrefix (Args a) toolName) as [content|]; cbn [from_option id] in *.
  - cbv zeta. subst content. rewrite suffix_after_prefix.
    destruct (decide (added = [])) as [->|Ha].
    + exists a, []. rewrite !app_nil_r. done.
    + unfold bind, update, send, sink_event. cbn [fst snd answers].
      eexists _, [_]. split; [reflexivity|]. cbn. by rewrite app_nil_r.
  - exists a, []. rewrite !app_nil_r. destruct (LastStreamContent a); done.
Qed.

Lemma content_fields_trim toolName : content_fields (TrimSpace toolName) = content_fields toolName.
Proof. unfold content_fields. by rewrite TrimSpace_idem. Qed.

Lemma content_of_trim toolName args : content_of (TrimSpace toolName) args = content_of toolName args.
Proof. unfold content_of, extractToolStreamContentPrefix. by rewrite content_fields_trim. Qed.

Lemma take_arguments_shows a0 args piece a base events :
  is_edit_tool (Name a0) -> one_of path_fields (args ++ piece) ->
  one_of (content_fields (Name a0)) (args ++ piece) -> shows a0 args a events ->
  exists a' events',
    take_arguments provider model piece (a, mkSink (base ++ events) []) =
      (Ok tt, (a', mkSink (base ++ events') [])) /\
    shows a0 (args ++ piece) a' events'.
Proof.
  intros Ht Hp Hc Hs. destruct Hs as [Sargs Sname Spath Slast Spaths Scontent].
  unfold take_arguments, emitOpenAIToolProgress. unfold bind at 1, update. cbn [fst snd].
  set (a1 := a <| Args := Args a ++ piece |>). unfold bind at 1. cbn [get fst].
  change (Name a1) with (Name a). rewrite Sname. cbv zeta.
  rewrite decide_False by (destruct Ht as [->| ->]; done).
  rewrite decide_False by (destruct Ht as [->| ->]; intros [? ?]; congruence).
  assert (E1 : Args a1 = args ++ piece) by (subst a1; cbn; by rewrite Sargs).
  assert (E4 : Name a1 = Name a0) by done.
  assert (E2 : LastEmittedPath a1 = announced args) by done.
  assert (E3 : LastStreamContent a1 = content_of (Name a0) args) by done.
  assert (Hkeep : announced args <> [] -> announced (args ++ piece) = announced args)
    by by apply announced_app.
  assert (Hold : announced (args ++ piece) = [] -> announced args = []).
  { intros H. destruct (decide (announced args = [])); [done|]. rewrite <- Hkeep by done. done. }
  unfold bind at 1.
  destruct (emit_path_shows (TrimSpace (Name a0)) piece a1 (mkSink (base ++ events) []) eq_refl)
    as (ev1 & -> & P1 & C1); [rewrite E1, E2; exact Hold|]. rewrite E1, E2 in *. clearbody a1.
  set (a2 := if decide _ then a1 else _).
  assert (Ha2 : Args a2 = args ++ piece /\ Name a2 = Name a1 /\
    LastEmittedPath a2 = announced (args ++ piece) /\ LastStreamContent a2 = LastStreamContent a1).
  { subst a2. destruct (decide (announced (args ++ piece) = [])) as [H|H]; [|split_and!; [exact E1|done..]].
    rewrite E2, (Hold H), H. by split_and!. }
  clearbody a2. destruct Ha2 as (A1 & A2 & A3 & A4).
  cbn [taken].
  destruct (emit_content_shows (TrimSpace (Name a0)) (args ++ piece) a2
    (mkSink ((base ++ events) ++ ev1) []) eq_refl A1) as (a3 & ev2 & -> & B1 & B2 & B3 & B4 & P2 & C2).
  { rewrite A4, E3, content_of_trim. by apply content_app. }
  exists a3, (events ++ ev1 ++ ev2). cbn [taken]. split; [by rewrite <- !app_assoc|].
  rewrite content_of_trim in *. split.
  - done.
  - congruence.
  - congruence.
  - done.
  - rewrite !shown_paths_app, P1, P2, Spaths, app_nil_r.
    destruct (decide (announced args = [])) as [H|H].
    + rewrite H. cbn [app]. destruct (decide (announced (args ++ piece) = [])) as [H'|H'].
      * by rewrite H', decide_True by auto.
      * by rewrite decide_False by (intros [?|?]; done).
    + rewrite (Hkeep H), decide_True by auto. by rewrite app_nil_r, decide_False.
  - rewrite !shown_content_app, C1. cbn [app]. rewrite Scontent, <- C2. congruence.
Qed.

Lemma take_pieces_shows a0 args pieces a base events :
  is_edit_tool (Name a0) -> one_of path_fields (args ++ concat pieces) ->
  one_of (content_fields (Name a0)) (args ++ concat pieces) -> shows a0 args a events ->
  exists a' events',
    take_pieces pieces (a, mkSink (base ++ events) []) = (Ok tt, (a', mkSink (base ++ events') [])) /\
    shows a0 (args ++ concat pieces) a' events'.
Proof.
  intros Ht. revert args a events. induction pieces as [|piece pieces IH]; intros args a events Hp Hc Hs.
  - exists a, events. cbn in *. by rewrite app_nil_r in *.
  - cbn [concat] in *. rewrite app_assoc in Hp, Hc.
    destruct (take_arguments_shows a0 args piece a base events Ht (one_of_prefix _ _ _ Hp)
      (one_of_prefix _ _ _ Hc) Hs) as (a1 & ev1 & E & H1).
    destruct (IH _ _ _ Hp Hc H1) as (a' & ev' & E' & H').
    exists a', ev'. cbn [take_pieces]. rewrite (bind_step _ _ _ _ _ E), app_assoc. done.
Qed.

(** C37: the client sees an edit grow exactly as it is written.  However the provider cuts the
    arguments of a Write or a PatchEdit, when they name the path and the content each under one
    name, the content pieces shown to the client are, put together, the content read off the
    whole arguments, and the path is announced exactly once, when it is complete and not blank.
    A string that is cut inside an escape or a surrogate pair shows no wrong byte. *)
Theorem edit_content_streamed a0 pieces log :
  let args := concat pieces in
  is_edit_tool (Name a0) -> Args a0 = [] -> LastEmittedPath a0 = [] -> LastStreamContent a0 = [] ->
  one_of path_fields args -> one_of (content_fields (Name a0)) args ->
  exists a events,
    take_pieces pieces (a0, mkSink log []) = (Ok tt, (a, mkSink (log ++ events) [])) /\
    Args a = args /\
    shown_content events = content_of (Name a0) args /\
    shown_paths events = (if decide (announced args = []) then [] else [announced args]).
Proof.
  intros args Ht H1 H2 H3 Hp Hc.
  destruct (take_pieces_shows a0 [] pieces a0 log [] Ht Hp Hc) as (a & events & E & Hs).
  - split; try done; unfold announced, content_of, extractToolStreamContentPrefix, content_fields in *.
    + by rewrite H3; destruct (decide _); [|destruct (decide _)].
    + by destruct (decide _); [|destruct (decide _)].
  - rewrite app_nil_r in E. exists a, events. split; [exact E|]. destruct Hs. by split_and!.
Qed.

End Shown.

(** ** Examples and witness *)

Module Demo.

Definition q : ascii := quote_byte.
Definition b : String.string -> bytes := fun s => bytes_of s.

(** The arguments of an edit, cut inside a key, an escape and a surrogate pair. *)
Definition pieces : list bytes :=
  [b "{" ++ [q] ++ b "path" ++ [q] ++ b ": " ++ [q] ++ b "a.t";
   b "xt" ++ [q] ++ b "," ++ [q] ++ b "new_st";
   b "ring" ++ [q] ++ b ":" ++ [q] ++ b "x\";
   b "n\ud83d";
   b "\ude00y" ++ [q] ++ b "}"].

Definition call : ToolAccumulator := empty_accumulator <| Name := "PatchEdit" |> <| CallID := "c1" |>.

#[export] Instance no_plans : CreatePlanCodec := {
  DecodeCreatePlanArgsJSON _ := None;
  marshal_plan args := Ok (Plan args)
}.

Definition run : result unit * (ToolAccumulator * Sink) :=
  take_pieces "openai" "m" pieces (call, mkSink [] []).

Example shown_in_pieces :
  map Body (taken run.2.2) =
  [PartialToolCall "c1" [] (EditToolCall (b "a.txt")); ToolCallDelta "c1" (b "x");
   ToolCallDelta "c1" [byte_of 10];
   ToolCallDelta "c1" (map byte_of [240; 159; 152; 128]%nat ++ b "y")].
Proof. vm_compute. reflexivity. Qed.

(** A value that reads like the name of the field hides the field: the key is searched in the
    whole text, and its first occurrence is not followed by a colon. *)
Example value_hides_the_field :
  extractToolStreamContentPrefix
    (b "{" ++ [q] ++ b "path" ++ [q] ++ b ":" ++ [q] ++ b "new_string" ++ [q] ++ b "," ++
     [q] ++ b "new_string" ++ [q] ++ b ":" ++ [q] ++ b "text" ++ [q] ++ b "}") "PatchEdit" = None.
Proof. vm_compute. reflexivity. Qed.

(** Arguments that name the path and the content twice: both paths are announced, and what was shown of the
    second content stays in front of the first name's, which the extractor prefers. *)
Definition field (name value : String.string) : bytes :=
  [q] ++ b name ++ [q] ++ b ":" ++ [q] ++ b value ++ [q].

Definition two_names : list bytes :=
  [b "{" ++ field "file_path" "f" ++ b ","; field "path" "p" ++ b ",";
   field "content" "a" ++ b ","; field "contents" "b" ++ b "}"].

Definition write_call : ToolAccumulator := empty_accumulator <| Name := "Write" |> <| CallID := "c1" |>.

Example two_names_shown_twice :
  let events := taken (take_pieces "openai" "m" two_names (write_call, mkSink [] [])).2.2 in
  shown_paths events = [b "f"; b "p"] /\ shown_content events = b "ab" /\
  content_of "Write" (concat two_names) = b "b".
Proof. vm_compute. split_and!; reflexivity. Qed.

End Demo.

Lemma edit_content_streamed_witness :
  exists a events,
    take_pieces (PC := Demo.no_plans) "openai" "m" Demo.pieces (Demo.call, mkSink [] []) =
      (Ok tt, (a, mkSink ([] ++ events) [])) /\
    Args a = concat Demo.pieces /\
    shown_content events = content_of "PatchEdit" (concat Demo.pieces) /\
    shown_paths events = (if decide (announced (concat Demo.pieces) = []) then []
                          else [announced (concat Demo.pieces)]).
Proof.
  apply (edit_content_streamed (PC := Demo.no_plans) "openai" "m" Demo.call Demo.pieces []);
    [by right|done..| |].
  - intros f g Hf Hg H1 H2. apply elem_of_cons in Hf as [->|Hf], Hg as [->|Hg]; [done|exfalso..|].
    + apply list_elem_of_singleton in Hg as ->. vm_compute in H2. by destruct H2.
    + apply list_elem_of_singleton in Hf as ->. vm_compute in H1. by destruct H1.
    + apply list_elem_of_singleton in Hf as ->, Hg as ->. done.
  - intros f g Hf Hg _ _. apply list_elem_of_singleton in Hf as ->, Hg as ->. done.
Defined.
