(* ===== verification/ChatStream.v ===== *)
(** * The chat completions stream of an OpenAI-compatible provider (agent/model/openai.go).

    [streamChatCompletions] reads the answer of the provider line by line and turns it into model
    events: text and reasoning (through the parser of ThinkTag.v), tool calls assembled from their
    pieces (with the progress of ToolProgress.v), the usage and the end of the turn.  Building the
    request, the HTTP exchange and the log of artifacts are left out.  Parsing a chunk of JSON is
    the parameter [decode_chunk]; the clock is read once a line; the order in which Go ranges over
    a map is not fixed, and is the parameter [range_order], which may answer every range
    differently. *)

From S2P Require Import Prelude Go Strings ThinkTag ToolCallId Effect ToolProgress.

(** ** The decoded chunks *)

Record ToolCallPiece := mkPiece { PieceIndex : Z; PieceID : string; PieceName : string; Arguments : bytes }.

Record ChunkUsage := mkChunkUsage { PromptTokens : Z; CompletionTokens : Z; CachedTokens : option Z }.

Record ChunkError := mkChunkError { ErrorMessage : string; ErrorType : string; ErrorCode : string }.

Record Choice := mkChoice {
  Content : bytes;
  ReasoningContent : bytes;
  ToolPieces : list ToolCallPiece;
  FinishReason : option string
}.

Record Chunk := mkChunk {
  ChunkType : string;
  RequestID : string;
  Error : option ChunkError;
  Choices : list Choice;
  Model : string;
  ReportedUsage : option ChunkUsage
}.

(** ** The state of a stream *)

Record ChatState := mkChat {
  tools : gmap Z ToolAccumulator;
  currentModel : string;
  usage : Usage;
  finishReason : string;
  turnFinishedPending : bool;
  thinkingActive : bool;
  thinkingStarted : Z;
  thinkParser : openAIThinkTagParser;
  (** How many maps were ranged over, and how often the idle watchdog was told of content. *)
  ranges : nat;
  effective : nat
}.

Record World := mkWorld { chat : ChatState; sink : Sink }.

#[export] Instance eta_chat : Eta ChatState := fun s =>
  mkChat (tools s) (currentModel s) (usage s) (finishReason s) (turnFinishedPending s)
    (thinkingActive s) (thinkingStarted s) (thinkParser s) (ranges s) (effective s).
#[export] Instance eta_world : Eta World := fun w => mkWorld (chat w) (sink w).
#[export] Instance eta_usage : Eta Usage := fun u =>
  mkUsage (InputTokens u) (OutputTokens u) (CacheReadTokens u) (CacheWriteTokens u)
    (UsagePresent u) (CacheReadPresent u) (CacheWritePresent u).

Definition no_usage : Usage := mkUsage 0 0 0 0 false false false.

Definition initial (modelID : string) (answers : list (option string)) : World :=
  mkWorld (mkChat ∅ modelID no_usage EmptyString false false 0 (mkParser [] false) 0 0) (mkSink [] answers).

Definition Chat (A : Type) : Type := SE World A.

Section Chat.
Context {PC : CreatePlanCodec} (sha256 : bytes -> bytes).
Context (decode_chunk : string -> result Chunk).
Context (range_order : nat -> gmap Z ToolAccumulator -> list (Z * ToolAccumulator)).
Context (modelCallID : string).

Definition get_chat : Chat ChatState := fun w => (Ok (chat w), w).
Definition update_chat (f : ChatState -> ChatState) : Chat unit := fun w => (Ok tt, w <| chat := f (chat w) |>).
Definition fail_with {A} (e : string) : Chat A := fun w => (Err e, w).

Definition send_event (body : EventBody) : Chat unit := fun w =>
  let '(r, s) := sink_event (mkEvent "openai" (currentModel (chat w)) body) (sink w) in (r, w <| sink := s |>).

Definition MarkEffectiveContent : Chat unit := update_chat (fun s => s <| effective := S (effective s) |>).

(** ** Its closures *)

Definition flushThinkingCompleted (now : Z) : Chat unit :=
  s <- get_chat;;
  if negb (thinkingActive s) then ret tt
  else
    let duration := wrap_int32 ((now - thinkingStarted s) / 1000000) in
    let duration := if duration <? 0 then 0 else duration in
    send_event (ThinkingCompleted duration EmptyString EmptyString) ;;;
    update_chat (fun s => s <| thinkingActive := false |> <| thinkingStarted := 0 |>).

Definition flushTurnFinished : Chat unit :=
  s <- get_chat;;
  if negb (turnFinishedPending s) then ret tt
  else
    update_chat (fun s => s <| turnFinishedPending := false |>) ;;;
    send_event (TurnFinished (usage s) (finishReason s)).

Definition emitTextDelta (now : Z) (text : bytes) : Chat unit :=
  if decide (text = []) then ret tt
  else
    MarkEffectiveContent ;;;
    flushThinkingCompleted now ;;;
    send_event (TextDelta text).

Definition emitThinkingDelta (now : Z) (reasoning : bytes) : Chat unit :=
  if decide (reasoning = []) then ret tt
  else
    MarkEffectiveContent ;;;
    s <- get_chat;;
    (if negb (thinkingActive s)
     then update_chat (fun s => s <| thinkingStarted := now |> <| thinkingActive := true |>)
     else ret tt) ;;;
    send_event (ThinkingDelta reasoning).

Fixpoint emitTaggedContentParts (now : Z) (parts : list openAIContentPart) : Chat unit :=
  match parts with
  | [] => ret tt
  | part :: parts =>
      (match PartKind part with
       | openAIContentPartText => emitTextDelta now (PartText part)
       | openAIContentPartReasoning => emitThinkingDelta now (PartText part)
       | openAIContentPartThinkingCompleted => flushThinkingCompleted now
       end) ;;;
      emitTaggedContentParts now parts
  end.

(** A call of the parser, whose parts are emitted. *)
Definition parse_and_emit (now : Z)
    (call : openAIThinkTagParser -> list openAIContentPart * openAIThinkTagParser) : Chat unit :=
  s <- get_chat;;
  let '(parts, parser) := call (thinkParser s) in
  update_chat (fun s => s <| thinkParser := parser |>) ;;;
  emitTaggedContentParts now parts.

Definition flushTaggedContentTail (now : Z) : Chat unit := parse_and_emit now Flush.

Definition labelled (label value : string) : list string :=
  if decide (TrimSpace value = EmptyString) then [] else [label +:+ TrimSpace value].

Definition errorFromChunk (chunk : Chunk) : string :=
  match Error chunk with
  | None => "openai chat stream error"
  | Some err =>
      let parts := labelled "type=" (ErrorType err) ++ labelled "code=" (ErrorCode err) ++
                   labelled "request_id=" (RequestID chunk) in
      let message := TrimSpace (ErrorMessage err) in
      if decide (message = EmptyString) then
        if decide (parts = []) then "openai chat stream error"
        else "openai chat stream error " +:+ String.concat " " parts
      else if decide (parts = []) then "openai chat stream error: " +:+ message
      else "openai chat stream error " +:+ String.concat " " parts +:+ ": " +:+ message
  end.

Definition applyUsage (reported : option ChunkUsage) (u : Usage) : Usage :=
  match reported with
  | None => u
  | Some r =>
      let promptTokens := if PromptTokens r <? 0 then 0 else PromptTokens r in
      let cachedTokens := default 0 (CachedTokens r) in
      let cachedTokens := if cachedTokens <? 0 then 0 else cachedTokens in
      let cachedTokens := if promptTokens <? cachedTokens then promptTokens else cachedTokens in
      mkUsage (promptTokens - cachedTokens) (Z.max (CompletionTokens r) 0) cachedTokens 0 true
        (CacheReadPresent u || bool_decide (is_Some (CachedTokens r))) true
  end.

(** ** The body of the loop over the lines *)

Definition set_model (chunk : Chunk) : Chat unit :=
  if decide (TrimSpace (Model chunk) = EmptyString) then ret tt
  else update_chat (fun s => s <| currentModel := TrimSpace (Model chunk) |>).

Definition set_usage (chunk : Chunk) : Chat unit :=
  update_chat (fun s => s <| usage := applyUsage (ReportedUsage chunk) (usage s) |>).

(** Work on the accumulator of an index; it shares the sink of the stream. *)
Definition on_accumulator (index : Z) (m : Progress unit) : Chat unit := fun w =>
  let a := default empty_accumulator (tools (chat w) !! index) in
  let '(r, (a, s)) := m (a, sink w) in
  (r, mkWorld (chat w <| tools := <[index := a]> (tools (chat w)) |>) s).

(** What a piece tells about its call. *)
Definition note_piece (item : ToolCallPiece) (a : ToolAccumulator) : ToolAccumulator :=
  let a := if decide (TrimSpace (PieceID item) = EmptyString) then a
           else a <| CallID := string_of (namespaceToolCallID sha256 (bytes_of modelCallID)
                                            (bytes_of (PieceID item))) |> in
  let a := if decide (TrimSpace (PieceName item) = EmptyString) then a
           else a <| Name := TrimSpace (PieceName item) |> in
  a <| Args := Args a ++ Arguments item |>.

Definition take_piece (item : ToolCallPiece) : Chat unit :=
  MarkEffectiveContent ;;;
  s <- get_chat;;
  on_accumulator (PieceIndex item) (
    update (note_piece item) ;;;
    a <- get;;
    if decide (Arguments item <> [] \/ TrimSpace (Name a) = "CreatePlan" /\ Args a <> [])
    then emitOpenAIToolProgress "openai" (currentModel s) (Arguments item)
    else ret tt).

Fixpoint each {A} (f : A -> Chat unit) (l : list A) : Chat unit :=
  match l with
  | [] => ret tt
  | x :: l => f x ;;; each f l
  end.

Definition complete_tool (item : Z * ToolAccumulator) : Chat unit :=
  let accumulator := item.2 in
  send_event (ToolLikeCompleted
    (mkInvocation (TrimSpace (CallID accumulator)) (TrimSpace (Name accumulator)) (Args accumulator))) ;;;
  MarkEffectiveContent.

(** The loop [for _, accumulator := range tools]. *)
Definition complete_tools : Chat unit :=
  s <- get_chat;;
  update_chat (fun s => s <| ranges := S (ranges s) |>) ;;;
  each complete_tool (range_order (ranges s) (tools s)).

Definition flush_all (now : Z) : Chat unit :=
  flushTaggedContentTail now ;;; flushThinkingCompleted now ;;; flushTurnFinished.

Definition take_choice (now : Z) (choice : Choice) : Chat unit :=
  (if decide (Content choice = []) then ret tt else parse_and_emit now (Consume (Content choice))) ;;;
  emitThinkingDelta now (ReasoningContent choice) ;;;
  (if negb (bool_decide (ToolPieces choice = [])) && bool_decide (Content choice = []) &&
      bool_decide (ReasoningContent choice = [])
   then flushTaggedContentTail now ;;; flushThinkingCompleted now
   else ret tt) ;;;
  each take_piece (ToolPieces choice) ;;;
  match FinishReason choice with
  | Some reason =>
      if decide (TrimSpace reason = EmptyString) then ret tt
      else
        flushTaggedContentTail now ;;;
        flushThinkingCompleted now ;;;
        complete_tools ;;;
        update_chat (fun s => s <| tools := ∅ |> <| finishReason := TrimSpace reason |>
                                <| turnFinishedPending := true |>)
  | None => ret tt
  end.

Definition take_chunk (now : Z) (chunk : Chunk) : Chat unit :=
  if bool_decide (TrimSpace (ChunkType chunk) = "error") || bool_decide (is_Some (Error chunk)) then
    update_chat (fun s => s <| finishReason := "error" |>) ;;;
    fail_with (errorFromChunk chunk)
  else
    set_model chunk ;;;
    set_usage chunk ;;;
    match Choices chunk with
    | [] => flush_all now
    | choice :: _ => take_choice now choice
    end.

(** A line: [true] when it ends the loop. *)
Definition data_prefix : bytes := bytes_of "data:".

Definition take_line (now : Z) (rawLine : string) : Chat bool :=
  match strip_prefix data_prefix (bytes_of (TrimSpace rawLine)) with
  | None => ret false
  | Some payload =>
      let payloadLine := string_of (trim_space payload) in
      if decide (payloadLine = "[DONE]") then flush_all now ;;; ret true
      else
        match decode_chunk payloadLine with
        | Err e => fail_with e
        | Ok chunk => take_chunk now chunk ;;; ret false
        end
  end.

Fixpoint take_lines (lines : list (Z * string)) : Chat unit :=
  match lines with
  | [] => ret tt
  | (now, line) :: lines =>
      ended <- take_line now line;;
      if (ended : bool) then ret tt else take_lines lines
  end.

(** The lines with the times they came at, the error of the reader or of the idle watchdog, and
    the time of the end. *)
Definition streamChatCompletions (lines : list (Z * string)) (readError : option string) (now : Z) : Chat unit :=
  take_lines lines ;;;
  complete_tools ;;;
  match readError with
  | Some e => fail_with e
  | None => flush_all now
  end.

End Chat.

(** ** What the stream should give *)

(** The chunks of the lines, up to the end mark; [None] when a line does not decode, or carries an
    error of the provider. *)
Section Spec.
Context (sha256 : bytes -> bytes) (decode_chunk : string -> result Chunk) (modelCallID : string).

Definition is_error_chunk (chunk : Chunk) : bool :=
  bool_decide (TrimSpace (ChunkType chunk) = "error") || bool_decide (is_Some (Error chunk)).

Fixpoint lines_chunks (lines : list (Z * string)) : option (list Chunk) :=
  match lines with
  | [] => Some []
  | (_, rawLine) :: lines =>
      match strip_prefix data_prefix (bytes_of (TrimSpace rawLine)) with
      | None => lines_chunks lines
      | Some payload =>
          let payloadLine := string_of (trim_space payload) in
          if decide (payloadLine = "[DONE]") then Some []
          else
            match decode_chunk payloadLine with
            | Err _ => None
            | Ok chunk => if is_error_chunk chunk then None else cons chunk <$> lines_chunks lines
            end
      end
  end.

Definition chunk_pieces (chunk : Chunk) : list ToolCallPiece :=
  match Choices chunk with [] => [] | choice :: _ => ToolPieces choice end.

Definition finishes (chunk : Chunk) : bool :=
  match Choices chunk with
  | [] => false
  | choice :: _ =>
      match FinishReason choice with
      | Some reason => negb (bool_decide (TrimSpace reason = EmptyString))
      | None => false
      end
  end.

(** The pieces between two finish reasons. *)
Fixpoint batches (pending : list ToolCallPiece) (chunks : list Chunk) : list (list ToolCallPiece) :=
  match chunks with
  | [] => [pending]
  | chunk :: chunks =>
      let pending := pending ++ chunk_pieces chunk in
      if finishes chunk then pending :: batches [] chunks else batches pending chunks
  end.

Definition pieces_at (index : Z) (pieces : list ToolCallPiece) : list ToolCallPiece :=
  List.filter (fun item => PieceIndex item =? index) pieces.

Definition last_or_empty (values : list string) : string := default EmptyString (last values).

Definition nonblank (values : list string) : list string :=
  List.filter (fun value => negb (bool_decide (TrimSpace value = EmptyString))) values.

(** The call of an index: the last identifier and the last name given, and all of its arguments. *)
Definition call_id (pieces : list ToolCallPiece) : string :=
  last_or_empty (map (fun id => string_of (namespaceToolCallID sha256 (bytes_of modelCallID) (bytes_of id)))
                     (nonblank (map PieceID pieces))).

Definition call_name (pieces : list ToolCallPiece) : string :=
  last_or_empty (map TrimSpace (nonblank (map PieceName pieces))).

Definition call_args (pieces : list ToolCallPiece) : bytes := concat (map Arguments pieces).

Definition call_of (pieces : list ToolCallPiece) : ToolInvocation :=
  mkInvocation (TrimSpace (call_id pieces)) (TrimSpace (call_name pieces)) (call_args pieces).

Definition batch_calls (pieces : list ToolCallPiece) : list ToolInvocation :=
  map (fun index => call_of (pieces_at index pieces)) (remove_dups (map PieceIndex pieces)).

Definition invocations (events : list ModelEvent) : list ToolInvocation :=
  omap (fun e => match Body e with ToolLikeCompleted invocation => Some invocation | _ => None end) events.

(** Thinking opens with a delta and closes before text or the end of the turn. *)
Fixpoint thinking (active : bool) (events : list ModelEvent) : option bool :=
  match events with
  | [] => Some active
  | e :: events =>
      match Body e with
      | ThinkingDelta _ => thinking true events
      | ThinkingCompleted _ _ _ => if active then thinking false events else None
      | TextDelta _ | TurnFinished _ _ => if active then None else thinking false events
      | _ => thinking active events
      end
  end.

Definition is_finished (e : ModelEvent) : bool :=
  match Body e with TurnFinished _ _ => true | _ => false end.

Definition finished (events : list ModelEvent) : nat := length (List.filter is_finished events).

End Spec.

(** ** Lemmas: the events *)

Lemma invocations_app l k : invocations (l ++ k) = invocations l ++ invocations k.
Proof. apply omap_app. Qed.

Lemma finished_app l k : finished (l ++ k) = (finished l + finished k)%nat.
Proof. unfold finished. by rewrite List.filter_app, length_app. Qed.

Lemma thinking_app a l k : thinking a (l ++ k) = match thinking a l with
                                                 | Some b => thinking b k
                                                 | None => None
                                                 end.
Proof.
  revert a. induction l as [|e l IH]; intros a; cbn [thinking app]; [done|].
  destruct (Body e), a; done || apply IH.
Qed.

Definition pend (s : ChatState) : nat := if turnFinishedPending s then 1%nat else 0%nat.

(** What an operation that leaves the calls alone may do. *)
Record quiet_step (s : ChatState) (events : list ModelEvent) (s' : ChatState) : Prop := {
  quiet_tools : tools s' = tools s;
  quiet_calls : invocations events = [];
  quiet_thinking : thinking (thinkingActive s) events = Some (thinkingActive s');
  quiet_finished : (finished events + pend s')%nat = pend s
}.

Lemma quiet_refl s : quiet_step s [] s.
Proof. by split. Qed.

Lemma quiet_trans s e1 s1 e2 s2 : quiet_step s e1 s1 -> quiet_step s1 e2 s2 -> quiet_step s (e1 ++ e2) s2.
Proof.
  intros [T1 C1 K1 F1] [T2 C2 K2 F2]. split.
  - congruence.
  - by rewrite invocations_app, C1, C2.
  - by rewrite thinking_app, K1.
  - rewrite finished_app. lia.
Qed.

Section Runs.
Context {PC : CreatePlanCodec} (sha256 : bytes -> bytes).

(** A call that the sink lets through. *)
Definition runs {A} (m : Chat A) (s : ChatState) (Q : A -> list ModelEvent -> ChatState -> Prop) : Prop :=
  forall log, exists a events s',
    m (mkWorld s (mkSink log [])) = (Ok a, mkWorld s' (mkSink (log ++ events) [])) /\ Q a events s'.

Definition quiet {A} (m : Chat A) : Prop := forall s, runs m s (fun _ events s' => quiet_step s events s').

Lemma runs_ret {A} (a : A) s (Q : A -> list ModelEvent -> ChatState -> Prop) : Q a [] s -> runs (ret a) s Q.
Proof. intros H log. exists a, [], s. by rewrite app_nil_r. Qed.

Lemma runs_get s (Q : ChatState -> list ModelEvent -> ChatState -> Prop) : Q s [] s -> runs get_chat s Q.
Proof. intros H log. exists s, [], s. by rewrite app_nil_r. Qed.

Lemma runs_update f s (Q : unit -> list ModelEvent -> ChatState -> Prop) :
  Q tt [] (f s) -> runs (update_chat f) s Q.
Proof. intros H log. exists tt, [], (f s). by rewrite app_nil_r. Qed.

Lemma runs_send body s (Q : unit -> list ModelEvent -> ChatState -> Prop) :
  Q tt [mkEvent "openai" (currentModel s) body] s -> runs (send_event body) s Q.
Proof. intros H log. by exists tt, [mkEvent "openai" (currentModel s) body], s. Qed.

Lemma runs_bind {A B} (m : Chat A) (k : A -> Chat B) s (Q : B -> list ModelEvent -> ChatState -> Prop) :
  runs m s (fun a e1 s1 => runs (k a) s1 (fun b e2 s2 => Q b (e1 ++ e2) s2)) ->
  runs (bind m k) s Q.
Proof.
  intros H log. destruct (H log) as (a & e1 & s1 & E1 & H1).
  destruct (H1 (log ++ e1)) as (b & e2 & s2 & E2 & H2).
  exists b, (e1 ++ e2), s2. split; [|done]. by rewrite (bind_step _ _ _ _ _ E1), E2, app_assoc.
Qed.

Lemma runs_mono {A} (m : Chat A) s (Q Q' : A -> list ModelEvent -> ChatState -> Prop) :
  runs m s Q -> (forall a e s', Q a e s' -> Q' a e s') -> runs m s Q'.
Proof. intros H HQ log. destruct (H log) as (a & e & s' & ? & ?). exists a, e, s'. auto. Qed.

Lemma quiet_ret {A} (a : A) : quiet (ret a).
Proof. intros s. apply runs_ret, quiet_refl. Qed.

Lemma quiet_bind {A B} (m : Chat A) (k : A -> Chat B) : quiet m -> (forall a, quiet (k a)) -> quiet (bind m k).
Proof.
  intros Hm Hk s. apply runs_bind. eapply runs_mono; [apply Hm|]. intros a e s' Hq. cbv beta in *.
  eapply runs_mono; [apply Hk|]. intros b e' s2 Hq'. by eapply quiet_trans.
Qed.

Lemma quiet_get : quiet get_chat.
Proof. intros s. apply runs_get, quiet_refl. Qed.

Lemma quiet_update f : (forall s, tools (f s) = tools s) -> (forall s, thinkingActive (f s) = thinkingActive s) ->
  (forall s, turnFinishedPending (f s) = turnFinishedPending s) -> quiet (update_chat f).
Proof.
  intros H1 H2 H3 s. apply runs_update. split; [done|done|by rewrite H2|]. unfold pend. by rewrite H3.
Qed.

Lemma quiet_effective : quiet MarkEffectiveContent.
Proof. by apply quiet_update. Qed.

Lemma quiet_flush_thinking now : quiet (flushThinkingCompleted now).
Proof.
  intros s. apply runs_bind, runs_get. destruct (thinkingActive s) eqn:Ha; cbn [negb]; [|apply runs_ret, quiet_refl].
  cbv zeta. apply runs_bind, runs_send, runs_update. cbn [app]. split; try done. cbn. by rewrite Ha.
Qed.

(** After it no thinking is open. *)
Lemma flush_thinking_closed now s :
  runs (flushThinkingCompleted now) s (fun _ e s' => quiet_step s e s' /\ thinkingActive s' = false).
Proof.
  apply runs_bind, runs_get. destruct (thinkingActive s) eqn:Ha; cbn [negb].
  - cbv zeta. apply runs_bind, runs_send, runs_update. cbn [app]. split; [|done]. split; try done. cbn. by rewrite Ha.
  - apply runs_ret. split; [apply quiet_refl|done].
Qed.

Lemma quiet_text now text : quiet (emitTextDelta now text).
Proof.
  unfold emitTextDelta. case_decide; [apply quiet_ret|]. apply quiet_bind; [apply quiet_effective|intros _].
  intros s. apply runs_bind. eapply runs_mono; [apply flush_thinking_closed|]. intros ? e s' [Hq Ha]. cbv beta.
  apply runs_send. apply (quiet_trans _ _ _ _ _ Hq). split; try done. cbn. by rewrite Ha.
Qed.

Lemma quiet_reasoning now text : quiet (emitThinkingDelta now text).
Proof.
  unfold emitThinkingDelta. case_decide; [apply quiet_ret|]. apply quiet_bind; [apply quiet_effective|intros _].
  intros s. apply runs_bind, runs_get. destruct (thinkingActive s) eqn:Ha; cbn [negb].
  - apply runs_bind, runs_ret, runs_send. cbn [app]. split; try done. cbn. by rewrite Ha.
  - apply runs_bind, runs_update, runs_send. cbn [app]. by split.
Qed.

Lemma quiet_parts now parts : quiet (emitTaggedContentParts now parts).
Proof.
  induction parts as [|part parts IH]; cbn [emitTaggedContentParts]; [apply quiet_ret|].
  apply quiet_bind; [|by intros _]. destruct (PartKind part);
    [apply quiet_text|apply quiet_reasoning|apply quiet_flush_thinking].
Qed.

Lemma quiet_parse now call : quiet (parse_and_emit now call).
Proof.
  unfold parse_and_emit. apply quiet_bind; [apply quiet_get|]. intros s.
  destruct (call (thinkParser s)) as [parts parser]. apply quiet_bind; [by apply quiet_update|].
  intros _. apply quiet_parts.
Qed.

Lemma flush_turn_finished s : thinkingActive s = false ->
  runs flushTurnFinished s (fun _ e s' => quiet_step s e s' /\ turnFinishedPending s' = false /\
    thinkingActive s' = false).
Proof.
  intros Ha. apply runs_bind, runs_get. destruct (turnFinishedPending s) eqn:Hp; cbn [negb].
  - apply runs_bind, runs_update, runs_send. cbn [app]. split_and!; [|done|done]. split; try done.
    + cbn. by rewrite Ha.
    + unfold pend. by rewrite Hp.
  - apply runs_ret. split_and!; [apply quiet_refl|done|done].
Qed.

(** Flushing leaves no thinking open and no end of turn pending. *)
Lemma flush_all_closed now s :
  runs (flush_all now) s (fun _ e s' => quiet_step s e s' /\ turnFinishedPending s' = false /\
    thinkingActive s' = false).
Proof.
  apply runs_bind. eapply runs_mono; [apply quiet_parse|]. intros ? e1 s1 H1. cbv beta in *.
  apply runs_bind. eapply runs_mono; [apply flush_thinking_closed|]. intros ? e2 s2 [H2 Ha]. cbv beta in *.
  eapply runs_mono; [by apply flush_turn_finished|]. intros ? e3 s3 (H3 & Hp & Ha3). cbv beta in *.
  split_and!; [|done|done]. by eapply quiet_trans; [|eapply quiet_trans].
Qed.

End Runs.

(** ** Lemmas: the calls *)

(** A step that may change the calls, but completes none. *)
Record calm_step (s : ChatState) (events : list ModelEvent) (s' : ChatState) : Prop := {
  calm_calls : invocations events = [];
  calm_thinking : thinking (thinkingActive s) events = Some (thinkingActive s');
  calm_finished : (finished events + pend s')%nat = pend s
}.

Lemma quiet_calm s e s' : quiet_step s e s' -> calm_step s e s'.
Proof. by intros [? ? ? ?]. Qed.

Lemma calm_trans s e1 s1 e2 s2 : calm_step s e1 s1 -> calm_step s1 e2 s2 -> calm_step s (e1 ++ e2) s2.
Proof.
  intros [C1 K1 F1] [C2 K2 F2]. split.
  - by rewrite invocations_app, C1, C2.
  - by rewrite thinking_app, K1.
  - rewrite finished_app. lia.
Qed.

Definition progress_event (body : EventBody) : bool :=
  match body with PartialToolCall _ _ _ | ToolCallDelta _ _ => true | _ => false end.

Lemma progress_calm s s' events : Forall (fun e => progress_event (Body e) = true) events ->
  thinkingActive s' = thinkingActive s -> turnFinishedPending s' = turnFinishedPending s ->
  calm_step s events s'.
Proof.
  intros H Ht Hf. assert (Hall : invocations events = [] /\ finished events = 0%nat /\
    forall a, thinking a events = Some a).
  { induction H as [|e l He _ (IH1 & IH2 & IH3)]; [done|]. unfold invocations, finished, is_finished in *.
    cbn. destruct (Body e); try done; by split_and!. }
  destruct Hall as (H1 & H2 & H3). split; [done|by rewrite H3, Ht|]. unfold pend. by rewrite H2, Hf.
Qed.

Lemma pieces_at_snoc index pieces item :
  pieces_at index (pieces ++ [item]) =
  pieces_at index pieces ++ (if PieceIndex item =? index then [item] else []).
Proof. unfold pieces_at. rewrite List.filter_app. cbn. by destruct (_ =? _). Qed.

Lemma last_or_empty_snoc {A} (f : A -> string) l x : last_or_empty (map f (l ++ [x])) = f x.
Proof. unfold last_or_empty. rewrite map_app. cbn [map]. by rewrite last_snoc. Qed.

Lemma nonblank_snoc l x : nonblank (l ++ [x]) =
  nonblank l ++ (if decide (TrimSpace x = EmptyString) then [] else [x]).
Proof.
  unfold nonblank. rewrite List.filter_app. cbn. destruct (decide _) as [E|E]; [by rewrite bool_decide_eq_true_2|].
  by rewrite bool_decide_eq_false_2.
Qed.

Section Calls.
Context {PC : CreatePlanCodec} (sha256 : bytes -> bytes) (modelCallID : string).
Context (Hplans : forall args, exists text, marshal_plan args = Ok text).

Record built (pieces : list ToolCallPiece) (a : ToolAccumulator) : Prop := {
  built_id : CallID a = call_id sha256 modelCallID pieces;
  built_name : Name a = call_name pieces;
  built_args : Args a = call_args pieces
}.

Lemma built_piece pieces item a : built pieces a ->
  built (pieces ++ [item]) (note_piece sha256 modelCallID item a).
Proof using.
  intros [H1 H2 H3]. unfold note_piece. cbv zeta. split.
  - unfold call_id. rewrite map_app. cbn [map]. rewrite nonblank_snoc.
    destruct (decide (TrimSpace (PieceID item) = EmptyString)) as [E|E].
    + rewrite app_nil_r. fold (call_id sha256 modelCallID pieces). by case_decide.
    + rewrite last_or_empty_snoc. by case_decide.
  - unfold call_name. rewrite map_app. cbn [map]. rewrite nonblank_snoc.
    destruct (decide (TrimSpace (PieceName item) = EmptyString)) as [E|E].
    + rewrite app_nil_r. fold (call_name pieces). by case_decide.
    + rewrite last_or_empty_snoc. by case_decide.
  - unfold call_args. rewrite map_app, concat_app. cbn. rewrite app_nil_r. fold (call_args pieces).
    rewrite <- H3. by do 2 case_decide.
Qed.

(** Progress is shown, and the call stays as it is. *)
Lemma progress_runs provider model delta a log :
  exists a' events,
    emitOpenAIToolProgress provider model delta (a, mkSink log []) = (Ok tt, (a', mkSink (log ++ events) [])) /\
    CallID a' = CallID a /\ Name a' = Name a /\ Args a' = Args a /\
    Forall (fun e => progress_event (Body e) = true) events.
Proof using Hplans.
  assert (Hnone : exists a' events,
    @ret (ToolAccumulator * Sink) unit tt (a, mkSink log []) = (Ok tt, (a', mkSink (log ++ events) [])) /\
    CallID a' = CallID a /\ Name a' = Name a /\ Args a' = Args a /\
    Forall (fun e => progress_event (Body e) = true) events).
  { exists a, []. rewrite app_nil_r. by split_and!. }
  unfold emitOpenAIToolProgress, bind at 1. cbn [get fst]. cbv zeta.
  destruct (decide (TrimSpace (Name a) = "CreatePlan")).
  { unfold emitCreatePlanToolProgress, bind at 1. cbn [get fst]. cbv zeta.
    destruct (decide (TrimSpace (CallID a) = EmptyString)); [done|].
    destruct (createPlanArgsProgressSnapshot (Args a)) as [args|]; [|done].
    destruct (Hplans args) as [text ->]. destruct (decide (text = [] \/ _)); [done|].
    unfold bind, update, send, sink_event. cbn [fst snd answers].
    eexists _, [_]. split; [reflexivity|]. by repeat constructor. }
  destruct (decide (TrimSpace (Name a) <> "Write" /\ _)); [done|].
  assert (Hpath : exists a' events,
    emit_path provider model (TrimSpace (Name a)) delta (a, mkSink log []) =
      (Ok tt, (a', mkSink (log ++ events) [])) /\
    CallID a' = CallID a /\ Name a' = Name a /\ Args a' = Args a /\
    Forall (fun e => progress_event (Body e) = true) events).
  { unfold emit_path, bind at 1. cbn [get fst]. cbv zeta.
    destruct (match extractJSONStringFieldPrefix (Args a) "path" with
              | Some r => Some r | None => extractJSONStringFieldPrefix (Args a) "file_path" end)
      as [[p []]|]; [|done|done].
    destruct (decide (trim_space p = [])); [done|]. unfold bind, update. cbn [fst snd].
    destruct (negb (negb _)); [exists (a <| LastEmittedPath := trim_space p |>), [];
      rewrite app_nil_r; by split_and!|].
    destruct (decide (TrimSpace (Name a) = "PatchEdit")); eexists _, [_]; (split; [reflexivity|]);
      by repeat constructor. }
  destruct Hpath as (a1 & e1 & E1 & I1 & N1 & A1 & P1). rewrite (bind_step _ _ _ _ _ E1).
  unfold emit_content, bind at 1. cbn [get fst].
  assert (Hkeep : exists a' events,
    @ret (ToolAccumulator * Sink) unit tt (a1, mkSink (log ++ e1) []) = (Ok tt, (a', mkSink (log ++ events) [])) /\
    CallID a' = CallID a /\ Name a' = Name a /\ Args a' = Args a /\
    Forall (fun e => progress_event (Body e) = true) events) by (exists a1, e1; by split_and!).
  destruct (extractToolStreamContentPrefix (Args a1) _) as [content|]; [|exact Hkeep]. cbv zeta.
  destruct (decide (suffixAfterCommonPrefix _ _ = [])); [exact Hkeep|].
  unfold bind, update, send, sink_event. cbn [fst snd answers taken].
  eexists _, (e1 ++ [_]). split; [by rewrite app_assoc|]. cbn. split_and!; try done.
  apply Forall_app. split; [done|]. by repeat constructor.
Qed.

(** The accumulators hold the pieces of the batch, each those of its index. *)
Definition assembled (pending : list ToolCallPiece) (accumulators : gmap Z ToolAccumulator) : Prop :=
  forall index, match accumulators !! index with
                | None => pieces_at index pending = []
                | Some a => pieces_at index pending <> [] /\ built (pieces_at index pending) a
                end.

Lemma built_nothing : built [] empty_accumulator.
Proof using. by split. Qed.

Lemma assembled_piece pending item accumulators a' : assembled pending accumulators ->
  built (pieces_at (PieceIndex item) pending ++ [item]) a' ->
  assembled (pending ++ [item]) (<[PieceIndex item := a']> accumulators).
Proof using.
  intros Ha Hb index. rewrite pieces_at_snoc. destruct (Z.eqb_spec (PieceIndex item) index) as [<-|Hne].
  - rewrite lookup_insert_eq. split; [by destruct (pieces_at _ _)|done].
  - rewrite lookup_insert_ne, app_nil_r by done. apply Ha.
Qed.

Lemma take_piece_runs pending item s : assembled pending (tools s) ->
  runs (take_piece sha256 modelCallID item) s
    (fun _ events s' => assembled (pending ++ [item]) (tools s') /\ calm_step s events s').
Proof using Hplans.
  intros Ha. apply runs_bind, runs_update. cbn beta. cbn [app]. apply runs_bind, runs_get. cbn [app].
  intros log. unfold on_accumulator. cbn [chat sink].
  set (s1 := s <| effective := S (effective s) |>) in *. change (tools s1) with (tools s).
  set (a := default empty_accumulator (tools s !! PieceIndex item)).
  assert (Hb : built (pieces_at (PieceIndex item) pending) a).
  { specialize (Ha (PieceIndex item)). subst a. destruct (tools s !! PieceIndex item); [apply Ha|].
    rewrite Ha. apply built_nothing. }
  apply (built_piece _ item) in Hb. unfold bind at 1, update. cbn [fst snd]. unfold bind at 1. cbn [get fst].
  set (a1 := note_piece sha256 modelCallID item a) in *. clearbody a a1.
  destruct (decide _).
  - destruct (progress_runs "openai" (currentModel s1) (Arguments item) a1 log) as (a2 & ev & -> & I2 & N2 & A2 & P2).
    eexists tt, ev, _. split; [reflexivity|]. split.
    + apply assembled_piece; [exact Ha|]. destruct Hb. split; congruence.
    + by apply progress_calm.
  - eexists tt, [], _. split; [by rewrite app_nil_r|]. split; [by apply assembled_piece|]. by apply progress_calm.
Qed.

Lemma take_pieces_runs pending items s : assembled pending (tools s) ->
  runs (each (take_piece sha256 modelCallID) items) s
    (fun _ events s' => assembled (pending ++ items) (tools s') /\ calm_step s events s').
Proof using Hplans.
  revert pending s. induction items as [|item items IH]; intros pending s Ha; cbn [each].
  - apply runs_ret. rewrite app_nil_r. split; [done|apply quiet_calm, quiet_refl].
  - apply runs_bind. eapply runs_mono; [by apply take_piece_runs|]. intros ? e1 s1 [H1 C1]. cbv beta.
    eapply runs_mono; [by apply IH|]. intros ? e2 s2 [H2 C2]. cbv beta.
    rewrite <- app_assoc in H2. split; [exact H2|]. by eapply calm_trans.
Qed.

Context (range_order : nat -> gmap Z ToolAccumulator -> list (Z * ToolAccumulator)).
Context (Hrange : forall n m, range_order n m ≡ₚ map_to_list m).

Definition invocation_of (item : Z * ToolAccumulator) : ToolInvocation :=
  mkInvocation (TrimSpace (CallID item.2)) (TrimSpace (Name item.2)) (Args item.2).

Definition completes (l : list (Z * ToolAccumulator)) (s : ChatState) (e : list ModelEvent) (s' : ChatState) : Prop :=
  invocations e = map invocation_of l /\ tools s' = tools s /\ finished e = 0%nat /\ pend s' = pend s /\
  thinking (thinkingActive s) e = Some (thinkingActive s').

Lemma complete_each l s : runs (each complete_tool l) s (fun _ e s' => completes l s e s').
Proof using.
  revert s. induction l as [|item l IH]; intros s; cbn [each].
  - apply runs_ret. by split_and!.
  - apply runs_bind. unfold complete_tool at 1. apply runs_bind, runs_send, runs_update. cbn beta. cbn [app].
    eapply runs_mono; [apply IH|]. intros ? e s' (H1 & H2 & H3 & H4 & H5). cbv beta.
    split_and!; try done. unfold invocations in *. cbn. by rewrite H1.
Qed.

Lemma pieces_at_indices index pieces : pieces_at index pieces <> [] <-> index ∈ map PieceIndex pieces.
Proof using.
  induction pieces as [|p pieces IH]; cbn.
  - split; [done|]. by intros ?%elem_of_nil.
  - rewrite elem_of_cons. destruct (Z.eqb_spec (PieceIndex p) index) as [E|E].
    + split; [by left|done].
    + rewrite IH. split; [by right|]. by intros [?|?].
Qed.

(** The accumulators of a batch give its calls, in some order. *)
Lemma assembled_calls pending accumulators n : assembled pending accumulators ->
  map invocation_of (range_order n accumulators) ≡ₚ batch_calls sha256 modelCallID pending.
Proof using Hrange.
  intros Ha. rewrite Hrange. unfold batch_calls.
  assert (Hk : map fst (map_to_list accumulators) ≡ₚ remove_dups (map PieceIndex pending)).
  { apply NoDup_Permutation; [apply NoDup_fst_map_to_list|apply NoDup_remove_dups|].
    intros index. rewrite elem_of_remove_dups, <- pieces_at_indices. specialize (Ha index). split.
    - intros Hin. apply list_elem_of_fmap in Hin as ([i a] & -> & Hin). apply elem_of_map_to_list in Hin.
      cbn in *. rewrite Hin in Ha. apply Ha.
    - intros Hne. destruct (accumulators !! index) as [a|] eqn:E; [|by rewrite Ha in Hne].
      apply list_elem_of_fmap. exists (index, a). split; [done|]. by apply elem_of_map_to_list. }
  rewrite <- Hk, map_map.
  match goal with |- ?l ≡ₚ ?k => assert (El : l = k); [|by rewrite El] end.
  apply map_ext_in. intros [i a] Hin. apply list_elem_of_In, elem_of_map_to_list in Hin.
  specialize (Ha i). rewrite Hin in Ha. destruct Ha as [_ [B1 B2 B3]].
  unfold invocation_of, call_of. cbn. by rewrite B1, B2, B3.
Qed.

Lemma complete_tools_runs pending s : assembled pending (tools s) ->
  runs (complete_tools range_order) s (fun _ e s' =>
    invocations e ≡ₚ batch_calls sha256 modelCallID pending /\ tools s' = tools s /\ finished e = 0%nat /\
    pend s' = pend s /\ thinking (thinkingActive s) e = Some (thinkingActive s')).
Proof using Hrange.
  intros Ha. apply runs_bind, runs_get, runs_bind, runs_update. cbn beta. cbn [app].
  eapply runs_mono; [apply complete_each|]. intros ? e s' (H1 & H2 & H3 & H4 & H5). cbv beta.
  split_and!; try done. rewrite H1. by apply assembled_calls.
Qed.

(** What a chunk does to the calls, the brackets and the end of the turn. *)
Definition chunk_effect (pending : list ToolCallPiece) (chunk : Chunk) (s : ChatState) (e : list ModelEvent)
    (s' : ChatState) : Prop :=
  (if finishes chunk
   then assembled [] (tools s') /\ invocations e ≡ₚ batch_calls sha256 modelCallID (pending ++ chunk_pieces chunk) /\
        (1 <= finished e + pend s' <= pend s + 1)%nat
   else assembled (pending ++ chunk_pieces chunk) (tools s') /\ invocations e = [] /\
        (finished e + pend s' = pend s)%nat) /\
  thinking (thinkingActive s) e = Some (thinkingActive s').

Lemma take_choice_runs now pending choice s e0 s0 :
  assembled pending (tools s) -> quiet_step s0 e0 s ->
  runs (take_choice sha256 range_order modelCallID now choice) s (fun _ e s' =>
    forall chunk rest, Choices chunk = choice :: rest -> chunk_effect pending chunk s0 (e0 ++ e) s').
Proof using Hplans Hrange.
  intros Ha Q0. unfold take_choice. apply runs_bind.
  eapply runs_mono; [instantiate (1 := fun _ e s' => quiet_step s e s'); destruct (decide (Content choice = []));
    [apply quiet_ret|apply quiet_parse]|]. intros ? e1 s1 Q1. cbv beta in *.
  apply runs_bind. eapply runs_mono; [apply quiet_reasoning|]. intros ? e2 s2 Q2. cbv beta in *.
  apply runs_bind. eapply runs_mono; [instantiate (1 := fun _ e s' => quiet_step s2 e s');
    destruct (_ && _ && _); [apply quiet_bind; [apply quiet_parse|intros; apply quiet_flush_thinking]|apply quiet_ret]|].
  intros ? e3 s3 Q3. cbv beta in *.
  assert (Q : quiet_step s0 (e0 ++ e1 ++ e2 ++ e3) s3)
    by (eapply quiet_trans; [done|]; eapply quiet_trans; [done|]; by eapply quiet_trans).
  assert (Ha3 : assembled pending (tools s3)).
  { destruct Q0 as [T0 _ _ _], Q as [T _ _ _]. rewrite T, <- T0. exact Ha. }
  clear Q0 Q1 Q2 Q3 Ha. apply runs_bind. eapply runs_mono; [by apply take_pieces_runs|].
  intros ? e4 s4 [H4 C4]. cbv beta in *.
  assert (C : calm_step s0 (e0 ++ e1 ++ e2 ++ e3 ++ e4) s4).
  { apply quiet_calm in Q. pose proof (calm_trans _ _ _ _ _ Q C4) as C. by rewrite <- !app_assoc in C. }
  clear Q C4 Ha3.
  assert (Hplain : forall chunk rest, Choices chunk = choice :: rest -> finishes chunk = false ->
    chunk_effect pending chunk s0 (e0 ++ e1 ++ e2 ++ e3 ++ e4 ++ []) s4).
  { intros chunk rest Ec Hf. unfold chunk_effect. rewrite Hf, app_nil_r.
    destruct C as [C1 C2 C3]. split; [|exact C2]. unfold chunk_pieces. by rewrite Ec. }
  destruct (FinishReason choice) as [reason|] eqn:Er.
  2: { apply runs_ret. intros chunk rest Ec. apply (Hplain chunk rest Ec).
       unfold finishes. by rewrite Ec, Er. }
  destruct (decide (TrimSpace reason = EmptyString)) as [Eb|Eb].
  { apply runs_ret. intros chunk rest Ec. apply (Hplain chunk rest Ec).
    unfold finishes. by rewrite Ec, Er, bool_decide_eq_true_2. }
  clear Hplain. apply runs_bind. eapply runs_mono; [apply quiet_parse|]. intros ? e5 s5 Q5. cbv beta in *.
  apply runs_bind. eapply runs_mono; [apply quiet_flush_thinking|]. intros ? e6 s6 Q6. cbv beta in *.
  assert (Q : quiet_step s4 (e5 ++ e6) s6) by by eapply quiet_trans.
  assert (Ha6 : assembled (pending ++ ToolPieces choice) (tools s6)) by (destruct Q as [-> _ _ _]; exact H4).
  apply quiet_calm in Q. pose proof (calm_trans _ _ _ _ _ C Q) as [K1 K2 K3]. clear Q5 Q6 Q C.
  apply runs_bind. eapply runs_mono; [by apply complete_tools_runs|].
  intros ? e7 s7 (P1 & P2 & P3 & P4 & P5). cbv beta in *. apply runs_update.
  intros chunk rest Ec. unfold chunk_effect. assert (Hf : finishes chunk = true).
  { unfold finishes. rewrite Ec, Er. by rewrite bool_decide_eq_false_2. }
  rewrite Hf. rewrite app_nil_r.
  replace (e0 ++ e1 ++ e2 ++ e3 ++ e4 ++ e5 ++ e6 ++ e7) with
    (((e0 ++ e1 ++ e2 ++ e3 ++ e4) ++ e5 ++ e6) ++ e7) by by rewrite <- !app_assoc.
  rewrite invocations_app, K1, thinking_app, K2, finished_app, P3, Nat.add_0_r. unfold chunk_pieces. rewrite Ec.
  split_and!; [|exact P1| | |exact P5]; try done.
  - cbn. lia.
  - cbn. lia.
Qed.

Lemma quiet_model chunk : quiet (set_model chunk).
Proof using. unfold set_model. case_decide; [apply quiet_ret|by apply quiet_update]. Qed.

Lemma quiet_usage chunk : quiet (set_usage chunk).
Proof using. by apply quiet_update. Qed.

Lemma take_chunk_runs now pending chunk s : is_error_chunk chunk = false -> assembled pending (tools s) ->
  runs (take_chunk sha256 range_order modelCallID now chunk) s (fun _ e s' => chunk_effect pending chunk s e s').
Proof using Hplans Hrange.
  intros He Ha. unfold take_chunk. unfold is_error_chunk in He. rewrite He.
  apply runs_bind. eapply runs_mono; [apply quiet_model|]. intros ? e1 s1 Q1. cbv beta in *.
  apply runs_bind. eapply runs_mono; [apply quiet_usage|]. intros ? e2 s2 Q2. cbv beta in *.
  assert (Q : quiet_step s (e1 ++ e2) s2) by by eapply quiet_trans.
  assert (Ha2 : assembled pending (tools s2)) by (destruct Q as [-> _ _ _]; exact Ha).
  destruct (Choices chunk) as [|choice rest] eqn:Ec.
  - eapply runs_mono; [apply flush_all_closed|]. intros ? e3 s3 (Q3 & _). cbv beta in *.
    rewrite app_assoc. destruct (quiet_trans _ _ _ _ _ Q Q3) as [T C K F].
    unfold chunk_effect. assert (Hf : finishes chunk = false) by (unfold finishes; by rewrite Ec).
    assert (Hp : chunk_pieces chunk = []) by (unfold chunk_pieces; by rewrite Ec).
    rewrite Hf, Hp, app_nil_r. split; [|exact K]. split_and!; [|done|done]. by rewrite T.
  - eapply runs_mono; [by apply take_choice_runs|]. intros ? e3 s3 H. cbv beta in *.
    rewrite app_assoc. by eapply H.
Qed.

Context (decode_chunk : string -> result Chunk).

Definition lines_effect (pending : list ToolCallPiece) (chunks : list Chunk) (s : ChatState)
    (e : list ModelEvent) (s' : ChatState) : Prop :=
  let n := length (List.filter finishes chunks) in
  exists groups complete rest,
    batches pending chunks = complete ++ [rest] /\
    Forall2 (≡ₚ) groups (map (batch_calls sha256 modelCallID) complete) /\
    invocations e = concat groups /\ assembled rest (tools s') /\
    thinking (thinkingActive s) e = Some (thinkingActive s') /\
    (finished e + pend s' <= pend s + n)%nat /\ ((0 < pend s + n) -> (0 < finished e + pend s'))%nat.

Lemma chunk_then_lines pending chunk chunks s e1 s1 e2 s2 :
  chunk_effect pending chunk s e1 s1 ->
  lines_effect (if finishes chunk then [] else pending ++ chunk_pieces chunk) chunks s1 e2 s2 ->
  lines_effect pending (chunk :: chunks) s (e1 ++ e2) s2.
Proof using.
  intros [Hc Hk] (groups & complete & rest & B & G & I & A & K & F1 & F2). cbv zeta in F1, F2.
  unfold lines_effect. cbn [batches List.filter]. cbv zeta.
  destruct (finishes chunk); destruct Hc as (HA & HI & HF); cbn [length].
  - exists (invocations e1 :: groups), ((pending ++ chunk_pieces chunk) :: complete), rest.
    split_and!; [by rewrite B|by constructor| |done| |rewrite finished_app; lia|rewrite finished_app; lia].
    + by rewrite invocations_app, I.
    + by rewrite thinking_app, Hk.
  - exists groups, complete, rest. split_and!; [done|done| |done| |rewrite finished_app; lia|rewrite finished_app; lia].
    + by rewrite invocations_app, HI, I.
    + by rewrite thinking_app, Hk.
Qed.

Lemma no_chunks pending s e s' : assembled pending (tools s) -> quiet_step s e s' ->
  lines_effect pending [] s e s'.
Proof using.
  intros Ha [T C K F]. exists [], [], pending. cbn.
  split_and!; [done|constructor|done|by rewrite T|done|lia|lia].
Qed.

Lemma take_lines_runs lines : forall pending chunks s,
  lines_chunks decode_chunk lines = Some chunks -> assembled pending (tools s) ->
  runs (take_lines sha256 decode_chunk range_order modelCallID lines) s
    (fun _ e s' => lines_effect pending chunks s e s').
Proof using Hplans Hrange.
  induction lines as [|[now line] lines IH]; intros pending chunks s Hl Ha; cbn [take_lines lines_chunks] in *.
  { injection Hl as <-. apply runs_ret, no_chunks; [done|apply quiet_refl]. }
  apply runs_bind. unfold take_line.
  destruct (strip_prefix data_prefix _) as [payload|].
  2: { apply runs_ret. cbv beta. cbn [app]. by apply IH. }
  cbv zeta in Hl |- *. destruct (decide (string_of (trim_space payload) = "[DONE]")).
  - injection Hl as <-. apply runs_bind. eapply runs_mono; [apply flush_all_closed|].
    intros ? ev s1 (Q & _). cbv beta. apply runs_ret, runs_ret. rewrite !app_nil_r. by apply no_chunks.
  - destruct (decode_chunk _) as [chunk|]; [|done].
    destruct (is_error_chunk chunk) eqn:Ee; [done|].
    destruct (lines_chunks decode_chunk lines) as [more|] eqn:El; [|done]. injection Hl as <-.
    apply runs_bind. eapply runs_mono; [by apply take_chunk_runs|]. intros ? e1 s1 E1. cbv beta in *.
    apply runs_ret. rewrite app_nil_r. eapply runs_mono; [eapply (IH (if finishes chunk then [] else pending ++ chunk_pieces chunk)); [done|]|].
    + destruct E1 as [E1 _]. destruct (finishes chunk); apply E1.
    + intros ? e2 s2 E2. cbv beta in *. by eapply chunk_then_lines.
Qed.

Lemma assembled_nothing : assembled [] ∅.
Proof using. intros index. by rewrite lookup_empty. Qed.

(** The calls of all batches, those of the last one too. *)
Definition all_calls_complete (chunks : list Chunk) (events : list ModelEvent) : Prop :=
  exists groups, invocations events = concat groups /\
    Forall2 (≡ₚ) groups (map (batch_calls sha256 modelCallID) (batches [] chunks)).

Lemma stream_loop lines chunks s : lines_chunks decode_chunk lines = Some chunks -> tools s = ∅ ->
  runs (take_lines sha256 decode_chunk range_order modelCallID lines ;;; complete_tools range_order) s
    (fun _ e s' =>
      let n := length (List.filter finishes chunks) in
      all_calls_complete chunks e /\ thinking (thinkingActive s) e = Some (thinkingActive s') /\
      (finished e + pend s' <= pend s + n)%nat /\ ((0 < pend s + n) -> (0 < finished e + pend s'))%nat).
Proof using Hplans Hrange.
  intros Hl Ht. apply runs_bind.
  eapply runs_mono; [apply (take_lines_runs lines [] chunks); [done|rewrite Ht; apply assembled_nothing]|].
  intros ? e1 s1 (groups & complete & rest & B & G & I & A & K & F1 & F2). cbv beta zeta in *.
  eapply runs_mono; [by apply complete_tools_runs|]. intros ? e2 s2 (P1 & P2 & P3 & P4 & P5). cbv beta in *.
  rewrite finished_app, thinking_app, K. unfold all_calls_complete. rewrite invocations_app. split_and!.
  - exists (groups ++ [invocations e2]). rewrite B, map_app, concat_app, I. cbn. rewrite app_nil_r. split; [done|].
    apply Forall2_app; [done|]. by repeat constructor.
  - exact P5.
  - lia.
  - lia.
Qed.

Lemma stream_runs lines chunks now s : lines_chunks decode_chunk lines = Some chunks -> tools s = ∅ ->
  runs (streamChatCompletions sha256 decode_chunk range_order modelCallID lines None now) s (fun _ e s' =>
    let n := length (List.filter finishes chunks) in
    all_calls_complete chunks e /\ thinking (thinkingActive s) e = Some false /\
    (finished e <= pend s + n)%nat /\ ((0 < pend s + n) -> (0 < finished e))%nat).
Proof using Hplans Hrange.
  intros Hl Ht log. destruct (stream_loop lines chunks s Hl Ht log) as (? & e1 & s1 & E1 & (groups & I & G) & K & F1 & F2).
  destruct (flush_all_closed now s1 (log ++ e1)) as ([] & e2 & s2 & E2 & [T C K3 F3] & Hp & Ha).
  assert (Hp2 : pend s2 = 0%nat) by (unfold pend; by rewrite Hp).
  exists tt, (e1 ++ e2), s2. split.
  - unfold streamChatCompletions. apply bind_ok in E1 as (u & w1 & E1 & E1').
    rewrite (bind_step _ _ _ _ _ E1), (bind_step _ _ _ _ _ E1'), E2. by rewrite app_assoc.
  - cbv zeta in *. rewrite finished_app. split_and!.
    + exists groups. by rewrite invocations_app, C, app_nil_r.
    + by rewrite thinking_app, K, K3, Ha.
    + lia.
    + lia.
Qed.

End Calls.

(** ** The theorems *)

Section Theorems.
Context {PC : CreatePlanCodec} (sha256 : bytes -> bytes) (decode_chunk : string -> result Chunk).
Context (range_order : nat -> gmap Z ToolAccumulator -> list (Z * ToolAccumulator)).
Context (modelCallID modelID : string).
Context (Hplans : forall args, exists text, marshal_plan args = Ok text).
Context (Hrange : forall n m, range_order n m ≡ₚ map_to_list m).

(** C16: tool calls are put together from their pieces without loss or mixture.  For every stream
    whose lines decode and carry no error, whatever its cutting and interleaving, and for any
    order in which maps are ranged over, the stream returns without an error, and between one
    finish reason and the next each index that was used gives exactly one call, with the last
    identifier and name it was given and the concatenation of all its arguments, in their
    order. *)
Theorem chat_calls_assembled lines chunks now :
  lines_chunks decode_chunk lines = Some chunks ->
  exists w,
    streamChatCompletions sha256 decode_chunk range_order modelCallID lines None now (initial modelID []) = (Ok tt, w) /\
    exists groups, invocations (taken (sink w)) = concat groups /\
      Forall2 (≡ₚ) groups (map (batch_calls sha256 modelCallID) (batches [] chunks)).
Proof using Hplans Hrange.
  intros Hl. destruct (stream_runs sha256 modelCallID Hplans range_order Hrange decode_chunk lines chunks now
    (chat (initial modelID [])) Hl eq_refl []) as ([] & e & s' & E & H & _).
  eexists. split; [exact E|exact H].
Qed.

(** the events of a stream are well bracketed.  Thinking is closed before any text and before
    the end of the turn, and is never closed twice; when the stream has a finish reason it ends
    the turn at least once and at most once for each finish reason, and otherwise never. *)
Theorem chat_events_bracketed lines chunks now :
  lines_chunks decode_chunk lines = Some chunks ->
  let n := length (List.filter finishes chunks) in
  exists w,
    streamChatCompletions sha256 decode_chunk range_order modelCallID lines None now (initial modelID []) = (Ok tt, w) /\
    thinking false (taken (sink w)) = Some false /\
    (finished (taken (sink w)) <= n)%nat /\ ((0 < n)%nat -> (0 < finished (taken (sink w)))%nat).
Proof using Hplans Hrange.
  intros Hl n. destruct (stream_runs sha256 modelCallID Hplans range_order Hrange decode_chunk lines chunks now
    (chat (initial modelID [])) Hl eq_refl []) as ([] & e & s' & E & _ & K & F1 & F2).
  eexists. split; [exact E|]. split_and!; [exact K|exact F1|exact F2].
Qed.

(** a stream that breaks off hands over the calls it had begun.  When reading fails after any
    number of good lines, also because the provider fell silent, the stream returns the error,
    but only after the calls of the last, unfinished batch went to the sink like complete ones,
    with the arguments that had come so far. *)
Theorem broken_stream_completes_calls lines chunks e now :
  lines_chunks decode_chunk lines = Some chunks ->
  exists w,
    streamChatCompletions sha256 decode_chunk range_order modelCallID lines (Some e) now (initial modelID []) = (Err e, w) /\
    exists groups, invocations (taken (sink w)) = concat groups /\
      Forall2 (≡ₚ) groups (map (batch_calls sha256 modelCallID) (batches [] chunks)).
Proof using Hplans Hrange.
  intros Hl. destruct (stream_loop sha256 modelCallID Hplans range_order Hrange decode_chunk lines chunks
    (chat (initial modelID [])) Hl eq_refl []) as ([] & ev & s' & E & H & _).
  exists (mkWorld s' (mkSink ev [])). split; [|exact H]. apply bind_ok in E as (u & w1 & E & E').
  unfold streamChatCompletions. change (initial modelID []) with (mkWorld (chat (initial modelID [])) (mkSink [] [])).
  by rewrite (bind_step _ _ _ _ _ E), (bind_step _ _ _ _ _ E').
Qed.

End Theorems.

(** ** Examples and witnesses *)

Module Demo.

(** A chunk is named by its line. *)
Definition chunk_with (content : string) (pieces : list ToolCallPiece) (reason : option string) : Chunk :=
  mkChunk EmptyString EmptyString None [mkChoice (bytes_of content) [] pieces reason] EmptyString None.

Definition decode (payload : string) : result Chunk :=
  if decide (payload = "text") then Ok (chunk_with "<think>why</think>so" [] None)
  else if decide (payload = "begin") then
    Ok (chunk_with EmptyString [mkPiece 0 "a" "Shell" (bytes_of "{x"); mkPiece 1 "b" "Grep" (bytes_of "{")] None)
  else if decide (payload = "more") then
    Ok (chunk_with EmptyString [mkPiece 1 EmptyString EmptyString (bytes_of "y}");
                                mkPiece 0 EmptyString EmptyString (bytes_of "}")] None)
  else if decide (payload = "finish") then Ok (chunk_with EmptyString [] (Some "tool_calls"))
  else Err "no JSON".

Definition lines : list (Z * string) :=
  [(0, "data: text"); (1, EmptyString); (2, "data: begin"); (3, "data:more"); (4, "data: finish");
   (5, "data: [DONE]")].

Definition in_order (_ : nat) (m : gmap Z ToolAccumulator) : list (Z * ToolAccumulator) := rev (map_to_list m).
Definition backwards (_ : nat) (m : gmap Z ToolAccumulator) : list (Z * ToolAccumulator) := map_to_list m.

Definition events (order : nat -> gmap Z ToolAccumulator -> list (Z * ToolAccumulator)) (lines : list (Z * string))
    (readError : option string) : result unit * list EventBody :=
  let '(r, w) := streamChatCompletions (PC := ToolProgress.Demo.no_plans) ToolCallId.Demo.sample_hash decode order
                   "call" lines readError 9 (initial "m" []) in
  (r, map Body (taken (sink w))).

Definition call (id name args : string) : EventBody := ToolLikeCompleted (mkInvocation id name (bytes_of args)).

Example whole_stream : events in_order lines None =
  (Ok tt, [ThinkingDelta (bytes_of "why"); ThinkingCompleted 0 EmptyString EmptyString; TextDelta (bytes_of "so");
           call "tc_636363636363_a" "Shell" "{x}"; call "tc_636363636363_b" "Grep" "{y}";
           TurnFinished no_usage "tool_calls"]).
Proof. vm_compute. reflexivity. Qed.

(** Go may range over the calls in any order, and so may a client see them: the order the model
    gave them is lost. *)
Example calls_in_any_order : events backwards lines None =
  (Ok tt, [ThinkingDelta (bytes_of "why"); ThinkingCompleted 0 EmptyString EmptyString; TextDelta (bytes_of "so");
           call "tc_636363636363_b" "Grep" "{y}"; call "tc_636363636363_a" "Shell" "{x}";
           TurnFinished no_usage "tool_calls"]).
Proof. vm_compute. reflexivity. Qed.

(** A connection that is lost in the middle of the arguments. *)
Example unfinished_call_handed_over :
  events in_order [(0, "data: begin")] (Some "connection reset") =
  (Err "connection reset", [call "tc_636363636363_a" "Shell" "{x"; call "tc_636363636363_b" "Grep" "{"]).
Proof. vm_compute. reflexivity. Qed.

Lemma plans_print : forall args, exists text,
  marshal_plan (CreatePlanCodec := ToolProgress.Demo.no_plans) args = Ok text.
Proof. intros args. by exists (Plan args). Qed.

Lemma in_order_permutes : forall n m, in_order n m ≡ₚ map_to_list m.
Proof. intros n m. symmetry. apply Permutation_rev. Qed.

Definition stream (lines : list (Z * string)) (readError : option string) : result unit * World :=
  streamChatCompletions (PC := ToolProgress.Demo.no_plans) ToolCallId.Demo.sample_hash decode in_order
    "call" lines readError 9 (initial "m" []).

Definition decoded : list Chunk := default [] (lines_chunks decode lines).

End Demo.

Lemma chat_calls_assembled_witness :
  exists w, Demo.stream Demo.lines None = (Ok tt, w) /\
    exists groups, invocations (taken (sink w)) = concat groups /\
      Forall2 (≡ₚ) groups (map (batch_calls ToolCallId.Demo.sample_hash "call") (batches [] Demo.decoded)).
Proof.
  apply (chat_calls_assembled (PC := ToolProgress.Demo.no_plans) _ _ _ _ _ Demo.plans_print Demo.in_order_permutes).
  vm_compute. reflexivity.
Defined.

Lemma chat_events_bracketed_witness :
  exists w, Demo.stream Demo.lines None = (Ok tt, w) /\
    thinking false (taken (sink w)) = Some false /\
    (finished (taken (sink w)) <= 1)%nat /\ ((0 < 1)%nat -> (0 < finished (taken (sink w)))%nat).
Proof.
  apply (chat_events_bracketed (PC := ToolProgress.Demo.no_plans) _ _ _ _ _ Demo.plans_print Demo.in_order_permutes
    Demo.lines Demo.decoded).
  vm_compute. reflexivity.
Defined.

Lemma broken_stream_completes_calls_witness :
  exists w, Demo.stream [(0, "data: begin")] (Some "connection reset") = (Err "connection reset", w) /\
    exists groups, invocations (taken (sink w)) = concat groups /\
      Forall2 (≡ₚ) groups (map (batch_calls ToolCallId.Demo.sample_hash "call")
        (batches [] (default [] (lines_chunks Demo.decode [(0, "data: begin")])))).
Proof.
  apply (broken_stream_completes_calls (PC := ToolProgress.Demo.no_plans) _ _ _ _ _ Demo.plans_print
    Demo.in_order_permutes).
  vm_compute. reflexivity.
Defined.
