(* ===== verification/AnthropicStream.v ===== *)
(** * The event stream of Anthropic (agent/model/anthropic.go).

    [Stream] reads server-sent events line by line and turns them into model events: text and reasoning
    (through the parser of ThinkTag.v), tool calls whose arguments arrive in pieces (with the progress of
    ToolProgress.v), the usage and the end of the turn.  Building the request, the HTTP exchange and the
    log of artifacts are left out.  Decoding an event and the arguments of a call are parameters; the
    clock is read once a line. *)

From S2P Require Import Prelude Go Strings ThinkTag ToolCallId Effect ToolProgress ChatStream.

(** ** The decoded events *)

Record anthropicUsage := mkReported {
  ReportedInput : option Z;
  ReportedOutput : option Z;
  ReportedCacheWrite : option Z;
  ReportedCacheRead : option Z
}.

(** [BlockInput] is what marshalling the ["input"] of the block gives, [None] when there is none. *)
Record anthropicEvent := mkAnthropicEvent {
  EventType : string;
  EventRequestID : string;
  EventIndex : Z;
  BlockType : string;
  BlockID : string;
  BlockName : string;
  BlockInput : option (result bytes);
  MessageModel : string;
  MessageUsage : anthropicUsage;
  EventUsage : anthropicUsage;
  DeltaType : string;
  DeltaText : bytes;
  DeltaThinking : bytes;
  PartialJSON : bytes;
  DeltaSignature : string;
  StopReason : string;
  EventError : option ChunkError
}.

(** ** The state of a stream *)

Record StreamState := mkStream {
  toolBlocks : gmap Z ToolAccumulator;
  startedThinking : option Z;
  currentThinkingSignature : string;
  tagParser : openAIThinkTagParser;
  streamModel : string;
  streamUsage : Usage;
  streamReason : string;
  (** How often the idle watchdog was told of content. *)
  marked_effective : nat
}.

Record StreamWorld := mkStreamWorld { stream : StreamState; events_sink : Sink }.

#[export] Instance eta_stream : Eta StreamState := fun s =>
  mkStream (toolBlocks s) (startedThinking s) (currentThinkingSignature s) (tagParser s) (streamModel s)
    (streamUsage s) (streamReason s) (marked_effective s).
#[export] Instance eta_stream_world : Eta StreamWorld := fun w => mkStreamWorld (stream w) (events_sink w).

Definition initial_stream (modelID : string) (answers : list (option string)) : StreamWorld :=
  mkStreamWorld (mkStream ∅ None EmptyString (mkParser [] false) modelID no_usage "message_stop" 0) (mkSink [] answers).

Definition Streaming (A : Type) : Type := SE StreamWorld A.

Section Stream.
Context {PC : CreatePlanCodec} (sha256 : bytes -> bytes).
Context (decode_event : string -> result anthropicEvent).
(** Whether arguments that decode are an object, and not null. *)
Context (decode_arguments : bytes -> result bool).
Context (modelCallID : string).

Definition get_stream : Streaming StreamState := fun w => (Ok (stream w), w).
Definition update_stream (f : StreamState -> StreamState) : Streaming unit := fun w => (Ok tt, w <| stream := f (stream w) |>).
Definition stream_error {A} (e : string) : Streaming A := fun w => (Err e, w).

Definition emit (body : EventBody) : Streaming unit := fun w =>
  let '(r, s) := sink_event (mkEvent "anthropic" (streamModel (stream w)) body) (events_sink w) in
  (r, w <| events_sink := s |>).

Definition MarkContent : Streaming unit := update_stream (fun s => s <| marked_effective := S (marked_effective s) |>).

(** ** Its closures *)

Definition flushThinking (now : Z) : Streaming unit :=
  s <- get_stream;;
  match startedThinking s with
  | None => ret tt
  | Some started =>
      let duration := wrap_int32 ((now - started) / 1000000) in
      let duration := if duration <? 0 then 0 else duration in
      let signature := TrimSpace (currentThinkingSignature s) in
      emit (ThinkingCompleted duration signature (if decide (signature = EmptyString) then EmptyString else "anthropic")) ;;;
      update_stream (fun s => s <| startedThinking := None |> <| currentThinkingSignature := EmptyString |>)
  end.

Definition emitText (now : Z) (text : bytes) : Streaming unit :=
  if decide (text = []) then ret tt
  else MarkContent ;;; flushThinking now ;;; emit (TextDelta text).

Definition emitThinking (now : Z) (reasoning : bytes) : Streaming unit :=
  if decide (reasoning = []) then ret tt
  else
    MarkContent ;;;
    update_stream (fun s => match startedThinking s with
                            | None => s <| startedThinking := Some now |>
                            | Some _ => s
                            end) ;;;
    emit (ThinkingDelta reasoning).

Fixpoint emitTaggedTextParts (now : Z) (parts : list openAIContentPart) : Streaming unit :=
  match parts with
  | [] => ret tt
  | part :: parts =>
      (match PartKind part with
       | openAIContentPartText => emitText now (PartText part)
       | openAIContentPartReasoning => emitThinking now (PartText part)
       | openAIContentPartThinkingCompleted => flushThinking now
       end) ;;;
      emitTaggedTextParts now parts
  end.

(** A call of the parser, whose parts are emitted. *)
Definition parse_text (now : Z) (call : openAIThinkTagParser -> list openAIContentPart * openAIThinkTagParser) : Streaming unit :=
  s <- get_stream;;
  let '(parts, parser) := call (tagParser s) in
  update_stream (fun s => s <| tagParser := parser |>) ;;;
  emitTaggedTextParts now parts.

Definition flushTaggedTextTail (now : Z) : Streaming unit := parse_text now Flush.

Definition take_usage (usage : anthropicUsage) (u : Usage) : Usage :=
  let some_or (reported : option Z) (old : Z) := match reported with Some n => Z.max n 0 | None => old end in
  let present (reported : option Z) (old : bool) := old || bool_decide (is_Some reported) in
  mkUsage (some_or (ReportedInput usage) (InputTokens u)) (some_or (ReportedOutput usage) (OutputTokens u))
    (some_or (ReportedCacheRead usage) (CacheReadTokens u)) (some_or (ReportedCacheWrite usage) (CacheWriteTokens u))
    (present (ReportedInput usage) (present (ReportedOutput usage) (present (ReportedCacheRead usage)
       (present (ReportedCacheWrite usage) (UsagePresent u)))))
    (present (ReportedCacheRead usage) (CacheReadPresent u)) (present (ReportedCacheWrite usage) (CacheWritePresent u)).

Definition errorFromEvent (event : anthropicEvent) : string :=
  match EventError event with
  | None => "anthropic provider error"
  | Some err =>
      let parts := labelled "type=" (ErrorType err) ++ labelled "code=" (ErrorCode err) ++
                   labelled "request_id=" (EventRequestID event) in
      let message := TrimSpace (ErrorMessage err) in
      if decide (message = EmptyString) then
        if decide (parts = []) then "anthropic provider error"
        else "anthropic provider error " +:+ String.concat " " parts
      else if decide (parts = []) then "anthropic provider error: " +:+ message
      else "anthropic provider error " +:+ String.concat " " parts +:+ ": " +:+ message
  end.

(** ** The events *)

Definition isEmptyAnthropicToolInput (input : option (result bytes)) : bool :=
  match input with
  | None => true
  | Some (Err _) => false
  | Some (Ok encoded) => bool_decide (encoded ∈ [[]; bytes_of "null"; bytes_of "{}"; bytes_of "[]"])
  end.

(** The arguments a call starts with. *)
Definition start_input (input : option (result bytes)) : bytes :=
  if isEmptyAnthropicToolInput input then []
  else match input with
       | Some (Ok encoded) => if decide (encoded = bytes_of "null") then [] else encoded
       | _ => []
       end.

Definition start_block (event : anthropicEvent) : ToolAccumulator :=
  mkAccumulator (string_of (namespaceToolCallID sha256 (bytes_of modelCallID) (bytes_of (BlockID event))))
    (TrimSpace (BlockName event)) (start_input (BlockInput event)) [] [] [].

(** Work on the accumulator of an index; it shares the sink of the stream. *)
Definition on_block (index : Z) (m : Progress unit) : Streaming unit := fun w =>
  match toolBlocks (stream w) !! index with
  | None => (Ok tt, w)
  | Some a =>
      let '(r, (a, s)) := m (a, events_sink w) in
      (r, mkStreamWorld (stream w <| toolBlocks := <[index := a]> (toolBlocks (stream w)) |>) s)
  end.

Definition completedAnthropicToolArgsJSON (accumulator : ToolAccumulator) : result bytes :=
  let trimmed := trim_space (Args accumulator) in
  let toolName := if decide (TrimSpace (Name accumulator) = EmptyString) then "tool" else TrimSpace (Name accumulator) in
  if decide (trimmed = []) then Ok (bytes_of "{}")
  else match decode_arguments trimmed with
       | Err e => Err ("anthropic returned incomplete or malformed tool input for " +:+ toolName +:+ ": " +:+ e)
       | Ok false => Err ("anthropic returned non-object tool input for " +:+ toolName)
       | Ok true => Ok trimmed
       end.

(** The code of [emitOpenAIToolProgress], for another provider. *)
Definition emitAnthropicToolProgress (model : string) (argsTextDelta : bytes) : Progress unit :=
  emitOpenAIToolProgress "anthropic" model argsTextDelta.

Definition delete_block (index : Z) : Streaming unit :=
  update_stream (fun s => s <| toolBlocks := delete index (toolBlocks s) |>).

Definition content_block_start (now : Z) (event : anthropicEvent) : Streaming unit :=
  if decide (TrimSpace (BlockType event) <> "tool_use") then ret tt
  else
    flushTaggedTextTail now ;;;
    flushThinking now ;;;
    update_stream (fun s => s <| toolBlocks := <[EventIndex event := start_block event]> (toolBlocks s) |>) ;;;
    MarkContent ;;;
    s <- get_stream;;
    on_block (EventIndex event) (emitAnthropicToolProgress (streamModel s) []).

Definition input_json_delta (event : anthropicEvent) : Streaming unit :=
  s <- get_stream;;
  if decide (toolBlocks s !! EventIndex event = None \/ PartialJSON event = []) then ret tt
  else
    on_block (EventIndex event) (update (fun a => a <| Args := Args a ++ PartialJSON event |>)) ;;;
    MarkContent ;;;
    on_block (EventIndex event) (emitAnthropicToolProgress (streamModel s) (PartialJSON event)).

Definition content_block_delta (now : Z) (event : anthropicEvent) : Streaming unit :=
  (if decide (DeltaType event = "text_delta" /\ DeltaText event <> [])
   then parse_text now (Consume (DeltaText event)) else ret tt) ;;;
  (if decide (DeltaType event = "thinking_delta" /\ DeltaThinking event <> [])
   then emitThinking now (DeltaThinking event) else ret tt) ;;;
  (if decide (DeltaSignature event = EmptyString) then ret tt
   else update_stream (fun s => s <| currentThinkingSignature := TrimSpace (DeltaSignature event) |>)) ;;;
  (if decide (DeltaType event = "input_json_delta") then input_json_delta event else ret tt).

Definition content_block_stop (now : Z) (event : anthropicEvent) : Streaming unit :=
  s <- get_stream;;
  match toolBlocks s !! EventIndex event with
  | Some accumulator =>
      match completedAnthropicToolArgsJSON accumulator with
      | Err e => delete_block (EventIndex event) ;;; stream_error e
      | Ok argsJSON =>
          on_block (EventIndex event) (emitAnthropicToolProgress (streamModel s) []) ;;;
          MarkContent ;;;
          emit (ToolLikeCompleted (mkInvocation (CallID accumulator) (Name accumulator) argsJSON)) ;;;
          delete_block (EventIndex event)
      end
  | None => flushTaggedTextTail now ;;; flushThinking now
  end.

Definition message_stop (now : Z) : Streaming unit :=
  flushTaggedTextTail now ;;;
  flushThinking now ;;;
  s <- get_stream;;
  emit (TurnFinished (streamUsage s) (streamReason s)).

Definition take_event (now : Z) (currentEvent : string) (event : anthropicEvent) : Streaming unit :=
  if decide (currentEvent = "error" \/ TrimSpace (EventType event) = "error") then
    update_stream (fun s => s <| streamReason := "error" |>) ;;;
    stream_error (errorFromEvent event)
  else if decide (currentEvent = "message_start") then
    update_stream (fun s => if decide (TrimSpace (MessageModel event) = EmptyString) then s
                            else s <| streamModel := TrimSpace (MessageModel event) |>) ;;;
    update_stream (fun s => s <| streamUsage := take_usage (MessageUsage event) (streamUsage s) |>)
  else if decide (currentEvent = "content_block_start") then content_block_start now event
  else if decide (currentEvent = "content_block_delta") then content_block_delta now event
  else if decide (currentEvent = "content_block_stop") then content_block_stop now event
  else if decide (currentEvent = "message_delta") then
    update_stream (fun s => s <| streamUsage := take_usage (EventUsage event) (streamUsage s) |>) ;;;
    update_stream (fun s => if decide (TrimSpace (StopReason event) = EmptyString) then s
                            else s <| streamReason := TrimSpace (StopReason event) |>)
  else if decide (currentEvent = "message_stop") then message_stop now
  else ret tt.

(** ** The lines *)

(** The text of the event that is complete, [None] when there is nothing to do. *)
Definition complete_payload (currentEvent : string) (dataLines : list string) : option string :=
  if decide (currentEvent = EmptyString \/ dataLines = []) then None
  else
    let payloadLine := String.concat (string_of [LF]) dataLines in
    if decide (TrimSpace payloadLine = "[DONE]") then None else Some payloadLine.

Definition flush_event (now : Z) (currentEvent : string) (dataLines : list string) : Streaming unit :=
  match complete_payload currentEvent dataLines with
  | None => ret tt
  | Some payloadLine =>
      match decode_event payloadLine with
      | Err e => stream_error e
      | Ok event => take_event now currentEvent event
      end
  end.

Definition cut_prefix (prefix line : string) : option string :=
  match strip_prefix (bytes_of prefix) (bytes_of line) with
  | Some rest => Some (TrimSpace (string_of rest))
  | None => None
  end.

(** [currentEvent] and [dataLines] are what the lines since the last event have set; the result is
    what they are at the end. *)
Fixpoint scan_lines (lines : list (Z * string)) (currentEvent : string) (dataLines : list string)
  : Streaming (string * list string) :=
  match lines with
  | [] => ret (currentEvent, dataLines)
  | (now, rawLine) :: lines =>
      let line := TrimSpace rawLine in
      if decide (line = EmptyString) then
        flush_event now currentEvent dataLines ;;;
        scan_lines lines EmptyString []
      else match cut_prefix "event:" line with
           | Some name => scan_lines lines name dataLines
           | None => match cut_prefix "data:" line with
                     | Some data => scan_lines lines currentEvent (dataLines ++ [data])
                     | None => scan_lines lines currentEvent dataLines
                     end
           end
  end.

(** The lines with the times they came at, the error of the reader or of the idle watchdog, and the
    time of the end. *)
Definition Stream (lines : list (Z * string)) (readError : option string) (now : Z) : Streaming unit :=
  last <- scan_lines lines EmptyString [];;
  flush_event now last.1 last.2 ;;;
  match readError with
  | Some e => stream_error e
  | None => flushTaggedTextTail now ;;; flushThinking now
  end.

End Stream.

(** ** What the stream should give *)

Section Spec.
Context (sha256 : bytes -> bytes) (decode_event : string -> result anthropicEvent).
Context (decode_arguments : bytes -> result bool) (modelCallID : string).

(** The named events of the lines. *)
Fixpoint server_events (lines : list string) (currentEvent : string) (dataLines : list string) : list (string * string) :=
  let complete := match complete_payload currentEvent dataLines with
                  | Some payload => [(currentEvent, payload)]
                  | None => []
                  end in
  match lines with
  | [] => complete
  | rawLine :: lines =>
      let line := TrimSpace rawLine in
      if decide (line = EmptyString) then complete ++ server_events lines EmptyString []
      else match cut_prefix "event:" line with
           | Some name => server_events lines name dataLines
           | None => match cut_prefix "data:" line with
                     | Some data => server_events lines currentEvent (dataLines ++ [data])
                     | None => server_events lines currentEvent dataLines
                     end
           end
  end.

(** A call that is open: its identifier, its name and the arguments so far. *)
Definition open_call : Type := string * string * bytes.

Definition view_call (a : ToolAccumulator) : open_call := (CallID a, Name a, Args a).

Definition finish_call (call : open_call) : option ToolInvocation :=
  match completedAnthropicToolArgsJSON decode_arguments (mkAccumulator call.1.1 call.1.2 call.2 [] [] []) with
  | Ok args => Some (mkInvocation call.1.1 call.1.2 args)
  | Err _ => None
  end.

Definition is_error (name : string) (event : anthropicEvent) : Prop :=
  name = "error" \/ TrimSpace (EventType event) = "error".

#[export] Instance is_error_dec name event : Decision (is_error name event).
Proof. unfold is_error. apply _. Defined.

(** The calls that an event opens, extends or ends; [None] when the stream fails on it. *)
Definition event_calls (open : gmap Z open_call) (name : string) (event : anthropicEvent)
  : option (list ToolInvocation * gmap Z open_call) :=
  if decide (is_error name event) then None
  else if decide (name = "content_block_start") then
    Some ([], if decide (TrimSpace (BlockType event) = "tool_use")
              then <[EventIndex event := view_call (start_block sha256 modelCallID event)]> open else open)
  else if decide (name = "content_block_delta") then
    Some ([], if decide (DeltaType event = "input_json_delta")
              then alter (fun call => (call.1, call.2 ++ PartialJSON event)) (EventIndex event) open else open)
  else if decide (name = "content_block_stop") then
    match open !! EventIndex event with
    | None => Some ([], open)
    | Some call => match finish_call call with
                   | Some invocation => Some ([invocation], delete (EventIndex event) open)
                   | None => None
                   end
    end
  else Some ([], open).

(** The calls of the events, and whether all of them can be taken. *)
Fixpoint calls_of (open : gmap Z open_call) (events : list (string * string)) : list ToolInvocation * bool :=
  match events with
  | [] => ([], true)
  | (name, payload) :: events =>
      match decode_event payload with
      | Err _ => ([], false)
      | Ok event =>
          match event_calls open name event with
          | None => ([], false)
          | Some (calls, open) => let '(rest, complete) := calls_of open events in (calls ++ rest, complete)
          end
      end
  end.

End Spec.

(** ** Lemmas: operations that complete no call *)

Section Quiet.
Context {PC : CreatePlanCodec} (sha256 : bytes -> bytes).
(** Whether nothing outside the stream may fail: the sink and the printing of a plan. *)
Context (calm : Prop) (Hplans : calm -> forall args, exists text, marshal_plan args = Ok text).

Notation wp := (wp (fun w => w)).

Definition log (w : StreamWorld) : list ModelEvent := taken (events_sink w).

Definition open_calls (w : StreamWorld) : gmap Z open_call := view_call <$> toolBlocks (stream w).

(** Between two operations: thinking that has started has been shown, and is closed before anything else. *)
Record settled (w : StreamWorld) : Prop := {
  settled_sink : calm -> answers (events_sink w) = [];
  settled_thinking : thinking false (log w) = Some (bool_decide (is_Some (startedThinking (stream w))))
}.

(** What an operation that failed leaves behind. *)
Record broken (w w' : StreamWorld) : Prop := {
  broken_calls : invocations (log w') = invocations (log w);
  broken_thinking : thinking false (log w') <> None;
  broken_calm : ~ calm
}.

Record keeps (w w' : StreamWorld) : Prop := {
  kept_settled : settled w';
  kept_blocks : open_calls w' = open_calls w;
  kept_calls : invocations (log w') = invocations (log w)
}.

Definition still {A} (m : Streaming A) : Prop := forall w, settled w -> wp m (fun _ w' => keeps w w') (fun w' => broken w w') w.

Lemma keeps_refl w : settled w -> keeps w w.
Proof. by split. Qed.

Lemma keeps_trans w1 w2 w3 : keeps w1 w2 -> keeps w2 w3 -> keeps w1 w3.
Proof. intros [H1 H2 H3] [H4 H5 H6]. split; [done|congruence|congruence]. Qed.

Lemma keeps_broken w1 w2 w3 : keeps w1 w2 -> broken w2 w3 -> broken w1 w3.
Proof. intros [H1 H2 H3] [H4 H5 H6]. split; [congruence|done|done]. Qed.

Lemma still_ret {A} (a : A) : still (ret a).
Proof. intros w Hw. by apply wp_ret, keeps_refl. Qed.

Lemma still_get : still get_stream.
Proof. intros w Hw w0 ->. by apply keeps_refl. Qed.

(** After an operation that completes no call the rest starts from a settled world. *)
Lemma wp_quiet {A B} (m : Streaming A) (k : A -> Streaming B) (Q : B -> StreamWorld -> Prop) (E : StreamWorld -> Prop) w :
  still m -> settled w -> (forall w', broken w w' -> E w') ->
  (forall a w', keeps w w' -> wp (k a) Q E w') -> wp (bind m k) Q E w.
Proof. intros Hm Hw HE Hk. apply wp_bind. eapply wp_mono; [by apply Hm|exact Hk|exact HE]. Qed.

Lemma still_bind {A B} (m : Streaming A) (k : A -> Streaming B) : still m -> (forall a, still (k a)) -> still (bind m k).
Proof.
  intros Hm Hk w Hw. apply wp_quiet; [done|done|done|]. intros a w' Hkeep.
  eapply wp_mono; [apply Hk, Hkeep| |]; intros *; [by apply keeps_trans|by apply keeps_broken].
Qed.

Lemma still_update f : (forall s, toolBlocks (f s) = toolBlocks s) -> (forall s, startedThinking (f s) = startedThinking s) ->
  still (update_stream f).
Proof.
  intros Hb Ht w [Hs Hth] w0 ->. cbn. split; [split|..]; cbn; try done; [by rewrite Ht|].
  unfold open_calls. cbn. by rewrite Hb.
Qed.

Lemma still_effective : still MarkContent.
Proof. by apply still_update. Qed.

(** An event is taken, or the sink fails and nothing has happened. *)
Lemma wp_emitted body w (Q : unit -> StreamWorld -> Prop) (E : StreamWorld -> Prop) : settled w ->
  (forall w', stream w' = stream w -> log w' = log w ++ [mkEvent "anthropic" (streamModel (stream w)) body] ->
     (calm -> answers (events_sink w') = []) -> Q tt w') ->
  (forall w', stream w' = stream w -> log w' = log w -> ~ calm -> E w') -> wp (emit body) Q E w.
Proof.
  intros [Hs _] HQ HE w0 ->. unfold emit, sink_event. destruct (answers (events_sink w)) as [|[e|] rest] eqn:Ha; cbn.
  - by apply HQ.
  - apply HE; [done|done|]. intros Hc. by specialize (Hs Hc).
  - apply HQ; [done|done|]. intros Hc. by specialize (Hs Hc).
Qed.

Lemma settled_not_none w w' : settled w -> log w' = log w -> thinking false (log w') <> None.
Proof. intros [_ Ht] ->. by rewrite Ht. Qed.

Lemma snoc_invocations l e : (forall i, Body e <> ToolLikeCompleted i) -> invocations (l ++ [e]) = invocations l.
Proof.
  intros He. rewrite invocations_app. unfold invocations at 2. cbn. destruct (Body e) eqn:Hb; try apply app_nil_r.
  by destruct (He invocation).
Qed.

Lemma flush_thinking_closes now w : settled w ->
  wp (flushThinking now) (fun _ w' => keeps w w' /\ startedThinking (stream w') = None) (fun w' => broken w w') w.
Proof.
  intros Hw. apply wp_bind. intros w0 ->. cbn. destruct (startedThinking (stream w)) as [started|] eqn:Hst.
  - apply (wp_bind (fun w => w)), wp_emitted; [done| |].
    + intros w1 Hs Hl Ha w2 ->. cbn. split; [|done]. destruct Hw as [_ Ht]. rewrite Hst in Ht. cbn in Ht.
      assert (Hlog : invocations (log w1) = invocations (log w)) by (rewrite Hl; by apply snoc_invocations).
      split; [split|..]; cbn.
      * exact Ha.
      * change (log (mkStreamWorld _ (events_sink w1))) with (log w1). rewrite Hl, thinking_app, Ht. done.
      * unfold open_calls. cbn. by rewrite Hs.
      * exact Hlog.
    + intros w1 Hs Hl Hc. split; [by rewrite Hl|by eapply settled_not_none|done].
  - apply wp_ret. split; [by apply keeps_refl|done].
Qed.

Lemma still_flush now : still (flushThinking now).
Proof. intros w Hw. eapply wp_mono; [by apply flush_thinking_closes|by intros ? ? [? _]|done]. Qed.

Lemma still_text now text : still (emitText now text).
Proof.
  unfold emitText. destruct (decide (text = [])); [apply still_ret|]. apply still_bind; [apply still_effective|intros _].
  intros w Hw. apply wp_bind. eapply wp_mono; [by apply flush_thinking_closes| |done].
  intros _ w1 [Hk Hst]. apply wp_emitted; [apply Hk| |].
  - intros w2 Hs Hl Ha. apply (keeps_trans _ w1); [done|]. destruct (kept_settled _ _ Hk) as [_ Ht]. rewrite Hst in Ht.
    split; [split|..].
    + exact Ha.
    + rewrite Hl, thinking_app, Ht, Hs, Hst. done.
    + unfold open_calls. by rewrite Hs.
    + rewrite Hl. by apply snoc_invocations.
  - intros w2 Hs Hl Hc. apply (keeps_broken _ w1); [done|].
    split; [by rewrite Hl|eapply settled_not_none; [apply Hk|done]|done].
Qed.

Lemma still_thinking now text : still (emitThinking now text).
Proof.
  unfold emitThinking. destruct (decide (text = [])); [apply still_ret|]. apply still_bind; [apply still_effective|intros _].
  intros w Hw. apply wp_bind. intros w0 ->. cbn. set (w1 := mkStreamWorld _ _).
  assert (Hst : is_Some (startedThinking (stream w1))) by (subst w1; cbn; destruct (startedThinking (stream w)) eqn:E; [rewrite E|]; by eexists).
  assert (Hb : open_calls w1 = open_calls w) by (subst w1; unfold open_calls; cbn; by destruct (startedThinking (stream w))).
  destruct Hw as [Hs Ht].
  assert (Hemit : forall w2, stream w2 = stream w1 -> log w2 = log w ++ [mkEvent "anthropic" (streamModel (stream w1)) (ThinkingDelta text)] ->
    (calm -> answers (events_sink w2) = []) -> keeps w w2).
  { intros w2 Hw2 Hl Ha. split; [split|..].
    - exact Ha.
    - rewrite Hl, thinking_app, Ht, Hw2. cbn [thinking Body]. by rewrite bool_decide_true.
    - unfold open_calls. rewrite Hw2. exact Hb.
    - rewrite Hl. by apply snoc_invocations. }
  intros w0 ->. unfold emit, sink_event. change (events_sink w1) with (events_sink w).
  destruct (answers (events_sink w)) as [|[e|] rest] eqn:Ha; cbn.
  - apply Hemit; [done|done|]. intros Hc. by specialize (Hs Hc).
  - split; [done| |intros Hc; by specialize (Hs Hc)]. unfold log in *. cbn. by rewrite Ht.
  - apply Hemit; [done|done|]. intros Hc. by specialize (Hs Hc).
Qed.

Lemma still_parts now parts : still (emitTaggedTextParts now parts).
Proof.
  induction parts as [|part parts IH]; cbn [emitTaggedTextParts]; [apply still_ret|].
  apply still_bind; [|by intros _]. destruct (PartKind part); [apply still_text|apply still_thinking|apply still_flush].
Qed.

Lemma still_parse now call : still (parse_text now call).
Proof.
  unfold parse_text. apply still_bind; [apply still_get|]. intros s. destruct (call (tagParser s)) as [parts parser].
  apply still_bind; [by apply still_update|]. intros _. apply still_parts.
Qed.

(** *** The progress of a call *)

(** What progress leaves alone, whatever the sink answers. *)
Definition progress_keeps (x x' : ToolAccumulator * Sink) : Prop :=
  view_call x'.1 = view_call x.1 /\
  (exists events, taken x'.2 = taken x.2 ++ events /\ Forall (fun e => progress_event (Body e) = true) events) /\
  (calm -> answers x.2 = [] -> answers x'.2 = []).

Notation wpp := (Effect.wp (fun x : ToolAccumulator * Sink => x)).

Definition shows_progress (m : Progress unit) : Prop := forall x, (calm -> answers x.2 = []) ->
  wpp m (fun _ x' => progress_keeps x x') (fun x' => progress_keeps x x' /\ ~ calm) x.

Lemma progress_refl x : progress_keeps x x.
Proof. split_and!; [done|exists []; by rewrite app_nil_r|done]. Qed.

Lemma progress_trans x y z : progress_keeps x y -> progress_keeps y z -> progress_keeps x z.
Proof.
  intros (H1 & (e1 & E1 & F1) & A1) (H2 & (e2 & E2 & F2) & A2). split_and!; [congruence| |auto].
  exists (e1 ++ e2). split; [by rewrite E2, E1, app_assoc|]. by apply Forall_app.
Qed.

Lemma shows_ret : shows_progress (ret tt).
Proof. intros x _. apply wp_ret, progress_refl. Qed.

Lemma shows_then (m k : Progress unit) : shows_progress m -> shows_progress k -> shows_progress (m ;;; k).
Proof.
  intros Hm Hk x Hx. apply wp_bind. eapply wp_mono; [by apply Hm| |done]. intros ? y Hy. cbv beta in Hy.
  eapply wp_mono; [apply Hk; intros Hc; destruct Hy as (_ & _ & Ha); auto| |].
  - intros ? z Hz. by eapply progress_trans.
  - intros z [Hz Hc]. split; [by eapply progress_trans|done].
Qed.

Lemma shows_get (k : ToolAccumulator -> Progress unit) : (forall a, shows_progress (k a)) -> shows_progress (a <- get;; k a).
Proof. intros Hk x Hx. apply wp_bind. intros y ->. cbn. by apply Hk. Qed.

Lemma shows_update f : (forall a, view_call (f a) = view_call a) -> shows_progress (update f).
Proof.
  intros Hf x Hx y ->. cbn. split_and!; cbn; [apply Hf|exists []; by rewrite app_nil_r|done].
Qed.

Lemma shows_send provider model body : progress_event body = true -> shows_progress (send provider model body).
Proof.
  intros Hb [a s] Hx y ->. unfold send, sink_event. cbn in *. destruct (answers s) as [|[e|] rest] eqn:Ha; cbn.
  - split_and!; cbn; [done|exists [mkEvent provider model body]; split; [done|by repeat constructor]|done].
  - split; [|intros Hc; by specialize (Hx Hc)]. split_and!; cbn; [done|exists []; by rewrite app_nil_r|]. by rewrite Ha.
  - split_and!; cbn; [done|exists [mkEvent provider model body]; split; [done|by repeat constructor]|]. by rewrite Ha.
Qed.

Lemma progress_shows provider model delta : shows_progress (emitOpenAIToolProgress provider model delta).
Proof.
  apply shows_get. intros a. cbv zeta. destruct (decide (TrimSpace (Name a) = "CreatePlan")).
  { apply shows_get. intros b. cbv zeta. destruct (decide (TrimSpace (CallID b) = EmptyString)); [apply shows_ret|].
    destruct (createPlanArgsProgressSnapshot (Args b)) as [args|]; [|apply shows_ret].
    destruct (marshal_plan args) as [signature|err] eqn:Hm.
    - destruct (decide (signature = [] \/ _)); [apply shows_ret|]. apply shows_then; [by apply shows_update|by apply shows_send].
    - intros x Hx y ->. split; [apply progress_refl|]. intros Hc. destruct (Hplans Hc args) as [t Ht]. congruence. }
  destruct (decide (TrimSpace (Name a) <> "Write" /\ _)); [apply shows_ret|].
  apply shows_then.
  - apply shows_get. intros b. cbv zeta.
    destruct (match extractJSONStringFieldPrefix (Args b) "path" with
              | Some r => Some r | None => extractJSONStringFieldPrefix (Args b) "file_path" end) as [[p []]|];
      [|apply shows_ret|apply shows_ret].
    destruct (decide (trim_space p = [])); [apply shows_ret|]. apply shows_then; [by apply shows_update|].
    destruct (negb _); [apply shows_ret|]. destruct (decide _); by apply shows_send.
  - apply shows_get. intros b. destruct (extractToolStreamContentPrefix (Args b) _) as [content|]; [|apply shows_ret].
    cbv zeta. destruct (decide _); [apply shows_ret|]. apply shows_then; [by apply shows_update|by apply shows_send].
Qed.

Lemma progress_log events l : Forall (fun e => progress_event (Body e) = true) events ->
  invocations (l ++ events) = invocations l /\ thinking false (l ++ events) = thinking false l.
Proof.
  intros H. rewrite invocations_app, thinking_app.
  assert (Hall : invocations events = [] /\ forall a, thinking a events = Some a).
  { induction H as [|e events He _ (IH1 & IH2)]; [done|]. unfold invocations in *. cbn. destruct (Body e); try done. }
  destruct Hall as [-> Ht]. rewrite app_nil_r. split; [done|]. destruct (thinking false l); [apply Ht|done].
Qed.

(** Progress of an open call completes none. *)
Lemma still_progress index model delta : still (on_block index (emitAnthropicToolProgress model delta)).
Proof.
  intros w Hw w0 ->. unfold on_block, emitAnthropicToolProgress. destruct (toolBlocks (stream w) !! index) as [a|] eqn:Hi; [|by apply keeps_refl].
  pose proof (progress_shows "anthropic" model delta (a, events_sink w) (settled_sink _ Hw) (a, events_sink w) eq_refl) as Hp.
  destruct (emitOpenAIToolProgress "anthropic" model delta (a, events_sink w)) as [[[]|e] [a' s']].
  - destruct Hp as (Hv & (ev & Hl & Hev) & Ha). cbn in *. destruct (progress_log ev (log w) Hev) as [Hi1 Ht1].
    change (taken (events_sink w)) with (log w) in Hl. split; [split|..]; cbn.
    + intros Hc. apply Ha; [done|]. by apply (settled_sink _ Hw).
    + change (log (mkStreamWorld _ s')) with (taken s'). rewrite Hl, Ht1. apply Hw.
    + unfold open_calls. cbn. rewrite fmap_insert, Hv. apply insert_id. by rewrite lookup_fmap, Hi.
    + change (log (mkStreamWorld _ s')) with (taken s'). by rewrite Hl.
  - destruct Hp as [(Hv & (ev & Hl & Hev) & Ha) Hc]. cbn in *. destruct (progress_log ev (log w) Hev) as [Hi1 Ht1].
    change (taken (events_sink w)) with (log w) in Hl.
    split; change (log (mkStreamWorld _ s')) with (taken s'); [by rewrite Hl|rewrite Hl, Ht1|done].
    by eapply settled_not_none.
Qed.

End Quiet.

(** ** Lemmas: the calls *)

Section Calls.
Context {PC : CreatePlanCodec} (sha256 : bytes -> bytes) (decode_event : string -> result anthropicEvent).
Context (decode_arguments : bytes -> result bool) (modelCallID : string).
Context (calm : Prop) (Hplans : calm -> forall args, exists text, marshal_plan args = Ok text).

Notation wp := (wp (fun w => w)).
Notation settled := (settled calm).
Notation keeps := (keeps calm).
Notation broken := (broken calm).
Notation still := (still calm).
Notation event_calls := (event_calls sha256 decode_arguments modelCallID).
Notation calls_of := (calls_of sha256 decode_event decode_arguments modelCallID).
Notation take_event := (take_event sha256 decode_arguments modelCallID).
Notation flush_event := (flush_event sha256 decode_event decode_arguments modelCallID).
Notation scan_lines := (scan_lines sha256 decode_event decode_arguments modelCallID).

(** An event has been taken: its calls are completed, and those open now are as they should be. *)
Definition ran (w : StreamWorld) (calls : list ToolInvocation) (open : gmap Z open_call) (w' : StreamWorld) : Prop :=
  settled w' /\ open_calls w' = open /\ invocations (log w') = invocations (log w) ++ calls.

Lemma still_ran (m : Streaming unit) w : still m -> settled w ->
  wp m (fun _ w' => ran w [] (open_calls w) w') (fun w' => broken w w') w.
Proof.
  intros Hm Hw. eapply wp_mono; [by apply Hm| |done]. intros ? w' [H1 H2 H3]. split_and!; [done|done|].
  by rewrite H3, app_nil_r.
Qed.

Lemma wp_set_blocks f w (Q : unit -> StreamWorld -> Prop) (E : StreamWorld -> Prop) : settled w ->
  (forall w', settled w' -> open_calls w' = view_call <$> f (toolBlocks (stream w)) -> log w' = log w -> Q tt w') ->
  wp (update_stream (fun s => s <| toolBlocks := f (toolBlocks s) |>)) Q E w.
Proof. intros [Hs Ht] HQ w0 ->. cbn. apply HQ; [by split|done|done]. Qed.

Lemma block_start_runs now event w : settled w -> TrimSpace (BlockType event) = "tool_use" ->
  wp (content_block_start sha256 modelCallID now event)
    (fun _ w' => ran w [] (<[EventIndex event := view_call (start_block sha256 modelCallID event)]> (open_calls w)) w')
    (fun w' => broken w w') w.
Proof.
  intros Hw Ht. unfold content_block_start. rewrite decide_False by (intros H; by apply H).
  apply (wp_quiet calm); [apply still_parse|done|done|]. intros ? w1 K1.
  apply (wp_quiet calm); [apply still_flush|apply K1|by intros *; apply keeps_broken|]. intros ? w2 K2.
  pose proof (keeps_trans _ _ _ _ K1 K2) as K. apply wp_bind, wp_set_blocks; [apply K2|]. intros w3 H3 Ho Hl.
  assert (Hb : forall w', broken w3 w' -> broken w w').
  { intros w' [B1 B2 B3]. split; [|done|done]. rewrite B1, Hl. apply K. }
  apply (wp_quiet calm); [apply still_effective|done|done|]. intros ? w4 K4.
  apply (wp_quiet calm); [apply still_get|apply K4|intros *; intros B; by eapply Hb, keeps_broken|]. intros s w5 K5.
  pose proof (keeps_trans _ _ _ _ K4 K5) as K45.
  eapply wp_mono; [by apply (still_progress calm Hplans), K5| |].
  - intros ? w6 K6. pose proof (keeps_trans _ _ _ _ K45 K6) as [S6 B6 I6]. split_and!; [done| |].
    + rewrite B6, Ho, fmap_insert. f_equal. apply K.
    + rewrite I6, Hl, app_nil_r. apply K.
  - intros w6 B6. eapply Hb, keeps_broken; [exact K45|done].
Qed.

Lemma input_runs event w : settled w ->
  wp (input_json_delta event)
    (fun _ w' => ran w [] (alter (fun call => (call.1, call.2 ++ PartialJSON event)) (EventIndex event) (open_calls w)) w')
    (fun w' => broken w w') w.
Proof.
  intros Hw. apply wp_bind. intros w0 ->. cbn.
  destruct (decide (toolBlocks (stream w) !! EventIndex event = None \/ PartialJSON event = [])) as [Hno|Hyes].
  - apply wp_ret. split_and!; [done| |by rewrite app_nil_r]. apply map_eq. intros i.
    destruct (decide (i = EventIndex event)) as [->|Hne]; [|by rewrite lookup_alter_ne].
    rewrite lookup_alter_eq. unfold open_calls. rewrite lookup_fmap. destruct Hno as [-> | ->]; [done|].
    destruct (toolBlocks (stream w) !! EventIndex event); [|done]. cbn. by rewrite app_nil_r.
  - destruct (toolBlocks (stream w) !! EventIndex event) as [a|] eqn:Ha; [|tauto].
    apply (wp_bind (fun w => w)). intros w0 ->. unfold on_block. rewrite Ha. unfold update. cbn [fst snd].
    set (w1 := mkStreamWorld _ _). assert (H1 : settled w1) by (destruct Hw; by split).
    assert (Ho : open_calls w1 = alter (fun call => (call.1, call.2 ++ PartialJSON event)) (EventIndex event) (open_calls w)).
    { subst w1. unfold open_calls. cbn. rewrite fmap_insert. apply map_eq. intros i.
      destruct (decide (i = EventIndex event)) as [->|Hne].
      - by rewrite lookup_insert_eq, lookup_alter_eq, lookup_fmap, Ha.
      - by rewrite lookup_insert_ne, lookup_alter_ne by done. }
    apply (wp_quiet calm); [apply still_effective|done|intros ? [? ? ?]; by split|]. intros ? w2 K2.
    eapply wp_mono; [by apply (still_progress calm Hplans), K2| |].
    + intros ? w3 K3. pose proof (keeps_trans _ _ _ _ K2 K3) as [S3 B3 I3]. split_and!; [done|congruence|].
      rewrite I3, app_nil_r. done.
    + intros w3 B3. destruct (keeps_broken _ _ _ _ K2 B3) as [? ? ?]. by split.
Qed.

Lemma block_delta_runs now event w : settled w ->
  wp (content_block_delta now event)
    (fun _ w' => ran w [] (if decide (DeltaType event = "input_json_delta")
       then alter (fun call => (call.1, call.2 ++ PartialJSON event)) (EventIndex event) (open_calls w) else open_calls w) w')
    (fun w' => broken w w') w.
Proof.
  intros Hw. unfold content_block_delta.
  apply (wp_quiet calm); [destruct (decide _); [apply still_parse|apply still_ret]|done|done|]. intros ? w1 K1.
  apply (wp_quiet calm); [destruct (decide _); [apply still_thinking|apply still_ret]|apply K1|by intros *; apply keeps_broken|].
  intros ? w2 K2. pose proof (keeps_trans _ _ _ _ K1 K2) as K12.
  apply (wp_quiet calm); [destruct (decide _); [apply still_ret|by apply still_update]|apply K12|by intros *; apply keeps_broken|].
  intros ? w3 K3. pose proof (keeps_trans _ _ _ _ K12 K3) as [S3 B3 I3].
  destruct (decide (DeltaType event = "input_json_delta")).
  - eapply wp_mono; [by apply input_runs| |].
    + intros ? w4 (S4 & B4 & I4). split_and!; [done|by rewrite B4, B3|by rewrite I4, I3].
    + intros w4 [B4 T4 C4]. split; [congruence|done|done].
  - apply wp_ret. split_and!; [done|done|by rewrite I3, app_nil_r].
Qed.

Lemma block_stop_runs now event w : settled w ->
  match (match open_calls w !! EventIndex event with
         | None => Some ([], open_calls w)
         | Some call => match finish_call decode_arguments call with
                        | Some invocation => Some ([invocation], delete (EventIndex event) (open_calls w))
                        | None => None
                        end
         end) with
  | Some (calls, open) => wp (content_block_stop decode_arguments now event) (fun _ w' => ran w calls open w') (fun w' => broken w w') w
  | None => wp (content_block_stop decode_arguments now event) (fun _ _ => False)
              (fun w' => invocations (log w') = invocations (log w) /\ thinking false (log w') <> None) w
  end.
Proof.
  intros Hw. unfold open_calls. rewrite lookup_fmap. fold (open_calls w).
  assert (Hget : forall Q (E : StreamWorld -> Prop) (k : StreamState -> Streaming unit), wp (k (stream w)) Q E w -> wp (bind get_stream k) Q E w).
  { intros Q E k H. apply wp_bind. by intros w0 ->. }
  destruct (toolBlocks (stream w) !! EventIndex event) as [a|] eqn:Ha; cbn [fmap option_fmap option_map].
  - unfold finish_call, view_call. cbn [fst snd].
    replace (completedAnthropicToolArgsJSON decode_arguments (mkAccumulator (CallID a) (Name a) (Args a) [] [] []))
      with (completedAnthropicToolArgsJSON decode_arguments a) by done.
    destruct (completedAnthropicToolArgsJSON decode_arguments a) as [argsJSON|err] eqn:Hargs; apply Hget; cbv beta; rewrite Ha, Hargs.
    + apply (wp_quiet calm); [apply (still_progress calm Hplans)|done|done|]. intros ? w1 K1.
      apply (wp_quiet calm); [apply still_effective|apply K1|by intros *; apply keeps_broken|]. intros ? w2 K2.
      pose proof (keeps_trans _ _ _ _ K1 K2) as K. apply wp_bind, (wp_emitted calm); [apply K2| |].
      * intros w3 Hs Hl Hans. assert (S3 : settled w3).
        { split; [done|]. rewrite Hl, thinking_app, (settled_thinking _ _ (kept_settled _ _ _ K)), Hs. done. }
        apply wp_set_blocks; [done|]. intros w4 S4 Ho4 Hl4. split_and!; [done| |].
        -- rewrite Ho4, Hs, fmap_delete. f_equal. apply K.
        -- rewrite Hl4, Hl, invocations_app, (kept_calls _ _ _ K). done.
      * intros w3 Hs Hl Hc. split; [rewrite Hl; apply K|by eapply settled_not_none; [apply K|]|done].
    + apply wp_bind, wp_set_blocks; [done|]. intros w1 S1 _ Hl w0 ->. cbn. rewrite Hl. split; [done|].
      by eapply settled_not_none.
  - apply Hget. cbv beta. rewrite Ha. apply still_ran; [|done].
    apply still_bind; [apply still_parse|intros _; apply still_flush].
Qed.

(** What an event does, by the calls it should complete. *)
Definition takes (m : Streaming unit) (w : StreamWorld) (expected : option (list ToolInvocation * gmap Z open_call)) : Prop :=
  match expected with
  | Some (calls, open) => wp m (fun _ w' => ran w calls open w') (fun w' => broken w w') w
  | None => wp m (fun _ _ => False)
              (fun w' => invocations (log w') = invocations (log w) /\ thinking false (log w') <> None) w
  end.

Lemma take_event_calls now name event w : settled w ->
  takes (take_event now name event) w (event_calls (open_calls w) name event).
Proof.
  intros Hw. assert (Hquiet : forall m, still m -> takes m w (Some ([], open_calls w))) by (intros m Hm; by apply still_ran).
  unfold AnthropicStream.take_event, AnthropicStream.event_calls. destruct (decide (is_error name event)) as [He|He].
  { rewrite decide_True by exact He. apply wp_bind. intros w0 ->. cbn. intros w0 ->. cbn.
    split; [done|by eapply settled_not_none]. }
  rewrite decide_False by exact He. destruct (decide (name = "message_start")) as [->|Hn1].
  { rewrite !decide_False by done. apply Hquiet, still_bind; [|intros _; by apply still_update].
    apply still_update; intros s; by destruct (decide _). }
  destruct (decide (name = "content_block_start")) as [->|Hn2].
  { destruct (decide (TrimSpace (BlockType event) = "tool_use")) as [Ht|Ht]; [by apply block_start_runs|].
    unfold content_block_start. rewrite decide_True by done. apply Hquiet, still_ret. }
  destruct (decide (name = "content_block_delta")) as [->|Hn3]; [by apply block_delta_runs|].
  destruct (decide (name = "content_block_stop")) as [->|Hn4]; [by apply block_stop_runs|].
  destruct (decide (name = "message_delta")) as [->|Hn5].
  { apply Hquiet, still_bind; [by apply still_update|intros _].
    apply still_update; intros s; by destruct (decide _). }
  destruct (decide (name = "message_stop")); [|apply Hquiet, still_ret].
  apply Hquiet. intros w1 H1. apply (wp_quiet calm); [apply still_parse|done|done|]. intros ? w2 K2. apply wp_bind.
  eapply wp_mono; [apply flush_thinking_closes, K2| |intros *; by apply keeps_broken].
  intros ? w3 [K3 Hst]. cbv beta. pose proof (keeps_trans _ _ _ _ K2 K3) as K. apply wp_bind. intros w0 ->. cbn.
  apply (wp_emitted calm); [apply K| |].
  - intros w4 Hs Hl Ha. destruct K as [[S3 T3] B3 I3]. split; [split|..].
    + exact Ha.
    + rewrite Hl, thinking_app, T3, Hs, Hst. done.
    + unfold open_calls in *. by rewrite Hs.
    + rewrite Hl, <- I3. by apply snoc_invocations.
  - intros w4 Hs Hl Hc. split; [rewrite Hl; apply K|by eapply settled_not_none; [apply K|]|done].
Qed.

(** The rest of a stream that is to see these events: what it completes, and whether it succeeds. *)
Definition delivers (m : Streaming unit) (w : StreamWorld) (events : list (string * string)) : Prop :=
  let '(calls, complete) := calls_of (open_calls w) events in
  wp m (fun _ w' => complete = true /\ invocations (log w') = invocations (log w) ++ calls /\ thinking false (log w') = Some false)
    (fun w' => (exists k, invocations (log w') = invocations (log w) ++ take k calls) /\
               thinking false (log w') <> None /\ (calm -> complete = false)) w.

Lemma wp_assoc {A B C} (m : Streaming A) (f : A -> Streaming B) (g : B -> Streaming C) Q E w :
  wp (bind m (fun a => bind (f a) g)) Q E w -> wp (bind (bind m f) g) Q E w.
Proof. intros H w0 ->. specialize (H w eq_refl). unfold bind in *. by destruct (m w) as [[a|e] w1]. Qed.

Lemma delivers_event now name data rest (k : Streaming unit) w : settled w ->
  (forall w', settled w' -> delivers k w' rest) ->
  delivers (flush_event now name data ;;; k) w
    (match complete_payload name data with Some payload => [(name, payload)] | None => [] end ++ rest).
Proof.
  intros Hw Hk. unfold AnthropicStream.flush_event. destruct (complete_payload name data) as [payload|]; cbn [app].
  2: { unfold delivers in *. specialize (Hk w Hw). destruct (calls_of (open_calls w) rest). apply wp_bind, wp_ret. exact Hk. }
  unfold delivers. cbn [AnthropicStream.calls_of]. destruct (decode_event payload) as [event|err].
  2: { apply wp_bind. intros w0 ->. cbn. split_and!; [by exists O; rewrite app_nil_r|by eapply settled_not_none|done]. }
  pose proof (take_event_calls now name event w Hw) as Ht. unfold takes in Ht.
  destruct (event_calls (open_calls w) name event) as [[calls open]|].
  2: { apply wp_bind. eapply wp_mono; [exact Ht|done|]. intros w' [H1 H2].
       split_and!; [exists O; by rewrite app_nil_r|done|done]. }
  destruct (calls_of open rest) as [more complete] eqn:Hmore. apply wp_bind.
  eapply wp_mono; [exact Ht| |].
  - intros ? w1 (S1 & O1 & I1). cbv beta. specialize (Hk w1 S1). unfold delivers in Hk. rewrite O1, Hmore in Hk.
    eapply wp_mono; [exact Hk| |].
    + intros ? w2 (H1 & H2 & H3). split_and!; [done| |done]. by rewrite H2, I1, app_assoc.
    + intros w2 ((n & H1) & H2 & H3). split_and!; [|done|done]. exists (length calls + n)%nat.
      by rewrite H1, I1, take_app_add, app_assoc.
  - intros w1 [H1 H2 H3]. split_and!; [exists O; by rewrite app_nil_r|done|done].
Qed.

Lemma delivers_lines (tail : Streaming unit) now lines name data w :
  (forall w', settled w' -> delivers tail w' []) -> settled w ->
  delivers (last <- scan_lines lines name data;; flush_event now last.1 last.2 ;;; tail) w (server_events (map snd lines) name data).
Proof.
  intros Htail. revert name data w. induction lines as [|[at_ rawLine] lines IH]; intros name data w Hw;
    cbn [AnthropicStream.scan_lines server_events map snd]; cbv zeta.
  - pose proof (delivers_event now name data [] tail w Hw Htail) as H. rewrite app_nil_r in H.
    unfold delivers in *. destruct (calls_of _ _). apply wp_bind, wp_ret. exact H.
  - destruct (decide (TrimSpace rawLine = EmptyString)).
    + pose proof (delivers_event at_ name data (server_events (map snd lines) EmptyString [])
        (last <- scan_lines lines EmptyString [];; flush_event now last.1 last.2 ;;; tail) w Hw (IH EmptyString [])) as H.
      unfold delivers in *. destruct (calls_of _ _). apply wp_assoc. exact H.
    + destruct (cut_prefix "event:" (TrimSpace rawLine)); [by apply IH|].
      destruct (cut_prefix "data:" (TrimSpace rawLine)); by apply IH.
Qed.

End Calls.

(** ** The stream *)

Section Theorems.
Context {PC : CreatePlanCodec} (sha256 : bytes -> bytes) (decode_event : string -> result anthropicEvent).
Context (decode_arguments : bytes -> result bool) (modelCallID modelID : string).

Notation Stream := (Stream sha256 decode_event decode_arguments modelCallID).
Notation calls_of := (calls_of sha256 decode_event decode_arguments modelCallID).

(** Nothing but the events themselves can make the stream fail. *)
Definition undisturbed (answers : list (option string)) (readError : option string) : Prop :=
  answers = [] /\ readError = None /\ forall args, exists text, marshal_plan args = Ok text.

Lemma stream_delivers lines readError now answers :
  let '(calls, complete) := calls_of ∅ (server_events (map snd lines) EmptyString []) in
  let '(r, w) := Stream lines readError now (initial_stream modelID answers) in
  match r with
  | Ok _ => complete = true /\ invocations (log w) = calls /\ thinking false (log w) = Some false
  | Err _ => (exists k, invocations (log w) = take k calls) /\ thinking false (log w) <> None /\
             (undisturbed answers readError -> complete = false)
  end.
Proof.
  set (calm := undisturbed answers readError).
  assert (Hplans : calm -> forall args, exists text, marshal_plan args = Ok text) by (by intros (_ & _ & H)).
  assert (H0 : settled calm (initial_stream modelID answers)) by (split; [by intros (-> & _)|done]).
  assert (Htail : forall w, settled calm w ->
    delivers sha256 decode_event decode_arguments modelCallID calm
      (match readError with
       | Some e => stream_error e
       | None => flushTaggedTextTail now ;;; flushThinking now
       end) w []).
  { intros w Hw. unfold delivers. cbn [AnthropicStream.calls_of]. destruct readError as [err|] eqn:Herr.
    - intros w0 ->. cbn. split_and!; [by exists O; rewrite app_nil_r|by eapply settled_not_none|].
      intros (_ & Hr & _). done.
    - apply (wp_quiet calm); [apply still_parse|done| |].
      + intros w1 [B1 B2 B3]. split_and!; [exists O; by rewrite app_nil_r|done|done].
      + intros ? w1 K1. eapply wp_mono; [apply (flush_thinking_closes calm), K1| |].
        * intros ? w2 [K2 Hst]. pose proof (keeps_trans _ _ _ _ K1 K2) as [[S2 T2] O2 I2].
          split_and!; [done|by rewrite app_nil_r|]. rewrite T2, Hst. done.
        * intros w2 B2. destruct (keeps_broken _ _ _ _ K1 B2) as [? ? ?].
          split_and!; [exists O; by rewrite app_nil_r|done|done]. }
  pose proof (delivers_lines sha256 decode_event decode_arguments modelCallID calm Hplans _ now lines EmptyString []
                (initial_stream modelID answers) Htail H0) as H.
  unfold delivers in H. change (open_calls (initial_stream modelID answers)) with (view_call <$> (∅ : gmap Z ToolAccumulator)) in H.
  rewrite fmap_empty in H. destruct (calls_of ∅ _) as [calls complete].
  specialize (H _ eq_refl). fold (Stream lines readError now) in H.
  change (invocations (log (initial_stream modelID answers))) with (@nil ToolInvocation) in H. cbn [app] in H.
  unfold AnthropicStream.Stream. destruct (bind _ _ (initial_stream modelID answers)) as [[u|err] w]; exact H.
Qed.

(** C20: The stream hands over the calls of the events, each once it is complete and in their order.  Whatever the
    provider sends and wherever it breaks off, the calls handed over are the first of those that the
    events, read on their own, complete: a call is one that a stop of its block ended, with
    the arguments joined from its start and its pieces, that decode to an object.  When the
    stream succeeds, they are all of them; and it succeeds unless an event cannot be taken, the
    reader or the sink fails, or a plan cannot be printed. *)
Theorem anthropic_calls_delivered lines readError now answers :
  let expected := calls_of ∅ (server_events (map snd lines) EmptyString []) in
  let run := Stream lines readError now (initial_stream modelID answers) in
  invocations (log run.2) `prefix_of` expected.1 /\
  (is_ok run.1 = true -> expected.2 = true /\ invocations (log run.2) = expected.1) /\
  (undisturbed answers readError -> expected.2 = true -> is_ok run.1 = true).
Proof.
  pose proof (stream_delivers lines readError now answers) as H. destruct (calls_of ∅ _) as [calls complete].
  destruct (Stream lines readError now _) as [[u|err] w]; cbn [fst snd].
  - destruct H as (H1 & H2 & _). rewrite H2. split_and!; [done|done|done].
  - destruct H as ((k & H1) & _ & H2). rewrite H1. split_and!; [|done|intros Hu Hc; specialize (H2 Hu); congruence].
    exists (drop k calls). by rewrite take_drop.
Qed.

(** Thinking is shown as one block at a time: it is completed before any text and before the end of the turn,
    never when none was shown, also when the stream breaks off; and a stream that succeeds leaves none open. *)
Theorem anthropic_thinking_bracketed lines readError now answers :
  let run := Stream lines readError now (initial_stream modelID answers) in
  thinking false (log run.2) <> None /\ (is_ok run.1 = true -> thinking false (log run.2) = Some false).
Proof.
  pose proof (stream_delivers lines readError now answers) as H. destruct (calls_of ∅ _) as [calls complete].
  destruct (Stream lines readError now _) as [[u|err] w]; cbn [fst snd].
  - destruct H as (_ & _ & H). rewrite H. by split.
  - destruct H as (_ & H & _). by split.
Qed.

End Theorems.

(** ** Examples and witnesses *)

Module Demo.
Definition no_usage_reported : anthropicUsage := mkReported None None None None.

Definition event (index : Z) (type id name : string) (delta_type : string) (text thinking json : string) (reason : string)
  : anthropicEvent :=
  mkAnthropicEvent EmptyString EmptyString index type id name None EmptyString no_usage_reported
    (if decide (reason = EmptyString) then no_usage_reported else mkReported None (Some 7) None None)
    delta_type (bytes_of text) (bytes_of thinking) (bytes_of json) EmptyString reason None.

Definition e : string := EmptyString.

(** An event is named by its payload. *)
Definition decode (payload : string) : result anthropicEvent :=
  if decide (payload = "why") then Ok (event 0 e e e "thinking_delta" e "why" e e)
  else if decide (payload = "so") then Ok (event 1 e e e "text_delta" "so" e e e)
  else if decide (payload = "begin a") then Ok (event 2 "tool_use" "a" "Shell" e e e e e)
  else if decide (payload = "begin b") then Ok (event 3 "tool_use" "b" "Grep" e e e e e)
  else if decide (payload = "json a1") then Ok (event 2 e e e "input_json_delta" e e "{x" e)
  else if decide (payload = "json b") then Ok (event 3 e e e "input_json_delta" e e "{y}" e)
  else if decide (payload = "json a2") then Ok (event 2 e e e "input_json_delta" e e " } " e)
  else if decide (payload = "end a") then Ok (event 2 e e e e e e e e)
  else if decide (payload = "end b") then Ok (event 3 e e e e e e e e)
  else if decide (payload = "reason") then Ok (event 0 e e e e e e e "tool_use")
  else if decide (payload = "end") then Ok (event 0 e e e e e e e e)
  else Err "no JSON".

Definition decode_object (args : bytes) : result bool :=
  match last args with
  | Some c => if decide (c = "}"%char) then Ok true else Err "unexpected end of JSON input"
  | None => Err "unexpected end of JSON input"
  end.

Definition sse (at_ : Z) (name payload : string) : list (Z * string) :=
  [(at_, "event: " +:+ name); (at_, "data: " +:+ payload); (at_, EmptyString)].

Definition body : list (Z * string) :=
  sse 0 "content_block_delta" "why" ++ sse 5000000 "content_block_delta" "so" ++ sse 6000000 "content_block_start" "begin a" ++
  sse 6000000 "content_block_delta" "json a1" ++ sse 6000000 "content_block_start" "begin b" ++
  sse 6000000 "content_block_delta" "json b" ++ sse 7000000 "content_block_stop" "end b" ++
  sse 8000000 "content_block_delta" "json a2".

Definition rest : list (Z * string) :=
  sse 9000000 "content_block_stop" "end a" ++ sse 9000000 "message_delta" "reason" ++ sse 9000000 "message_stop" "end".

Notation run lines readError answers :=
  (Stream (PC := ToolProgress.Demo.no_plans) ToolCallId.Demo.sample_hash decode decode_object "call" lines readError 9
    (initial_stream "m" answers)).

Definition bodies (r : result unit * StreamWorld) : result unit * list EventBody := (r.1, map Body (log r.2)).

Definition call (id name args : string) : EventBody := ToolLikeCompleted (mkInvocation id name (bytes_of args)).

(** Interleaved blocks, each call completed where its block ends. *)
Example interleaved_blocks : bodies (run (body ++ rest) None []) =
  (Ok tt, [ThinkingDelta (bytes_of "why"); ThinkingCompleted 5 e e; TextDelta (bytes_of "so");
           call "tc_636363636363_b" "Grep" "{y}"; call "tc_636363636363_a" "Shell" "{x }";
           TurnFinished (no_usage <| OutputTokens := 7 |> <| UsagePresent := true |>) "tool_use"]).
Proof. vm_compute. reflexivity. Qed.

(** A body that ends early, without an error of the reader, is a success: the open call is dropped and no
    end of the turn is announced. *)
Example early_end_succeeds : bodies (run body None []) =
  (Ok tt, [ThinkingDelta (bytes_of "why"); ThinkingCompleted 5 e e; TextDelta (bytes_of "so");
           call "tc_636363636363_b" "Grep" "{y}"]).
Proof. vm_compute. reflexivity. Qed.

(** A sink that refuses the second event. *)
Example sink_refuses : bodies (run (body ++ rest) None [None; Some "interrupted"]) =
  (Err "interrupted", [ThinkingDelta (bytes_of "why")]).
Proof. vm_compute. reflexivity. Qed.

Lemma undisturbed_run : undisturbed (PC := ToolProgress.Demo.no_plans) [] None.
Proof. split_and!; [done|done|]. intros args. by exists (Plan args). Qed.
End Demo.

Lemma anthropic_calls_delivered_witness :
  undisturbed (PC := ToolProgress.Demo.no_plans) [] None /\
  is_ok (Demo.run (Demo.body ++ Demo.rest) None []).1 = true /\
  invocations (log (Demo.run (Demo.body ++ Demo.rest) None []).2) =
    (calls_of ToolCallId.Demo.sample_hash Demo.decode Demo.decode_object "call" ∅
       (server_events (map snd (Demo.body ++ Demo.rest)) EmptyString [])).1.
Proof.
  assert (Hok : is_ok (Demo.run (Demo.body ++ Demo.rest) None []).1 = true) by (vm_compute; reflexivity).
  split; [exact Demo.undisturbed_run|]. split; [exact Hok|].
  exact (proj2 (proj1 (proj2 (anthropic_calls_delivered (PC := ToolProgress.Demo.no_plans) ToolCallId.Demo.sample_hash
    Demo.decode Demo.decode_object "call" "m" (Demo.body ++ Demo.rest) None 9 [])) Hok)).
Defined.

Lemma anthropic_thinking_bracketed_witness :
  is_ok (Demo.run (Demo.body ++ Demo.rest) None []).1 = true /\
  thinking false (log (Demo.run (Demo.body ++ Demo.rest) None []).2) = Some false.
Proof.
  assert (Hok : is_ok (Demo.run (Demo.body ++ Demo.rest) None []).1 = true) by (vm_compute; reflexivity).
  split; [exact Hok|].
  exact (proj2 (anthropic_thinking_bracketed (PC := ToolProgress.Demo.no_plans) ToolCallId.Demo.sample_hash
    Demo.decode Demo.decode_object "call" "m" (Demo.body ++ Demo.rest) None 9 []) Hok).
Defined.
