(* ===== verification/Shells.v ===== *)
(** * Background shells (await_shell_tool.go).

    A stream remembers the shells that run in the background: what the client reports of them, by
    message, by exec or by task, what the terminal files of the editor say, and how much of their output
    AwaitShell has shown.

    Times are nanoseconds, [None] being the zero time.  The file system and its paths, [strconv.Unquote]
    and [time.Parse] are parameters. *)

From S2P Require Import Prelude Go Strings Modes ToolArgs.

Definition backgroundShellStatusBackgrounded : string := "backgrounded".
Definition backgroundShellStatusRunning : string := "running".
Definition backgroundShellStatusCompleted : string := "completed".
Definition backgroundShellStatusRejected : string := "rejected".
Definition backgroundShellStatusPermissionDenied : string := "permission_denied".
Definition backgroundShellStatusTransportClosed : string := "transport_closed".
Definition backgroundShellStatusUnknown : string := "unknown".

(** ** Data *)

(** What a pending exec tells about its shell. *)
Record ShellExec := mkShellExec {
  MessageID : Z;
  ExecID : string;
  ToolCallID : string;
  ArgsJSON : bytes;
  ModelCallID : string
}.

Definition no_exec : ShellExec := mkShellExec 0 EmptyString EmptyString [] EmptyString.

Record BackgroundShellState := mkShell {
  ShellID : string;
  Command : string;
  WorkingDirectory : string;
  PID : option Z;
  OriginalToolCallID : string;
  OriginalExecID : string;
  OriginalMessageID : Z;
  OriginalModelCallID : string;
  OriginalArgsJSON : bytes;
  ShellStatus : string;
  ExitCode : option Z;
  StdoutBuffer : bytes;
  StderrBuffer : bytes;
  AwaitStdoutOffset : Z;
  AwaitStderrOffset : Z;
  CreatedAt : option Z;
  LastActivityAt : option Z;
  CompletedAt : option Z
}.

#[export] Instance eta_shell : Eta BackgroundShellState := fun s =>
  mkShell (ShellID s) (Command s) (WorkingDirectory s) (PID s) (OriginalToolCallID s) (OriginalExecID s)
    (OriginalMessageID s) (OriginalModelCallID s) (OriginalArgsJSON s) (ShellStatus s) (ExitCode s) (StdoutBuffer s)
    (StderrBuffer s) (AwaitStdoutOffset s) (AwaitStderrOffset s) (CreatedAt s) (LastActivityAt s) (CompletedAt s).

Definition new_shell (shellID status : string) (now : option Z) : BackgroundShellState :=
  mkShell shellID EmptyString EmptyString None EmptyString EmptyString 0 EmptyString [] status None [] [] 0 0 now None None.

(** The part of a stream that is about shells. *)
Record Shells := mkShells {
  BackgroundShells : gmap string BackgroundShellState;
  ByMessageID : gmap Z string;
  ByExecID : gmap string string;
  BackgroundShellActions : gmap string Z;
  TerminalsFolder : string;
  UpdatedAt : Z
}.

#[export] Instance eta_shells : Eta Shells := fun s =>
  mkShells (BackgroundShells s) (ByMessageID s) (ByExecID s) (BackgroundShellActions s) (TerminalsFolder s) (UpdatedAt s).

Inductive ShellEvent :=
| ShellBackgrounded (shellID : Z) (command cwd : string) (pid : option Z)
| ShellStdout (data : bytes)
| ShellStderr (data : bytes)
| ShellExit (code : Z) (cwd : string)
| ShellRejected (reason : string)
| ShellPermissionDenied (error : string)
| ShellOtherEvent.

Inductive SpawnResult :=
| SpawnSuccess (shellID : Z) (command cwd : string) (pid : option Z)
| SpawnRejected (reason : string)
| SpawnPermissionDenied (error : string)
| SpawnError (error : string)
| SpawnNothing.

Inductive TaskStatus := TaskSuccess | TaskError | TaskAborted | TaskOtherStatus.
Inductive TaskReason := TaskFinished | TaskProgress | TaskOtherReason.

Record BackgroundTaskCompletion := mkCompletion {
  IsShellTask : bool;
  TaskId : string;
  CompletionStatus : TaskStatus;
  CompletionReason : TaskReason;
  CompletionDetail : string
}.

Record terminalShellFileSnapshot := mkSnapshot {
  SnapPID : option Z;
  SnapCommand : string;
  SnapCWD : string;
  SnapStatus : string;
  SnapStartedAt : option Z;
  SnapOutput : bytes;
  SnapExitCode : option Z;
  SnapEndedAt : option Z
}.

#[export] Instance eta_snapshot : Eta terminalShellFileSnapshot := fun s =>
  mkSnapshot (SnapPID s) (SnapCommand s) (SnapCWD s) (SnapStatus s) (SnapStartedAt s) (SnapOutput s) (SnapExitCode s) (SnapEndedAt s).

Definition no_snapshot : terminalShellFileSnapshot := mkSnapshot None EmptyString EmptyString EmptyString None [] None None.

(** ** Helpers *)

Definition isBackgroundShellTerminalStatus (status : string) : bool :=
  bool_decide (TrimSpace status ∈ [backgroundShellStatusCompleted; backgroundShellStatusRejected;
                                  backgroundShellStatusPermissionDenied; backgroundShellStatusTransportClosed]).

Definition firstNonZeroTime (a b : option Z) : option Z := match a with Some t => Some t | None => b end.

Definition backgroundShellRuntimeMS (now : Z) (createdAt completedAt : option Z) : Z :=
  match createdAt with
  | None => 0
  | Some created =>
      let end_ := default now completedAt in
      if end_ <? created then 0 else Z.min (end_ - created) max_int64 / 1000000
  end.

Definition appendBackgroundShellBuffer (current : bytes) (value : string) : bytes :=
  let trimmed := bytes_of (TrimSpace value) in
  if decide (trimmed = []) then current
  else if decide (current = [] \/ HasSuffix current [LF] = true) then current ++ trimmed
  else current ++ [LF] ++ trimmed.

Definition backgroundShellIDForMessageLocked (s : Shells) (messageID : Z) (execID : string) : string :=
  let byExec := if decide (TrimSpace execID = EmptyString) then EmptyString
                else TrimSpace (default EmptyString (ByExecID s !! TrimSpace execID)) in
  if decide (byExec <> EmptyString) then byExec
  else if decide (messageID <> 0) then TrimSpace (default EmptyString (ByMessageID s !! messageID)) else EmptyString.

Definition index_exec (pending : ShellExec) (shellID : string) (s : Shells) : Shells :=
  let s := if decide (MessageID pending = 0) then s
           else s <| ByMessageID := <[MessageID pending := shellID]> (ByMessageID s) |> in
  if decide (TrimSpace (ExecID pending) = EmptyString) then s
  else s <| ByExecID := <[TrimSpace (ExecID pending) := shellID]> (ByExecID s) |>.

Definition text_or (old new : string) : string := if decide (old = EmptyString) then new else old.

(** The fields of the exec that are not known yet. *)
Definition fill_origin (pending : ShellExec) (state : BackgroundShellState) : BackgroundShellState :=
  state <| OriginalToolCallID := text_or (OriginalToolCallID state) (TrimSpace (ToolCallID pending)) |>
        <| OriginalExecID := text_or (OriginalExecID state) (TrimSpace (ExecID pending)) |>
        <| OriginalMessageID := if decide (OriginalMessageID state = 0) then MessageID pending else OriginalMessageID state |>
        <| OriginalArgsJSON := if decide (OriginalArgsJSON state = []) then ArgsJSON pending else OriginalArgsJSON state |>
        <| OriginalModelCallID := text_or (OriginalModelCallID state) (TrimSpace (ModelCallID pending)) |>.

(** The identifier under which the shell is now known, and the stream; nothing for a blank one. *)
Definition ensureBackgroundShellStateLocked (s : Shells) (shellID : string) (pending : ShellExec) (now : option Z)
  : option (string * Shells) :=
  let trimmedShellID := TrimSpace shellID in
  if decide (trimmedShellID = EmptyString) then None
  else
    let state := default (new_shell trimmedShellID backgroundShellStatusRunning now) (BackgroundShells s !! trimmedShellID) in
    Some (trimmedShellID,
          index_exec pending trimmedShellID
            (s <| BackgroundShells := <[trimmedShellID := fill_origin pending state]> (BackgroundShells s) |>)).

Definition update_shell (shellID : string) (f : BackgroundShellState -> BackgroundShellState) (s : Shells) : Shells :=
  s <| BackgroundShells := alter f shellID (BackgroundShells s) |>.

Definition touch (now : Z) (s : Shells) : Shells := s <| UpdatedAt := now |>.

(** ** What the client reports *)

Definition ended (status : string) (stderr : string) (now : Z) (state : BackgroundShellState) : BackgroundShellState :=
  state <| ShellStatus := status |> <| StderrBuffer := StderrBuffer state ++ bytes_of (TrimSpace stderr) |>
        <| LastActivityAt := Some now |> <| CompletedAt := Some now |>.

Definition spawned (pending : ShellExec) (command cwd : string) (pid : option Z) (now : Z) (state : BackgroundShellState)
  : BackgroundShellState :=
  state
    <| Command := firstNonEmpty [TrimSpace command; Command state] |>
    <| WorkingDirectory := firstNonEmpty [TrimSpace cwd; WorkingDirectory state] |>
    <| PID := pid |>
    <| ShellStatus := backgroundShellStatusBackgrounded |>
    <| OriginalToolCallID := firstNonEmpty [TrimSpace (ToolCallID pending); OriginalToolCallID state] |>
    <| OriginalExecID := firstNonEmpty [TrimSpace (ExecID pending); OriginalExecID state] |>
    <| OriginalMessageID := if decide (OriginalMessageID state = 0) then MessageID pending else OriginalMessageID state |>
    <| OriginalArgsJSON := if decide (OriginalArgsJSON state = []) then ArgsJSON pending else OriginalArgsJSON state |>
    <| OriginalModelCallID := firstNonEmpty [TrimSpace (ModelCallID pending); OriginalModelCallID state] |>
    <| LastActivityAt := Some now |>.

Definition observeBackgroundShellSpawnResultLocked (s : Shells) (pending : ShellExec) (result : option SpawnResult) (now : Z)
  : Shells * bool :=
  match result with
  | None => (s, false)
  | Some (SpawnSuccess id command cwd pid) =>
      let shellID := Sprintd id in
      let state := default (new_shell shellID EmptyString (Some now)) (BackgroundShells s !! shellID) in
      let state := spawned pending command cwd pid now state in
      (touch now (index_exec pending shellID (s <| BackgroundShells := <[shellID := state]> (BackgroundShells s) |>)), true)
  | Some result =>
      match ensureBackgroundShellStateLocked s (backgroundShellIDForMessageLocked s (MessageID pending) (ExecID pending))
              pending (Some now) with
      | None => (s, false)
      | Some (shellID, s) =>
          match result with
          | SpawnRejected reason => (touch now (update_shell shellID (ended backgroundShellStatusRejected reason now) s), true)
          | SpawnPermissionDenied err =>
              (touch now (update_shell shellID (ended backgroundShellStatusPermissionDenied err now) s), true)
          | SpawnError err => (touch now (update_shell shellID (ended backgroundShellStatusTransportClosed err now) s), true)
          | _ => (s, false)
          end
      end
  end.

(** [result] is the shell's number in a successful result, 0 in another one. *)
Definition observeForceBackgroundShellResultLocked (s : Shells) (pending : ShellExec) (result : option Z) (now : Z)
  : Shells * bool :=
  match result with
  | None => (s, false)
  | Some shellIDValue =>
      if decide (shellIDValue = 0) then (s, false)
      else match ensureBackgroundShellStateLocked s (Sprintd shellIDValue) pending (Some now) with
           | None => (s, false)
           | Some (shellID, s) =>
               (touch now (update_shell shellID (fun state =>
                  state <| ShellStatus := backgroundShellStatusBackgrounded |> <| LastActivityAt := Some now |>) s), true)
           end
  end.

Definition observeBackgroundShellExecClientMessage (s : Shells) (pending : ShellExec) (spawn : option SpawnResult)
    (force : option Z) (now : Z) : Shells :=
  let '(s, _) := observeBackgroundShellSpawnResultLocked s pending spawn now in
  fst (observeForceBackgroundShellResultLocked s pending force now).

Definition observeMissingBackgroundShellExecClientMessage (s : Shells) (messageID : Z) (execID : string)
    (spawn : option SpawnResult) (force : option Z) (now : Z) : Shells * bool :=
  if decide (spawn = None /\ force = None) then (s, false)
  else
    let pending := mkShellExec messageID (TrimSpace execID) EmptyString [] EmptyString in
    let '(s, seen) := observeBackgroundShellSpawnResultLocked s pending spawn now in
    if seen then (s, true) else observeForceBackgroundShellResultLocked s pending force now.

(** Work on the shell of an exec, when there is one. *)
Definition with_shell (s : Shells) (shellID : string) (pending : ShellExec) (now : Z)
    (f : BackgroundShellState -> BackgroundShellState) : Shells :=
  match ensureBackgroundShellStateLocked s shellID pending (Some now) with
  | None => s
  | Some (shellID, s) => touch now (update_shell shellID f s)
  end.

Definition moved_to_background (pending : ShellExec) (command cwd : string) (pid : option Z) (now : Z) (state : BackgroundShellState)
  : BackgroundShellState :=
  state
    <| Command := firstNonEmpty [TrimSpace command; Command state] |>
    <| WorkingDirectory := firstNonEmpty [TrimSpace cwd; WorkingDirectory state] |>
    <| PID := pid |>
    <| ShellStatus := backgroundShellStatusBackgrounded |>
    <| OriginalToolCallID := TrimSpace (ToolCallID pending) |>
    <| OriginalExecID := TrimSpace (ExecID pending) |>
    <| OriginalMessageID := MessageID pending |>
    <| OriginalArgsJSON := ArgsJSON pending |>
    <| OriginalModelCallID := TrimSpace (ModelCallID pending) |>
    <| LastActivityAt := Some now |>.

Definition observeShellStreamLocked (s : Shells) (pending : ShellExec) (event : ShellEvent) (now : Z) : Shells :=
  let known := backgroundShellIDForMessageLocked s (MessageID pending) (ExecID pending) in
  match event with
  | ShellBackgrounded id command cwd pid =>
      let shellID := Sprintd id in
      let state := default (new_shell shellID EmptyString (Some now)) (BackgroundShells s !! shellID) in
      let state := moved_to_background pending command cwd pid now state in
      touch now (index_exec pending shellID (s <| BackgroundShells := <[shellID := state]> (BackgroundShells s) |>))
  | ShellStdout data =>
      with_shell s known pending now (fun state =>
        state <| StdoutBuffer := StdoutBuffer state ++ data |> <| ShellStatus := backgroundShellStatusRunning |>
              <| LastActivityAt := Some now |>)
  | ShellStderr data =>
      with_shell s known pending now (fun state =>
        state <| StderrBuffer := StderrBuffer state ++ data |> <| ShellStatus := backgroundShellStatusRunning |>
              <| LastActivityAt := Some now |>)
  | ShellExit code cwd =>
      with_shell s known pending now (fun state =>
        state <| ExitCode := Some (wrap_int32 code) |>
              <| WorkingDirectory := firstNonEmpty [TrimSpace cwd; WorkingDirectory state] |>
              <| ShellStatus := backgroundShellStatusCompleted |> <| LastActivityAt := Some now |> <| CompletedAt := Some now |>)
  | ShellRejected reason => with_shell s known pending now (ended backgroundShellStatusRejected reason now)
  | ShellPermissionDenied err => with_shell s known pending now (ended backgroundShellStatusPermissionDenied err now)
  | ShellOtherEvent => touch now s
  end.

(** For an exec that is not pending any more, by what the shell remembers of it. *)
Definition observeMissingShellExecClientMessage (s : Shells) (messageID : Z) (execID : string) (event : ShellEvent) (now : Z)
  : Shells * bool :=
  let shellID := backgroundShellIDForMessageLocked s messageID execID in
  if decide (shellID = EmptyString) then (s, false)
  else
    let pending := match BackgroundShells s !! shellID with
                   | Some state => mkShellExec messageID (TrimSpace execID) (OriginalToolCallID state)
                                     (OriginalArgsJSON state) (OriginalModelCallID state)
                   | None => mkShellExec messageID (TrimSpace execID) EmptyString [] EmptyString
                   end in
    (observeShellStreamLocked s pending event now, true).

Definition observeBackgroundTaskCompletionLocked (s : Shells) (completion : BackgroundTaskCompletion) (now : Z)
  : Shells * bool :=
  if negb (IsShellTask completion) then (s, false)
  else match ensureBackgroundShellStateLocked s (TaskId completion) no_exec (Some now) with
       | None => (s, false)
       | Some (shellID, s) =>
           let detail := TrimSpace (CompletionDetail completion) in
           let reported :=
             match CompletionStatus completion with
             | TaskSuccess => Some (fun state => state <| ShellStatus := backgroundShellStatusCompleted |>
                 <| StdoutBuffer := appendBackgroundShellBuffer (StdoutBuffer state) detail |>)
             | TaskError | TaskAborted => Some (fun state => state <| ShellStatus := backgroundShellStatusTransportClosed |>
                 <| StderrBuffer := appendBackgroundShellBuffer (StderrBuffer state) detail |>)
             | TaskOtherStatus =>
                 match CompletionReason completion with
                 | TaskProgress => Some (fun state => state <| ShellStatus := backgroundShellStatusRunning |>)
                 | _ => None
                 end
             end in
           match reported with
           | None => (s, false)
           | Some report =>
               let finished := match CompletionReason completion with TaskFinished => true | _ => false end in
               (touch now (update_shell shellID (fun state =>
                  let state := report state <| LastActivityAt := Some now |> in
                  if finished || isBackgroundShellTerminalStatus (ShellStatus state)
                  then state <| CompletedAt := Some now |> else state) s), true)
           end
       end.

Definition observeBackgroundTaskCompletionAction (s : Shells) (completions : list BackgroundTaskCompletion) (now : Z) : Shells :=
  fold_left (fun s completion => fst (observeBackgroundTaskCompletionLocked s completion now)) completions s.

Definition recordBackgroundShellActionLocked (s : Shells) (toolCallID : string) (now : Z) : Shells * (string * bool) :=
  let trimmedToolCallID := TrimSpace toolCallID in
  if decide (trimmedToolCallID = EmptyString) then (s, (EmptyString, false))
  else match BackgroundShellActions s !! trimmedToolCallID with
       | Some _ => (s, (trimmedToolCallID, false))
       | None => (touch now (s <| BackgroundShellActions := <[trimmedToolCallID := now]> (BackgroundShellActions s) |>),
                  (trimmedToolCallID, true))
       end.

(** ** Terminal files *)

Section Files.
Context (Clean Base : string -> string) (IsAbs : string -> bool) (Join : string -> string -> string).
Context (ReadFile : string -> result bytes).
(** [strconv.Unquote], and [time.Parse] in RFC 3339. *)
Context (Unquote : string -> option string) (ParseTime : string -> option Z).

Definition terminalShellFilePath (terminalsFolder shellID : string) : option string :=
  let folder := Clean (TrimSpace terminalsFolder) in
  if decide (folder = ".") then None
  else if negb (IsAbs folder) then None
  else
    let trimmedID := TrimSpace shellID in
    if decide (trimmedID = EmptyString) then None
    else match ParseUint (bytes_of trimmedID) (2 ^ 32 - 1) with
         | Some id => Some (Join folder (Sprintd id +:+ ".txt"))
         | None =>
             if HasSuffix (bytes_of (ToLower trimmedID)) (bytes_of ".txt") then Some (Join folder (Base trimmedID))
             else Some (Join folder (Base trimmedID +:+ ".txt"))
         end.

Definition is_separator (line : bytes) : bool := bool_decide (trim_space line = bytes_of "---").

(** The indices of the separators among lines that start at [index]. *)
Fixpoint terminalShellSeparatorIndexes (index : nat) (lines : list bytes) : list nat :=
  match lines with
  | [] => []
  | line :: lines =>
      if is_separator line then index :: terminalShellSeparatorIndexes (S index) lines
      else terminalShellSeparatorIndexes (S index) lines
  end.

Definition parseTerminalShellMetadataValue (value : bytes) : string :=
  let trimmed := string_of (trim_space value) in default trimmed (Unquote trimmed).

Definition metadata_key (line : bytes) : option (string * bytes) :=
  match Cut line (bytes_of ":") with
  | None => None
  | Some (key, value) => Some (ToLower (string_of (trim_space key)), value)
  end.

(** The exit code of a status that has one. *)
Definition status_exit_code (status : string) : option Z :=
  if decide (status ∈ ["succeeded"; "success"; "completed"; "done"]) then Some 0
  else if decide (status ∈ ["failed"; "error"]) then Some 1 else None.

Definition take_metadata (key value : string) (snapshot : terminalShellFileSnapshot) : terminalShellFileSnapshot :=
  if decide (key = "pid") then
    match ParseUint (bytes_of value) (2 ^ 32 - 1) with
    | Some pid => snapshot <| SnapPID := Some pid |> | None => snapshot end
  else if decide (key = "cwd") then snapshot <| SnapCWD := value |>
  else if decide (key = "command" \/ key = "last_command") then
    if decide (SnapCommand snapshot = EmptyString) then snapshot <| SnapCommand := value |> else snapshot
  else if decide (key = "started_at") then snapshot <| SnapStartedAt := ParseTime (TrimSpace value) |>
  else if decide (key = "exit_code" \/ key = "last_exit_code") then
    match ParseInt (bytes_of value) (- 2 ^ 31) (2 ^ 31 - 1) with
    | Some exitCode => snapshot <| SnapExitCode := Some exitCode |> | None => snapshot end
  else if decide (key = "ended_at") then snapshot <| SnapEndedAt := ParseTime (TrimSpace value) |>
  else if decide (key = "status") then
    let statusVal := ToLower (TrimSpace value) in
    let snapshot := snapshot <| SnapStatus := statusVal |> in
    match SnapExitCode snapshot, status_exit_code statusVal with
    | None, Some code => snapshot <| SnapExitCode := Some code |>
    | _, _ => snapshot
    end
  else snapshot.

Definition parse_metadata_line (snapshot : terminalShellFileSnapshot) (line : bytes) : terminalShellFileSnapshot :=
  match metadata_key line with
  | None => snapshot
  | Some (key, value) => take_metadata key (parseTerminalShellMetadataValue value) snapshot
  end.

Definition parseTerminalShellMetadata (lines : list bytes) (snapshot : terminalShellFileSnapshot) : terminalShellFileSnapshot :=
  fold_left parse_metadata_line lines snapshot.

Definition terminalMetadataBlockHasAnyKey (lines : list bytes) (keys : list string) : bool :=
  existsb (fun line => match metadata_key line with Some (key, _) => bool_decide (key ∈ keys) | None => false end) lines.

Definition footer_keys : list string := ["exit_code"; "last_exit_code"; "ended_at"; "status"].

(** The lines from [first] to before [last]. *)
Definition line_range (lines : list bytes) (first last : nat) : list bytes := take (last - first) (drop first lines).

Definition block_between (lines : list bytes) (separators : list nat) (index : nat) : list bytes :=
  line_range lines (S (nth index separators O)) (nth (S index) separators O).

(** The last block of metadata behind the header: the index of the separator before it. *)
Fixpoint find_footer (lines : list bytes) (separators : list nat) (index : nat) : option nat :=
  match index with
  | O => None
  | S next =>
      if terminalMetadataBlockHasAnyKey (block_between lines separators index) footer_keys then Some index
      else find_footer lines separators next
  end.

Fixpoint join_lines (lines : list bytes) : bytes :=
  match lines with
  | [] => []
  | [line] => line
  | line :: lines => line ++ LF :: join_lines lines
  end.

Definition parseTerminalShellFileSnapshot (raw : bytes) : terminalShellFileSnapshot :=
  let lines := Split (ReplaceAll raw [CR; LF] [LF]) LF in
  let separators := terminalShellSeparatorIndexes 0 lines in
  let header := (2 <=? length separators)%nat in
  let snapshot := if header then parseTerminalShellMetadata (block_between lines separators 0) no_snapshot else no_snapshot in
  let outputStart := if header then S (nth 1 separators O) else O in
  let '(snapshot, outputEnd) :=
    match find_footer lines separators (length separators - 2) with
    | Some index => (parseTerminalShellMetadata (block_between lines separators index) snapshot, nth index separators O)
    | None => (snapshot, length lines)
    end in
  if (outputStart <? outputEnd)%nat
  then snapshot <| SnapOutput := TrimSuffix (join_lines (line_range lines outputStart outputEnd)) [LF] |>
  else snapshot.

Definition readTerminalShellFileSnapshot (terminalsFolder shellID : string) : option terminalShellFileSnapshot :=
  match terminalShellFilePath terminalsFolder shellID with
  | None => None
  | Some path =>
      match ReadFile path with
      | Err _ => None
      | Ok data => if decide (data = []) then None else Some (parseTerminalShellFileSnapshot data)
      end
  end.

(** ** Taking over what the file says *)

Definition complete_shell (code : Z) (snapshot : terminalShellFileSnapshot) (now : Z) (state : BackgroundShellState)
  : BackgroundShellState :=
  let completed := firstNonZeroTime (SnapEndedAt snapshot) (Some now) in
  state <| ExitCode := Some code |> <| ShellStatus := backgroundShellStatusCompleted |>
        <| CompletedAt := completed |> <| LastActivityAt := completed |>.

Definition refresh_output (snapshot : terminalShellFileSnapshot) (now : Z) (state : BackgroundShellState) : BackgroundShellState :=
  if decide (SnapOutput snapshot <> [] /\
             ((length (StdoutBuffer state) <= length (SnapOutput snapshot))%nat \/ StdoutBuffer state = [])) then
    let state := state <| StdoutBuffer := SnapOutput snapshot |> in
    let state := if isBackgroundShellTerminalStatus (ShellStatus state) then state
                 else state <| ShellStatus := backgroundShellStatusRunning |> in
    state <| LastActivityAt := Some now |>
  else state.

Definition refresh_status (snapshot : terminalShellFileSnapshot) (now : Z) (state : BackgroundShellState) : BackgroundShellState :=
  if isBackgroundShellTerminalStatus (ShellStatus state) then state
  else match SnapExitCode snapshot with
       | Some code => complete_shell code snapshot now state
       | None => match status_exit_code (SnapStatus snapshot) with
                 | Some code => complete_shell code snapshot now state
                 | None => state
                 end
       end.

Definition refresh_shell (snapshot : terminalShellFileSnapshot) (now : Z) (state : BackgroundShellState) : BackgroundShellState :=
  let state := state
    <| Command := text_or (Command state) (SnapCommand snapshot) |>
    <| WorkingDirectory := text_or (WorkingDirectory state) (SnapCWD snapshot) |>
    <| PID := match PID state with None => SnapPID snapshot | pid => pid end |>
    <| CreatedAt := match CreatedAt state with None => firstNonZeroTime (SnapStartedAt snapshot) (Some now) | t => t end |> in
  let state := refresh_status snapshot now (refresh_output snapshot now state) in
  let state := if decide (TrimSpace (ShellStatus state) = EmptyString)
               then state <| ShellStatus := backgroundShellStatusBackgrounded |> else state in
  state <| LastActivityAt := firstNonZeroTime (LastActivityAt state) (Some now) |>.

Definition refreshBackgroundShellFromTerminalFile (s : Shells) (shellID : string) (now : Z) : Shells :=
  match readTerminalShellFileSnapshot (TrimSpace (TerminalsFolder s)) shellID with
  | None => s
  | Some snapshot =>
      match ensureBackgroundShellStateLocked s shellID no_exec (firstNonZeroTime (SnapStartedAt snapshot) (Some now)) with
      | None => s
      | Some (shellID, s) => touch now (update_shell shellID (refresh_shell snapshot now) s)
      end
  end.

End Files.

(** ** The invariant of the shells of a stream *)

Definition known_statuses : list string :=
  [backgroundShellStatusBackgrounded; backgroundShellStatusRunning; backgroundShellStatusCompleted;
   backgroundShellStatusRejected; backgroundShellStatusPermissionDenied; backgroundShellStatusTransportClosed].

(** An identifier as the stream keeps it. *)
Definition name_ok (name : string) : Prop := TrimSpace name = name /\ name <> EmptyString.

(** What holds of a shell between two reports. *)
Record shell_core (state : BackgroundShellState) : Prop := {
  core_created : CreatedAt state <> None;
  core_stdout : 0 <= AwaitStdoutOffset state <= Z.of_nat (length (StdoutBuffer state));
  core_stderr : 0 <= AwaitStderrOffset state <= Z.of_nat (length (StderrBuffer state))
}.

Record shell_status_ok (state : BackgroundShellState) : Prop := {
  status_known : ShellStatus state ∈ known_statuses;
  status_ended : isBackgroundShellTerminalStatus (ShellStatus state) = true -> CompletedAt state <> None
}.

Definition shell_ok (key : string) (state : BackgroundShellState) : Prop :=
  key = ShellID state /\ shell_core state /\ shell_status_ok state.

Definition shell_known (s : Shells) (name : string) : Prop := is_Some (BackgroundShells s !! name).

Record shells_ok (s : Shells) : Prop := {
  ok_shells : map_Forall (fun key state => name_ok key /\ shell_ok key state) (BackgroundShells s);
  ok_messages : map_Forall (fun id name => id <> 0 /\ shell_known s name) (ByMessageID s);
  ok_execs : map_Forall (fun id name => name_ok id /\ shell_known s name) (ByExecID s);
  ok_actions : map_Forall (fun id _ => name_ok id) (BackgroundShellActions s)
}.

Lemma shell_known_name s name : shells_ok s -> shell_known s name -> name_ok name.
Proof. intros H [state Hs]. by apply (ok_shells _ H) in Hs as [? _]. Qed.

Lemma name_trimmed name : TrimSpace name <> EmptyString -> name_ok (TrimSpace name).
Proof. intros H. split; [apply TrimSpace_idem|done]. Qed.

Lemma Sprintd_name id : is_uint32 id -> name_ok (Sprintd id).
Proof. intros H. apply Sprintd_trimmed. unfold is_uint32, max_uint32 in H. unfold max_int64. lia. Qed.

(** ** Operations keep it *)

Lemma insert_shell_ok s name state : shells_ok s -> name_ok name -> shell_ok name state ->
  shells_ok (s <| BackgroundShells := <[name := state]> (BackgroundShells s) |>).
Proof.
  intros [H1 H2 H3 H4] Hn Hs. assert (Hk : forall n, shell_known s n ->
    shell_known (s <| BackgroundShells := <[name := state]> (BackgroundShells s) |>) n).
  { intros n H. unfold shell_known. cbn. destruct (decide (name = n)) as [->|].
    - rewrite lookup_insert_eq. by eexists.
    - by rewrite lookup_insert_ne. }
  split; cbn; [by apply map_Forall_insert_2| | |done].
  - intros ?? H. apply H2 in H as [? ?]. auto.
  - intros ?? H. apply H3 in H as [? ?]. auto.
Qed.

Lemma update_shell_ok s name f : shells_ok s ->
  (forall state, BackgroundShells s !! name = Some state -> shell_ok name state -> shell_ok name (f state)) ->
  shells_ok (update_shell name f s).
Proof.
  intros Hs Hf. unfold update_shell. rewrite alter_alt.
  destruct (BackgroundShells s !! name) as [state|] eqn:E; [|by destruct s].
  destruct (ok_shells _ Hs _ _ E). by apply insert_shell_ok; [..|apply Hf].
Qed.

Lemma touch_ok now s : shells_ok s -> shells_ok (touch now s).
Proof. by intros [? ? ? ?]. Qed.

Lemma index_exec_ok pending name s : shells_ok s -> shell_known s name -> shells_ok (index_exec pending name s).
Proof.
  intros [H1 H2 H3 H4] Hn. unfold index_exec.
  destruct (decide (MessageID pending = 0)), (decide (TrimSpace (ExecID pending) = EmptyString)); split; cbn;
    try done; try apply map_Forall_insert_2; try done; by split; [apply name_trimmed|].
Qed.

Lemma known_id_name s messageID execID :
  shells_ok s -> TrimSpace (backgroundShellIDForMessageLocked s messageID execID) = backgroundShellIDForMessageLocked s messageID execID.
Proof.
  intros _. unfold backgroundShellIDForMessageLocked. repeat case_decide; rewrite ?TrimSpace_idem, ?TrimSpace_empty; done.
Qed.

Lemma running_known : backgroundShellStatusRunning ∈ known_statuses.
Proof. apply (bool_decide_unpack _). vm_compute. exact I. Qed.

Lemma text_or_filled old new : text_or old new = old \/ old = EmptyString.
Proof. unfold text_or. case_decide; auto. Qed.

Lemma new_shell_ok name now : now <> None -> shell_ok name (new_shell name backgroundShellStatusRunning now).
Proof. intros H. split; [done|]. split; split; cbn; try done; lia || apply running_known. Qed.

(** A report that is about one shell. *)
Definition keeps_shell (f : BackgroundShellState -> BackgroundShellState) : Prop :=
  forall state, ShellID (f state) = ShellID state /\ (shell_core state -> shell_core (f state)) /\
                (shell_status_ok state -> shell_status_ok (f state)).

(** Statuses that are known, with the end of a shell that has ended. *)
Ltac known_status := apply (bool_decide_unpack _); vm_compute; exact I.

Ltac keeps := intros state; split; [done|]; split; (intros [? ? ?] || intros [? ?]); split; cbn; rewrite ?length_app; try done;
  try lia; try known_status.

Lemma keeps_shell_ok f name state : keeps_shell f -> shell_ok name state -> shell_ok name (f state).
Proof. intros Hf (-> & H1 & H2). destruct (Hf state) as (H & ? & ?). split; [done|]. auto. Qed.

Lemma fill_origin_keeps pending : keeps_shell (fill_origin pending).
Proof. keeps. Qed.

Lemma ensure_ok s shellID pending now name s' : now <> None -> shells_ok s ->
  ensureBackgroundShellStateLocked s shellID pending now = Some (name, s') -> shells_ok s' /\ shell_known s' name.
Proof.
  intros Hnow Hs. unfold ensureBackgroundShellStateLocked. case_decide as Hb; [done|]. intros [= <- <-].
  set (name := TrimSpace shellID) in *. set (state := default _ _).
  assert (Hst : shell_ok name state).
  { unfold state. destruct (BackgroundShells s !! name) eqn:E; cbn; [by apply (ok_shells _ Hs) in E as [_ ?]|by apply new_shell_ok]. }
  assert (Hok : shells_ok (s <| BackgroundShells := <[name := fill_origin pending state]> (BackgroundShells s) |>))
    by (apply insert_shell_ok; [done|by apply name_trimmed|apply keeps_shell_ok; [apply fill_origin_keeps|done]]).
  assert (Hn : shell_known (s <| BackgroundShells := <[name := fill_origin pending state]> (BackgroundShells s) |>) name)
    by (unfold shell_known; cbn; rewrite lookup_insert_eq; by eexists).
  split; [by apply index_exec_ok|]. unfold index_exec. by repeat case_decide.
Qed.

Lemma keeps_ok f name s : keeps_shell f -> shells_ok s -> shells_ok (update_shell name f s).
Proof.
  intros Hf Hs. apply update_shell_ok; [done|]. intros state _ H. by apply keeps_shell_ok.
Qed.

Lemma with_shell_ok s shellID pending now f : shells_ok s -> keeps_shell f -> shells_ok (with_shell s shellID pending now f).
Proof.
  intros Hs Hf. unfold with_shell. destruct (ensureBackgroundShellStateLocked _ _ _ _) as [[name s']|] eqn:E; [|done].
  apply ensure_ok in E as [? _]; [|done..]. by apply touch_ok, keeps_ok.
Qed.

Lemma ended_keeps status reason now : status ∈ known_statuses -> keeps_shell (ended status reason now).
Proof. intros H. keeps. Qed.

(** The client reports a shell by number. *)
Lemma backgrounded_ok s pending name now f : shells_ok s -> name_ok name ->
  (forall state, ShellID (f state) = ShellID state /\ (shell_core state -> shell_core (f state)) /\ shell_status_ok (f state)) ->
  shells_ok (touch now (index_exec pending name
    (s <| BackgroundShells := <[name := f (default (new_shell name EmptyString (Some now)) (BackgroundShells s !! name))]>
                                (BackgroundShells s) |>))).
Proof.
  intros Hs Hn Hf. apply touch_ok, index_exec_ok.
  - apply insert_shell_ok; [done..|]. set (state := default _ _). destruct (Hf state) as (H1 & H2 & H3).
    assert (Hst : name = ShellID state /\ shell_core state).
    { unfold state. destruct (BackgroundShells s !! name) eqn:E; cbn.
      - by apply (ok_shells _ Hs) in E as (_ & ? & ? & _).
      - split; [done|]. by split; cbn; [|lia..]. }
    destruct Hst. split; [congruence|]. auto.
  - unfold shell_known. cbn. rewrite lookup_insert_eq. by eexists.
Qed.

Ltac backgrounded := intros state; split; [done|]; split; [intros [? ? ?]|]; split; cbn; try done; try known_status.

Definition spawn_ok (result : SpawnResult) : Prop :=
  match result with SpawnSuccess id _ _ _ => is_uint32 id | _ => True end.

Definition event_ok (event : ShellEvent) : Prop :=
  match event with ShellBackgrounded id _ _ _ => is_uint32 id | _ => True end.

Lemma spawn_result_ok s pending result now : shells_ok s -> from_option spawn_ok True result ->
  shells_ok (fst (observeBackgroundShellSpawnResultLocked s pending result now)).
Proof.
  intros Hs Hr. destruct result as [[id command cwd pid| | | |]|]; [|cbn in *; try done..].
  1: { cbn [fst observeBackgroundShellSpawnResultLocked].
       apply (backgrounded_ok s pending (Sprintd id) now (spawned pending command cwd pid now)); [done|by apply Sprintd_name|backgrounded]. }
  all: unfold observeBackgroundShellSpawnResultLocked;
    destruct (ensureBackgroundShellStateLocked _ _ _ _) as [[name s']|] eqn:E; [|done];
    apply ensure_ok in E as [? _]; [|done..]; cbn; try done; apply touch_ok, keeps_ok; try done;
    apply ended_keeps; known_status.
Qed.

Lemma force_ok s pending result now : shells_ok s ->
  shells_ok (fst (observeForceBackgroundShellResultLocked s pending result now)).
Proof.
  intros Hs. unfold observeForceBackgroundShellResultLocked. destruct result as [id|]; [|done]. case_decide; [done|].
  destruct (ensureBackgroundShellStateLocked _ _ _ _) as [[name s']|] eqn:E; [|done].
  apply ensure_ok in E as [? _]; [|done..]. apply touch_ok, keeps_ok; [|done]. keeps.
Qed.

Lemma stream_ok s pending event now : shells_ok s -> event_ok event ->
  shells_ok (observeShellStreamLocked s pending event now).
Proof.
  intros Hs He. destruct event as [id command cwd pid|data|data|code cwd|reason|reason|]; cbn [observeShellStreamLocked].
  1: by apply (backgrounded_ok s pending (Sprintd id) now (moved_to_background pending command cwd pid now));
     [|apply Sprintd_name|backgrounded].
  1-5: apply with_shell_ok; [done|]; try (apply ended_keeps; known_status); keeps.
  by apply touch_ok.
Qed.

Lemma missing_shell_exec_ok s messageID execID event now : shells_ok s -> event_ok event ->
  shells_ok (fst (observeMissingShellExecClientMessage s messageID execID event now)).
Proof.
  intros Hs He. unfold observeMissingShellExecClientMessage. case_decide; [done|]. by apply stream_ok.
Qed.

Lemma append_buffer_length current value :
  (length current <= length (appendBackgroundShellBuffer current value))%nat.
Proof. unfold appendBackgroundShellBuffer. repeat case_decide; rewrite ?length_app; lia. Qed.

Lemma completion_ok s completion now : shells_ok s ->
  shells_ok (fst (observeBackgroundTaskCompletionLocked s completion now)).
Proof.
  intros Hs. unfold observeBackgroundTaskCompletionLocked. destruct (IsShellTask completion); cbn [negb]; [|done].
  destruct (ensureBackgroundShellStateLocked _ _ _ _) as [[name s']|] eqn:E; [|done].
  apply ensure_ok in E as [Hs' _]; [|done..]. clear Hs.
  pose proof append_buffer_length as Hb.
  assert (Hk : forall (finished : bool) report,
    (forall state, ShellID (report state) = ShellID state /\ (shell_core state -> shell_core (report state)) /\
                   ShellStatus (report state) ∈ known_statuses) ->
    shells_ok (touch now (update_shell name (fun state =>
      let state := report state <| LastActivityAt := Some now |> in
      if finished || isBackgroundShellTerminalStatus (ShellStatus state)
      then state <| CompletedAt := Some now |> else state) s'))).
  { intros finished report Hr. apply touch_ok, keeps_ok; [|done]. intros state. destruct (Hr state) as (H1 & H2 & H3).
    cbv zeta. destruct (finished || _) eqn:E; split; try done; split; try (intros [? ? ?]%H2; by split); intros _; split; try done.
    apply orb_false_elim in E as [_ E]. cbn in *. congruence. }
  destruct (CompletionStatus completion); [apply Hk..|destruct (CompletionReason completion); [done|apply (Hk false)|done]];
    intros state; (split; [done|]); split; try known_status; intros [? ? ?]; split; cbn; try done;
    match goal with |- context [appendBackgroundShellBuffer ?b ?v] => specialize (Hb b v) end; lia.
Qed.

Lemma completions_ok completions s now : shells_ok s -> shells_ok (observeBackgroundTaskCompletionAction s completions now).
Proof.
  unfold observeBackgroundTaskCompletionAction. revert s. induction completions as [|c cs IH]; intros s Hs; cbn; [done|].
  by apply IH, completion_ok.
Qed.

Lemma action_ok s toolCallID now : shells_ok s -> shells_ok (fst (recordBackgroundShellActionLocked s toolCallID now)).
Proof.
  intros Hs. unfold recordBackgroundShellActionLocked. case_decide as Hb; [done|].
  destruct (BackgroundShellActions s !! _) eqn:E; [done|]. destruct Hs as [H1 H2 H3 H4].
  apply touch_ok. split; cbn; try done. apply map_Forall_insert_2; [by apply name_trimmed|done].
Qed.

Lemma complete_keeps code snapshot now : keeps_shell (complete_shell code snapshot now).
Proof. keeps. intros _. by destruct (SnapEndedAt snapshot). Qed.

Lemma refresh_output_keeps snapshot now : keeps_shell (refresh_output snapshot now).
Proof.
  intros state. unfold refresh_output. destruct (decide _) as [[_ Hlen]|]; [|done]. split; [by case_match|].
  assert (H : (length (StdoutBuffer state) <= length (SnapOutput snapshot))%nat).
  { destruct Hlen as [?| ->]; [done|cbn; lia]. }
  cbv zeta. cbn [ShellStatus set_field]. destruct (isBackgroundShellTerminalStatus (ShellStatus state)) eqn:E; cbn; rewrite ?E; cbn;
    (split; [intros [? ? ?]; split; cbn; lia || done|intros [? ?]; split; cbn; try done; try known_status]).
Qed.

Lemma refresh_status_keeps snapshot now : keeps_shell (refresh_status snapshot now).
Proof.
  intros state. unfold refresh_status. repeat case_match; try done; apply complete_keeps.
Qed.

Lemma refresh_shell_keeps snapshot now : keeps_shell (refresh_shell snapshot now).
Proof.
  intros state. unfold refresh_shell. set (filled := state <| Command := _ |> <| WorkingDirectory := _ |> <| PID := _ |> <| CreatedAt := _ |>).
  assert (Hf : ShellID filled = ShellID state /\ (shell_core state -> shell_core filled) /\ (shell_status_ok state -> shell_status_ok filled)).
  { split; [done|]. split; intros [? ? ?] || intros [? ?]; split; cbn; try done. by destruct (CreatedAt state). }
  clearbody filled. destruct Hf as (H1 & H2 & H3).
  destruct (refresh_output_keeps snapshot now filled) as (H4 & H5 & H6).
  set (shown := refresh_output snapshot now filled) in *. clearbody shown.
  destruct (refresh_status_keeps snapshot now shown) as (H7 & H8 & H9).
  set (known := refresh_status snapshot now shown) in *. clearbody known. cbv zeta.
  case_decide as Hd; cbn; (split; [congruence|]); split.
  1,3: intros Hc; destruct (H8 (H5 (H2 Hc))); by split.
  all: intros Hc; destruct (H9 (H6 (H3 Hc))); split; cbn; try done; known_status.
Qed.

Lemma known_shell_of_message s messageID execID : shells_ok s ->
  backgroundShellIDForMessageLocked s messageID execID = EmptyString \/
  shell_known s (backgroundShellIDForMessageLocked s messageID execID).
Proof.
  intros Hs. unfold backgroundShellIDForMessageLocked. set (byExec := if decide (TrimSpace execID = EmptyString) then _ else _).
  assert (He : byExec = EmptyString \/ shell_known s byExec).
  { unfold byExec. case_decide; [by left|]. destruct (ByExecID s !! _) as [name|] eqn:E; [right|left; apply TrimSpace_empty].
    cbn. apply (ok_execs _ Hs) in E as [_ Hk]. by destruct (shell_known_name _ _ Hs Hk) as [-> _]. }
  case_decide; [tauto|]. case_decide; [|by left].
  destruct (ByMessageID s !! messageID) as [name|] eqn:E; [right|left; apply TrimSpace_empty].
  cbn. apply (ok_messages _ Hs) in E as [_ Hk]. by destruct (shell_known_name _ _ Hs Hk) as [-> _].
Qed.

Definition no_shells : Shells := mkShells ∅ ∅ ∅ ∅ EmptyString 0.

Lemma no_shells_ok : shells_ok no_shells.
Proof. split; cbn; by intros ?? ?. Qed.

Section Refresh.
Context (Clean Base : string -> string) (IsAbs : string -> bool) (Join : string -> string -> string).
Context (Unquote : string -> option string) (ParseTime : string -> option Z).

Notation refresh ReadFile := (refreshBackgroundShellFromTerminalFile Clean Base IsAbs Join ReadFile Unquote ParseTime).

Lemma refresh_ok ReadFile s shellID now : shells_ok s -> shells_ok (refresh ReadFile s shellID now).
Proof.
  intros Hs. unfold refreshBackgroundShellFromTerminalFile. destruct (readTerminalShellFileSnapshot _ _ _ _ _ _ _ _ _) as [snapshot|]; [|done].
  destruct (ensureBackgroundShellStateLocked _ _ _ _) as [[name s']|] eqn:E; [|done].
  apply ensure_ok in E as [? _]; [|by destruct (SnapStartedAt snapshot)|done]. apply touch_ok, keeps_ok; [apply refresh_shell_keeps|done].
Qed.

End Refresh.
