(* ===== verification/TerminalFile.v ===== *)
(** * Reading the terminal files of the editor (await_shell_tool.go).

    A terminal file holds a block of metadata between separators, the output, and behind a shell that has
    ended another block.  The parser of Shells.v finds the last such block, whatever the output looks like. *)

From S2P Require Import Prelude Go Strings EditText Shells.

(** ** Lemmas *)

Lemma replace_absent old new s : old <> [] -> Count s old = 0%nat -> ReplaceAll s old new = s.
Proof.
  intros Hold. revert s. apply (scan_ind old Hold (fun s => Count s old = 0%nat -> ReplaceAll s old new = s)).
  - done.
  - intros s rest E _. by rewrite (Count_match old Hold s rest E).
  - intros c s E IH. rewrite (Count_skip old c s E). intros H. unfold ReplaceAll in *.
    rewrite (Replace_skip old Hold) by done. by rewrite (IH H).
Qed.

Lemma split_line line : LF ∉ line -> Split line LF = [line].
Proof.
  induction line as [|c line IH]; intros Hn; [done|]. cbn. rewrite decide_False by set_solver.
  by rewrite IH by set_solver.
Qed.

Lemma split_joined lines : lines <> [] -> Forall (fun line => LF ∉ line) lines -> Split (join_lines lines) LF = lines.
Proof.
  intros Hne H. induction H as [|line lines Hl Hall IH]; [done|].
  destruct lines as [|next lines]; [by apply split_line|].
  change (join_lines (line :: next :: lines)) with (line ++ LF :: join_lines (next :: lines)).
  rewrite Split_app_lf, split_line by done. by rewrite IH.
Qed.

Lemma separators_none i lines : Forall (fun line => is_separator line = false) lines ->
  terminalShellSeparatorIndexes i lines = [].
Proof. intros H. revert i. induction H as [|l lines Hl _ IH]; intros i; [done|]. cbn. by rewrite Hl. Qed.

Lemma separators_app i a b :
  terminalShellSeparatorIndexes i (a ++ b) =
  terminalShellSeparatorIndexes i a ++ terminalShellSeparatorIndexes (i + length a) b.
Proof.
  revert i. induction a as [|l a IH]; intros i; cbn; [by rewrite Nat.add_0_r|].
  rewrite IH. replace (S i + length a)%nat with (i + S (length a))%nat by lia. by destruct (is_separator l).
Qed.

Lemma line_range_between a b c : line_range (a ++ b ++ c) (length a) (length a + length b) = b.
Proof.
  unfold line_range. rewrite drop_app_length. replace (length a + length b - length a)%nat with (length b) by lia.
  apply take_app_length.
Qed.

Lemma take_metadata_output ParseTime key value snapshot :
  SnapOutput (take_metadata ParseTime key value snapshot) = SnapOutput snapshot.
Proof.
  unfold take_metadata. by repeat case_match.
Qed.

Lemma parse_metadata_output Unquote ParseTime lines snapshot :
  SnapOutput (parseTerminalShellMetadata Unquote ParseTime lines snapshot) = SnapOutput snapshot.
Proof.
  unfold parseTerminalShellMetadata. revert snapshot. induction lines as [|line lines IH]; intros snapshot; [done|].
  cbn. rewrite IH. unfold parse_metadata_line. destruct (metadata_key line) as [[key value]|]; [|done].
  apply take_metadata_output.
Qed.

(** ** The file of a shell that has ended *)

Section File.
Context (Unquote : string -> option string) (ParseTime : string -> option Z).
Context (dashes : bytes) (header output footer : list bytes).
Hypothesis Hdashes : is_separator dashes = true.
Hypothesis Hheader : Forall (fun line => is_separator line = false) header.
Hypothesis Hfooter : Forall (fun line => is_separator line = false) footer.
Hypothesis Hkeys : terminalMetadataBlockHasAnyKey footer footer_keys = true.

Definition ended_file : list bytes := [dashes] ++ header ++ [dashes] ++ output ++ [dashes] ++ footer ++ [dashes].

Notation start := (S (S (length header))).
Notation stop := (start + length output)%nat.

Lemma ended_separators : terminalShellSeparatorIndexes 0 ended_file =
  O :: S (length header) :: terminalShellSeparatorIndexes start output ++ [stop; S (stop + length footer)].
Proof.
  unfold ended_file. rewrite !separators_app, !(separators_none _ header), !(separators_none _ footer) by done.
  cbn. rewrite Hdashes. cbn. repeat f_equal; lia.
Qed.

Lemma footer_found : let separators := terminalShellSeparatorIndexes 0 ended_file in
  find_footer ended_file separators (length separators - 2) = Some (length separators - 2)%nat /\
  nth (length separators - 2) separators O = stop /\
  block_between ended_file separators (length separators - 2) = footer /\
  block_between ended_file separators 0 = header /\ nth 1 separators O = S (length header).
Proof.
  cbv zeta. rewrite ended_separators. set (inner := terminalShellSeparatorIndexes start output).
  set (separators := O :: S (length header) :: inner ++ [stop; S (stop + length footer)]).
  assert (Hlen : (length separators - 2 = S (S (length inner)))%nat).
  { unfold separators. cbn. rewrite length_app. cbn. lia. }
  rewrite Hlen.
  assert (H1 : nth (S (S (length inner))) separators O = stop).
  { unfold separators. cbn. rewrite app_nth2, Nat.sub_diag by lia. done. }
  assert (H2 : nth (S (S (S (length inner)))) separators O = S (stop + length footer)).
  { unfold separators. cbn [nth]. rewrite app_nth2 by lia.
    by replace (S (length inner) - length inner)%nat with 1%nat by lia. }
  assert (Hb : block_between ended_file separators (S (S (length inner))) = footer).
  { unfold block_between. rewrite H1, H2.
    pose proof (line_range_between ([dashes] ++ header ++ [dashes] ++ output ++ [dashes]) footer [dashes]) as H.
    revert H. rewrite !length_app. cbn [length]. unfold ended_file. rewrite <- !app_assoc.
    replace (1 + (length header + (1 + (length output + 1))))%nat with (S stop) by lia.
    by replace (S stop + length footer)%nat with (S (stop + length footer)) by lia. }
  cbn [find_footer]. rewrite Hb, Hkeys. split_and!; try done.
  pose proof (line_range_between [dashes] header ([dashes] ++ output ++ [dashes] ++ footer ++ [dashes])) as H. exact H.
Qed.

(** What is read off the file of a shell that has ended: the metadata of the header, then of the footer, and the
    output line by line but for a last empty line, whatever the output looks like, separators and
    blocks of metadata included. *)
Theorem terminal_file_read_back :
  Forall (fun line => LF ∉ line) ended_file -> Count (join_lines ended_file) [CR; LF] = 0%nat ->
  parseTerminalShellFileSnapshot Unquote ParseTime (join_lines ended_file) =
  parseTerminalShellMetadata Unquote ParseTime footer (parseTerminalShellMetadata Unquote ParseTime header no_snapshot)
    <| SnapOutput := TrimSuffix (join_lines output) [LF] |>.
Proof.
  intros Hlf Hcr. unfold parseTerminalShellFileSnapshot.
  rewrite replace_absent, split_joined by done. cbv zeta.
  destruct footer_found as (H1 & H2 & H3 & H4 & H5). cbv zeta in *. rewrite H1, H2, H3, H4, H5.
  rewrite (proj2 (Nat.leb_le 2 _)) by (rewrite ended_separators; cbn; lia).
  set (snapshot := parseTerminalShellMetadata _ _ footer _).
  assert (Hout : SnapOutput snapshot = []) by (unfold snapshot; by rewrite !parse_metadata_output).
  destruct (Nat.ltb_spec start stop) as [Hlt|Hge].
  - do 2 f_equal. unfold set_field. cbn. f_equal. f_equal.
    pose proof (line_range_between ([dashes] ++ header ++ [dashes]) output ([dashes] ++ footer ++ [dashes])) as H.
    revert H. rewrite !length_app. cbn [length]. unfold ended_file. rewrite <- !app_assoc.
    by replace (1 + (length header + 1))%nat with start by lia.
  - destruct output; [|cbn in Hge; lia]. clearbody snapshot. destruct snapshot. cbn in *. by subst.
Qed.

End File.
