(* ===== verification/AwaitShell.v ===== *)
(** * AwaitShell (await_shell_tool.go): the tool that waits for a background shell.

    It looks at the shell of Shells.v every 50 milliseconds until the shell has ended, its output
    matches, or the time is over, and shows what came since the last look. *)

From S2P Require Import Prelude Go Strings Modes ToolArgs Shells.

(** ** Data *)

Definition awaitShellOutputLimit : Z := 16 * 1024.

Record awaitShellArgs := mkAwaitArgs { ArgShellID : string; ArgTaskID : string; BlockUntilMS : option Z; Pattern : string }.

Record awaitShellResult := mkAwaitResult {
  ResultShellID : string;
  ResultStatus : string;
  Matched : bool;
  TimedOut : bool;
  ResultExitCode : option Z;
  Stdout : bytes;
  Stderr : bytes;
  StdoutOffset : Z;
  StderrOffset : Z;
  RuntimeMS : Z;
  OutputLength : Z;
  RegexRequested : bool;
  RegexMatch : option bytes;
  ResultMessage : string
}.

Definition clampOffset (offset len : Z) : Z := if offset <? 0 then 0 else if len <? offset then len else offset.

Definition truncateAwaitShellOutput (value : bytes) : bytes :=
  if Z.of_nat (length value) <=? awaitShellOutputLimit then value
  else drop (Z.to_nat (Z.of_nat (length value) - awaitShellOutputLimit)) value.

(** ** The tool *)

Section Await.
(** [refresh] is [refreshBackgroundShellFromTerminalFile] with a file system, at a time. *)
Context (refresh : Shells -> string -> Z -> Shells).
(** [regexp.Compile] of the pattern, and [FindString]. *)
Context (find_string : string -> bytes -> result bytes).
Context (DecodeArgsMap : bytes -> result ArgsMap).

Fixpoint readShellIDArg (args : ArgsMap) (keys : list string) : string :=
  match keys with
  | [] => EmptyString
  | key :: keys =>
      match args !! key with
      | Some (ArgString v) => if decide (TrimSpace v = EmptyString) then readShellIDArg args keys else TrimSpace v
      | Some (ArgNumber text) => text
      | _ => readShellIDArg args keys
      end
  end.

Definition decodeAwaitShellArgs (raw : bytes) : awaitShellArgs * option string :=
  match DecodeArgsMap raw with
  | Err e => (mkAwaitArgs EmptyString EmptyString None EmptyString, Some ("decode AwaitShell args failed: " +:+ e))
  | Ok args =>
      let taskID := readShellIDArg args ["task_id"; "taskId"] in
      let shellID := text_or (readShellIDArg args ["shell_id"; "shellId"; "id"]) taskID in
      let pattern := TrimSpace (ReadStringArg args ["pattern"; "regex"]) in
      match ReadInt64Arg args ["block_until_ms"; "blockUntilMs"; "timeout_ms"; "timeoutMs"] with
      | (Err e, _) => (mkAwaitArgs shellID taskID None pattern, Some e)
      | (Ok value, found) =>
          let block := if found then Some (if value <? 0 then 0 else value) else None in
          (mkAwaitArgs shellID taskID block pattern,
           if decide (block = Some 0 /\ TrimSpace shellID = EmptyString)
           then Some "AwaitShell shell_id is required when block_until_ms is 0" else None)
      end
  end.

Definition awaitShellPatternMatched (pattern : string) (output : bytes) : bool * option bytes * option string :=
  let trimmed := TrimSpace pattern in
  if decide (trimmed = EmptyString) then (false, None, None)
  else match find_string ("(?m)" +:+ trimmed) output with
       | Err e => (false, None, Some ("invalid AwaitShell pattern: " +:+ e))
       | Ok found => if decide (found = []) then (false, None, None) else (true, Some found, None)
       end.

Definition block_of (args : awaitShellArgs) : Z := default 30000 (BlockUntilMS args).

Definition simple_result (shellID status message : string) : awaitShellResult :=
  mkAwaitResult shellID status false false None [] [] 0 0 0 0 false None message.

Definition awaitShellSnapshotOnce (s : Shells) (args : awaitShellArgs) (now : Z) : awaitShellResult * Shells :=
  let shellID := TrimSpace (ArgShellID args) in
  if decide (shellID = EmptyString)
  then (simple_result EmptyString "waited" ("waited " +:+ Sprintd (block_of args) +:+ "ms"), s)
  else
    let s := refresh s shellID now in
    match BackgroundShells s !! shellID with
    | None => (simple_result shellID backgroundShellStatusUnknown "unknown or expired shell_id", s)
    | Some state =>
        let stdoutEnd := Z.of_nat (length (StdoutBuffer state)) in
        let stderrEnd := Z.of_nat (length (StderrBuffer state)) in
        let stdout := drop (Z.to_nat (clampOffset (AwaitStdoutOffset state) stdoutEnd)) (StdoutBuffer state) in
        let stderr := drop (Z.to_nat (clampOffset (AwaitStderrOffset state) stderrEnd)) (StderrBuffer state) in
        let status := if decide (TrimSpace (ShellStatus state) = EmptyString) then backgroundShellStatusUnknown
                      else TrimSpace (ShellStatus state) in
        let combinedOutput := StdoutBuffer state ++ [LF] ++ StderrBuffer state in
        let '(matched, matchText, patternErr) := awaitShellPatternMatched (Pattern args) combinedOutput in
        let timedOut := (0 <? block_of args) && negb matched && negb (isBackgroundShellTerminalStatus status) in
        (mkAwaitResult shellID status matched timedOut (ExitCode state)
           (truncateAwaitShellOutput stdout) (truncateAwaitShellOutput stderr) stdoutEnd stderrEnd
           (backgroundShellRuntimeMS now (CreatedAt state) (CompletedAt state))
           (Z.of_nat (length combinedOutput)) (negb (bool_decide (TrimSpace (Pattern args) = EmptyString)))
           matchText (default EmptyString patternErr),
         touch now (update_shell shellID (fun state =>
           state <| AwaitStdoutOffset := stdoutEnd |> <| AwaitStderrOffset := stderrEnd |>) s))
    end.

(** A look at the shell: when, the time after it, and what happens to the stream until the next one. *)
Record Poll := mkPoll { poll_at : Z; checked_at : Z; meanwhile : Shells -> Shells }.

Definition await_over (result : awaitShellResult) : bool :=
  bool_decide (ResultShellID result = EmptyString) || bool_decide (ResultStatus result = "error") ||
  bool_decide (ResultStatus result = backgroundShellStatusUnknown) || Matched result ||
  isBackgroundShellTerminalStatus (ResultStatus result).

Definition timed_out (r : awaitShellResult) : awaitShellResult :=
  mkAwaitResult (ResultShellID r) (ResultStatus r) (Matched r) true (ResultExitCode r) (Stdout r) (Stderr r)
    (StdoutOffset r) (StderrOffset r) (RuntimeMS r) (OutputLength r) (RegexRequested r) (RegexMatch r) (ResultMessage r).

(** Nothing when the polls do not reach the end. *)
Fixpoint poll_loop (deadline : Z) (args : awaitShellArgs) (polls : list Poll) (s : Shells) : option (awaitShellResult * Shells) :=
  match polls with
  | [] => None
  | poll :: polls =>
      let '(result, s) := awaitShellSnapshotOnce s args (poll_at poll) in
      if await_over result then Some (result, s)
      else if deadline - checked_at poll <=? 0 then Some (timed_out result, s)
      else poll_loop deadline args polls (meanwhile poll s)
  end.

(** [time.Duration(blockUntilMS) * time.Millisecond] *)
Definition await_deadline (args : awaitShellArgs) (start : Z) : Z := start + wrap_int64 (block_of args * 1000000).

Definition awaitShellSnapshot (args : awaitShellArgs) (start : Z) (polls : list Poll) (s : Shells)
  : option (awaitShellResult * Shells) :=
  if block_of args <=? 0 then
    match polls with
    | [] => None
    | poll :: _ => Some (awaitShellSnapshotOnce s args (poll_at poll))
    end
  else poll_loop (await_deadline args start) args polls s.

(** The result of the tool: an error of the arguments, or what has been waited for. *)
Definition handleAwaitShellToolInvocation (argsJSON : bytes) (start : Z) (polls : list Poll) (s : Shells)
  : option (awaitShellResult * Shells) :=
  match decodeAwaitShellArgs argsJSON with
  | (_, Some e) => Some (simple_result EmptyString "error" e, s)
  | (args, None) => awaitShellSnapshot args start polls s
  end.

End Await.

(** ** Runs of the operations on shells *)

Section Runs.
Context (Clean Base : string -> string) (IsAbs : string -> bool) (Join : string -> string -> string).
Context (Unquote : string -> option string) (ParseTime : string -> option Z).
Context (find_string : string -> bytes -> result bytes).

Notation refresh ReadFile := (refreshBackgroundShellFromTerminalFile Clean Base IsAbs Join ReadFile Unquote ParseTime).

Lemma once_ok ReadFile s args now : shells_ok s ->
  shells_ok (snd (awaitShellSnapshotOnce (refresh ReadFile) find_string s args now)).
Proof.
  intros Hs. unfold awaitShellSnapshotOnce. case_decide; [done|]. cbv zeta.
  apply (refresh_ok Clean Base IsAbs Join Unquote ParseTime ReadFile s (TrimSpace (ArgShellID args)) now) in Hs. revert Hs. set (s' := refresh ReadFile s _ now). clearbody s'.
  intros Hs. destruct (BackgroundShells s' !! _) as [state|] eqn:E; [|done].
  destruct (awaitShellPatternMatched _ _ _) as [[matched text] err]. cbn [snd].
  apply touch_ok, update_shell_ok; [done|]. intros state' Hs' (-> & [? ? ?] & [? ?]). rewrite E in Hs'. injection Hs' as ->.
  split; [done|]. split; split; cbn; try done; lia.
Qed.

(** A run starts without the shells of the run before it (handleRunIntent). *)
Definition forget_shells (s : Shells) : Shells :=
  s <| BackgroundShells := ∅ |> <| ByMessageID := ∅ |> <| ByExecID := ∅ |>.

(** What happens to the shells of a stream; the file system is what it is at that time. *)
Inductive ShellOp :=
| ExecMessage (pending : ShellExec) (spawn : option SpawnResult) (force : option Z)
| MissingExecMessage (messageID : Z) (execID : string) (spawn : option SpawnResult) (force : option Z)
| StreamEvent (pending : ShellExec) (event : ShellEvent)
| MissingStreamEvent (messageID : Z) (execID : string) (event : ShellEvent)
| TaskCompletions (completions : list BackgroundTaskCompletion)
| ShellAction (toolCallID : string)
| Refresh (ReadFile : string -> result bytes) (shellID : string)
| AwaitOnce (ReadFile : string -> result bytes) (args : awaitShellArgs)
| Terminals (folder : string)
| NewRun.

Definition op_ok (op : ShellOp) : Prop :=
  match op with
  | ExecMessage _ spawn _ | MissingExecMessage _ _ spawn _ => from_option spawn_ok True spawn
  | StreamEvent _ event | MissingStreamEvent _ _ event => event_ok event
  | _ => True
  end.

Definition shell_step (s : Shells) (op : ShellOp * Z) : Shells :=
  let '(op, now) := op in
  match op with
  | ExecMessage pending spawn force => observeBackgroundShellExecClientMessage s pending spawn force now
  | MissingExecMessage messageID execID spawn force =>
      fst (observeMissingBackgroundShellExecClientMessage s messageID execID spawn force now)
  | StreamEvent pending event => observeShellStreamLocked s pending event now
  | MissingStreamEvent messageID execID event => fst (observeMissingShellExecClientMessage s messageID execID event now)
  | TaskCompletions completions => observeBackgroundTaskCompletionAction s completions now
  | ShellAction toolCallID => fst (recordBackgroundShellActionLocked s toolCallID now)
  | Refresh ReadFile shellID => refresh ReadFile s shellID now
  | AwaitOnce ReadFile args => snd (awaitShellSnapshotOnce (refresh ReadFile) find_string s args now)
  | Terminals folder => s <| TerminalsFolder := folder |>
  | NewRun => forget_shells s
  end.

Lemma step_ok s op : shells_ok s -> op_ok (fst op) -> shells_ok (shell_step s op).
Proof.
  intros Hs. destruct op as [[pending spawn force|messageID execID spawn force| | | | | | | |] now]; cbn [fst op_ok shell_step]; intros Ho.
  - unfold observeBackgroundShellExecClientMessage. destruct (observeBackgroundShellSpawnResultLocked _ _ _ _) as [s' seen] eqn:E.
    apply force_ok. replace s' with (fst (s', seen)) by done. rewrite <- E. by apply spawn_result_ok.
  - unfold observeMissingBackgroundShellExecClientMessage. case_decide; [done|].
    destruct (observeBackgroundShellSpawnResultLocked _ _ _ _) as [s' seen] eqn:E.
    assert (Hs' : shells_ok s') by (replace s' with (fst (s', seen)) by done; rewrite <- E; by apply spawn_result_ok).
    destruct seen; [done|]. by apply force_ok.
  - by apply stream_ok.
  - by apply missing_shell_exec_ok.
  - by apply completions_ok.
  - by apply action_ok.
  - by apply refresh_ok.
  - by apply once_ok.
  - by destruct Hs.
  - unfold forget_shells. split; cbn; [by intros ?? ?..|exact (ok_actions _ Hs)].
Qed.

End Runs.


(** ** The end of AwaitShell *)


Section Waiting.
Context (refresh : Shells -> string -> Z -> Shells) (find_string : string -> bytes -> result bytes).


End Waiting.

(** ** Output is shown once *)

(** A shell all of whose output has been shown. *)
Definition all_shown (s : Shells) (pending : ShellExec) (name : string) (stdout : bytes) : Prop :=
  name_ok name /\ backgroundShellIDForMessageLocked s (MessageID pending) (ExecID pending) = name /\
  exists state, BackgroundShells s !! name = Some state /\ StdoutBuffer state = stdout /\
    AwaitStdoutOffset state = Z.of_nat (length stdout).

(** The client sends output, and AwaitShell looks at once: what it shows. *)
Fixpoint watch (find_string : string -> bytes -> result bytes) (pending : ShellExec) (args : awaitShellArgs)
    (chunks : list (bytes * Z)) (s : Shells) : list bytes * Shells :=
  match chunks with
  | [] => ([], s)
  | (chunk, now) :: chunks =>
      let s := observeShellStreamLocked s pending (ShellStdout chunk) now in
      let '(result, s) := awaitShellSnapshotOnce (fun s _ _ => s) find_string s args now in
      let '(shown, s) := watch find_string pending args chunks s in
      (Stdout result :: shown, s)
  end.

Lemma clamp_within offset len : 0 <= offset <= len -> clampOffset offset len = offset.
Proof. intros H. unfold clampOffset. destruct (Z.ltb_spec offset 0); [lia|]. destruct (Z.ltb_spec len offset); lia. Qed.

Lemma id_after_index pending name s : name_ok name ->
  backgroundShellIDForMessageLocked s (MessageID pending) (ExecID pending) = name ->
  backgroundShellIDForMessageLocked (index_exec pending name s) (MessageID pending) (ExecID pending) = name.
Proof.
  intros [Hn Hne]. unfold index_exec, backgroundShellIDForMessageLocked.
  destruct (decide (MessageID pending = 0)) as [Hm|Hm], (decide (TrimSpace (ExecID pending) = EmptyString)) as [He|He]; cbn;
    rewrite ?lookup_insert_eq; cbn; rewrite ?Hn; repeat case_decide; done || congruence.
Qed.

Lemma watch_step find_string s pending args name stdout chunk now :
  all_shown s pending name stdout -> TrimSpace (ArgShellID args) = name ->
  let '(result, s') := awaitShellSnapshotOnce (fun s _ _ => s) find_string
                         (observeShellStreamLocked s pending (ShellStdout chunk) now) args now in
  Stdout result = truncateAwaitShellOutput chunk /\ all_shown s' pending name (stdout ++ chunk).
Proof.
  intros ([Hn Hne] & Hid & state & Hst & Hout & Hoff) Ha. cbn [observeShellStreamLocked]. rewrite Hid.
  unfold with_shell, ensureBackgroundShellStateLocked. rewrite Hn, decide_False by done. rewrite Hst. cbn [default].
  set (s1 := index_exec _ _ _). unfold awaitShellSnapshotOnce. rewrite Ha, decide_False by done.
  assert (H1 : BackgroundShells s1 !! name = Some (fill_origin pending state)).
  { unfold s1, index_exec. repeat case_decide; cbn; by rewrite lookup_insert_eq. }
  assert (Hid1 : backgroundShellIDForMessageLocked s1 (MessageID pending) (ExecID pending) = name).
  { by apply id_after_index. }
  clearbody s1. cbv zeta. cbn [touch update_shell BackgroundShells set_field]. rewrite lookup_alter_eq, H1. cbn [fmap option_fmap option_map].
  destruct (awaitShellPatternMatched _ _ _) as [[matched text] err]. cbn. rewrite Hout, Hoff.
  rewrite clamp_within by (rewrite length_app; lia). rewrite Nat2Z.id, drop_app_length. split; [done|].
  split; [done|]. split; [done|]. eexists. unfold touch, update_shell. cbn. rewrite !lookup_alter_eq, H1. cbn. split; [done|]. by rewrite Hout.
Qed.

Lemma watch_shows find_string pending args name chunks : forall s stdout,
  all_shown s pending name stdout -> TrimSpace (ArgShellID args) = name ->
  let '(shown, s') := watch find_string pending args chunks s in
  shown = map (fun c => truncateAwaitShellOutput c.1) chunks /\
  all_shown s' pending name (stdout ++ concat (map fst chunks)).
Proof.
  induction chunks as [|[chunk now] chunks IH]; intros s stdout Hs Ha; cbn [watch map concat].
  { by rewrite app_nil_r. }
  pose proof (watch_step find_string s pending args name stdout chunk now Hs Ha) as Hstep.
  destruct (awaitShellSnapshotOnce _ _ _ _ _) as [result s1]. destruct Hstep as [Hr Hs1].
  specialize (IH s1 _ Hs1 Ha). destruct (watch _ _ _ chunks s1) as [shown s2]. destruct IH as [-> Hs2].
  split; [by rewrite Hr|]. by rewrite <- app_assoc in Hs2.
Qed.

(** ** Properties *)

(** C27: the shells of a stream stay consistent.  From a stream without shells, whatever the client reports
    about execs, shell streams and tasks, in any order, with new runs in between, whatever the terminal files say and whenever AwaitShell
    looks: every shell is kept under its own trimmed identifier; its status is one of those the code sets, and
    a shell whose status is final has the time it ended; what was shown of its output never exceeds what
    there is; and a message or an exec is tied to no shell or to one that exists. *)
Theorem shells_stay_consistent Clean Base IsAbs Join Unquote ParseTime find_string ops :
  Forall (fun op => op_ok op.1) ops ->
  let s := fold_left (shell_step Clean Base IsAbs Join Unquote ParseTime find_string) ops no_shells in
  (forall name state, BackgroundShells s !! name = Some state ->
     name = ShellID state /\ TrimSpace name = name /\ name <> EmptyString /\
     ShellStatus state ∈ known_statuses /\
     (isBackgroundShellTerminalStatus (ShellStatus state) = true -> CompletedAt state <> None) /\
     0 <= AwaitStdoutOffset state <= Z.of_nat (length (StdoutBuffer state)) /\
     0 <= AwaitStderrOffset state <= Z.of_nat (length (StderrBuffer state))) /\
  (forall messageID execID, let name := backgroundShellIDForMessageLocked s messageID execID in
     name = EmptyString \/ is_Some (BackgroundShells s !! name)).
Proof.
  intros Hops s. assert (Hs : shells_ok s).
  { unfold s. generalize no_shells_ok. generalize no_shells. induction Hops as [|op ops Hop _ IH]; intros s0 Hs0; cbn; [done|].
    apply IH. by apply step_ok. }
  split.
  - intros name state Hst. apply (ok_shells _ Hs) in Hst as ([? ?] & -> & [? ? ?] & [? ?]). split_and!; done || lia.
  - intros messageID execID. by apply known_shell_of_message.
Qed.


(** The output of a shell is shown once: when AwaitShell looks after every piece the client sends, and no
    piece exceeds the limit, it shows that piece, no byte twice and none lost. *)
Theorem output_shown_once find_string pending args name chunks s stdout :
  all_shown s pending name stdout -> TrimSpace (ArgShellID args) = name ->
  Forall (fun c => Z.of_nat (length c.1) <= awaitShellOutputLimit) chunks ->
  let '(shown, s') := watch find_string pending args chunks s in
  shown = map fst chunks /\ all_shown s' pending name (stdout ++ concat (map fst chunks)).
Proof.
  intros Hs Ha Hl. pose proof (watch_shows find_string pending args name chunks s stdout Hs Ha) as H.
  destruct (watch _ _ _ chunks s) as [shown s']. destruct H as [-> H]. split; [|done].
  clear -Hl. induction Hl as [|[c t] l Hc _ IH]; [done|]. cbn. rewrite IH. f_equal.
  unfold truncateAwaitShellOutput. cbn in Hc. by rewrite (proj2 (Z.leb_le _ _)).
Qed.

(** ** Concrete runs *)

Module Demo.

Definition clean (path : string) : string := if decide (path = EmptyString) then "." else path.
Definition same (path : string) : string := path.
Definition absolute (path : string) : bool := true.
Definition join (a b : string) : string := a +:+ "/" +:+ b.
Definition unquote (text : string) : option string := None.
Definition no_time (text : string) : option Z := None.
Definition no_match (pattern : string) (output : bytes) : result bytes := Ok [].
Definition missing (path : string) : result bytes := Err "no such file".

Notation step := (shell_step clean same absolute join unquote no_time no_match).
Notation refresh ReadFile := (refreshBackgroundShellFromTerminalFile clean same absolute join ReadFile unquote no_time).

Definition pending : ShellExec := mkShellExec 4 "exec-4" "call-4" [] "model-1".
Definition wait (block : Z) : awaitShellArgs := mkAwaitArgs "9" EmptyString (Some block) EmptyString.

Definition background : list (ShellOp * Z) :=
  [(StreamEvent pending (ShellBackgrounded 9 "make" "/src" None), 10);
   (StreamEvent pending (ShellStdout (bytes_of "one ")), 20)].

Definition started : Shells := fold_left step background no_shells.

(** A wait during which the shell prints and ends: only what came after the last poll but one is returned, and
    the first piece, which the first poll took, is shown to nobody. *)
Definition finishing (s : Shells) : Shells :=
  fold_left step [(StreamEvent pending (ShellStdout (bytes_of "two")), 30); (StreamEvent pending (ShellExit 0 EmptyString), 40)] s.

Definition two_polls : list Poll := [mkPoll 25 26 finishing; mkPoll 50000030 50000031 (fun s => s)].

Example blocked_wait_drops_output :
  match awaitShellSnapshot (refresh missing) no_match (wait 1000) 25 two_polls started with
  | Some (result, s) =>
      Stdout result = bytes_of "two" /\ ResultStatus result = "completed" /\
      (StdoutBuffer <$> BackgroundShells s !! "9") = Some (bytes_of "one two")
  | None => False
  end.
Proof. vm_compute. split_and!; reflexivity. Qed.

(** Output that arrives after the exit takes the end back. *)
Example late_output_revives :
  let s := step (finishing started) (StreamEvent pending (ShellStdout (bytes_of "!")), 50) in
  (ShellStatus <$> BackgroundShells s !! "9") = Some "running" /\
  (ExitCode <$> BackgroundShells s !! "9") = Some (Some 0).
Proof. vm_compute. split; reflexivity. Qed.

(** A block of more milliseconds than fit the clock is over at once. *)
Example long_block_wraps :
  match awaitShellSnapshot (refresh missing) no_match (wait 9300000000000) 25 [mkPoll 25 26 (fun s => s)] started with
  | Some (result, _) => TimedOut result = true
  | None => False
  end.
Proof. vm_compute. reflexivity. Qed.

(** A timed wait without a shell is over at the first look: nothing was slept, and the answer says otherwise. *)
Example timed_wait_returns_at_once :
  match awaitShellSnapshot (refresh missing) no_match (mkAwaitArgs EmptyString EmptyString None EmptyString) 25
          [mkPoll 25 26 (fun s => s)] started with
  | Some (result, _) => ResultMessage result = "waited 30000ms" /\ TimedOut result = false
  | None => False
  end.
Proof. vm_compute. split; reflexivity. Qed.

(** The file of a shell that runs, and prints what looks like the footer of such a file: it is taken for ended. *)
Definition printed : bytes :=
  bytes_of "---" ++ LF :: bytes_of "pid: 7" ++ LF :: bytes_of "---" ++ LF :: bytes_of "notes" ++ LF ::
  bytes_of "---" ++ LF :: bytes_of "status: done" ++ LF :: bytes_of "---" ++ LF :: bytes_of "more" ++ [LF].

Example printed_footer_believed :
  let s := refresh (fun _ => Ok printed) (started <| TerminalsFolder := "/terminals" |>) "9" 60 in
  (ShellStatus <$> BackgroundShells s !! "9") = Some "completed".
Proof. vm_compute. reflexivity. Qed.

End Demo.

Lemma shells_stay_consistent_witness :
  exists state, BackgroundShells Demo.started !! "9" = Some state /\ ShellStatus state = "running" /\
    0 <= AwaitStdoutOffset state <= Z.of_nat (length (StdoutBuffer state)).
Proof.
  destruct (shells_stay_consistent Demo.clean Demo.same Demo.absolute Demo.join Demo.unquote Demo.no_time Demo.no_match
              Demo.background) as [H _].
  { constructor; [vm_compute; split; discriminate|]. by repeat constructor. }
  eexists. split; [vm_compute; reflexivity|]. split; [reflexivity|].
  eapply (H "9"). vm_compute. reflexivity.
Defined.

