(* ===== verification/Completion.v ===== *)
(** * The completion a turn owes (forwarder/types.go, token_usage.go and actor.go).

    The usage snapshot of a provider pass, the completion that is remembered while external
    results are pending, and how two completions merge. *)

From S2P Require Import Prelude Go.

(** ** Data *)

Record turnUsageSnapshot := mkUsage {
  UsageProvider : string;
  UsageModel : string;
  InputTokens : Z;
  OutputTokens : Z;
  CacheReadTokens : Z;
  CacheWriteTokens : Z;
  UsagePresent : bool;
  CacheReadPresent : bool;
  CacheWritePresent : bool;
  UsageProviderPass : Z;
  CompileDurationMS : Z;
  EstimatedPromptTokens : Z;
  ReplayMessageCount : Z;
  RequestPreparedAt : Z;
  FirstEventAt : Z
}.

Definition empty_usage : turnUsageSnapshot :=
  mkUsage EmptyString EmptyString 0 0 0 0 false false false 0 0 0 0 0 0.

Inductive pendingCompletionDisposition :=
| completionDispositionNone
| completionDispositionResumeAfterExternal
| completionDispositionCompleteAfterExternal.

#[export] Instance disposition_eq_dec : EqDecision pendingCompletionDisposition.
Proof. solve_decision. Defined.

Record pendingTurnCompletion := mkCompletion {
  CompletionConversationID : string;
  CompletionRequestID : string;
  CompletionTurnSeq : Z;
  CompletionModelCallID : string;
  CompletionProviderPass : Z;
  CompletionUsage : turnUsageSnapshot;
  CompletionDisposition : pendingCompletionDisposition
}.

#[export] Instance eta_completion : Eta pendingTurnCompletion := fun c =>
  mkCompletion (CompletionConversationID c) (CompletionRequestID c) (CompletionTurnSeq c)
    (CompletionModelCallID c) (CompletionProviderPass c) (CompletionUsage c)
    (CompletionDisposition c).

(** ** Operations *)

Definition hasAny (u : turnUsageSnapshot) : bool :=
  (0 <? InputTokens u) || (0 <? OutputTokens u) || (0 <? CacheReadTokens u) ||
  (0 <? CacheWriteTokens u).

Definition cacheUsageComplete (u : turnUsageSnapshot) : bool :=
  CacheReadPresent u && CacheWritePresent u.

Definition promptTokensTotal (u : turnUsageSnapshot) : Z :=
  wrap_int64 (wrap_int64 (nonNegativeInt64 (InputTokens u) + nonNegativeInt64 (CacheReadTokens u))
              + nonNegativeInt64 (CacheWriteTokens u)).

Definition requestTokensTotal (u : turnUsageSnapshot) : Z :=
  wrap_int64 (promptTokensTotal u + nonNegativeInt64 (OutputTokens u)).

Definition mergeCompletionDisposition (existing incoming : pendingCompletionDisposition)
  : pendingCompletionDisposition :=
  if bool_decide (existing = completionDispositionCompleteAfterExternal) ||
     bool_decide (incoming = completionDispositionCompleteAfterExternal)
  then completionDispositionCompleteAfterExternal
  else if bool_decide (existing = completionDispositionResumeAfterExternal) ||
          bool_decide (incoming = completionDispositionResumeAfterExternal)
  then completionDispositionResumeAfterExternal
  else completionDispositionCompleteAfterExternal.

Definition mergePendingProviderCompletion (existing : option pendingTurnCompletion)
    (incoming : pendingTurnCompletion) : pendingTurnCompletion :=
  match existing with
  | None =>
      if decide (CompletionDisposition incoming = completionDispositionNone)
      then incoming <| CompletionDisposition := completionDispositionCompleteAfterExternal |>
      else incoming
  | Some merged =>
      mkCompletion
        (if bool_decide (CompletionConversationID merged = EmptyString) &&
            negb (bool_decide (CompletionConversationID incoming = EmptyString))
         then CompletionConversationID incoming else CompletionConversationID merged)
        (if bool_decide (CompletionRequestID merged = EmptyString) &&
            negb (bool_decide (CompletionRequestID incoming = EmptyString))
         then CompletionRequestID incoming else CompletionRequestID merged)
        (if (CompletionTurnSeq merged <=? 0) && (0 <? CompletionTurnSeq incoming)
         then CompletionTurnSeq incoming else CompletionTurnSeq merged)
        (if bool_decide (TrimSpace (CompletionModelCallID merged) = EmptyString) &&
            negb (bool_decide (TrimSpace (CompletionModelCallID incoming) = EmptyString))
         then CompletionModelCallID incoming else CompletionModelCallID merged)
        (if (CompletionProviderPass merged =? 0) && negb (CompletionProviderPass incoming =? 0)
         then CompletionProviderPass incoming else CompletionProviderPass merged)
        (if hasAny (CompletionUsage incoming)
         then CompletionUsage incoming else CompletionUsage merged)
        (mergeCompletionDisposition (CompletionDisposition merged)
          (CompletionDisposition incoming))
  end.

(** [rememberPendingProviderCompletion] over a series of completions. *)
Definition remember (existing : option pendingTurnCompletion)
    (incoming : list pendingTurnCompletion) : option pendingTurnCompletion :=
  fold_left (fun e c => Some (mergePendingProviderCompletion e c)) incoming existing.

Definition shouldResumeAfterToolResults (finishReason : string) : bool :=
  bool_decide (TrimSpace finishReason ∈ ["tool_use"; "tool_calls"; "function_call"]).

Definition completionDispositionForExternalResults (finishReason : string)
    (forceComplete hadToolInvocation : bool) : pendingCompletionDisposition :=
  if forceComplete then completionDispositionCompleteAfterExternal
  else if hadToolInvocation || shouldResumeAfterToolResults finishReason
  then completionDispositionResumeAfterExternal
  else completionDispositionCompleteAfterExternal.

(** ** Property *)

(** The first value of a series that is set, or else its first value. *)
Definition first_set {A} (unset : A -> bool) (a b : A) : A :=
  if unset a && negb (unset b) then b else a.

Definition last_usage (u : turnUsageSnapshot) (cs : list pendingTurnCompletion)
  : turnUsageSnapshot :=
  fold_left (fun u c => if hasAny (CompletionUsage c) then CompletionUsage c else u) cs u.

Definition blank (s : string) : bool := bool_decide (s = EmptyString).

Definition is_resume (c : pendingTurnCompletion) : bool :=
  bool_decide (CompletionDisposition c = completionDispositionResumeAfterExternal).

Definition is_complete (c : pendingTurnCompletion) : bool :=
  bool_decide (CompletionDisposition c = completionDispositionCompleteAfterExternal).

Lemma remember_some cs e :
  exists m, remember (Some e) cs = Some m /\
    CompletionConversationID m =
      fold_left (first_set blank) (map CompletionConversationID cs) (CompletionConversationID e) /\
    CompletionRequestID m =
      fold_left (first_set blank) (map CompletionRequestID cs) (CompletionRequestID e) /\
    CompletionTurnSeq m =
      fold_left (first_set (fun z => z <=? 0)) (map CompletionTurnSeq cs) (CompletionTurnSeq e) /\
    CompletionUsage m = last_usage (CompletionUsage e) cs /\
    (CompletionDisposition e <> completionDispositionNone ->
     CompletionDisposition m =
       if negb (existsb is_complete (e :: cs)) && existsb is_resume (e :: cs)
       then completionDispositionResumeAfterExternal
       else completionDispositionCompleteAfterExternal).
Proof.
  revert e. induction cs as [|c cs IH]; intros e.
  { exists e. split_and!; try done. unfold is_complete, is_resume. simpl.
    destruct (CompletionDisposition e); done. }
  destruct (IH (mergePendingProviderCompletion (Some e) c)) as (m & Hm & H1 & H2 & H3 & H4 & H5).
  exists m. split; [exact Hm|]. simpl. rewrite H1, H2, H3, H4. split_and!; try done.
  - f_equal. unfold first_set. simpl.
    replace (negb (CompletionTurnSeq c <=? 0)) with (0 <? CompletionTurnSeq c); [done|].
    destruct (Z.leb_spec (CompletionTurnSeq c) 0), (Z.ltb_spec 0 (CompletionTurnSeq c)); lia || done.
  - intros He. rewrite H5.
    + unfold is_complete, is_resume. simpl.
      destruct (CompletionDisposition e), (CompletionDisposition c); done.
    + simpl. by destruct (CompletionDisposition e), (CompletionDisposition c).
Qed.

(** what a turn remembers of the completions its provider passes leave while external
    results are pending.  The conversation, the request and the turn are those of the first
    completion that has them, the usage is that of the last one with any tokens, and the turn
    resumes exactly when some completion asks for it and none (the first one, without a
    disposition, counts) completes the turn. *)
Theorem remembered_completion c cs :
  exists m, remember None (c :: cs) = Some m /\
    CompletionConversationID m =
      fold_left (first_set blank) (map CompletionConversationID cs) (CompletionConversationID c) /\
    CompletionRequestID m =
      fold_left (first_set blank) (map CompletionRequestID cs) (CompletionRequestID c) /\
    CompletionTurnSeq m =
      fold_left (first_set (fun z => z <=? 0)) (map CompletionTurnSeq cs) (CompletionTurnSeq c) /\
    CompletionUsage m = last_usage (CompletionUsage c) cs /\
    CompletionDisposition m =
      (if bool_decide (CompletionDisposition c = completionDispositionNone) ||
          existsb is_complete (c :: cs) || negb (existsb is_resume (c :: cs))
       then completionDispositionCompleteAfterExternal
       else completionDispositionResumeAfterExternal).
Proof.
  destruct (remember_some cs (mergePendingProviderCompletion None c))
    as (m & Hm & H1 & H2 & H3 & H4 & H5).
  exists m. split; [exact Hm|]. rewrite H1, H2, H3, H4, H5; clear.
  - destruct c as [? ? ? ? ? ? d]; destruct d; simpl; split_and!; try done;
      by destruct (existsb is_complete cs), (existsb is_resume cs).
  - simpl. case_decide; [done|done].
Qed.
