(* ===== verification/Checkpoint.v ===== *)
(** * Publishing a checkpoint after its blobs (forwarder/checkpoint_blobs.go and the
    terminal actions of service.go).

    A checkpoint names the blobs the client must store first.  [World] pairs the fields of
    the stream this component owns with a broker, which it uses through the interface
    [StreamPublisher]; [calls] is the ghost log of what it did.  Operations run in the
    state and error monad of Effect.v, whose effects stay when an error is returned. *)

From S2P Require Import Prelude Go Effect Modes Broker Timers Completion.

#[local] Arguments firstNonEmpty : simpl never.
#[local] Arguments clearStreamTimer : simpl never.
#[local] Arguments scheduleStreamTimer : simpl never.

(** ** Data *)

Record CheckpointBlob := mkBlob { ID : string; Data : bytes }.

Section Checkpoint.
Context {State : Type}.

(** The messages this component publishes. *)
Inductive CheckpointMessage :=
| SetCheckpointBlobMessage (requestID : Z) (blob : CheckpointBlob)
| PublishedCheckpointMessage (state : State)
| TurnEndedMessage (inputTokens outputTokens cacheReadTokens cacheWriteTokens : Z).

(** What the component needs of a broker. *)
Class StreamPublisher (B : Type) := {
  publish_message : Z -> string -> CheckpointMessage -> B -> result unit * B;
  complete_stream : Z -> string -> B -> result unit * B;
  fail_stream : Z -> string -> string -> string -> B -> result unit * B;
  stream_ended : string -> B -> bool
}.

Class StreamPublisherLaws (B : Type) `{!StreamPublisher B} := {
  publish_keeps_ended : forall now rid m b,
    stream_ended rid (publish_message now rid m b).2 = stream_ended rid b;
  complete_ends : forall now rid b,
    (complete_stream now rid b).1 = Ok tt -> stream_ended rid (complete_stream now rid b).2 = true;
  fail_ends : forall now rid code message b,
    (fail_stream now rid code message b).1 = Ok tt ->
    stream_ended rid (fail_stream now rid code message b).2 = true
}.

Inductive checkpointTerminalAction :=
| checkpointTerminalActionNone
| checkpointTerminalActionComplete (completion : pendingTurnCompletion)
| checkpointTerminalActionFail (errorCode errorMessage : string).

Record pendingCheckpointBlobWrite := mkWrite {
  Key : string;
  Generation : Z;
  Dispatched : Z
}.

Record pendingCheckpointPublish := mkPending {
  PendingGeneration : Z;
  QueuedAt : Z;
  TotalBlobBytes : Z;
  NewBlobCount : Z;
  PendingState : State;
  Required : gset string;
  PendingTerminal : checkpointTerminalAction
}.

Record CheckpointProjection := mkProjection {
  ProjectionState : State;
  Blobs : list CheckpointBlob
}.

(** The fields of [ActiveStream] this component owns; [timer_events] are the events of the
    timers that were started. *)
Record CheckpointStream := mkCheckpointStream {
  StreamRequestID : string;
  StreamPhase : TurnPhase;
  TerminalActionClaimed : bool;
  PendingCheckpointBlobWrites : gmap Z pendingCheckpointBlobWrite;
  ConfirmedCheckpointBlobs : gset string;
  CheckpointGeneration : Z;
  NextCheckpointBlobRequestID : Z;
  PendingCheckpoint : option pendingCheckpointPublish;
  StreamTimerTokens : TimerTokens;
  timer_events : list (string * Z)
}.

#[export] Instance eta_checkpoint_stream : Eta CheckpointStream := fun s =>
  mkCheckpointStream (StreamRequestID s) (StreamPhase s) (TerminalActionClaimed s)
    (PendingCheckpointBlobWrites s) (ConfirmedCheckpointBlobs s) (CheckpointGeneration s)
    (NextCheckpointBlobRequestID s) (PendingCheckpoint s) (StreamTimerTokens s)
    (timer_events s).

(** The ghost log. *)
Inductive Call :=
| CallCheckpoint (state : State) (required confirmed : gset string)
| CallTerminal (terminal : checkpointTerminalAction).

Section Operations.
Context {B : Type} `{!StreamPublisher B}.

Record World := mkWorld {
  cs : CheckpointStream;
  broker : B;
  calls : list Call
}.

#[export] Instance eta_world : Eta World := fun w => mkWorld (cs w) (broker w) (calls w).

(** ** The monad *)

Notation M := (SE World).

Definition get : M CheckpointStream := fun w => (Ok (cs w), w).

Definition update (f : CheckpointStream -> CheckpointStream) : M unit :=
  fun w => (Ok tt, w <| cs := f (cs w) |>).

Definition log_call (c : Call) : M unit := fun w => (Ok tt, w <| calls := calls w ++ [c] |>).

Definition with_broker (f : B -> result unit * B) : M unit :=
  fun w => let '(r, b) := f (broker w) in (r, w <| broker := b |>).

(** ** Operations *)

Definition successfulCheckpointTerminalAction (completion : option pendingTurnCompletion)
  : checkpointTerminalAction :=
  match completion with
  | None => checkpointTerminalActionNone
  | Some completion => checkpointTerminalActionComplete completion
  end.

Definition failedCheckpointTerminalAction (errorCode errorMessage : string)
  : checkpointTerminalAction :=
  checkpointTerminalActionFail (TrimSpace errorCode) (TrimSpace errorMessage).

Definition setTurnPhase (phase : TurnPhase) : M unit :=
  update (fun s => s <| StreamPhase := phase |>).

(** [claimTerminalEvent] reads the status the broker keeps in the stream. *)
Definition claimTerminalEvent : M bool := fun w =>
  if TerminalActionClaimed (cs w) || stream_ended (StreamRequestID (cs w)) (broker w)
  then (Ok false, w)
  else (Ok true, w <| cs := cs w <| TerminalActionClaimed := true |> |>).

Definition finishSuccessfulTurnAfterCheckpoint (now : Z) (completion : pendingTurnCompletion)
  : M unit :=
  claimed <- claimTerminalEvent ;;
  if negb claimed then ret tt
  else
    s <- get ;;
    let requestID := firstNonEmpty [TrimSpace (CompletionRequestID completion);
                                    TrimSpace (StreamRequestID s)] in
    let usage := CompletionUsage completion in
    with_broker (publish_message now requestID
      (TurnEndedMessage (InputTokens usage) (OutputTokens usage) (CacheReadTokens usage)
         (CacheWriteTokens usage))) ;;;
    with_broker (complete_stream now requestID) ;;;
    setTurnPhase PhaseCompleted.

Definition finishFailedTurnAfterCheckpoint (now : Z) (terminalCode terminalMessage : string)
  : M unit :=
  s <- get ;;
  r <- try (with_broker (fail_stream now (StreamRequestID s) terminalCode terminalMessage)) ;;
  setTurnPhase PhaseFailed ;;;
  (fun w => (r, w)).

Definition finishCheckpointTerminalAction (now : Z) (terminal : checkpointTerminalAction)
  : M unit :=
  match terminal with
  | checkpointTerminalActionNone => ret tt
  | checkpointTerminalActionComplete completion =>
      log_call (CallTerminal terminal) ;;;
      finishSuccessfulTurnAfterCheckpoint now completion
  | checkpointTerminalActionFail code message =>
      log_call (CallTerminal terminal) ;;;
      finishFailedTurnAfterCheckpoint now code message
  end.

Definition checkpointTimerKey : string := "checkpoint_blobs".

Definition clear_checkpoint_timer : M unit :=
  update (fun s => s <| StreamTimerTokens := clearStreamTimer checkpointTimerKey
                                                (StreamTimerTokens s) |>).

Definition start_checkpoint_timer (s : CheckpointStream) : CheckpointStream :=
  match scheduleStreamTimer checkpointTimerKey (StreamTimerTokens s) with
  | (Some token, tokens) =>
      s <| StreamTimerTokens := tokens |>
        <| timer_events := timer_events s ++ [(checkpointTimerKey, token)] |>
  | (None, tokens) => s <| StreamTimerTokens := tokens |>
  end.

Definition scheduleCheckpointBlobTimeout (generation : Z) : M unit :=
  if generation =? 0 then ret tt else update start_checkpoint_timer.

(** A counter of the given width that skips 0. *)
Definition next_counter (wrap : Z -> Z) (n : Z) : Z :=
  if wrap (n + 1) =? 0 then wrap (wrap (n + 1) + 1) else wrap (n + 1).

Definition all_confirmed (required confirmed : gset string) : bool :=
  bool_decide (required ⊆ confirmed).

Definition checkpointProjectionReady : M bool :=
  s <- get ;;
  ret (match PendingCheckpoint s with
       | None => false
       | Some pending => all_confirmed (Required pending) (ConfirmedCheckpointBlobs s)
       end).

Definition publishReadyCheckpoint (now : Z) : M unit :=
  s <- get ;;
  match PendingCheckpoint s with
  | None => ret tt
  | Some pending =>
      if negb (all_confirmed (Required pending) (ConfirmedCheckpointBlobs s)) then ret tt
      else
        update (fun s => s <| PendingCheckpoint := None |>) ;;;
        clear_checkpoint_timer ;;;
        log_call (CallCheckpoint (PendingState pending) (Required pending)
                    (ConfirmedCheckpointBlobs s)) ;;;
        r <- try (with_broker (publish_message now (StreamRequestID s)
                                 (PublishedCheckpointMessage (PendingState pending)))) ;;
        match r, PendingTerminal pending with
        | Err e, checkpointTerminalActionNone => fun w => (Err e, w)
        | _, terminal => finishCheckpointTerminalAction now terminal
        end
  end.

Definition finishAfterCheckpointSyncFailure (now : Z) : M unit :=
  s <- get ;;
  update (fun s => s <| PendingCheckpoint := None |> <| PendingCheckpointBlobWrites := ∅ |>) ;;;
  clear_checkpoint_timer ;;;
  match PendingCheckpoint s with
  | Some pending => finishCheckpointTerminalAction now (PendingTerminal pending)
  | None => ret tt
  end.

Definition discardPendingCheckpoint : M unit :=
  update (fun s => s <| PendingCheckpoint := None |> <| PendingCheckpointBlobWrites := ∅ |>) ;;;
  clear_checkpoint_timer.

(** The loop of [queueCheckpointProjectionWithTerminal] over the blobs. *)
Record Registration := mkRegistration {
  reg_stream : CheckpointStream;
  reg_required : gset string;
  reg_pendingKeys : gset string;
  reg_toWrite : list (Z * CheckpointBlob);
  reg_totalBytes : Z
}.

Definition register_blob (now generation : Z) (r : Registration) (blob : CheckpointBlob)
  : Registration :=
  let key := ID blob in
  if decide (key = EmptyString) then r
  else
    let r := mkRegistration (reg_stream r) ({[ key ]} ∪ reg_required r) (reg_pendingKeys r)
               (reg_toWrite r) (reg_totalBytes r + Z.of_nat (length (Data blob))) in
    if bool_decide (key ∈ ConfirmedCheckpointBlobs (reg_stream r)) then r
    else if bool_decide (key ∈ reg_pendingKeys r) then r
    else
      let requestID := next_counter wrap_uint32 (NextCheckpointBlobRequestID (reg_stream r)) in
      mkRegistration
        (reg_stream r
           <| NextCheckpointBlobRequestID := requestID |>
           <| PendingCheckpointBlobWrites := <[requestID := mkWrite key generation now]>
                (PendingCheckpointBlobWrites (reg_stream r)) |>)
        (reg_required r) ({[ key ]} ∪ reg_pendingKeys r)
        (reg_toWrite r ++ [(requestID, blob)]) (reg_totalBytes r).

Definition pending_keys (writes : gmap Z pendingCheckpointBlobWrite) : gset string :=
  list_to_set (map (fun kv => Key kv.2) (map_to_list writes)).

(** The terminal action a queued projection carries: its own, or else the one of the
    projection it replaces. *)
Definition inherited_terminal (terminal : checkpointTerminalAction)
    (previous : option pendingCheckpointPublish) : checkpointTerminalAction :=
  match terminal, previous with
  | checkpointTerminalActionNone, Some pending => PendingTerminal pending
  | _, _ => terminal
  end.

(** The critical section of [queueCheckpointProjectionWithTerminal]: the writes to dispatch
    and the generation. *)
Definition queue_register (now : Z) (projection : CheckpointProjection)
    (terminal : checkpointTerminalAction) (s : CheckpointStream)
  : list (Z * CheckpointBlob) * Z * CheckpointStream :=
  let generation := next_counter wrap_uint64 (CheckpointGeneration s) in
  let terminal := inherited_terminal terminal (PendingCheckpoint s) in
  let r := fold_left (register_blob now generation) (Blobs projection)
             (mkRegistration (s <| CheckpointGeneration := generation |>) ∅
                (pending_keys (PendingCheckpointBlobWrites s)) [] 0) in
  (reg_toWrite r, generation,
   reg_stream r
     <| PendingCheckpoint := Some (mkPending generation now (reg_totalBytes r)
          (Z.of_nat (length (reg_toWrite r))) (ProjectionState projection) (reg_required r)
          terminal) |>
     <| StreamPhase := match terminal with
                       | checkpointTerminalActionNone => StreamPhase (reg_stream r)
                       | _ => PhaseCheckpointing
                       end |>).

(** The dispatch loop: [true] when every blob was published. *)
Fixpoint dispatch_blobs (now : Z) (requestID : string) (writes : list (Z * CheckpointBlob))
  : M bool :=
  match writes with
  | [] => ret true
  | (id, blob) :: rest =>
      r <- try (with_broker (publish_message now requestID (SetCheckpointBlobMessage id blob))) ;;
      match r with
      | Ok _ => dispatch_blobs now requestID rest
      | Err _ => ret false
      end
  end.

Definition queueCheckpointProjectionWithTerminal (now : Z) (projection : CheckpointProjection)
    (terminal : checkpointTerminalAction) : M unit :=
  s <- get ;;
  let '(toWrite, generation, s') := queue_register now projection terminal s in
  update (fun _ => s') ;;;
  dispatched <- dispatch_blobs now (StreamRequestID s) toWrite ;;
  if negb dispatched then finishAfterCheckpointSyncFailure now
  else
    ready <- checkpointProjectionReady ;;
    if (ready : bool) then publishReadyCheckpoint now
    else scheduleCheckpointBlobTimeout generation.

Definition queueCheckpointProjection (now : Z) (projection : CheckpointProjection)
    (completion : option pendingTurnCompletion) : M unit :=
  queueCheckpointProjectionWithTerminal now projection
    (successfulCheckpointTerminalAction completion).

(** [handleCheckpointBlobResult] for a set-blob result with the given id; [rejected] tells
    whether it carries an error. *)
Definition handleCheckpointBlobResult (now id : Z) (rejected : bool) : M unit :=
  s <- get ;;
  match PendingCheckpointBlobWrites s !! id with
  | None => ret tt
  | Some write =>
      update (fun s =>
        let s := s <| PendingCheckpointBlobWrites := delete id (PendingCheckpointBlobWrites s) |> in
        if rejected then s
        else s <| ConfirmedCheckpointBlobs := {[ Key write ]} ∪ ConfirmedCheckpointBlobs s |>) ;;;
      let required := match PendingCheckpoint s with
                      | Some pending => bool_decide (Key write ∈ Required pending)
                      | None => false
                      end in
      if rejected && required then finishAfterCheckpointSyncFailure now
      else
        ready <- checkpointProjectionReady ;;
        if (ready : bool) then publishReadyCheckpoint now else ret tt
  end.

Definition handleCheckpointBlobTimeout (now : Z) : M unit :=
  s <- get ;;
  match PendingCheckpoint s with
  | None => ret tt
  | Some pending =>
      if all_confirmed (Required pending) (ConfirmedCheckpointBlobs s)
      then publishReadyCheckpoint now
      else finishAfterCheckpointSyncFailure now
  end.

(** The timer event of the blob timeout ([handleTimerEvent]). *)
Definition checkpoint_timer_event (now token : Z) : M unit :=
  s <- get ;;
  if negb (timerEventMatches checkpointTimerKey token (StreamTimerTokens s)) then ret tt
  else clear_checkpoint_timer ;;; handleCheckpointBlobTimeout now.

Inductive CheckpointOp :=
| OpQueue (projection : CheckpointProjection) (terminal : checkpointTerminalAction)
| OpBlobResult (id : Z) (rejected : bool)
| OpTimer (token : Z)
| OpDiscard
| OpResetTimers.

(** A run that supersedes the one of the same request, and every run that opens the stream, forgets the
    tokens of all timers ([supersedeActiveRunWithSameRequest], [handleRunIntent]). *)
Definition resetTimerTokens : M unit := update (fun s => s <| StreamTimerTokens := ∅ |>).

Definition run_checkpoint_op (now : Z) (op : CheckpointOp) : M unit :=
  match op with
  | OpQueue projection terminal => queueCheckpointProjectionWithTerminal now projection terminal
  | OpBlobResult id rejected => handleCheckpointBlobResult now id rejected
  | OpTimer token => checkpoint_timer_event now token
  | OpDiscard => discardPendingCheckpoint
  | OpResetTimers => resetTimerTokens
  end.

(** ** Lemmas: what each operation does to the stream and to the log *)

(** The fields this component decides on. *)
Record same_checkpoint (s s' : CheckpointStream) : Prop := {
  sc_writes : PendingCheckpointBlobWrites s' = PendingCheckpointBlobWrites s;
  sc_confirmed : ConfirmedCheckpointBlobs s' = ConfirmedCheckpointBlobs s;
  sc_generation : CheckpointGeneration s' = CheckpointGeneration s;
  sc_next : NextCheckpointBlobRequestID s' = NextCheckpointBlobRequestID s;
  sc_pending : PendingCheckpoint s' = PendingCheckpoint s;
  sc_tokens : StreamTimerTokens s' = StreamTimerTokens s;
  sc_events : timer_events s' = timer_events s
}.

Lemma same_checkpoint_refl s : same_checkpoint s s.
Proof. done. Qed.

Definition terminal_calls (terminal : checkpointTerminalAction) : list Call :=
  match terminal with
  | checkpointTerminalActionNone => []
  | _ => [CallTerminal terminal]
  end.

Lemma with_broker_frame f (w : World) :
  cs (with_broker f w).2 = cs w /\ calls (with_broker f w).2 = calls w.
Proof. unfold with_broker. by destruct (f (broker w)). Qed.

Lemma finish_success_frame now completion (w : World) :
  let w' := (finishSuccessfulTurnAfterCheckpoint now completion w).2 in
  same_checkpoint (cs w) (cs w') /\ calls w' = calls w.
Proof.
  unfold finishSuccessfulTurnAfterCheckpoint, bind, claimTerminalEvent.
  destruct (_ || _); simpl; [done|]. unfold with_broker. simpl.
  destruct (publish_message _ _ _ _) as [[] b1]; simpl; [|done].
  by destruct (complete_stream _ _ _) as [[] b2].
Qed.

Lemma finish_failed_frame now code message (w : World) :
  let w' := (finishFailedTurnAfterCheckpoint now code message w).2 in
  same_checkpoint (cs w) (cs w') /\ calls w' = calls w.
Proof.
  unfold finishFailedTurnAfterCheckpoint, bind, try, with_broker. simpl.
  by destruct (fail_stream _ _ _ _ _) as [r b1].
Qed.

Lemma finish_frame now terminal (w : World) :
  let w' := (finishCheckpointTerminalAction now terminal w).2 in
  same_checkpoint (cs w) (cs w') /\ calls w' = calls w ++ terminal_calls terminal.
Proof.
  destruct terminal as [|completion|code message]; simpl; [by rewrite app_nil_r| |];
    unfold bind; simpl.
  - match goal with |- context [finishSuccessfulTurnAfterCheckpoint _ _ ?w1] =>
      by destruct (finish_success_frame now completion w1) as [H1 ->] end.
  - match goal with |- context [finishFailedTurnAfterCheckpoint _ _ _ ?w1] =>
      by destruct (finish_failed_frame now code message w1) as [H1 ->] end.
Qed.

(** Dropping the pending checkpoint and its timer. *)
Definition unpend (s : CheckpointStream) : CheckpointStream :=
  s <| PendingCheckpoint := None |>
    <| StreamTimerTokens := clearStreamTimer checkpointTimerKey (StreamTimerTokens s) |>.

Lemma publish_ready_spec now (w : World) pending :
  PendingCheckpoint (cs w) = Some pending ->
  Required pending ⊆ ConfirmedCheckpointBlobs (cs w) ->
  let w' := (publishReadyCheckpoint now w).2 in
  same_checkpoint (unpend (cs w)) (cs w') /\
  calls w' = calls w ++ CallCheckpoint (PendingState pending) (Required pending)
                          (ConfirmedCheckpointBlobs (cs w)) ::
             terminal_calls (PendingTerminal pending).
Proof.
  intros Hp Hr. unfold publishReadyCheckpoint, bind, get. rewrite Hp.
  unfold all_confirmed. rewrite bool_decide_eq_true_2 by done. simpl. unfold try, with_broker. simpl.
  destruct (publish_message _ _ _ _) as [r b1]. simpl. set (w1 := mkWorld _ _ _).
  assert (Hfin : forall t, let w' := (finishCheckpointTerminalAction now t w1).2 in
    same_checkpoint (unpend (cs w)) (cs w') /\
    calls w' = calls w ++ CallCheckpoint (PendingState pending) (Required pending)
                          (ConfirmedCheckpointBlobs (cs w)) :: terminal_calls t).
  { intros t. destruct (finish_frame now t w1) as [H1 H2]. split; [exact H1|].
    etrans; [exact H2|]. subst w1. simpl. by rewrite <- app_assoc. }
  destruct r as [[]|e]; [apply (Hfin (PendingTerminal pending))|].
  destruct (PendingTerminal pending) as [|completion|code message];
    [by subst w1|exact (Hfin (checkpointTerminalActionComplete completion))|
     exact (Hfin (checkpointTerminalActionFail code message))].
Qed.

(** [publishReadyCheckpoint] after [checkpointProjectionReady]. *)
Lemma ready_publish_spec now (w : World) pending :
  PendingCheckpoint (cs w) = Some pending ->
  let r := bind checkpointProjectionReady
             (fun ready : bool => if ready then publishReadyCheckpoint now else ret tt) w in
  if decide (Required pending ⊆ ConfirmedCheckpointBlobs (cs w)) then
    same_checkpoint (unpend (cs w)) (cs r.2) /\
    calls r.2 = calls w ++ CallCheckpoint (PendingState pending) (Required pending)
                             (ConfirmedCheckpointBlobs (cs w)) ::
                terminal_calls (PendingTerminal pending)
  else r.2 = w.
Proof.
  intros Hp. unfold bind, checkpointProjectionReady, bind, get, ret. simpl. rewrite Hp.
  unfold all_confirmed. case_decide as Hr.
  - rewrite bool_decide_eq_true_2 by done. by apply publish_ready_spec.
  - by rewrite bool_decide_eq_false_2.
Qed.

Lemma ready_publish_none now (w : World) :
  PendingCheckpoint (cs w) = None ->
  (bind checkpointProjectionReady
     (fun ready : bool => if ready then publishReadyCheckpoint now else ret tt) w).2 = w.
Proof. intros Hp. unfold bind, checkpointProjectionReady, bind, get, ret. simpl. by rewrite Hp. Qed.

Definition pending_calls (s : CheckpointStream) : list Call :=
  match PendingCheckpoint s with
  | Some pending => terminal_calls (PendingTerminal pending)
  | None => []
  end.

Lemma sync_failure_spec now (w : World) :
  let w' := (finishAfterCheckpointSyncFailure now w).2 in
  same_checkpoint (unpend (cs w) <| PendingCheckpointBlobWrites := ∅ |>) (cs w') /\
  calls w' = calls w ++ pending_calls (cs w).
Proof.
  unfold finishAfterCheckpointSyncFailure, bind, get, pending_calls. simpl.
  destruct (PendingCheckpoint (cs w)) as [pending|].
  - match goal with |- context [finishCheckpointTerminalAction now _ ?w1] =>
      destruct (finish_frame now (PendingTerminal pending) w1) as [H1 H2] end.
    split; [exact H1|exact H2].
  - simpl. by rewrite app_nil_r.
Qed.

Lemma dispatch_frame now requestID writes (w : World) :
  exists ok b, dispatch_blobs now requestID writes w = (Ok ok, mkWorld (cs w) b (calls w)).
Proof.
  revert w. induction writes as [|[id blob] writes IH]; intros w; simpl.
  { exists true, (broker w). by destruct w. }
  unfold bind, try, with_broker. destruct (publish_message _ _ _ _) as [[u|e] b1].
  - destruct (IH (w <| broker := b1 |>)) as (ok & b & ->). by exists ok, b.
  - by exists false, b1.
Qed.

(** ** Lemmas: the invariant *)

Record checkpoint_inv (s : CheckpointStream) : Prop := {
  ck_ids : forall id write, PendingCheckpointBlobWrites s !! id = Some write ->
    1 <= id <= NextCheckpointBlobRequestID s;
  ck_next : 0 <= NextCheckpointBlobRequestID s <= max_uint32;
  ck_gen : 0 <= CheckpointGeneration s <= max_uint64;
  ck_keys : forall i j x y, PendingCheckpointBlobWrites s !! i = Some x ->
    PendingCheckpointBlobWrites s !! j = Some y -> Key x = Key y -> i = j;
  ck_missing : forall pending key, PendingCheckpoint s = Some pending ->
    key ∈ Required pending -> key ∉ ConfirmedCheckpointBlobs s ->
    exists id write, PendingCheckpointBlobWrites s !! id = Some write /\ Key write = key
}.

(** A pending checkpoint has a timer whose event will still be accepted. *)
Definition has_live_timer (s : CheckpointStream) : Prop :=
  PendingCheckpoint s <> None ->
  exists token, (checkpointTimerKey, token) ∈ timer_events s /\
    timerEventMatches checkpointTimerKey token (StreamTimerTokens s) = true.

(** Between two operations a pending checkpoint lacks a blob and has a live timer. *)
Record checkpoint_rest (s : CheckpointStream) : Prop := {
  cr_waits : forall pending, PendingCheckpoint s = Some pending ->
    ~ Required pending ⊆ ConfirmedCheckpointBlobs s;
  cr_timer : has_live_timer s
}.

Lemma checkpoint_inv_same s s' : same_checkpoint s s' -> checkpoint_inv s -> checkpoint_inv s'.
Proof.
  intros [H1 H2 H3 H4 H5 _ _] [I1 I2 I3 I4 I5].
  by split; rewrite ?H1, ?H2, ?H3, ?H4, ?H5.
Qed.

Lemma checkpoint_rest_same s s' : same_checkpoint s s' -> checkpoint_rest s -> checkpoint_rest s'.
Proof. intros [H1 H2 H3 H4 H5 H6 H7] [I1 I2]. by split; unfold has_live_timer in *; rewrite ?H2, ?H5, ?H6, ?H7. Qed.

Lemma checkpoint_unpend s :
  checkpoint_inv (s <| PendingCheckpoint := None |>) -> checkpoint_inv (unpend s) /\ checkpoint_rest (unpend s).
Proof. intros [I1 I2 I3 I4 _]. split; split; unfold has_live_timer; done. Qed.

Lemma checkpoint_empty s :
  checkpoint_inv (s <| PendingCheckpoint := None |>) ->
  checkpoint_inv (unpend s <| PendingCheckpointBlobWrites := ∅ |>) /\
  checkpoint_rest (unpend s <| PendingCheckpointBlobWrites := ∅ |>).
Proof.
  intros [I1 I2 I3 I4 _]. split; split; unfold has_live_timer; simpl; try done;
    intros *; rewrite lookup_empty; done.
Qed.

(** ** Lemmas: the outcome of an operation *)

Lemma next_counter_small n : 0 <= n < max_uint32 -> next_counter wrap_uint32 n = n + 1.
Proof.
  intros Hn. unfold next_counter, wrap_uint32, max_uint32 in *.
  rewrite Z.mod_small by lia. destruct (n + 1 =? 0) eqn:E; [lia|done].
Qed.

Lemma next_counter_range n : 1 <= next_counter wrap_uint64 n <= max_uint64.
Proof.
  unfold next_counter, wrap_uint64, max_uint64. cbv zeta.
  destruct (Z.eqb_spec ((n + 1) mod 2 ^ 64) 0) as [->|]; [done|].
  pose proof (Z.mod_pos_bound (n + 1) (2 ^ 64)). lia.
Qed.

(** The change an operation makes to the stream before it decides. *)
Definition op_effect (now : Z) (op : CheckpointOp) (s : CheckpointStream) : CheckpointStream :=
  match op with
  | OpQueue projection terminal => (queue_register now projection terminal s).2
  | OpBlobResult id rejected =>
      match PendingCheckpointBlobWrites s !! id with
      | None => s
      | Some write =>
          let s := s <| PendingCheckpointBlobWrites := delete id (PendingCheckpointBlobWrites s) |> in
          if rejected then s
          else s <| ConfirmedCheckpointBlobs := {[ Key write ]} ∪ ConfirmedCheckpointBlobs s |>
      end
  | OpTimer token =>
      if timerEventMatches checkpointTimerKey token (StreamTimerTokens s)
      then s <| StreamTimerTokens := clearStreamTimer checkpointTimerKey (StreamTimerTokens s) |>
      else s
  | OpDiscard => s
  | OpResetTimers => s <| StreamTimerTokens := ∅ |>
  end.

Definition is_queue (op : CheckpointOp) : bool := match op with OpQueue _ _ => true | _ => false end.

Definition can_fail (op : CheckpointOp) : bool :=
  match op with
  | OpBlobResult _ rejected => rejected
  | OpDiscard | OpResetTimers => false
  | _ => true
  end.

Definition not_ready (s : CheckpointStream) : Prop :=
  forall pending, PendingCheckpoint s = Some pending ->
    ~ Required pending ⊆ ConfirmedCheckpointBlobs s.

(** The operation does not reject a blob the pending checkpoint requires. *)
Definition harmless (op : CheckpointOp) (s : CheckpointStream) : Prop :=
  forall id write pending, op = OpBlobResult id true ->
    PendingCheckpointBlobWrites s !! id = Some write -> PendingCheckpoint s = Some pending ->
    Key write ∉ Required pending.

(** [outcome op s0 s s' new]: from [s0], with the effect [s], the operation ends in [s'] and
    logs [new]. *)
Inductive outcome (op : CheckpointOp) (s0 s s' : CheckpointStream) : list Call -> Prop :=
| out_stale : op <> OpDiscard -> is_queue op = false -> s = s0 -> same_checkpoint s s' -> outcome op s0 s s' []
| out_reset : op = OpResetTimers -> same_checkpoint s s' -> outcome op s0 s s' []
| out_keep : op <> OpDiscard -> is_queue op = false -> harmless op s0 -> not_ready s ->
    (StreamTimerTokens s = StreamTimerTokens s0 /\ timer_events s = timer_events s0 /\
     PendingCheckpoint s = PendingCheckpoint s0) \/ PendingCheckpoint s = None ->
    same_checkpoint s s' -> outcome op s0 s s' []
| out_wait : op <> OpDiscard -> harmless op s0 -> not_ready s -> s' = start_checkpoint_timer s -> outcome op s0 s s' []
| out_drop : op = OpDiscard ->
    same_checkpoint (unpend s <| PendingCheckpointBlobWrites := ∅ |>) s' -> outcome op s0 s s' []
| out_fail : can_fail op = true ->
    same_checkpoint (unpend s <| PendingCheckpointBlobWrites := ∅ |>) s' ->
    outcome op s0 s s' (pending_calls s)
| out_publish pending : op <> OpDiscard -> PendingCheckpoint s = Some pending ->
    Required pending ⊆ ConfirmedCheckpointBlobs s -> same_checkpoint (unpend s) s' ->
    outcome op s0 s s' (CallCheckpoint (PendingState pending) (Required pending)
                          (ConfirmedCheckpointBlobs s) :: terminal_calls (PendingTerminal pending)).

Definition has_outcome (now : Z) (op : CheckpointOp) (w w' : World) : Prop :=
  exists new, calls w' = calls w ++ new /\
    outcome op (cs w) (op_effect now op (cs w)) (cs w') new.

(** The two decisions the operations share. *)
Lemma outcome_failure now op (w w1 : World) :
  can_fail op = true -> cs w1 = op_effect now op (cs w) -> calls w1 = calls w ->
  has_outcome now op w (finishAfterCheckpointSyncFailure now w1).2.
Proof.
  intros Hf E1 E2. destruct (sync_failure_spec now w1) as [H1 H2]. eexists.
  rewrite H2, E2. split; [done|]. rewrite E1 in *. by apply out_fail.
Qed.

Lemma outcome_publish now op (w w1 : World) pending :
  op <> OpDiscard -> cs w1 = op_effect now op (cs w) -> calls w1 = calls w ->
  PendingCheckpoint (cs w1) = Some pending ->
  Required pending ⊆ ConfirmedCheckpointBlobs (cs w1) ->
  has_outcome now op w (publishReadyCheckpoint now w1).2.
Proof.
  intros Hf E1 E2 Hp Hr. destruct (publish_ready_spec now w1 pending Hp Hr) as [H1 H2]. eexists.
  rewrite H2, E2. split; [done|]. rewrite E1 in *. by apply out_publish.
Qed.

Lemma outcome_quiet now op (w w' : World) :
  calls w' = calls w -> outcome op (cs w) (op_effect now op (cs w)) (cs w') [] ->
  has_outcome now op w w'.
Proof. intros E H. exists []. by rewrite app_nil_r. Qed.

Lemma ready_decides (s : CheckpointStream) pending :
  PendingCheckpoint s = Some pending ->
  all_confirmed (Required pending) (ConfirmedCheckpointBlobs s) = false -> not_ready s.
Proof.
  unfold all_confirmed. intros Hp Hr p Hp'. rewrite Hp in Hp'. injection Hp' as <-.
  by apply bool_decide_eq_false in Hr.
Qed.

(** The tail of a blob result: publish when ready. *)
Lemma outcome_ready now op (w w1 : World) :
  op <> OpDiscard -> is_queue op = false -> harmless op (cs w) -> cs w1 = op_effect now op (cs w) -> calls w1 = calls w ->
  (StreamTimerTokens (cs w1) = StreamTimerTokens (cs w) /\ timer_events (cs w1) = timer_events (cs w) /\
   PendingCheckpoint (cs w1) = PendingCheckpoint (cs w)) \/ PendingCheckpoint (cs w1) = None ->
  has_outcome now op w
    (bind checkpointProjectionReady
       (fun ready : bool => if ready then publishReadyCheckpoint now else ret tt) w1).2.
Proof.
  intros Hop Hq Hharm E1 E2 Hk. unfold bind, checkpointProjectionReady, bind, get, ret. simpl.
  destruct (PendingCheckpoint (cs w1)) as [pending|] eqn:Hp.
  - destruct (all_confirmed _ _) eqn:Hr.
    + eapply outcome_publish; try done. by apply bool_decide_eq_true in Hr.
    + apply outcome_quiet; [done|]. rewrite <- E1. apply out_keep; [done|done|done| |by rewrite Hp|done].
      by eapply ready_decides.
  - apply outcome_quiet; [done|]. rewrite <- E1. apply out_keep; [done|done|done| |by right|done].
    intros p. by rewrite Hp.
Qed.

Lemma blob_result_outcome now id rejected (w : World) :
  has_outcome now (OpBlobResult id rejected) w (handleCheckpointBlobResult now id rejected w).2.
Proof.
  unfold handleCheckpointBlobResult, bind at 1, get at 1. cbn [fst snd].
  destruct (PendingCheckpointBlobWrites (cs w) !! id) as [write|] eqn:Hw.
  - unfold bind at 1, update at 1.
    match goal with |- has_outcome _ _ _ ((if ?c then _ else _) ?w1).2 =>
      assert (E1 : cs w1 = op_effect now (OpBlobResult id rejected) (cs w))
        by (simpl; rewrite Hw; done);
      assert (E2 : calls w1 = calls w) by done;
      assert (E3 : StreamTimerTokens (cs w1) = StreamTimerTokens (cs w) /\
        timer_events (cs w1) = timer_events (cs w) /\
        PendingCheckpoint (cs w1) = PendingCheckpoint (cs w)) by (destruct rejected; done);
      generalize dependent w1; intros w2 E1 E2 E3; destruct c eqn:Hc
    end.
    + apply andb_true_iff in Hc as [-> _]. by apply outcome_failure.
    + apply outcome_ready; [done|done| |done|done|by left].
      intros id' write' pending [= -> ->] Hw' Hp Hin. rewrite Hw in Hw'. injection Hw' as <-.
      rewrite Hp in Hc. simpl in Hc. by apply bool_decide_eq_false in Hc.
  - apply outcome_quiet; [done|]. simpl. rewrite Hw. by apply out_stale.
Qed.

Lemma timer_outcome now token (w : World) :
  has_outcome now (OpTimer token) w (checkpoint_timer_event now token w).2.
Proof.
  unfold checkpoint_timer_event, bind at 1, get at 1. cbn [fst snd].
  destruct (timerEventMatches _ _ _) eqn:Hm; cbn [negb].
  - unfold bind at 1, clear_checkpoint_timer, update at 1.
    match goal with |- context [handleCheckpointBlobTimeout now ?v] => set (w1 := v) end.
    assert (E1 : cs w1 = op_effect now (OpTimer token) (cs w)) by (simpl; rewrite Hm; done).
    assert (E2 : calls w1 = calls w) by done.
    clearbody w1. unfold handleCheckpointBlobTimeout, bind, get.
    destruct (PendingCheckpoint (cs w1)) as [pending|] eqn:Hp.
    + destruct (all_confirmed _ _) eqn:Hr; [|by apply outcome_failure].
      eapply outcome_publish; try done. by apply bool_decide_eq_true in Hr.
    + apply outcome_quiet; [done|]. rewrite <- E1. apply out_keep; [done|done|done| |by right|done].
      intros p. by rewrite Hp.
  - apply outcome_quiet; [done|]. simpl. rewrite Hm. by apply out_stale.
Qed.

Definition register_all (now : Z) (projection : CheckpointProjection) (s : CheckpointStream)
  : Registration :=
  let generation := next_counter wrap_uint64 (CheckpointGeneration s) in
  fold_left (register_blob now generation) (Blobs projection)
    (mkRegistration (s <| CheckpointGeneration := generation |>) ∅
       (pending_keys (PendingCheckpointBlobWrites s)) [] 0).

Lemma register_frame now generation blobs r :
  let s := reg_stream r in
  let s' := reg_stream (fold_left (register_blob now generation) blobs r) in
  ConfirmedCheckpointBlobs s' = ConfirmedCheckpointBlobs s /\
  CheckpointGeneration s' = CheckpointGeneration s /\
  StreamRequestID s' = StreamRequestID s.
Proof.
  revert r. induction blobs as [|blob blobs IH]; intros r; [done|]. cbn [fold_left].
  destruct (IH (register_blob now generation r blob)) as (E1 & E2 & E3). cbv zeta in *.
  rewrite E1, E2, E3. unfold register_blob.
  destruct (decide _); [done|]. simpl. by repeat case_bool_decide.
Qed.

(** What the critical section of a queued projection leaves. *)
Lemma queue_register_spec now projection terminal s :
  let r := register_all now projection s in
  let s' := (queue_register now projection terminal s).2 in
  PendingCheckpoint s' = Some (mkPending (next_counter wrap_uint64 (CheckpointGeneration s)) now
     (reg_totalBytes r) (Z.of_nat (length (reg_toWrite r))) (ProjectionState projection)
     (reg_required r) (inherited_terminal terminal (PendingCheckpoint s))) /\
  PendingCheckpointBlobWrites s' = PendingCheckpointBlobWrites (reg_stream r) /\
  NextCheckpointBlobRequestID s' = NextCheckpointBlobRequestID (reg_stream r) /\
  ConfirmedCheckpointBlobs s' = ConfirmedCheckpointBlobs s /\
  CheckpointGeneration s' = next_counter wrap_uint64 (CheckpointGeneration s) /\
  (queue_register now projection terminal s).1 =
    (reg_toWrite r, next_counter wrap_uint64 (CheckpointGeneration s)).
Proof.
  intros r s'. unfold s', r, queue_register, register_all.
  destruct (register_frame now (next_counter wrap_uint64 (CheckpointGeneration s))
    (Blobs projection) (mkRegistration (s <| CheckpointGeneration :=
                next_counter wrap_uint64 (CheckpointGeneration s) |>) ∅
                (pending_keys (PendingCheckpointBlobWrites s)) [] 0)) as (E1 & E2 & _).
  cbn [snd fst]. split_and!; done.
Qed.

Lemma queue_outcome now projection terminal (w : World) :
  has_outcome now (OpQueue projection terminal) w
    (queueCheckpointProjectionWithTerminal now projection terminal w).2.
Proof.
  unfold queueCheckpointProjectionWithTerminal, bind at 1, get at 1. cbn [fst snd].
  destruct (queue_register_spec now projection terminal (cs w)) as (Hp & _ & _ & _ & Hg & H1).
  destruct (queue_register now projection terminal (cs w)) as [[toWrite generation] s'] eqn:Eq.
  cbn [fst snd] in *. injection H1 as Ew Egen.
  unfold bind at 1, update at 1. set (w0 := w <| cs := s' |>).
  destruct (dispatch_frame now (StreamRequestID (cs w)) toWrite w0) as (ok & b & Ed).
  unfold bind at 1. rewrite Ed. set (w1 := mkWorld _ _ _).
  assert (E1 : cs w1 = op_effect now (OpQueue projection terminal) (cs w))
    by (unfold op_effect; rewrite Eq; done).
  assert (E2 : calls w1 = calls w) by done.
  assert (Hp1 := Hp). change (PendingCheckpoint (cs w1) = Some (mkPending
     (next_counter wrap_uint64 (CheckpointGeneration (cs w))) now
     (reg_totalBytes (register_all now projection (cs w)))
     (Z.of_nat (length (reg_toWrite (register_all now projection (cs w)))))
     (ProjectionState projection) (reg_required (register_all now projection (cs w)))
     (inherited_terminal terminal (PendingCheckpoint (cs w))))) in Hp1.
  clearbody w1. clear Ed w0 Hp Hg Ew.
  destruct ok; cbn [negb]; [|by apply outcome_failure].
  unfold bind, checkpointProjectionReady, bind, get, ret. rewrite Hp1.
  destruct (all_confirmed _ _) eqn:Hr.
  - eapply outcome_publish; try done. by apply bool_decide_eq_true in Hr.
  - apply outcome_quiet.
    + unfold scheduleCheckpointBlobTimeout. by case_match.
    + rewrite <- E1. apply out_wait; [done|done|by eapply ready_decides|].
      unfold scheduleCheckpointBlobTimeout.
      pose proof (next_counter_range (CheckpointGeneration (cs w))) as Hrange.
      rewrite <- Egen in Hrange. destruct (Z.eqb_spec generation 0); [lia|done].
Qed.

Lemma run_op_outcome now op (w : World) : has_outcome now op w (run_checkpoint_op now op w).2.
Proof.
  destruct op; simpl.
  - apply queue_outcome.
  - apply blob_result_outcome.
  - apply timer_outcome.
  - apply outcome_quiet; [done|]. by apply out_drop.
  - apply outcome_quiet; [done|]. by apply out_reset.
Qed.

(** ** Lemmas: the invariant is kept *)

Definition writes_ok (next : Z) (writes : gmap Z pendingCheckpointBlobWrite) : Prop :=
  (forall id write, writes !! id = Some write -> 1 <= id <= next) /\
  (forall i j x y, writes !! i = Some x -> writes !! j = Some y -> Key x = Key y -> i = j).

Definition has_write (writes : gmap Z pendingCheckpointBlobWrite) (key : string) : Prop :=
  exists id write, writes !! id = Some write /\ Key write = key.

Lemma elem_of_pending_keys writes key : key ∈ pending_keys writes <-> has_write writes key.
Proof.
  unfold pending_keys, has_write. rewrite elem_of_list_to_set, list_elem_of_fmap. split.
  - intros ([id write] & -> & H). apply elem_of_map_to_list in H. by exists id, write.
  - intros (id & write & H & <-). exists (id, write). split; [done|]. by apply elem_of_map_to_list.
Qed.

Record registration_ok (r : Registration) : Prop := {
  rg_next : 0 <= NextCheckpointBlobRequestID (reg_stream r) <= max_uint32;
  rg_writes : writes_ok (NextCheckpointBlobRequestID (reg_stream r))
                (PendingCheckpointBlobWrites (reg_stream r));
  rg_keys : forall key, key ∈ reg_pendingKeys r <->
    has_write (PendingCheckpointBlobWrites (reg_stream r)) key;
  rg_required : forall key, key ∈ reg_required r ->
    key ∈ ConfirmedCheckpointBlobs (reg_stream r) \/
    has_write (PendingCheckpointBlobWrites (reg_stream r)) key
}.

Lemma writes_ok_insert next writes key write :
  0 <= next -> writes_ok next writes -> ~ has_write writes key -> Key write = key ->
  writes_ok (next + 1) (<[next + 1 := write]> writes).
Proof.
  intros Hn [H1 H2] Hk Hw. split.
  - intros id x [[<- <-]|[Hne H]]%lookup_insert_Some; [lia|]. apply H1 in H. lia.
  - intros i j x y [[<- <-]|[Hi H]]%lookup_insert_Some [[<- <-]|[Hj H']]%lookup_insert_Some E;
      [done| | |by eapply H2].
    + destruct Hk. exists j, y. split; [done|congruence].
    + destruct Hk. exists i, x. split; [done|congruence].
Qed.

Lemma has_write_insert id write writes key :
  writes !! id = None ->
  has_write (<[id := write]> writes) key <-> key = Key write \/ has_write writes key.
Proof.
  intros Hid. unfold has_write. split.
  - intros (i & x & [[<- <-]|[Hne H]]%lookup_insert_Some & <-); [by left|]. right. by exists i, x.
  - intros [->|(i & x & H & <-)]; [exists id, write; by rewrite lookup_insert_eq|].
    exists i, x. rewrite lookup_insert_ne; [done|]. intros ->. congruence.
Qed.

Lemma register_blob_ok now generation r blob :
  NextCheckpointBlobRequestID (reg_stream r) < max_uint32 -> registration_ok r ->
  registration_ok (register_blob now generation r blob) /\
  NextCheckpointBlobRequestID (reg_stream (register_blob now generation r blob)) <=
    NextCheckpointBlobRequestID (reg_stream r) + 1.
Proof.
  intros Hlt [I1 I2 I3 I4]. unfold register_blob. destruct (decide _); [split; [done|lia]|].
  cbn [reg_stream reg_pendingKeys]. case_bool_decide as Hc; [|case_bool_decide as Hp].
  - split; [|simpl; lia]. split; simpl; try done. intros key. rewrite elem_of_union, elem_of_singleton.
    intros [->|H]; [by left|by apply I4].
  - split; [|simpl; lia]. split; simpl; try done. intros key. rewrite elem_of_union, elem_of_singleton.
    intros [->|H]; [right; by apply I3|by apply I4].
  - rewrite next_counter_small by lia.
    assert (Hfree : PendingCheckpointBlobWrites (reg_stream r)
      !! (NextCheckpointBlobRequestID (reg_stream r) + 1) = None).
    { destruct (_ !! _) eqn:E; [|done]. apply (proj1 I2) in E. lia. }
    split; [|simpl; lia]. split; simpl.
    + lia.
    + eapply writes_ok_insert; [lia|done| |done]. by rewrite <- I3.
    + intros key. rewrite has_write_insert by done. simpl. rewrite <- I3. set_solver.
    + intros key. rewrite has_write_insert by done. simpl. rewrite elem_of_union, elem_of_singleton.
      intros [->|H]; [by right; left|]. destruct (I4 _ H); [by left|by right; right].
Qed.

Lemma register_blobs_ok now generation blobs r :
  NextCheckpointBlobRequestID (reg_stream r) + Z.of_nat (length blobs) <= max_uint32 ->
  registration_ok r -> registration_ok (fold_left (register_blob now generation) blobs r).
Proof.
  revert r. induction blobs as [|blob blobs IH]; intros r Hn Hr; [done|]. simpl in *.
  destruct (register_blob_ok now generation r blob) as [H1 H2]; [lia|done|]. apply IH; [lia|done].
Qed.

Lemma queue_register_inv now projection terminal s :
  NextCheckpointBlobRequestID s + Z.of_nat (length (Blobs projection)) <= max_uint32 ->
  checkpoint_inv s -> checkpoint_inv (queue_register now projection terminal s).2.
Proof.
  intros Hn [I1 I2 I3 I4 _].
  destruct (queue_register_spec now projection terminal s) as (E1 & E2 & E3 & E4 & E5 & _).
  assert (Hr : registration_ok (register_all now projection s)).
  { apply register_blobs_ok; [done|]. split; simpl; [done|done| |set_solver].
    intros key. apply elem_of_pending_keys. }
  assert (Hc : ConfirmedCheckpointBlobs (reg_stream (register_all now projection s)) =
    ConfirmedCheckpointBlobs s) by apply register_frame.
  generalize dependent (queue_register now projection terminal s). intros [writes s1] E1 E2 E3 E4 E5.
  cbn [snd] in *. destruct Hr as [R1 [R2 R3] R4 R5].
  split; rewrite ?E2, ?E3, ?E4, ?E5; try done.
  - pose proof (next_counter_range (CheckpointGeneration s)). lia.
  - intros p key Hp Hk Hnc. rewrite E1 in Hp. injection Hp as <-. simpl in Hk.
    destruct (R5 _ Hk) as [H|H]; [|done]. rewrite Hc in H. done.
Qed.

Definition op_room (op : CheckpointOp) (s : CheckpointStream) : Prop :=
  match op with
  | OpQueue projection _ =>
      NextCheckpointBlobRequestID s + Z.of_nat (length (Blobs projection)) <= max_uint32
  | _ => True
  end.

Lemma result_inv s id write (rejected : bool) :
  PendingCheckpointBlobWrites s !! id = Some write ->
  (rejected = true -> forall pending, PendingCheckpoint s = Some pending ->
     Key write ∉ Required pending) ->
  checkpoint_inv s ->
  checkpoint_inv (let s := s <| PendingCheckpointBlobWrites :=
                                  delete id (PendingCheckpointBlobWrites s) |> in
                  if rejected then s
                  else s <| ConfirmedCheckpointBlobs :=
                              {[ Key write ]} ∪ ConfirmedCheckpointBlobs s |>).
Proof.
  intros Hw Hrej [I1 I2 I3 I4 I5].
  assert (Hdel : forall i x, delete id (PendingCheckpointBlobWrites s) !! i = Some x ->
    PendingCheckpointBlobWrites s !! i = Some x) by (intros i x; rewrite lookup_delete_Some; tauto).
  destruct rejected; split; simpl; eauto; intros pending key Hp Hk Hnc.
  - destruct (I5 pending key Hp Hk Hnc) as (i & x & Hx & <-). exists i, x. split; [|done].
    rewrite lookup_delete_ne; [done|]. intros <-. rewrite Hw in Hx. injection Hx as <-.
    by destruct (Hrej eq_refl pending Hp).
  - apply not_elem_of_union in Hnc as [Hne Hnc].
    destruct (I5 pending key Hp Hk Hnc) as (i & x & Hx & <-). exists i, x. split; [|done].
    rewrite lookup_delete_ne; [done|]. intros <-. rewrite Hw in Hx. injection Hx as <-. set_solver.
Qed.

(** Rejecting a required blob breaks [ck_missing]; the checkpoint is then abandoned. *)
Lemma effect_inv now op s :
  op_room op s -> checkpoint_inv s ->
  (harmless op s -> checkpoint_inv (op_effect now op s)) /\
  checkpoint_inv (op_effect now op s <| PendingCheckpoint := None |>).
Proof.
  intros Hroom Hinv.
  assert (Hnone : forall s, checkpoint_inv s -> checkpoint_inv (s <| PendingCheckpoint := None |>))
    by (intros s0 []; by split).
  assert (Hfull : checkpoint_inv (op_effect now op s) ->
    (harmless op s -> checkpoint_inv (op_effect now op s)) /\
    checkpoint_inv (op_effect now op s <| PendingCheckpoint := None |>)) by eauto.
  destruct op as [projection terminal|id rejected|token| |]; [| |apply Hfull..].
  - by apply Hfull, queue_register_inv.
  - clear Hfull. unfold op_effect, harmless.
    destruct (PendingCheckpointBlobWrites s !! id) as [write|] eqn:Hw; [|by eauto].
    split.
    + intros Hh. apply (result_inv s id write rejected); [done| |done].
      intros -> pending Hp. by eapply Hh.
    + specialize (Hnone s Hinv).
      match type of Hnone with checkpoint_inv ?s0 =>
        pose proof (result_inv s0 id write rejected Hw
                      (fun _ pending (E : None = Some pending) => ltac:(discriminate E)) Hnone) as H
      end.
      by destruct rejected.
  - unfold op_effect. case_match; [|done]. destruct Hinv. by split.
  - done.
  - destruct Hinv. by split.
Qed.

Lemma start_timer_rest s :
  not_ready s -> checkpoint_inv s ->
  checkpoint_inv (start_checkpoint_timer s) /\ checkpoint_rest (start_checkpoint_timer s).
Proof.
  intros Hn [I1 I2 I3 I4 I5]. unfold start_checkpoint_timer, scheduleStreamTimer.
  change (if decide (TrimSpace checkpointTimerKey = EmptyString) then ?a else ?b) with b.
  cbv zeta. split; split; try done. intros _. simpl. eexists. split.
  - apply elem_of_app. right. by apply list_elem_of_singleton.
  - unfold timerEventMatches, timer_token. rewrite lookup_insert_eq. apply Z.eqb_refl.
Qed.

Lemma outcome_keeps_inv now op s0 s' new :
  op_room op s0 -> checkpoint_inv s0 -> not_ready s0 ->
  outcome op s0 (op_effect now op s0) s' new ->
  checkpoint_inv s' /\ not_ready s' /\
  (op <> OpResetTimers -> has_live_timer s0 \/ is_queue op = true -> has_live_timer s').
Proof.
  intros Hroom Hinv Hrest Hout.
  destruct (effect_inv now op s0 Hroom Hinv) as [Hfull Hcore].
  assert (Hreset : op = OpResetTimers -> op_effect now op s0 = s0 <| StreamTimerTokens := ∅ |>) by by intros ->.
  assert (Hmove : forall s, checkpoint_inv s /\ checkpoint_rest s -> same_checkpoint s s' ->
    checkpoint_inv s' /\ not_ready s' /\
    (op <> OpResetTimers -> has_live_timer s0 \/ is_queue op = true -> has_live_timer s')).
  { intros s [H1 H2] Hs. destruct (checkpoint_rest_same _ _ Hs H2). split; [|done]. by eapply checkpoint_inv_same. }
  generalize dependent (op_effect now op s0). intros s Hout Hfull Hcore Hreset.
  destruct Hout as [Hop Hq -> Hs|Hop Hs|Hop Hq Hharm Hn Ht Hs|Hop Hharm Hn ->|Hop Hs|Hf Hs|pending Hop Hp Hr Hs].
  - split; [by eapply checkpoint_inv_same|]. split.
    { destruct Hs as [_ H2 _ _ H5 _ _]. unfold not_ready. by rewrite H2, H5. }
    intros _ [Ht|]; [|congruence]. destruct Hs as [_ _ _ _ H5 H6 H7]. unfold has_live_timer. by rewrite H5, H6, H7.
  - rewrite (Hreset Hop) in Hs. split; [eapply checkpoint_inv_same; [done|]; destruct Hinv; by split|].
    split; [|done]. destruct Hs as [_ H2 _ _ H5 _ _]. unfold not_ready. by rewrite H2, H5.
  - split; [by eapply checkpoint_inv_same, Hfull|]. destruct Hs as [_ H2 _ _ H5 H6 H7].
    split; [unfold not_ready; by rewrite H2, H5|]. intros _ [Hl|]; [|congruence].
    unfold has_live_timer. rewrite H5, H6, H7. by destruct Ht as [(-> & -> & ->)| ->].
  - apply (Hmove (start_checkpoint_timer s)); [|done]. by apply start_timer_rest, Hfull.
  - by eapply Hmove, Hs; apply checkpoint_empty.
  - by eapply Hmove, Hs; apply checkpoint_empty.
  - by eapply Hmove, Hs; apply checkpoint_unpend.
Qed.

(** The terminal actions a log has run. *)
Definition terminals (log : list Call) : list Call :=
  List.filter (fun c => match c with CallTerminal _ => true | _ => false end) log.

(** The terminal action that is pending once an operation has taken effect. *)
Definition owed (op : CheckpointOp) (s : CheckpointStream) : list Call :=
  match op with
  | OpQueue _ checkpointTerminalActionNone => pending_calls s
  | OpQueue _ terminal => terminal_calls terminal
  | OpDiscard => []
  | _ => pending_calls s
  end.

Lemma terminals_calls t : terminals (terminal_calls t) = terminal_calls t.
Proof. by destruct t. Qed.

Lemma terminals_app l1 l2 : terminals (l1 ++ l2) = terminals l1 ++ terminals l2.
Proof. apply List.filter_app. Qed.

Lemma pending_calls_same s s' : same_checkpoint s s' -> pending_calls s' = pending_calls s.
Proof. intros H. unfold pending_calls. by rewrite (sc_pending _ _ H). Qed.

Lemma effect_pending_calls now op s :
  op <> OpDiscard -> pending_calls (op_effect now op s) = owed op s.
Proof.
  intros Hop. unfold op_effect, owed. destruct op as [projection terminal|id rejected|token| |]; [..|done|done].
  - destruct (queue_register_spec now projection terminal s) as (E & _).
    unfold pending_calls at 1. rewrite E. cbn. unfold inherited_terminal, pending_calls.
    by destruct terminal, (PendingCheckpoint s).
  - case_match; [|done]. by destruct rejected.
  - by case_match.
Qed.

(** The blob keys an operation confirms. *)
Definition accepted (op : CheckpointOp) (s : CheckpointStream) : gset string :=
  match op with
  | OpBlobResult id false =>
      match PendingCheckpointBlobWrites s !! id with
      | Some write => {[ Key write ]}
      | None => ∅
      end
  | _ => ∅
  end.

Lemma effect_confirmed now op s :
  ConfirmedCheckpointBlobs (op_effect now op s) = accepted op s ∪ ConfirmedCheckpointBlobs s.
Proof.
  unfold op_effect, accepted. destruct op as [projection terminal|id rejected|token| |].
  - destruct (queue_register_spec now projection terminal s) as (_ & _ & _ & E & _).
    rewrite E. set_solver.
  - destruct (_ !! id); destruct rejected; simpl; set_solver.
  - case_match; simpl; by rewrite union_empty_l_L.
  - set_solver.
  - simpl. set_solver.
Qed.

Definition run_checkpoint_ops (now : Z) (ops : list CheckpointOp) (w : World) : World :=
  fold_left (fun w op => (run_checkpoint_op now op w).2) ops w.

(** What accepting one blob does. *)
Lemma accept_step now id (w : World) :
  let w' := (run_checkpoint_op now (OpBlobResult id false) w).2 in
  exists new, calls w' = calls w ++ new /\
    ((PendingCheckpoint (cs w') = PendingCheckpoint (cs w) /\
      PendingCheckpointBlobWrites (cs w') = delete id (PendingCheckpointBlobWrites (cs w))) \/
     PendingCheckpoint (cs w') = None /\ exists pending confirmed rest,
       PendingCheckpoint (cs w) = Some pending /\
       new = CallCheckpoint (PendingState pending) (Required pending) confirmed :: rest).
Proof.
  cbv zeta. destruct (run_op_outcome now (OpBlobResult id false) w) as (new & Hc & Hout).
  exists new. split; [done|]. clear Hc.
  assert (He : PendingCheckpoint (op_effect now (OpBlobResult id false) (cs w)) =
      PendingCheckpoint (cs w) /\
    PendingCheckpointBlobWrites (op_effect now (OpBlobResult id false) (cs w)) =
      delete id (PendingCheckpointBlobWrites (cs w))).
  { unfold op_effect. destruct (_ !! id) eqn:E; [done|]. by rewrite delete_id. }
  generalize dependent (op_effect now (OpBlobResult id false) (cs w)). intros s Hout [E1 E2].
  rewrite <- E1, <- E2.
  destruct Hout as [Hop Hq E Hs|E Hs|Hop Hq Hharm Hn Ht Hs|Hop Hharm Hn Hs|E Hs|Hf Hs|pending Hop Hp Hr Hs].
  - left. by destruct Hs.
  - done.
  - left. by destruct Hs.
  - left. rewrite Hs. unfold start_checkpoint_timer. by destruct (scheduleStreamTimer _ _) as [[] ?].
  - done.
  - done.
  - right. split; [by destruct Hs|]. by repeat eexists.
Qed.

Lemma accepts_without_pending now ids (w : World) :
  PendingCheckpoint (cs w) = None ->
  let w' := run_checkpoint_ops now (map (fun id => OpBlobResult id false) ids) w in
  PendingCheckpoint (cs w') = None /\ exists new, calls w' = calls w ++ new.
Proof.
  revert w. induction ids as [|id ids IH]; intros w Hw; simpl.
  { split; [done|]. exists []. by rewrite app_nil_r. }
  destruct (accept_step now id w) as (new & Hc & Hs). simpl in Hc, Hs.
  destruct (IH (handleCheckpointBlobResult now id false w).2) as (H1 & new' & H2).
  { destruct Hs as [[-> _]|[-> _]]; done. }
  split; [done|]. exists (new ++ new'). etrans; [exact H2|]. by rewrite Hc, app_assoc.
Qed.

(** The terminal action an operation brings, and the one it gives up. *)
Definition handed (op : CheckpointOp) : list Call :=
  match op with OpQueue _ terminal => terminal_calls terminal | _ => [] end.

Definition dropped (op : CheckpointOp) (s : CheckpointStream) : list Call :=
  match op with
  | OpQueue _ checkpointTerminalActionNone => []
  | OpQueue _ _ | OpDiscard => pending_calls s
  | _ => []
  end.

Fixpoint dropped_in (now : Z) (ops : list CheckpointOp) (w : World) : list Call :=
  match ops with
  | [] => []
  | op :: ops => dropped op (cs w) ++ dropped_in now ops (run_checkpoint_op now op w).2
  end.

Lemma owed_balance op s : owed op s ++ dropped op s ≡ₚ pending_calls s ++ handed op.
Proof. destruct op as [projection []| | | |]; simpl; rewrite ?app_nil_r; done || apply Permutation_cons_append. Qed.

(** What an operation runs and what it leaves pending are what it owes. *)
Lemma terminal_step now op (w : World) :
  terminals (calls (run_checkpoint_op now op w).2) ++
    pending_calls (cs (run_checkpoint_op now op w).2) =
  terminals (calls w) ++ owed op (cs w).
Proof.
  destruct (run_op_outcome now op w) as (new & -> & Hout).
  rewrite terminals_app, <- app_assoc. f_equal.
  assert (Howed := effect_pending_calls now op (cs w)).
  generalize dependent (op_effect now op (cs w)). intros s Hout Howed.
  assert (Hkeep : op <> OpDiscard -> same_checkpoint s (cs (run_checkpoint_op now op w).2) ->
    pending_calls (cs (run_checkpoint_op now op w).2) = owed op (cs w)).
  { intros Hop Hs. rewrite (pending_calls_same _ _ Hs). auto. }
  destruct Hout as [Hop Hq E Hs|E Hs|Hop Hq Hharm Hn Ht Hs|Hop Hharm Hn Hs|E Hs|Hf Hs|pending Hop Hp Hr Hs]; simpl.
  - auto.
  - apply Hkeep; [by rewrite E|done].
  - auto.
  - rewrite <- Howed, Hs by done. unfold start_checkpoint_timer, pending_calls.
    by destruct (scheduleStreamTimer _ _) as [[] ?].
  - rewrite (pending_calls_same _ _ Hs). by rewrite E.
  - rewrite (pending_calls_same _ _ Hs), app_nil_r, <- Howed by (by intros ->).
    unfold pending_calls. by case_match; rewrite ?terminals_calls.
  - rewrite (pending_calls_same _ _ Hs), app_nil_r, <- Howed by done.
    unfold pending_calls. by rewrite Hp, terminals_calls.
Qed.

(** ** Properties *)

(** C28: a pending checkpoint is never stuck.  Every operation (a projection queued, a blob
    accepted or rejected, the timeout, a discard, the reset of the timers by a new run of the
    request), whatever the broker answers, leaves the stream either without a pending
    checkpoint or with one that lacks a confirmed blob, each missing blob having its own write
    in flight; and every operation but the reset keeps a timer whose event will still be
    accepted.  The reset forgets the token of that timer; the next projection queued, such as
    the one of the new run, arms another one, whatever the timers were before. *)
Theorem checkpoint_never_stuck now op (w : World) :
  op_room op (cs w) -> checkpoint_inv (cs w) -> not_ready (cs w) ->
  checkpoint_inv (cs (run_checkpoint_op now op w).2) /\
  not_ready (cs (run_checkpoint_op now op w).2) /\
  (op <> OpResetTimers -> has_live_timer (cs w) \/ is_queue op = true ->
   has_live_timer (cs (run_checkpoint_op now op w).2)).
Proof.
  intros Hroom Hinv Hrest. destruct (run_op_outcome now op w) as (new & _ & Hout).
  by eapply outcome_keeps_inv.
Qed.

(** C5: every terminal action is accounted for exactly once.  Over any sequence of operations,
    whatever the broker answers, the terminal actions that were pending or handed over are
    exactly those that ran, the one that is still pending and those that were dropped; an
    action is dropped only by a discard, or by a newer terminal action that replaces it
    before its checkpoint is published.  A publish error, a rejected blob, a timeout, a
    projection without an action and a reset of the timers lose no action and repeat none. *)
Theorem terminal_action_exactly_once now ops (w : World) :
  terminals (calls w) ++ pending_calls (cs w) ++ concat (map handed ops) ≡ₚ
  terminals (calls (run_checkpoint_ops now ops w)) ++
    pending_calls (cs (run_checkpoint_ops now ops w)) ++ dropped_in now ops w.
Proof.
  revert w. induction ops as [|op ops IH]; intros w; [done|]. cbn [map concat dropped_in].
  change (run_checkpoint_ops now (op :: ops) w) with (run_checkpoint_ops now ops (run_checkpoint_op now op w).2).
  rewrite (app_assoc (pending_calls _)), <- (owed_balance op (cs w)).
  transitivity (dropped op (cs w) ++ (terminals (calls w) ++ owed op (cs w)) ++ concat (map handed ops)).
  { rewrite <- !app_assoc. solve_Permutation. }
  rewrite <- (terminal_step now op w), <- app_assoc, (IH _). solve_Permutation.
Qed.

(** C11: a checkpoint is published only after the client stored every blob it requires.
    Every checkpoint an operation publishes requires only confirmed blobs, and a blob
    becomes confirmed only when the client accepts the write in flight for it; no operation
    ever forgets a confirmed blob. *)
Theorem checkpoint_needs_accepts now op (w : World) :
  let w' := (run_checkpoint_op now op w).2 in
  ConfirmedCheckpointBlobs (cs w') = accepted op (cs w) ∪ ConfirmedCheckpointBlobs (cs w) /\
  exists new, calls w' = calls w ++ new /\
  forall state required confirmed, CallCheckpoint state required confirmed ∈ new ->
      required ⊆ ConfirmedCheckpointBlobs (cs w').
Proof.
  cbv zeta. destruct (run_op_outcome now op w) as (new & Hc & Hout).
  rewrite <- (effect_confirmed now op (cs w)).
  generalize dependent (op_effect now op (cs w)). intros s Hout.
  assert (Hterm : forall t state required confirmed,
    CallCheckpoint state required confirmed ∉ terminal_calls t).
  { intros t state required confirmed H. destruct t; simpl in H; set_solver. }
  assert (Hs : ConfirmedCheckpointBlobs (cs (run_checkpoint_op now op w).2) =
    ConfirmedCheckpointBlobs s).
  { destruct Hout as [? ? ? Hs|? Hs|? ? ? ? ? Hs|? ? ? ->|? Hs|? Hs|? ? ? ? Hs]; try by destruct Hs.
    unfold start_checkpoint_timer. by destruct (scheduleStreamTimer _ _) as [[] ?]. }
  rewrite Hs. split; [done|]. exists new. split; [done|]. intros state required confirmed Hin.
  destruct Hout as [| | | | |Hf _|pending Hop Hp Hr _]; try by apply elem_of_nil in Hin.
  - unfold pending_calls in Hin. case_match; [by apply Hterm in Hin|by apply elem_of_nil in Hin].
  - apply elem_of_cons in Hin as [[= -> -> ->]|Hin]; [done|by apply Hterm in Hin].
Qed.

(** C32: a pending checkpoint is published once the client stored its blobs.  From a stream
    whose pending checkpoint waits for blobs, accepting the writes in flight, in any order
    and whatever the broker answers, publishes that checkpoint and leaves none pending. *)
Theorem checkpoint_published_when_stored now ids (w : World) pending :
  checkpoint_inv (cs w) -> checkpoint_rest (cs w) -> PendingCheckpoint (cs w) = Some pending ->
  (forall id, is_Some (PendingCheckpointBlobWrites (cs w) !! id) -> id ∈ ids) ->
  let w' := run_checkpoint_ops now (map (fun id => OpBlobResult id false) ids) w in
  PendingCheckpoint (cs w') = None /\ exists confirmed,
    CallCheckpoint (PendingState pending) (Required pending) confirmed ∈ calls w'.
Proof.
  revert w. induction ids as [|id ids IH]; intros w Hinv Hrest Hp Hids; simpl.
  - exfalso. apply (cr_waits _ Hrest pending Hp). intros key Hkey.
    destruct (decide (key ∈ ConfirmedCheckpointBlobs (cs w))) as [|Hn]; [done|].
    destruct (ck_missing _ Hinv pending key Hp Hkey Hn) as (id & write & Hw & _).
    assert (Hin := Hids id ltac:(by eexists)). by apply elem_of_nil in Hin.
  - destruct (run_op_outcome now (OpBlobResult id false) w) as (new0 & _ & Hout).
    destruct (outcome_keeps_inv now (OpBlobResult id false) (cs w) _ _ I Hinv (cr_waits _ Hrest) Hout)
      as (Hinv' & Hwaits & Htimer).
    assert (Hrest' : checkpoint_rest (cs (run_checkpoint_op now (OpBlobResult id false) w).2))
      by (split; [done|apply Htimer; [done|left; apply Hrest]]).
    destruct (accept_step now id w) as (new & Hc & Hs). simpl in Hc, Hs, Hinv', Hrest'.
    destruct Hs as [[E1 E2]|[E1 (pending' & confirmed & rest & Hp' & ->)]].
    + apply IH; [done|done|by rewrite E1|]. intros i. rewrite E2. intros [x Hx].
      apply lookup_delete_Some in Hx as [Hne Hx].
      assert (Hin := Hids i ltac:(by eexists)). apply elem_of_cons in Hin as [->|]; done.
    + destruct (accepts_without_pending now ids _ E1) as (H1 & new' & H2).
      split; [exact H1|]. exists confirmed. cbv zeta in H2.
      eapply (eq_ind_r (fun l => _ ∈ l)); [|exact H2]. rewrite Hc.
      rewrite Hp in Hp'. injection Hp' as <-. set_solver.
Qed.

(** the terminal action ends the stream.  Against any broker that keeps the laws of
    [StreamPublisherLaws], a terminal action of the stream's own request that returns without
    an error, run when no other terminal action was claimed, leaves the stream ended; when it
    was live, its phase becomes terminal, and a turn that succeeded is claimed. *)
Theorem terminal_action_ends `{!StreamPublisherLaws B} now terminal (w w' : World) :
  match terminal with
  | checkpointTerminalActionNone => False
  | checkpointTerminalActionComplete completion =>
      CompletionRequestID completion = StreamRequestID (cs w)
  | checkpointTerminalActionFail _ _ => True
  end ->
  TrimSpace (StreamRequestID (cs w)) = StreamRequestID (cs w) ->
  TerminalActionClaimed (cs w) = false ->
  finishCheckpointTerminalAction now terminal w = (Ok tt, w') ->
  stream_ended (StreamRequestID (cs w)) (broker w') = true /\
  (stream_ended (StreamRequestID (cs w)) (broker w) = false ->
   terminalPhase (StreamPhase (cs w')) = true).
Proof.
  intros Hown Htrim Hclaim. unfold finishCheckpointTerminalAction.
  destruct terminal as [|completion|code message]; [done|..]; unfold bind at 1, log_call; simpl.
  - unfold finishSuccessfulTurnAfterCheckpoint, claimTerminalEvent, bind. simpl. rewrite Hclaim.
    simpl. destruct (stream_ended (StreamRequestID (cs w)) (broker w)) eqn:Eended; simpl.
    { intros [= <-]. simpl. by rewrite Eended. }
    assert (Hrid : firstNonEmpty [TrimSpace (CompletionRequestID completion);
      TrimSpace (StreamRequestID (cs w))] = StreamRequestID (cs w)).
    { rewrite Hown, Htrim. unfold firstNonEmpty. rewrite Htrim. by case_decide. }
    unfold with_broker. simpl. simpl in Hrid. rewrite Hrid.
    destruct (publish_message _ _ _ _) as [[[]|e] b1]; simpl; [|done].
    destruct (complete_stream now (StreamRequestID (cs w)) b1) as [r b2] eqn:Ec.
    pose proof (complete_ends now (StreamRequestID (cs w)) b1) as Hend. rewrite Ec in Hend.
    destruct r as [[]|e]; simpl; [|done]. intros [= <-]. simpl. auto.
  - unfold finishFailedTurnAfterCheckpoint, try, with_broker, bind. simpl.
    destruct (fail_stream now (StreamRequestID (cs w)) code message (broker w)) as [r b] eqn:Ef.
    pose proof (fail_ends now (StreamRequestID (cs w)) code message (broker w)) as Hend.
    rewrite Ef in Hend. simpl. intros [= -> <-]. simpl. auto.
Qed.

End Operations.

End Checkpoint.

#[export] Existing Instances eta_checkpoint_stream eta_world.
Arguments CheckpointMessage : clear implicits.
Arguments CheckpointStream : clear implicits.

(** ** The broker of Broker.v as a [StreamPublisher] *)

Section BrokerPublisher.
Context {State : Type}.
Notation Br := (@StreamBroker (CheckpointMessage State)).

#[export] Instance broker_publisher : @StreamPublisher State Br := {
  publish_message now rid m b := Publish now rid (mkEvent (Some m) false EmptyString EmptyString) b;
  complete_stream now rid b := Complete now rid EmptyString EmptyString b;
  fail_stream now rid code message b := Fail now rid code message b;
  stream_ended rid b := stream_terminal rid b
}.

Lemma keeps_stream_terminal rid st (b : Br) :
  isTerminalStreamStatus st = true -> keeps_status (TrimSpace rid) st b ->
  stream_terminal rid b = true.
Proof.
  unfold keeps_status, stream_terminal, Get. intros Hst Hb.
  destruct (streams b !! TrimSpace rid); [by rewrite Hb|done].
Qed.

(** After an attempt to finish a stream there is no live stream of that request. *)
Lemma finish_terminal now rid t (b : Br) : stream_terminal rid (finish now rid t b).2 = true.
Proof.
  destruct (stream_terminal rid b) eqn:Eb.
  - unfold stream_terminal, Get in Eb. destruct (streams b !! TrimSpace rid) as [s|] eqn:Es.
    + apply (keeps_stream_terminal rid (Status s)); [done|]. apply keeps_status_finish; [done|].
      unfold keeps_status. by rewrite Es.
    + unfold finish, claim_terminal, stream_terminal, Get. rewrite Es. simpl. by rewrite Es.
  - unfold stream_terminal, Get in Eb. destruct (streams b !! TrimSpace rid) as [s|] eqn:Es; [|done].
    unfold finish, claim_terminal, Get. rewrite Es, Eb. cbv beta iota zeta.
    set (s1 := _ <| UpdatedAt := now |>). set (b1 := set_stream (TrimSpace rid) s1 b).
    assert (Ht1 : isTerminalStreamStatus (Status s1) = true)
      by apply (terminal_stream_terminal t (stopTerminalCleanupTimerLocked s)).
    assert (H1 : keeps_status (TrimSpace rid) (Status s1) b1).
    { unfold keeps_status, b1. simpl. by rewrite lookup_insert_eq. }
    pose proof (keeps_status_publish now _ _ b1 rid (terminal_event t) H1) as H2.
    destruct (Publish now rid (terminal_event t) b1) as [[] b2]; cbn [snd] in *;
      [|by eapply keeps_stream_terminal].
    case_match; cbn [snd]; (eapply keeps_stream_terminal; [done|]);
      [by apply keeps_status_schedule|done].
Qed.

#[export] Instance broker_publisher_laws : @StreamPublisherLaws State Br broker_publisher.
Proof.
  split.
  - intros now rid m b. cbn. unfold Publish, stream_terminal.
    destruct (Get rid b) as [s|] eqn:Hs; simpl; [|by rewrite Hs].
    rewrite Get_set_stream. by rewrite publish_status.
  - intros now rid b _. apply finish_terminal.
  - intros now rid code message b _. apply finish_terminal.
Qed.

End BrokerPublisher.

(** ** A concrete run *)

Module Demo.

Notation DemoWorld := (@World string (@StreamBroker (CheckpointMessage string))).

Definition demo_completion : pendingTurnCompletion := 
  mkCompletion "c" "r" 1 "call" 1 empty_usage completionDispositionCompleteAfterExternal.

(** The stream of request [r], opened and without blobs. *)
Definition demo0 : DemoWorld :=
  mkWorld (mkCheckpointStream "r" PhaseUnset false ∅ ∅ 0 0 None ∅ [])
    (OpenStream 0 "r" "c" 1 "m" "m" MODE_AGENT "hi" NewStreamBroker).2 [].

Definition demo_queue : CheckpointOp :=
  OpQueue (mkProjection "state" [mkBlob "a" []; mkBlob "b" []; mkBlob "a" []])
    (checkpointTerminalActionComplete demo_completion).

Definition demo1 : DemoWorld := (run_checkpoint_op 5 demo_queue demo0).2.

Lemma demo0_inv : checkpoint_inv (cs demo0) /\ checkpoint_rest (cs demo0).
Proof. split; split; unfold has_live_timer; simpl; try done; intros *; rewrite lookup_empty; done. Qed.

Lemma demo1_inv : checkpoint_inv (cs demo1) /\ checkpoint_rest (cs demo1).
Proof.
  destruct demo0_inv as [H1 H2]. destruct (run_op_outcome 5 demo_queue demo0) as (new & _ & Hout).
  destruct (outcome_keeps_inv 5 demo_queue (cs demo0) _ new ltac:(vm_compute; discriminate) H1 (cr_waits _ H2) Hout)
    as (H3 & H4 & H5).
  split; [done|]. split; [done|]. apply H5; [done|by right].
Qed.

(** A new run of the request resets the timers and queues its own projection. *)
Definition demo_rerun : DemoWorld := (run_checkpoint_op 9 OpResetTimers demo1).2.

Lemma demo_rerun_inv : checkpoint_inv (cs demo_rerun) /\ not_ready (cs demo_rerun).
Proof.
  destruct demo1_inv as [H1 H2]. destruct (run_op_outcome 9 OpResetTimers demo1) as (new & _ & Hout).
  by destruct (outcome_keeps_inv 9 OpResetTimers (cs demo1) _ new I H1 (cr_waits _ H2) Hout) as (H3 & H4 & _).
Qed.

Lemma checkpoint_never_stuck_witness :
  has_live_timer (cs (run_checkpoint_op 9 (OpTimer 7) demo1).2) /\
  has_live_timer (cs (run_checkpoint_op 9 demo_queue demo_rerun).2).
Proof.
  split.
  - destruct demo1_inv as [H1 [H2 H3]].
    apply (checkpoint_never_stuck 9 (OpTimer 7) demo1); [exact I|done|done|discriminate|by left].
  - apply (checkpoint_never_stuck 9 demo_queue demo_rerun); [|apply demo_rerun_inv..|discriminate|by right].
    vm_compute. discriminate.
Defined.

(** A run that finds nothing new to do resets the timers and queues nothing: the pending checkpoint, and
    the end of the turn behind it, then wait for the client alone, as the event of the timer is stale. *)
Example reset_strands_the_timer :
  let w := (run_checkpoint_op 9 (OpTimer 1) demo_rerun).2 in
  timer_events (cs demo_rerun) = [(checkpointTimerKey, 1)] /\
  calls w = [] /\ PendingCheckpoint (cs w) = PendingCheckpoint (cs demo1) /\ PendingCheckpoint (cs w) <> None.
Proof. vm_compute. split_and!; done. Qed.

(** The end of a turn that waits for its checkpoint is replaced by a failure, which is what runs. *)
Example replaced_completion :
  let fail := checkpointTerminalActionFail "unknown" "boom" in
  let ops := [demo_queue; OpQueue (mkProjection "state" []) fail] in
  dropped_in 5 ops demo0 = [CallTerminal (checkpointTerminalActionComplete demo_completion)] /\
  terminals (calls (run_checkpoint_ops 5 ops demo0)) = [CallTerminal fail].
Proof. vm_compute. split; reflexivity. Qed.

Lemma checkpoint_published_when_stored_witness :
  exists confirmed, CallCheckpoint "state" {[ "a"; "b" ]} confirmed ∈
    calls (run_checkpoint_ops 9 [OpBlobResult 2 false; OpBlobResult 1 false] demo1).
Proof.
  destruct (PendingCheckpoint (cs demo1)) as [pending|] eqn:Hp; [|by vm_compute in Hp].
  assert (Hreq : Required pending = {[ "a"; "b" ]} /\ PendingState pending = "state").
  { vm_compute in Hp. injection Hp as <-. split; [|done]. by vm_compute. }
  destruct Hreq as [Hreq Hst].
  destruct (checkpoint_published_when_stored 9 [2; 1] demo1 pending) as [_ [confirmed H]].
  - apply demo1_inv.
  - apply demo1_inv.
  - exact Hp.
  - intros id [write Hw].
    assert (Hd : dom (PendingCheckpointBlobWrites (cs demo1)) = {[ 1; 2 ]}) by by vm_compute.
    apply elem_of_dom_2 in Hw. rewrite Hd in Hw. clear -Hw. set_solver.
  - exists confirmed. rewrite Hreq, Hst in H. exact H.
Defined.

Lemma terminal_action_ends_witness :
  exists w', finishCheckpointTerminalAction 9 (checkpointTerminalActionComplete demo_completion)
               demo0 = (Ok tt, w') /\
    stream_ended (StreamRequestID (cs demo0)) (broker w') = true.
Proof.
  destruct (finishCheckpointTerminalAction 9 (checkpointTerminalActionComplete demo_completion)
    demo0) as [r w'] eqn:E.
  assert (r = Ok tt) as -> by (apply (f_equal fst) in E; by vm_compute in E).
  exists w'. split; [done|].
  refine (proj1 (terminal_action_ends 9 (checkpointTerminalActionComplete demo_completion)
    demo0 w' _ _ _ E)); by vm_compute.
Defined.

End Demo.
