(* ===== verification/Turn.v ===== *)
(** * The turn loop of a stream (forwarder/actor.go; service.go, compaction.go and
    interaction_tools.go where the actor calls them).

    The actor of a stream handles one command at a time: a run, a cancellation, an event of the
    provider pass in flight, the result of an exec or of an interaction, a timer, the end of a
    compaction.  [World] holds the fields of the stream the loop works on and, as ghosts, what
    runs beside it: the provider passes and the compaction summaries whose goroutine has not
    posted its end, and the timers that have not fired.  What other components answer (history,
    store, publication, checkpoint, compilation, the tools) comes from the [env_] lists; an
    exhausted list answers success. *)

From S2P Require Import Prelude Go Modes Timers Completion Effect.

(** ** Data *)

Inductive providerAction :=
| providerActionNone
| providerActionStart
| providerActionResume.

#[export] Instance providerAction_eq_dec : EqDecision providerAction.
Proof. solve_decision. Defined.

Definition streamTimerProviderResume : string := "provider_resume".
Definition streamTimerNonStreamingRecovery : string := "non_streaming_recovery".
Definition streamTimerShellForeground : string := "shell_foreground".
Definition streamTimerShellDispatch : string := "shell_dispatch".
Definition streamTimerShellTransportClose : string := "shell_transport_close".
Definition streamTimerOrphanCancel : string := "orphan_cancel".

Record providerReasoningPayload := mkReasoning {
  Content : string;
  Signature : string;
  SignatureSource : string;
  ItemID : string;
  ReasoningStatus : string;
  Summary : string
}.

Definition no_reasoning : providerReasoningPayload :=
  mkReasoning EmptyString EmptyString EmptyString EmptyString EmptyString EmptyString.

#[export] Instance eta_reasoning : Eta providerReasoningPayload := fun r =>
  mkReasoning (Content r) (Signature r) (SignatureSource r) (ItemID r) (ReasoningStatus r) (Summary r).

(** A pending exec as the loop sees it: its kind, and whether its transport closed. *)
Record Exec := mkExec { Kind : string; Closed : bool }.

(** [isHiddenPatchEditExecKind] and [isHiddenWriteExecKind]: the steps of an edit. *)
Definition isHiddenExecKind (kind : string) : bool :=
  bool_decide (TrimSpace kind ∈ ["patch_edit_read"; "patch_edit_write"; "patch_edit_post_read";
                                 "write_read"; "write_write"; "write_post_read"]).

Definition isShell (pending : Exec) : bool := bool_decide (TrimSpace (Kind pending) = "shell").

(** What a client message says about an exec: whether it is about a known shell or an exec that ended lately,
    whether a shell event moves the state of the shell's stream, whether the shell is approved and running
    after it, whether the result is terminal, and the payload of a compaction hook. *)
Record ExecMessage := mkExecMessage {
  message_exec : string;
  message_stale : bool;
  message_signal : bool;
  message_running : bool;
  message_terminal : bool;
  message_hook : string
}.

(** [shell_over]: the shell has reported its end, or this close, before. *)
Inductive ControlMessage :=
| ControlHeartbeat
| ControlStreamClose (shell_over : bool)
| ControlThrow.

(** The parts of [PendingCompaction] the loop reads; [Manual] is [Trigger == manual]. *)
Record PendingCompaction := mkCompaction { Manual : bool; HookMessage : string }.

Record TurnStream := mkTurn {
  RequestID : string;
  ConversationID : string;
  TurnSeq : Z;
  CheckpointReady : bool;
  Status : StreamStatus;
  Phase : TurnPhase;
  TerminalActionClaimed : bool;
  ProviderActive : bool;
  PendingProviderAction : providerAction;
  PendingProviderCompletion : option pendingTurnCompletion;
  PendingExecs : gmap string Exec;
  PendingInteractions : gset string;
  Compaction : option PendingCompaction;
  ManualCompaction : bool;
  ProviderPassCount : Z;
  CurrentProviderToken : Z;
  CurrentCompactionToken : Z;
  CurrentModelCallID : string;
  ProviderAccumulatedText : string;
  ProviderAccumulatedReasoning : providerReasoningPayload;
  ProviderSyntheticThinkingPublished : bool;
  ProviderFinishReason : string;
  ProviderUsage : turnUsageSnapshot;
  ToolInvocationCount : Z;
  ProviderTerminalToolInvocation : bool;
  Tokens : TimerTokens
}.

#[export] Instance eta_turn : Eta TurnStream := fun s =>
  mkTurn (RequestID s) (ConversationID s) (TurnSeq s) (CheckpointReady s) (Status s) (Phase s)
    (TerminalActionClaimed s) (ProviderActive s) (PendingProviderAction s)
    (PendingProviderCompletion s) (PendingExecs s) (PendingInteractions s) (Compaction s)
    (ManualCompaction s) (ProviderPassCount s) (CurrentProviderToken s) (CurrentCompactionToken s)
    (CurrentModelCallID s) (ProviderAccumulatedText s) (ProviderAccumulatedReasoning s)
    (ProviderSyntheticThinkingPublished s) (ProviderFinishReason s) (ProviderUsage s)
    (ToolInvocationCount s) (ProviderTerminalToolInvocation s) (Tokens s).

(** What a tool invocation leaves behind: execs and interactions to wait for, or nothing;
    [terminal] is [markProviderTerminalToolInvocation]. *)
Record ToolOutcome := mkOutcome {
  opened_execs : list (string * Exec);
  opened_interactions : list string;
  terminal_tool : bool
}.

(** What [handleSubagentEmptyStopAfterToolResult] finds in the conversation. *)
Inductive SubagentState :=
| NotSubagent
| SubagentRecovers
| SubagentRecoveredBefore.

(** The ghost log. *)
Inductive TurnEffect :=
| EffectLaunch (token pass : Z)
| EffectSummarize (token : Z)
| EffectFlush (text : string)
| EffectTool (text : string) (reasoning : providerReasoningPayload)
| EffectEnded (completion : pendingTurnCompletion)
| EffectFailed (code : string)
| EffectCanceled.

Record World := mkWorld {
  turn : TurnStream;
  passes : gset Z;
  summaries : gset Z;
  timers : gset (string * Z);
  checkpoint_terminal : option pendingTurnCompletion;
  log : list TurnEffect;
  env_services : list (result unit);
  env_plans : list (result (option PendingCompaction));
  env_tools : list (result ToolOutcome);
  env_subagent : list (result SubagentState);
  env_ids : list string
}.

#[export] Instance eta_world : Eta World := fun w =>
  mkWorld (turn w) (passes w) (summaries w) (timers w) (checkpoint_terminal w) (log w)
    (env_services w) (env_plans w) (env_tools w) (env_subagent w) (env_ids w).

Section Turn.
(** The usage snapshot a pass starts with: its number, timings and estimates. *)
Context (prepared : TurnStream -> turnUsageSnapshot).

(** ** The monad *)

Notation M := (SE World).

Definition get : M TurnStream := fun w => (Ok (turn w), w).
Definition update (f : TurnStream -> TurnStream) : M unit := fun w => (Ok tt, w <| turn := f (turn w) |>).
Definition raise {A} (e : string) : M A := fun w => (Err e, w).
Definition emit (e : TurnEffect) : M unit := fun w => (Ok tt, w <| log := log w ++ [e] |>).

(** A call of another component that may fail. *)
Definition service : M unit := fun w =>
  match env_services w with
  | [] => (Ok tt, w)
  | r :: rest => (r, w <| env_services := rest |>)
  end.

(** A call whose error the code drops. *)
Definition ignored (m : M unit) : M unit := _ <- try m ;; ret tt.

Definition build_plan : M (option PendingCompaction) := fun w =>
  match env_plans w with
  | [] => (Ok None, w)
  | r :: rest => (r, w <| env_plans := rest |>)
  end.

Definition tool_outcome : M ToolOutcome := fun w =>
  match env_tools w with
  | [] => (Ok (mkOutcome [] [] false), w)
  | r :: rest => (r, w <| env_tools := rest |>)
  end.

Definition subagent_state : M SubagentState := fun w =>
  match env_subagent w with
  | [] => (Ok NotSubagent, w)
  | r :: rest => (r, w <| env_subagent := rest |>)
  end.

(** [uuid.NewString()], and the identifiers of execs. *)
Definition new_id : M string := fun w =>
  match env_ids w with
  | [] => (Ok EmptyString, w)
  | id :: rest => (Ok id, w <| env_ids := rest |>)
  end.

(** [go service.runProviderStream], [go service.runPendingCompaction]. *)
Definition launch_pass (token pass : Z) : M unit := fun w =>
  (Ok tt, w <| passes := passes w ∪ {[token]} |> <| log := log w ++ [EffectLaunch token pass] |>).

Definition launch_summary (token : Z) : M unit := fun w =>
  (Ok tt, w <| summaries := summaries w ∪ {[token]} |> <| log := log w ++ [EffectSummarize token] |>).

Definition schedule (key : string) : M unit := fun w =>
  match scheduleStreamTimer key (Tokens (turn w)) with
  | (Some token, tokens) =>
      (Ok tt, w <| turn := turn w <| Tokens := tokens |> |> <| timers := timers w ∪ {[(key, token)]} |>)
  | (None, tokens) => (Ok tt, w <| turn := turn w <| Tokens := tokens |> |>)
  end.

(** ** Phases, terminals *)

Definition setTurnPhase (phase : TurnPhase) : M unit := update (fun s => s <| Phase := phase |>).

Definition shouldStopStreamActor (s : TurnStream) : bool :=
  isTerminalStreamStatus (Status s) || terminalPhase (Phase s).

Definition claimTerminalEvent : M bool := fun w =>
  let s := turn w in
  if TerminalActionClaimed s || isTerminalStreamStatus (Status s) then (Ok false, w)
  else (Ok true, w <| turn := s <| TerminalActionClaimed := true |> |>).

(** [broker.Complete], [Fail], [Cancel]: the status is claimed once, then the end event is
    published. *)
Definition broker_finish (status : StreamStatus) (e : TurnEffect) : M unit :=
  s <- get ;;
  if isTerminalStreamStatus (Status s) then ret tt
  else update (fun s => s <| Status := status |>) ;;; emit e ;;; service.

Definition finishSuccessfulTurnAfterCheckpoint (completion : pendingTurnCompletion) : M unit :=
  claimed <- claimTerminalEvent ;;
  if negb claimed then ret tt
  else
    service ;;;
    broker_finish StatusCompleted (EffectEnded completion) ;;;
    setTurnPhase PhaseCompleted.

Definition finishFailedTurnAfterCheckpoint (terminalCode : string) : M unit :=
  r <- try (broker_finish StatusFailed (EffectFailed terminalCode)) ;;
  setTurnPhase PhaseFailed ;;;
  (fun w => (r, w)).

Definition clearPendingProviderCompletion : M unit :=
  update (fun s => s <| PendingProviderCompletion := None |>).

(** The terminal action that waits for the pending checkpoint (Checkpoint.v). *)
Definition set_terminal (terminal : option pendingTurnCompletion) : M unit := fun w =>
  (Ok tt, w <| checkpoint_terminal := terminal |>).

Definition discardPendingCheckpoint : M unit := set_terminal None.

Definition failActiveStream (terminalCode : string) : M unit :=
  clearPendingProviderCompletion ;;;
  update (fun s => s <| ProviderActive := false |> <| PendingProviderAction := providerActionNone |>) ;;;
  ignored service ;;;
  discardPendingCheckpoint ;;;
  ignored service ;;;
  finishFailedTurnAfterCheckpoint terminalCode.

(** [failStream]; [resolveTerminalCode] without a coded cause. *)
Definition failStream (terminalCode : string) (cause : string) : M unit :=
  ignored service ;;;
  failActiveStream (firstNonEmpty [TrimSpace terminalCode; "unknown"]).

Definition failStreamIfNonTerminal (terminalCode : string) (cause : string) : M unit :=
  s <- get ;;
  if isTerminalStreamStatus (Status s) then ret tt else failStream terminalCode cause.

(** [if err := m; err != nil { return service.failStreamIfNonTerminal(stream, code, err) }]. *)
Definition or_fail (code : string) (m : M unit) (k : M unit) : M unit :=
  r <- try m ;;
  match r with Ok _ => k | Err e => failStreamIfNonTerminal code e end.

(** [if err := m; err != nil { setTurnPhase(Failed); return service.failStream(stream, ...) }]. *)
Definition or_failed (m : M unit) (k : M unit) : M unit :=
  r <- try m ;;
  match r with Ok _ => k | Err e => setTurnPhase PhaseFailed ;;; failStream "unknown" e end.

Definition completeSuccessfulTurn (completion : pendingTurnCompletion) : M unit :=
  service ;;;
  service ;;;
  service ;;;
  ignored service ;;;
  ignored service ;;;
  finishSuccessfulTurnAfterCheckpoint completion.

(** [publishCheckpointWithCompletion] with a completion: it runs when the checkpoint does. *)
Definition publishCheckpointWithCompletion (completion : pendingTurnCompletion) : M unit :=
  service ;;;
  set_terminal (Some completion).

(** ** Compaction *)

Definition executeHookPreCompact : string := "execute_hook_pre_compact".

Definition beginPendingCompaction (plan : PendingCompaction) : M unit :=
  service ;;;
  hook <- new_id ;;
  update (fun s => s <| Compaction := Some plan |> <| PendingProviderAction := providerActionNone |>
                     <| PendingExecs := <[hook := mkExec executeHookPreCompact false]> (PendingExecs s) |>
                     <| Phase := PhaseCompacting |>) ;;;
  service ;;;
  service ;;;
  service.

Definition manualCompactionTurnCompletion (s : TurnStream) : pendingTurnCompletion :=
  mkCompletion (TrimSpace (ConversationID s)) (TrimSpace (RequestID s)) (TurnSeq s)
    ("turn:" +:+ TrimSpace (RequestID s)) 0 empty_usage completionDispositionNone.

Definition completeManualCompactionTurn : M unit :=
  s <- get ;;
  if decide (TrimSpace (ConversationID s) = EmptyString) then ret tt
  else service ;;; service.

Definition publishSummaryCompleted : M unit :=
  s <- get ;;
  (if decide (TrimSpace (ConversationID s) = EmptyString) then ret tt else service ;;; service) ;;;
  service.

Definition finishManualCompactionNoop : M unit :=
  service ;;;
  service ;;;
  publishSummaryCompleted ;;;
  completeManualCompactionTurn ;;;
  s <- get ;;
  publishCheckpointWithCompletion (manualCompactionTurnCompletion s).

Definition maybeCompactBeforeProvider : M bool :=
  s <- get ;;
  plan <- build_plan ;;
  match plan with
  | None => if ManualCompaction s then finishManualCompactionNoop ;;; ret true else ret false
  | Some plan =>
      beginPendingCompaction (mkCompaction (ManualCompaction s) (HookMessage plan)) ;;; ret true
  end.

(** ** Driving the provider *)

Definition terminal_phase_of (status : StreamStatus) : TurnPhase :=
  match status with
  | StatusCompleted => PhaseCompleted
  | StatusCanceled => PhaseCanceled
  | _ => PhaseFailed
  end.

Definition driveProvider : M unit :=
  s <- get ;;
  if ProviderActive s || isTerminalStreamStatus (Status s) then ret tt
  else
    modelCallID <- new_id ;;
    update (fun s => s <| ProviderPassCount := ProviderPassCount s + 1 |>
                       <| Status := StatusStreaming |>
                       <| PendingProviderAction := providerActionNone |>
                       <| CurrentModelCallID := modelCallID |>
                       <| CurrentProviderToken := wrap_uint64 (CurrentProviderToken s + 1) |>
                       <| ProviderAccumulatedText := EmptyString |>
                       <| ProviderAccumulatedReasoning := no_reasoning |>
                       <| ProviderFinishReason := EmptyString |>
                       <| ProviderUsage := empty_usage |>
                       <| ToolInvocationCount := 0 |>) ;;;
    s <- get ;;
    or_failed service (or_failed service (or_failed service (or_failed service (
      compacted <- try maybeCompactBeforeProvider ;;
      match compacted with
      | Err e => setTurnPhase PhaseFailed ;;; failStream "unknown" e
      | Ok true =>
          update (fun s => s <| ProviderActive := false |>) ;;;
          s <- get ;;
          setTurnPhase (if isTerminalStreamStatus (Status s) then terminal_phase_of (Status s)
                        else match Compaction s with Some _ => PhaseCompacting | None => PhaseIdle end)
      | Ok false =>
          or_failed service (
            update (fun s => s <| ProviderActive := true |> <| ProviderUsage := prepared s |>) ;;;
            setTurnPhase PhaseProviderRunning ;;;
            launch_pass (CurrentProviderToken s) (ProviderPassCount s))
      end)))).

(** [hasPendingAwaitingUserInteraction]: [shouldAutoResumeAfterInteraction] is always true. *)
Definition shouldAutoResumeAfterInteraction (pending : string) : bool := true.

Definition hasPendingAwaitingUserInteraction (s : TurnStream) : bool :=
  existsb (fun pending => negb (shouldAutoResumeAfterInteraction pending))
    (elements (PendingInteractions s)).

Definition pendingBridgeCount (s : TurnStream) : nat :=
  size (PendingExecs s) + size (PendingInteractions s).

Definition reconcileStream : M unit :=
  s <- get ;;
  if isTerminalStreamStatus (Status s) then ret tt
  else if ProviderActive s then ret tt
  else if (0 <? pendingBridgeCount s)%nat then
    setTurnPhase (if hasPendingAwaitingUserInteraction s then PhaseAwaitingUser
                  else match Compaction s with Some _ => PhaseCompacting | None => PhaseWaitingExternal end)
  else match Compaction s with
       | Some _ => setTurnPhase PhaseCompacting
       | None =>
           let act action :=
             match action with
             | providerActionStart => driveProvider
             | providerActionResume =>
                 setTurnPhase PhaseWaitingExternal ;;;
                 schedule (providerTimerKey streamTimerProviderResume EmptyString)
             | providerActionNone => setTurnPhase PhaseIdle
             end in
           match PendingProviderCompletion s with
           | None => act (PendingProviderAction s)
           | Some completion =>
               if decide (CompletionDisposition completion = completionDispositionResumeAfterExternal)
               then
                 update (fun s => s <| PendingProviderCompletion := None |>
                   <| PendingProviderAction :=
                        if decide (PendingProviderAction s = providerActionStart)
                        then providerActionStart else providerActionResume |>) ;;;
                 act providerActionResume
               else
                 clearPendingProviderCompletion ;;;
                 or_fail "unknown" (completeSuccessfulTurn completion) (ret tt)
           end
       end.

Definition requestProviderAction (action : providerAction) : M unit :=
  update (fun s => s <| PendingProviderAction :=
            match action with
            | providerActionStart => providerActionStart
            | providerActionResume =>
                if decide (PendingProviderAction s = providerActionStart)
                then providerActionStart else providerActionResume
            | providerActionNone => providerActionNone
            end |>) ;;;
  reconcileStream.

Definition startPendingCompactionSummary : M unit :=
  id <- new_id ;;
  s <- get ;;
  if isTerminalStreamStatus (Status s) then update (fun s => s <| Compaction := None |>)
  else
    let token := wrap_uint64 (CurrentCompactionToken s + 1) in
    update (fun s => s <| CurrentCompactionToken := token |> <| CurrentModelCallID := id |>
                       <| ProviderActive := true |> <| PendingProviderAction := providerActionNone |>
                       <| Phase := PhaseCompacting |>) ;;;
    service ;;;
    launch_summary token.

Definition handlePreCompactTerminal (hookMessage : string) : M unit :=
  s <- get ;;
  match Compaction s with
  | None =>
      (if decide (TrimSpace hookMessage = EmptyString) then ret tt else publishSummaryCompleted) ;;;
      requestProviderAction providerActionResume
  | Some plan =>
      update (fun s => s <| Compaction := Some (mkCompaction (Manual plan) (TrimSpace hookMessage)) |>) ;;;
      startPendingCompactionSummary
  end.

(** The error a compaction or a provider pass ends with. *)
Inductive DoneError :=
| LoopInterrupted
| ProviderTerminal (message : string)
| OtherError (message : string).

Definition error_text (e : DoneError) : string :=
  match e with
  | LoopInterrupted => "provider loop interrupted"
  | ProviderTerminal message | OtherError message => message
  end.

(** [handleCompactionEvent]; [plan] is the plan the summary was made for. *)
Definition handleCompactionEvent (token : Z) (plan : PendingCompaction) (err : option DoneError)
  : M unit :=
  s <- get ;;
  if negb (CurrentCompactionToken s =? token) then ret tt
  else
    update (fun s => s <| ProviderActive := false |> <| PendingProviderAction := providerActionNone |>
                       <| Compaction := None |>) ;;;
    match err with
    | Some LoopInterrupted => ret tt
    | _ =>
        if isTerminalStreamStatus (Status s) then ret tt
        else match err with
             | Some e =>
                 service ;;;
                 setTurnPhase PhaseFailed ;;;
                 failStream "unknown" (error_text e)
             | None =>
                 or_failed service (or_failed service (or_failed service (or_failed service (
                   or_failed publishSummaryCompleted (
                     if Manual plan then
                       r <- try completeManualCompactionTurn ;;
                       match r with
                       | Err e => failStream "unknown" e
                       | Ok _ =>
                           s <- get ;;
                           publishCheckpointWithCompletion (manualCompactionTurnCompletion s)
                       end
                     else requestProviderAction providerActionResume)))))
             end
    end.

(** ** Events of the provider pass *)

Definition hasReplayableReasoningPayload (r : providerReasoningPayload) : bool :=
  negb (bool_decide (TrimSpace (Content r) = EmptyString)) ||
  negb (bool_decide (TrimSpace (Signature r) = EmptyString)) &&
  bool_decide (TrimSpace (SignatureSource r) = "openai_responses").

(** [flushAssistantText]. *)
Definition flushAssistantText (text : string) (reasoning : providerReasoningPayload)
    (allowReasoningOnly : bool) : M unit :=
  if bool_decide (TrimSpace text = EmptyString) &&
     (negb allowReasoningOnly || negb (hasReplayableReasoningPayload reasoning))
  then ret tt
  else service ;;; emit (EffectFlush text).

Inductive ModelEvent :=
| ModelEventTextDelta (text : string)
| ModelEventThinkingDelta (text : string)
| ModelEventThinkingCompleted (signature signatureSource itemID status summary : string)
| ModelEventToolLifecycle (forwarded : bool)
| ModelEventToolLikeCompleted (has_invocation : bool)
| ModelEventTurnFinished (usage : turnUsageSnapshot) (finishReason : string)
| ModelEventProviderError (message : string)
| ModelEventOther.

Definition takeProviderOutputForTool : M (string * providerReasoningPayload) := fun w =>
  let s := turn w in
  (Ok (ProviderAccumulatedText s, ProviderAccumulatedReasoning s),
   w <| turn := s <| ProviderAccumulatedText := EmptyString |>
                  <| ProviderAccumulatedReasoning := no_reasoning |> |>).

Definition providerLoopInterruptErr (s : TurnStream) : bool :=
  isTerminalStreamStatus (Status s) || terminalPhase (Phase s).

(** [handleToolInvocation]: the invocation is counted, then dispatched to its tool. *)
Definition handleToolInvocation : M unit :=
  s <- get ;;
  if providerLoopInterruptErr s then raise (error_text LoopInterrupted)
  else
    update (fun s => s <| ToolInvocationCount := ToolInvocationCount s + 1 |>) ;;;
    outcome <- tool_outcome ;;
    update (fun s => s <| PendingExecs := list_to_map (opened_execs outcome) ∪ PendingExecs s |>
      <| PendingInteractions := list_to_set (opened_interactions outcome) ∪ PendingInteractions s |>
      <| ProviderTerminalToolInvocation := ProviderTerminalToolInvocation s || terminal_tool outcome |>).

(** [usage] of a finished turn, kept in the snapshot the pass started with. *)
Definition finished_usage (current reported : turnUsageSnapshot) : turnUsageSnapshot :=
  mkUsage (UsageProvider reported) (UsageModel reported) (InputTokens reported)
    (OutputTokens reported) (CacheReadTokens reported) (CacheWriteTokens reported)
    (UsagePresent reported) (CacheReadPresent reported) (CacheWritePresent reported)
    (UsageProviderPass current) (CompileDurationMS current) (EstimatedPromptTokens current)
    (ReplayMessageCount current) (RequestPreparedAt current) (FirstEventAt current).

Definition applyProviderModelEvent (event : ModelEvent) : M unit :=
  match event with
  | ModelEventTextDelta text =>
      update (fun s => s <| ProviderAccumulatedText := ProviderAccumulatedText s +:+ text |>) ;;;
      service
  | ModelEventThinkingDelta text =>
      update (fun s => s <| ProviderAccumulatedReasoning :=
        ProviderAccumulatedReasoning s
          <| Content := Content (ProviderAccumulatedReasoning s) +:+ text |> |>) ;;;
      service
  | ModelEventThinkingCompleted signature source itemID status summary =>
      if decide (TrimSpace signature = EmptyString) then service
      else
        s <- get ;;
        let content := Content (ProviderAccumulatedReasoning s) in
        let emit_synthetic := bool_decide (TrimSpace content = EmptyString) &&
                              bool_decide (TrimSpace source = "openai_responses") in
        let published := ProviderSyntheticThinkingPublished s in
        update (fun s => s <| ProviderAccumulatedReasoning :=
            mkReasoning content (TrimSpace signature) (TrimSpace source) (TrimSpace itemID)
              (TrimSpace status) summary |>
          <| ProviderSyntheticThinkingPublished := published || emit_synthetic |>) ;;;
        if emit_synthetic && published then ret tt
        else (if emit_synthetic then service else ret tt) ;;; service
  | ModelEventToolLifecycle forwarded => if forwarded then service else ret tt
  | ModelEventToolLikeCompleted has_invocation =>
      taken <- takeProviderOutputForTool ;;
      let '(text, reasoning) := taken in
      (if decide (TrimSpace text = EmptyString) then ret tt
       else flushAssistantText text reasoning false) ;;;
      let reasoning := if decide (TrimSpace text = EmptyString) then reasoning else no_reasoning in
      if negb has_invocation then raise "tool invocation is required"
      else emit (EffectTool text reasoning) ;;; handleToolInvocation
  | ModelEventTurnFinished usage finishReason =>
      update (fun s => s <| ProviderFinishReason := TrimSpace finishReason |>
                         <| ProviderUsage := finished_usage (ProviderUsage s) usage |>)
  | ModelEventProviderError message => raise message
  | ModelEventOther => ret tt
  end.

Definition providerTokenMatches (token : Z) (s : TurnStream) : bool :=
  negb (token =? 0) && (CurrentProviderToken s =? token).

Definition handleProviderEvent (token : Z) (event : ModelEvent) : M unit :=
  s <- get ;;
  if providerTokenMatches token s then applyProviderModelEvent event else ret tt.

Definition closeStreamWithProviderError (s : TurnStream) (allowReasoningOnly : bool) : M unit :=
  flushAssistantText (ProviderAccumulatedText s) (ProviderAccumulatedReasoning s) allowReasoningOnly ;;;
  service ;;;
  service ;;;
  service ;;;
  service ;;;
  failActiveStream "provider_error".

Definition completion_of (s : TurnStream) (usage : turnUsageSnapshot)
    (disposition : pendingCompletionDisposition) : pendingTurnCompletion :=
  mkCompletion (ConversationID s) (RequestID s) (TurnSeq s) (CurrentModelCallID s)
    (ProviderPassCount s) usage disposition.

(** [handleSubagentEmptyStopAfterToolResult]: whether it handled the end of the pass. *)
Definition handleSubagentEmptyStopAfterToolResult (finishReason text : string) : M bool :=
  if negb (bool_decide (TrimSpace finishReason = "stop")) ||
     negb (bool_decide (TrimSpace text = EmptyString)) then ret false
  else
    state <- subagent_state ;;
    match state with
    | NotSubagent => ret false
    | SubagentRecoveredBefore =>
        setTurnPhase PhaseFailed ;;;
        failStream "empty_response" "subagent returned empty response after tool result" ;;;
        ret true
    | SubagentRecovers =>
        service ;;;
        service ;;;
        service ;;;
        requestProviderAction providerActionResume ;;;
        ret true
    end.

(** The end of a pass, with the stream as it was before the reset. *)
Definition provider_pass_ended (s : TurnStream) : M unit :=
  let finishReason := ProviderFinishReason s in
  let usage := ProviderUsage s in
  let hadToolInvocation := 0 <? ToolInvocationCount s in
  or_fail "unknown" (flushAssistantText (ProviderAccumulatedText s)
                       (ProviderAccumulatedReasoning s) (negb hadToolInvocation)) (
  or_fail "usage_persistence_error" service (
  or_fail "unknown" service (
  or_fail "unknown" service (
    now <- get ;;
    if (0 <? pendingBridgeCount now)%nat then
      let awaitingUser := hasPendingAwaitingUserInteraction now in
      update (fun now => now <| PendingProviderCompletion :=
        Some (mergePendingProviderCompletion (PendingProviderCompletion now)
          (completion_of s usage
            (completionDispositionForExternalResults finishReason awaitingUser hadToolInvocation))) |>) ;;;
      setTurnPhase (if awaitingUser then PhaseAwaitingUser else PhaseWaitingExternal) ;;;
      or_fail "unknown" service (ret tt)
    else
      let resume := or_fail "unknown" service (
                      or_fail "unknown" (requestProviderAction providerActionResume) (ret tt)) in
      let rest :=
        match PendingProviderCompletion s with
        | Some completion =>
            let completion :=
              completion
                <| CompletionModelCallID :=
                     if decide (TrimSpace (CompletionModelCallID completion) = EmptyString)
                     then CurrentModelCallID s else CompletionModelCallID completion |>
                <| CompletionProviderPass :=
                     if CompletionProviderPass completion =? 0 then ProviderPassCount s
                     else CompletionProviderPass completion |>
                <| CompletionUsage := usage |> in
            clearPendingProviderCompletion ;;;
            if decide (CompletionDisposition completion = completionDispositionResumeAfterExternal)
            then resume
            else or_fail "unknown" (completeSuccessfulTurn completion) (ret tt)
        | None =>
            if (hadToolInvocation || shouldResumeAfterToolResults finishReason) &&
               negb (ProviderTerminalToolInvocation s)
            then resume
            else
              clearPendingProviderCompletion ;;;
              or_fail "unknown"
                (completeSuccessfulTurn (completion_of s usage completionDispositionNone)) (ret tt)
        end in
      match PendingProviderCompletion s with
      | Some _ => rest
      | None =>
          handled <- try (handleSubagentEmptyStopAfterToolResult finishReason (ProviderAccumulatedText s)) ;;
          match handled with
          | Err e => failStreamIfNonTerminal "unknown" e
          | Ok true => ret tt
          | Ok false => rest
          end
      end)))).

Definition handleProviderDoneEvent (err : option DoneError) : M unit :=
  s <- get ;;
  update (fun s => s <| ProviderActive := false |> <| PendingProviderAction := providerActionNone |>
    <| ProviderAccumulatedText := EmptyString |> <| ProviderAccumulatedReasoning := no_reasoning |>
    <| ProviderFinishReason := EmptyString |> <| ProviderUsage := empty_usage |>
    <| ProviderTerminalToolInvocation := false |> <| ToolInvocationCount := 0 |>) ;;;
  let allowReasoningOnly := negb (0 <? ToolInvocationCount s) in
  match err with
  | Some LoopInterrupted => ret tt
  | _ =>
      if isTerminalStreamStatus (Status s) then ret tt
      else match err with
           | Some (ProviderTerminal _) =>
               setTurnPhase PhaseFailed ;;;
               closeStreamWithProviderError s allowReasoningOnly
           | Some e =>
               r <- try (flushAssistantText (ProviderAccumulatedText s)
                           (ProviderAccumulatedReasoning s) allowReasoningOnly) ;;
               match r with
               | Err f => failStream "unknown" ("flush failed provider output: " +:+ f)
               | Ok _ => setTurnPhase PhaseFailed ;;; failStream "unknown" (error_text e)
               end
           | None => provider_pass_ended s
           end
  end.

Definition handleProviderDone (token : Z) (err : option DoneError) : M unit :=
  s <- get ;;
  if providerTokenMatches token s then handleProviderDoneEvent err else ret tt.

(** ** Runs and cancellation *)

(** A run intent, as far as the stream of its request is concerned: [has_work] is
    [filterUnprocessedUserMessages] (or a rewind) finding something to run. *)
Record RunIntent := mkRun {
  run_conversation : string;
  run_turn_seq : Z;
  run_prewarm : bool;
  run_manual : bool;
  run_has_work : bool
}.

Definition clear_pending (s : TurnStream) : TurnStream :=
  s <| PendingExecs := empty |> <| PendingInteractions := empty |> <| Tokens := empty |>.

Definition supersedeActiveRunWithSameRequest : M unit :=
  update (fun s =>
    if ProviderActive s || (0 <? pendingBridgeCount s)%nat ||
       bool_decide (Phase s = PhaseWaitingExternal)
    then clear_pending
           (s <| ProviderActive := false |>
              <| CurrentProviderToken := wrap_uint64 (CurrentProviderToken s + 1) |>
              <| CurrentCompactionToken := wrap_uint64 (CurrentCompactionToken s + 1) |>
              <| PendingProviderAction := providerActionNone |>
              <| PendingProviderCompletion := None |> <| Compaction := None |>)
    else s).

(** [handleRunIntent]: the services are the bootstrap of the conversation, its storage, the
    checkpoint image and the metadata. *)
Definition handleRunIntent (intent : RunIntent) : M unit :=
  service ;;;
  supersedeActiveRunWithSameRequest ;;;
  if negb (run_prewarm intent) && negb (run_manual intent) && negb (run_has_work intent) then ret tt
  else
    service ;;;
    update (fun s => s <| ConversationID := TrimSpace (run_conversation intent) |>
      <| TurnSeq := run_turn_seq intent |>
      <| Status := match Status s with StatusUnset => StatusCreated | st => st end |>) ;;;
    service ;;;
    update (fun s => s <| CheckpointReady := true |>) ;;;
    service ;;;
    update (fun s => clear_pending
      (s <| ManualCompaction := run_manual intent |>
         <| PendingProviderAction := providerActionNone |> <| Compaction := None |>
         <| CurrentProviderToken := wrap_uint64 (CurrentProviderToken s + 1) |>
         <| CurrentCompactionToken := wrap_uint64 (CurrentCompactionToken s + 1) |>
         <| ProviderAccumulatedText := EmptyString |>
         <| ProviderAccumulatedReasoning := no_reasoning |>
         <| ProviderSyntheticThinkingPublished := false |>
         <| ProviderFinishReason := EmptyString |> <| ProviderUsage := empty_usage |>
         <| ToolInvocationCount := 0 |>)) ;;;
    setTurnPhase PhaseIdle ;;;
    service ;;;
    if run_prewarm intent then ret tt else requestProviderAction providerActionStart.

(** [persistInterruptedProviderOutput]. *)
Definition persistInterruptedProviderOutput : M unit :=
  s <- get ;;
  if bool_decide (TrimSpace (ProviderAccumulatedText s) = EmptyString) &&
     negb (hasReplayableReasoningPayload (ProviderAccumulatedReasoning s))
  then ret tt
  else service ;;; emit (EffectFlush (ProviderAccumulatedText s)).

(** [handleCancelIntent] but for the edits, whose completion is [PatchEdit.cancel_edits]. *)
Definition handleCancelIntent : M unit :=
  s <- get ;;
  (if CheckpointReady s then persistInterruptedProviderOutput ;;; service else ret tt) ;;;
  update (fun s => s <| ProviderActive := false |>
    <| CurrentProviderToken := wrap_uint64 (CurrentProviderToken s + 1) |>
    <| CurrentCompactionToken := wrap_uint64 (CurrentCompactionToken s + 1) |>
    <| PendingProviderAction := providerActionNone |> <| Compaction := None |>) ;;;
  service ;;;
  (if CheckpointReady s then discardPendingCheckpoint else ret tt) ;;;
  clearPendingProviderCompletion ;;;
  update (fun s => s <| PendingProviderAction := providerActionNone |>) ;;;
  setTurnPhase PhaseCanceled ;;;
  broker_finish StatusCanceled EffectCanceled.

(** ** Results of execs and interactions *)

Definition markExecCompleted (execID : string) : M unit :=
  update (fun s => s <| PendingExecs := delete execID (PendingExecs s) |>).

Definition set_exec (execID : string) (exec : Exec) : M unit :=
  update (fun s => s <| PendingExecs := <[execID := exec]> (PendingExecs s) |>).

Definition clear_timer (key : string) : M unit :=
  update (fun s => s <| Tokens := clearStreamTimer key (Tokens s) |>).

(** The result of an exec is stored and published, with a checkpoint, and the turn goes on. *)
Definition settleExec : M unit :=
  service ;;;
  service ;;;
  service ;;;
  service ;;;
  service ;;;
  reconcileStream.

Definition schedule_exec_timer (kind execID : string) : M unit :=
  if decide (TrimSpace execID = EmptyString) then ret tt else schedule (providerTimerKey kind execID).

(** What a message does to the shell it is about: [applyExecProgress] and the shell timers. *)
Definition applyExecProgress (execID : string) (pending : Exec) (message : ExecMessage) : M unit :=
  clear_timer (providerTimerKey streamTimerShellDispatch execID) ;;;
  (if message_signal message then set_exec execID (mkExec (Kind pending) false) else ret tt) ;;;
  if message_running message then schedule_exec_timer streamTimerShellForeground execID else ret tt.

(** [finishPatchEditOperation], [finishWriteOperation]: the next queued edit of the path may open its exec. *)
Definition finishEditOperation : M unit :=
  service ;;;
  service ;;;
  service ;;;
  service ;;;
  next <- tool_outcome ;;
  (match opened_execs next with
   | [] => ret tt
   | (execID, exec) :: _ => set_exec execID exec ;;; service ;;; service
   end) ;;;
  reconcileStream.

(** [handleHiddenPatchEditExecResult], [handleHiddenWriteExecResult]: the edit, whose own steps are those of
    PatchEdit.v, opens its next exec or ends. *)
Definition handleHiddenExecResult (execID : string) : M unit :=
  service ;;;
  markExecCompleted execID ;;;
  step <- tool_outcome ;;
  match opened_execs step with
  | [] => finishEditOperation
  | (next, exec) :: _ => set_exec next exec ;;; service ;;; service
  end.

Definition handleExecResult (message : ExecMessage) : M unit :=
  let execID := message_exec message in
  s <- get ;;
  match PendingExecs s !! execID with
  | None => if message_stale message then ret tt else raise "pending exec not found"
  | Some pending =>
      (if isShell pending then applyExecProgress execID pending message else ret tt) ;;;
      if isHiddenExecKind (Kind pending) then handleHiddenExecResult execID
      else
        service ;;;
        if negb (message_terminal message) then ret tt
        else
          service ;;;
          markExecCompleted execID ;;;
          if decide (TrimSpace (Kind pending) = executeHookPreCompact)
          then handlePreCompactTerminal (message_hook message)
          else settleExec
  end.

Definition transport_closed (execID : string) (pending : Exec) (timer : string) : M unit :=
  set_exec execID (mkExec (Kind pending) true) ;;; schedule_exec_timer timer execID.

(** [handleExecControl]; a message about an exec that is not pending is ignored when [stale]. *)
Definition handleExecControl (execID : string) (stale : bool) (message : ControlMessage) : M unit :=
  s <- get ;;
  match PendingExecs s !! execID with
  | None => if stale then ret tt else raise "pending exec not found for control message"
  | Some pending =>
      if isHiddenExecKind (Kind pending) then
        match message with
        | ControlHeartbeat => ret tt
        | ControlStreamClose _ => transport_closed execID pending streamTimerNonStreamingRecovery
        | ControlThrow => service ;;; markExecCompleted execID ;;; finishEditOperation
        end
      else
        (if isShell pending then clear_timer (providerTimerKey streamTimerShellDispatch execID) else ret tt) ;;;
        service ;;;
        match message with
        | ControlHeartbeat => ret tt
        | ControlStreamClose shell_over =>
            if decide (TrimSpace (Kind pending) = executeHookPreCompact) then
              markExecCompleted execID ;;;
              handlePreCompactTerminal EmptyString
            else if isShell pending then
              if shell_over then ret tt
              else transport_closed execID pending streamTimerShellTransportClose
            else transport_closed execID pending streamTimerNonStreamingRecovery
        | ControlThrow =>
            markExecCompleted execID ;;;
            if decide (TrimSpace (Kind pending) = executeHookPreCompact)
            then handlePreCompactTerminal EmptyString
            else settleExec
        end
  end.

(** [recoverNonStreamingExecAfterStreamClose], [recoverShellWithoutTerminal]. *)
Definition recoverExec (execID : string) : M unit := markExecCompleted execID ;;; settleExec.

Definition failUnacknowledgedShellDispatch (execID : string) : M unit :=
  markExecCompleted execID ;;;
  service ;;;
  setTurnPhase PhaseFailed ;;;
  failStream "shell_dispatch_unacknowledged" "shell dispatch was not acknowledged".

Definition handleInteractionResult (interactionID : string) : M unit :=
  s <- get ;;
  if negb (bool_decide (interactionID ∈ PendingInteractions s)) then raise "pending interaction not found"
  else
    update (fun s => s <| PendingInteractions := PendingInteractions s ∖ {[interactionID]} |>) ;;;
    service ;;;
    service ;;;
    service ;;;
    service ;;;
    service ;;;
    (if shouldAutoResumeAfterInteraction interactionID then ret tt
     else update (fun s => s <| PendingProviderCompletion :=
       Some (mergePendingProviderCompletion (PendingProviderCompletion s)
         (completion_of s empty_usage completionDispositionCompleteAfterExternal)) |>)) ;;;
    reconcileStream.

(** ** Timers *)

(** What [recoverShellWithoutTerminalIfNeeded] finds when the foreground deadline of a shell fires. *)
Inductive ShellDeadline := DeadlineMoot | DeadlineExtended | DeadlineExceeded.

(** [due]: the state of the shell and its clocks call for a recovery; [same]: the exec still has the
    message of the timer. *)
Inductive TimerKind :=
| KindProviderResume
| KindNonStreamingRecovery (execID : string) (same : bool)
| KindShellDispatch (execID : string) (due : bool)
| KindShellForeground (execID : string) (due : ShellDeadline)
| KindShellTransportClose (execID : string) (same : bool)
| KindOrphanCancel (subscribers : nat).

Definition timer_key (kind : TimerKind) : string :=
  match kind with
  | KindProviderResume => providerTimerKey streamTimerProviderResume EmptyString
  | KindNonStreamingRecovery execID _ => providerTimerKey streamTimerNonStreamingRecovery execID
  | KindShellDispatch execID _ => providerTimerKey streamTimerShellDispatch execID
  | KindShellForeground execID _ => providerTimerKey streamTimerShellForeground execID
  | KindShellTransportClose execID _ => providerTimerKey streamTimerShellTransportClose execID
  | KindOrphanCancel _ => providerTimerKey streamTimerOrphanCancel EmptyString
  end.

Definition handleTimerEvent (kind : TimerKind) (token : Z) : M unit :=
  s <- get ;;
  if negb (timerEventMatches (timer_key kind) token (Tokens s)) then ret tt
  else
    update (fun s => s <| Tokens := clearStreamTimer (timer_key kind) (Tokens s) |>) ;;;
    match kind with
    | KindProviderResume =>
        if ProviderActive s || isTerminalStreamStatus (Status s) ||
           negb (bool_decide (PendingProviderAction s = providerActionResume)) ||
           (0 <? pendingBridgeCount s)%nat
        then ret tt
        else driveProvider
    | KindNonStreamingRecovery execID same =>
        match PendingExecs s !! TrimSpace execID with
        | Some pending => if Closed pending && same then recoverExec (TrimSpace execID) else ret tt
        | None => ret tt
        end
    | KindShellDispatch execID due =>
        match PendingExecs s !! TrimSpace execID with
        | Some pending =>
            if isShell pending && negb (isTerminalStreamStatus (Status s)) && due
            then failUnacknowledgedShellDispatch (TrimSpace execID) else ret tt
        | None => ret tt
        end
    | KindShellForeground execID due =>
        match PendingExecs s !! TrimSpace execID with
        | Some pending =>
            if isShell pending && negb (isTerminalStreamStatus (Status s)) then
              match due with
              | DeadlineMoot => ret tt
              | DeadlineExtended => schedule_exec_timer streamTimerShellForeground (TrimSpace execID)
              | DeadlineExceeded => recoverExec (TrimSpace execID)
              end
            else ret tt
        | None => ret tt
        end
    | KindShellTransportClose execID same =>
        match PendingExecs s !! TrimSpace execID with
        | Some pending =>
            if Closed pending && same && negb (isTerminalStreamStatus (Status s))
            then recoverExec (TrimSpace execID) else ret tt
        | None => ret tt
        end
    | KindOrphanCancel subscribers =>
        if (0 <? subscribers)%nat || isTerminalStreamStatus (Status s) then ret tt
        else handleCancelIntent
    end.

Definition handleMaybeOrphaned (subscribers : nat) : M unit :=
  s <- get ;;
  if (0 <? subscribers)%nat || isTerminalStreamStatus (Status s) then ret tt
  else schedule (providerTimerKey streamTimerOrphanCancel EmptyString).

(** ** The actor *)

Inductive Command :=
| CommandRun (intent : RunIntent)
| CommandCancel
| CommandExecResult (message : ExecMessage)
| CommandExecControl (execID : string) (stale : bool) (message : ControlMessage)
| CommandInteraction (interactionID : string)
| CommandProviderEvent (token : Z) (event : ModelEvent)
| CommandProviderDone (token : Z) (err : option DoneError)
| CommandTimer (kind : TimerKind) (token : Z)
| CommandCompaction (token : Z) (plan : PendingCompaction) (err : option DoneError)
| CommandMaybeOrphaned (subscribers : nat)
| CommandCheckpointTerminal.

Definition handleStreamCommand (command : Command) : M unit :=
  match command with
  | CommandRun intent => handleRunIntent intent
  | CommandCancel => handleCancelIntent
  | CommandExecResult message => handleExecResult message
  | CommandExecControl execID stale message => handleExecControl execID stale message
  | CommandInteraction interactionID => handleInteractionResult interactionID
  | CommandProviderEvent token event => handleProviderEvent token event
  | CommandProviderDone token err => handleProviderDone token err
  | CommandTimer kind token => handleTimerEvent kind token
  | CommandCompaction token plan err => handleCompactionEvent token plan err
  | CommandMaybeOrphaned subscribers => handleMaybeOrphaned subscribers
  | CommandCheckpointTerminal =>
      terminal <- (fun w => (Ok (checkpoint_terminal w), w)) ;;
      match terminal with
      | None => ret tt
      | Some completion => set_terminal None ;;; finishSuccessfulTurnAfterCheckpoint completion
      end
  end.

(** One round of [runStreamActor]: the error goes to the caller that waits, or fails the
    stream. *)
Definition actor_round (waits : bool) (command : Command) : M unit :=
  r <- try (handleStreamCommand command) ;;
  match r with
  | Ok _ => ret tt
  | Err e => if waits then raise e else ignored (failStream "unknown" e)
  end.

(** ** Lemmas: a calculus of the loop *)

(** What the invariants speak about. *)
Record View := mkView {
  vturn : TurnStream;
  vpasses : gset Z;
  vsummaries : gset Z;
  vtimers : gset (string * Z);
  vterminal : option pendingTurnCompletion
}.

Definition view (w : World) : View :=
  mkView (turn w) (passes w) (summaries w) (timers w) (checkpoint_terminal w).

Notation WP := (wp view).

Section Calls.
Context (Q : unit -> View -> Prop) (E : View -> Prop) (v : View).

Lemma wp_get (Q' : TurnStream -> View -> Prop) : Q' (vturn v) v -> WP get Q' E v.
Proof. by intros H w <-. Qed.

Lemma wp_update f :
  Q tt (mkView (f (vturn v)) (vpasses v) (vsummaries v) (vtimers v) (vterminal v)) ->
  WP (update f) Q E v.
Proof. by intros H w <-. Qed.

Lemma wp_raise {A} (Q' : A -> View -> Prop) e : E v -> WP (raise e) Q' E v.
Proof. by intros H w <-. Qed.

Lemma wp_emit e : Q tt v -> WP (emit e) Q E v.
Proof. by intros H w <-. Qed.

Lemma wp_service : Q tt v -> E v -> WP service Q E v.
Proof.
  intros H1 H2 w <-. unfold service. destruct (env_services w) as [|[[]|e] rest]; done.
Qed.

Lemma wp_build_plan (Q' : option PendingCompaction -> View -> Prop) :
  (forall plan, Q' plan v) -> E v -> WP build_plan Q' E v.
Proof. intros H1 H2 w <-. unfold build_plan. by destruct (env_plans w) as [|[]]. Qed.

Lemma wp_tool_outcome (Q' : ToolOutcome -> View -> Prop) :
  (forall outcome, Q' outcome v) -> E v -> WP tool_outcome Q' E v.
Proof. intros H1 H2 w <-. unfold tool_outcome. by destruct (env_tools w) as [|[]]. Qed.

Lemma wp_subagent_state (Q' : SubagentState -> View -> Prop) :
  (forall state, Q' state v) -> E v -> WP subagent_state Q' E v.
Proof. intros H1 H2 w <-. unfold subagent_state. by destruct (env_subagent w) as [|[]]. Qed.

Lemma wp_new_id (Q' : string -> View -> Prop) : (forall id, Q' id v) -> WP new_id Q' E v.
Proof. intros H1 w <-. unfold new_id. by destruct (env_ids w). Qed.

Lemma wp_launch_pass token pass :
  Q tt (mkView (vturn v) (vpasses v ∪ {[token]}) (vsummaries v) (vtimers v) (vterminal v)) ->
  WP (launch_pass token pass) Q E v.
Proof. by intros H w <-. Qed.

Lemma wp_launch_summary token :
  Q tt (mkView (vturn v) (vpasses v) (vsummaries v ∪ {[token]}) (vtimers v) (vterminal v)) ->
  WP (launch_summary token) Q E v.
Proof. by intros H w <-. Qed.

Lemma wp_schedule key :
  TrimSpace key <> EmptyString ->
  Q tt (mkView (vturn v <| Tokens := <[key := wrap_uint64 (timer_token (Tokens (vturn v)) key + 1)]>
                             (Tokens (vturn v)) |>)
          (vpasses v) (vsummaries v)
          (vtimers v ∪ {[(key, wrap_uint64 (timer_token (Tokens (vturn v)) key + 1))]}) (vterminal v)) ->
  WP (schedule key) Q E v.
Proof.
  intros Hk H w <-. unfold schedule, scheduleStreamTimer. rewrite decide_False by done. exact H.
Qed.

Lemma wp_claim (Q' : bool -> View -> Prop) :
  (TerminalActionClaimed (vturn v) || isTerminalStreamStatus (Status (vturn v)) = true -> Q' false v) ->
  (TerminalActionClaimed (vturn v) || isTerminalStreamStatus (Status (vturn v)) = false ->
   Q' true (mkView (vturn v <| TerminalActionClaimed := true |>) (vpasses v) (vsummaries v)
              (vtimers v) (vterminal v))) ->
  WP claimTerminalEvent Q' E v.
Proof.
  intros H1 H2 w <-. unfold claimTerminalEvent. cbn in *.
  destruct (TerminalActionClaimed (turn w) || isTerminalStreamStatus (Status (turn w))); auto.
Qed.

Lemma wp_set_terminal terminal :
  Q tt (mkView (vturn v) (vpasses v) (vsummaries v) (vtimers v) terminal) ->
  WP (set_terminal terminal) Q E v.
Proof. by intros H w <-. Qed.

End Calls.

Definition ended (v : View) : Prop := isTerminalStreamStatus (Status (vturn v)) = true.

Ltac wp_once :=
  lazymatch goal with
  | |- wp _ (bind _ _) _ _ _ => apply wp_bind
  | |- wp _ (ret _) _ _ _ => apply wp_ret
  | |- wp _ (try _) _ _ _ => apply wp_try
  | |- wp _ get _ _ _ => apply wp_get; cbn [vturn]
  | |- wp _ (update _) _ _ _ => apply wp_update
  | |- wp _ service _ _ _ => apply wp_service
  | |- wp _ (emit _) _ _ _ => apply wp_emit
  | |- wp _ (raise _) _ _ _ => apply wp_raise
  | |- wp _ (set_terminal _) _ _ _ => apply wp_set_terminal
  | |- wp _ (setTurnPhase _) _ _ _ => apply wp_update
  | |- wp _ (ignored _) _ _ _ => unfold ignored
  | |- wp _ build_plan _ _ _ => apply wp_build_plan; [intros ?|]
  | |- wp _ tool_outcome _ _ _ => apply wp_tool_outcome; [intros ?|]
  | |- wp _ subagent_state _ _ _ => apply wp_subagent_state; [intros ?|]
  | |- wp _ new_id _ _ _ => apply wp_new_id; intros ?
  | |- wp _ (launch_pass _ _) _ _ _ => apply wp_launch_pass
  | |- wp _ (launch_summary _) _ _ _ => apply wp_launch_summary
  end; cbv beta.

Ltac wps := repeat (wp_once; try exact I).

(** The setters of a view's stream, reduced. *)
Ltac view_cbn := cbn [vturn vpasses vsummaries vtimers vterminal set_field RequestID ConversationID
  TurnSeq CheckpointReady Status Phase TerminalActionClaimed ProviderActive PendingProviderAction
  PendingProviderCompletion PendingExecs PendingInteractions Compaction ManualCompaction
  ProviderPassCount CurrentProviderToken CurrentCompactionToken CurrentModelCallID
  ProviderAccumulatedText ProviderAccumulatedReasoning ProviderSyntheticThinkingPublished
  ProviderFinishReason ProviderUsage ToolInvocationCount ProviderTerminalToolInvocation Tokens] in *.

Lemma wp_broker_finish status e Q E v :
  isTerminalStreamStatus status = true -> (forall v', ended v' -> Q tt v') ->
  (forall v', ended v' -> E v') -> WP (broker_finish status e) Q E v.
Proof.
  intros Hst HQ HE. unfold broker_finish. wps.
  destruct (isTerminalStreamStatus (Status (vturn v))) eqn:Ed; wps; auto.
Qed.

Lemma wp_fail_active code Q E v :
  (forall v', ended v' -> Q tt v') -> (forall v', ended v' -> E v') ->
  WP (failActiveStream code) Q E v.
Proof.
  intros HQ HE. unfold failActiveStream, clearPendingProviderCompletion, discardPendingCheckpoint.
  assert (Hf : forall v, WP (finishFailedTurnAfterCheckpoint code) Q E v).
  { intros v'. unfold finishFailedTurnAfterCheckpoint. wps. apply wp_broker_finish; [done|..].
    - intros v1 H1. wps. intros w Hw. rewrite Hw. by apply HQ.
    - intros v1 H1 e. wps. intros w Hw. rewrite Hw. by apply HE. }
  wps; intros; wps; intros; wps; apply Hf.
Qed.

Lemma wp_fail code cause Q E v :
  (forall v', ended v' -> Q tt v') -> (forall v', ended v' -> E v') ->
  WP (failStream code cause) Q E v.
Proof. intros HQ HE. unfold failStream. wps; intros; wps; by apply wp_fail_active. Qed.

Lemma wp_fail_if code cause Q E v :
  (forall v', ended v' -> Q tt v') -> (forall v', ended v' -> E v') ->
  WP (failStreamIfNonTerminal code cause) Q E v.
Proof.
  intros HQ HE. unfold failStreamIfNonTerminal. wps.
  destruct (isTerminalStreamStatus (Status (vturn v))) eqn:Ed; wps; [by apply HQ|by apply wp_fail].
Qed.

(** ** The invariant

    A turn that has not ended always waits for something that will post a command: a live
    provider pass or compaction summary with the current token, a hook, an exec or interaction,
    an armed resume timer, or the terminal action of a checkpoint.  [N] bounds the tokens. *)

Definition resume_key : string := providerTimerKey streamTimerProviderResume EmptyString.

Definition armed (v : View) : Prop :=
  (resume_key, timer_token (Tokens (vturn v)) resume_key) ∈ vtimers v.

Record mid (N : Z) (v : View) : Prop := {
  mid_live : isTerminalStreamStatus (Status (vturn v)) = false;
  mid_claim : TerminalActionClaimed (vturn v) = false;
  mid_phase : terminalPhase (Phase (vturn v)) = false;
  mid_pass : 0 <= CurrentProviderToken (vturn v) <= N;
  mid_passes : forall t, t ∈ vpasses v -> 0 < t <= CurrentProviderToken (vturn v);
  mid_summary : 0 <= CurrentCompactionToken (vturn v) <= N;
  mid_summaries : forall t, t ∈ vsummaries v -> 0 < t <= CurrentCompactionToken (vturn v)
}.

(** Nothing that was launched for the stream is still current. *)
Record still (v : View) : Prop := {
  still_active : ProviderActive (vturn v) = false;
  still_passes : CurrentProviderToken (vturn v) ∉ vpasses v;
  still_summaries : CurrentCompactionToken (vturn v) ∉ vsummaries v
}.

Definition hook_pending (s : TurnStream) : Prop :=
  exists id pending, PendingExecs s = {[id := pending]} /\ PendingInteractions s = ∅ /\
    TrimSpace (Kind pending) = executeHookPreCompact /\ Closed pending = false.

(** What the turn waits for; [started] is false until a run that is not a prewarm. *)
Inductive waiting (started : bool) (v : View) : Prop :=
| on_pass :
    ProviderActive (vturn v) = true -> Compaction (vturn v) = None ->
    PendingProviderCompletion (vturn v) = None ->
    CurrentProviderToken (vturn v) ∈ vpasses v -> CurrentCompactionToken (vturn v) ∉ vsummaries v ->
    waiting started v
| on_summary plan :
    ProviderActive (vturn v) = true -> Compaction (vturn v) = Some plan ->
    PendingProviderCompletion (vturn v) = None ->
    CurrentProviderToken (vturn v) ∉ vpasses v -> CurrentCompactionToken (vturn v) ∈ vsummaries v ->
    pendingBridgeCount (vturn v) = 0%nat -> waiting started v
| on_hook plan :
    still v -> Compaction (vturn v) = Some plan ->
    PendingProviderCompletion (vturn v) = None -> hook_pending (vturn v) -> waiting started v
| on_external completion :
    still v -> Compaction (vturn v) = None ->
    PendingProviderCompletion (vturn v) = Some completion ->
    PendingProviderAction (vturn v) <> providerActionStart ->
    (0 < pendingBridgeCount (vturn v))%nat -> waiting started v
| on_resume :
    still v -> Compaction (vturn v) = None -> PendingProviderCompletion (vturn v) = None ->
    PendingProviderAction (vturn v) = providerActionResume ->
    pendingBridgeCount (vturn v) = 0%nat -> armed v -> waiting started v
| on_checkpoint :
    still v -> Compaction (vturn v) = None -> PendingProviderCompletion (vturn v) = None ->
    PendingProviderAction (vturn v) = providerActionNone ->
    pendingBridgeCount (vturn v) = 0%nat -> vterminal v <> None -> waiting started v
| not_started :
    started = false -> still v -> Compaction (vturn v) = None ->
    PendingProviderCompletion (vturn v) = None ->
    PendingProviderAction (vturn v) = providerActionNone ->
    pendingBridgeCount (vturn v) = 0%nat -> waiting started v.

Definition good (N : Z) (started : bool) (v : View) : Prop := mid N v /\ waiting started v.

Definition ok (N : Z) (started : bool) (v : View) : Prop := ended v \/ good N started v.

(** A postcondition of a command that returned. *)
Notation OK N started := (fun _ : unit => ok N started).

Lemma mid_weaken N N' v : mid N v -> N <= N' -> mid N' v.
Proof. intros [] HN. split; [done..|lia|done|lia|done]. Qed.

Lemma wrap_next N n : 0 <= n <= N -> N < max_uint64 -> wrap_uint64 (n + 1) = n + 1.
Proof. intros. apply wrap_uint64_id. unfold is_uint64. lia. Qed.

Lemma pendings_zero s : pendingBridgeCount s = 0%nat <-> PendingExecs s = ∅ /\ PendingInteractions s = ∅.
Proof.
  unfold pendingBridgeCount. rewrite <- (map_size_empty_iff (PendingExecs s)).
  rewrite <- leibniz_equiv_iff, <- size_empty_iff. lia.
Qed.

Lemma hook_counts s : hook_pending s -> (0 < pendingBridgeCount s)%nat.
Proof.
  intros (id & p & Hp & Hi & _). unfold pendingBridgeCount.
  rewrite Hp, Hi, map_size_singleton. lia.
Qed.

(** Bounds on the members of a set of tokens. *)
Ltac token_bound :=
  let Hin := fresh "Hin" in
  intros ? Hin; rewrite ?elem_of_union, ?elem_of_singleton, ?elem_of_difference in Hin;
  repeat match goal with
  | H : _ \/ _ |- _ => destruct H
  | H : _ /\ _ |- _ => destruct H
  end; subst;
  repeat match goal with
  | Hb : (forall t, t ∈ ?X -> _), H : ?t ∈ ?X |- _ =>
      lazymatch goal with
      | _ : 0 < t <= _ |- _ => fail
      | _ => pose proof (Hb t H)
      end
  end; lia.

Ltac wraps := repeat match goal with H : wrap_uint64 _ = _ |- _ => rewrite !H; clear H end.

Ltac close_mid :=
  split; view_cbn; wraps; first [assumption | lia | token_bound | reflexivity].

(** An end that failed or was never claimed ends the stream. *)
Ltac failing := first
  [ apply wp_fail; intros ? Hend; [by left|exact I]
  | apply wp_fail_if; intros ? Hend; [by left|exact I]
  | apply wp_fail_active; intros ? Hend; [by left|exact I] ].

Lemma wp_or_failed N started m k v :
  WP m (fun _ => WP k (OK N started) (fun _ => True)) (fun _ => True) v ->
  WP (or_failed m k) (OK N started) (fun _ => True) v.
Proof.
  intros H. unfold or_failed. wps. eapply wp_mono; [exact H|done|].
  intros v' _ e. wps. failing.
Qed.

Lemma wp_or_fail N started code m k v :
  WP m (fun _ => WP k (OK N started) (fun _ => True)) (fun _ => True) v ->
  WP (or_fail code m k) (OK N started) (fun _ => True) v.
Proof.
  intros H. unfold or_fail. wps. eapply wp_mono; [exact H|done|].
  intros v' _ e. failing.
Qed.

Lemma wp_finish N started completion v :
  TerminalActionClaimed (vturn v) = false -> isTerminalStreamStatus (Status (vturn v)) = false ->
  WP (finishSuccessfulTurnAfterCheckpoint completion) (OK N started) (fun _ => True) v.
Proof.
  intros Hc Hl. unfold finishSuccessfulTurnAfterCheckpoint. wps. apply wp_claim; intros Hf.
  - by rewrite Hc, Hl in Hf.
  - cbn [negb]. wps. apply wp_broker_finish; [done| |done].
    intros v' Hv'. wps. by left.
Qed.

Lemma wp_complete N started completion v :
  TerminalActionClaimed (vturn v) = false -> isTerminalStreamStatus (Status (vturn v)) = false ->
  WP (completeSuccessfulTurn completion) (OK N started) (fun _ => True) v.
Proof.
  intros Hc Hl. unfold completeSuccessfulTurn. wps; intros; wps; intros; wps; by apply wp_finish.
Qed.

(** Nothing runs and nothing is pending: the state in which a pass is launched. *)
Record clear (v : View) : Prop := {
  clear_still : still v;
  clear_compaction : Compaction (vturn v) = None;
  clear_completion : PendingProviderCompletion (vturn v) = None;
  clear_pendings : pendingBridgeCount (vturn v) = 0%nat
}.

Lemma wp_publish_summary Q E v : Q tt v -> E v -> WP publishSummaryCompleted Q E v.
Proof. intros H HE. unfold publishSummaryCompleted. wps; [case_decide; wps|..]; done. Qed.

Lemma wp_complete_manual Q E v : Q tt v -> E v -> WP completeManualCompactionTurn Q E v.
Proof. intros H HE. unfold completeManualCompactionTurn. wps. case_decide; wps; done. Qed.

Lemma wp_publish_checkpoint completion Q E v :
  Q tt (mkView (vturn v) (vpasses v) (vsummaries v) (vtimers v) (Some completion)) -> E v ->
  WP (publishCheckpointWithCompletion completion) Q E v.
Proof. intros H HE. unfold publishCheckpointWithCompletion. wps; done. Qed.

Lemma wp_manual_noop Q E v :
  (forall completion, Q tt (mkView (vturn v) (vpasses v) (vsummaries v) (vtimers v) (Some completion))) ->
  E v -> WP finishManualCompactionNoop Q E v.
Proof.
  intros H HE. unfold finishManualCompactionNoop. wps; try done.
  apply wp_publish_summary; [|done]. wps. apply wp_complete_manual; [|done]. wps.
  by apply wp_publish_checkpoint.
Qed.

Lemma wp_drive N started v :
  mid N v -> clear v -> N < max_uint64 ->
  WP driveProvider (OK (N + 1) started) (fun _ => True) v.
Proof.
  intros [Hl Hc Hp Ht Hts Hs Hss] [[Ha Hnp Hns] Hcm Hcp Hpend] HN.
  unfold driveProvider. wps. rewrite Ha, Hl. cbn [orb]. wps.
  assert (Hw := wrap_next N (CurrentProviderToken (vturn v)) Ht HN).
  do 4 (apply wp_or_failed; wps). unfold maybeCompactBeforeProvider. wps.
  case_match; wps.
  - (* a plan: the hook is sent *)
    unfold beginPendingCompaction. wps. 2-5: intros; wps; failing.
    view_cbn. right. split; [close_mid|].
    eapply on_hook; view_cbn; try done.
    + split; view_cbn; [done| |done]. intros Hin%Hts. lia.
    + apply pendings_zero in Hpend as [He Hi]. eexists _, _. view_cbn. by rewrite He, Hi.
  - view_cbn. destruct (ManualCompaction (vturn v)); wps.
    + apply wp_manual_noop; [intros completion|intros e; wps; failing].
      wps. view_cbn. cbn [isTerminalStreamStatus]. rewrite Hcm.
      right. split; [close_mid|]. apply on_checkpoint; view_cbn; try done.
      split; view_cbn; [done| |done]. intros Hin%Hts. lia.
    + apply wp_or_failed. wps. right. split.
      * close_mid.
      * apply on_pass; view_cbn; try done. set_solver.
  - intros e. wps. failing.
Qed.

(** Scheduling the resume of a turn with nothing pending. *)
Lemma wp_schedule_resume N started v :
  mid N v -> clear v -> PendingProviderAction (vturn v) = providerActionResume ->
  WP (schedule (providerTimerKey streamTimerProviderResume EmptyString)) (OK N started) (fun _ => True) v.
Proof.
  intros [] [[] ? ? ?] Ha. apply wp_schedule; [done|]. right. split; [close_mid|].
  apply on_resume; view_cbn; try done.
  unfold armed. view_cbn. fold resume_key. unfold timer_token at 1. rewrite lookup_insert_eq.
  set_solver.
Qed.

(** What a stream may look like when it is reconciled. *)
Inductive reconcilable (started : bool) (v : View) : Prop :=
| rec_active : ProviderActive (vturn v) = true -> waiting started v -> reconcilable started v
| rec_external completion :
    still v -> Compaction (vturn v) = None ->
    PendingProviderCompletion (vturn v) = Some completion ->
    PendingProviderAction (vturn v) <> providerActionStart -> reconcilable started v
| rec_action :
    clear v -> PendingProviderAction (vturn v) <> providerActionNone -> reconcilable started v.

Lemma wp_reconcile N started v :
  mid N v -> reconcilable started v -> N < max_uint64 ->
  WP reconcileStream (OK (N + 1) started) (fun _ => True) v.
Proof.
  intros Hm Hr HN. pose proof (mid_weaken N (N + 1) v Hm ltac:(lia)) as Hm1.
  pose proof (mid_live _ _ Hm) as Hl. pose proof (mid_claim _ _ Hm) as Hc.
  unfold reconcileStream. wps. rewrite Hl.
  destruct Hr as [Ha Hw|completion Hs Hcm Hcp Hact|Hclr Hact].
  - rewrite Ha. wps. right. by split.
  - rewrite (still_active _ Hs), Hcm. case_match eqn:Hn; wps.
    + right. destruct Hm1. split.
      * split; view_cbn; try assumption. by case_match.
      * apply Nat.ltb_lt in Hn.
        eapply on_external; view_cbn; [destruct Hs; by split|done..].
    + rewrite Hcp. apply Nat.ltb_ge in Hn. case_decide; wps.
      * apply wp_schedule_resume.
        -- destruct Hm1. close_mid.
        -- destruct Hs. split; view_cbn; [by split|done|done|].
           change (pendingBridgeCount (vturn v) = 0%nat). lia.
        -- view_cbn. by rewrite decide_False.
      * unfold clearPendingProviderCompletion. wps. apply wp_or_fail.
        eapply wp_mono; [by apply (wp_complete (N + 1) started)| |done].
        intros ? v' Hv'. by wps.
  - pose proof Hclr as [Hs Hcm Hcp Hn]. rewrite (still_active _ Hs), Hcm, Hcp, Hn.
    cbn [Nat.ltb Nat.leb]. destruct (PendingProviderAction (vturn v)) eqn:Ea; [done|..].
    + by apply wp_drive.
    + wps. apply wp_schedule_resume; [destruct Hm1; close_mid| |done].
      destruct Hs. split; view_cbn; [by split|done..].
Qed.

Lemma wp_request_resume N started v :
  mid N v -> N < max_uint64 ->
  (ProviderActive (vturn v) = true /\ waiting started v \/
   still v /\ Compaction (vturn v) = None /\ PendingProviderCompletion (vturn v) <> None /\
     PendingProviderAction (vturn v) <> providerActionStart \/
   clear v) ->
  WP (requestProviderAction providerActionResume) (OK (N + 1) started) (fun _ => True) v.
Proof.
  intros Hm HN H. unfold requestProviderAction. wps.
  apply wp_reconcile; [destruct Hm; close_mid| |done].
  destruct H as [[Ha Hw]|[(Hs & Hcm & Hcp & Hact)|Hclr]].
  - apply rec_active; view_cbn; [done|].
    destruct Hw as [| |? []|? []|[]|[]|? []]; [by apply on_pass|by eapply on_summary|congruence..].
  - destruct (PendingProviderCompletion (vturn v)) as [completion|] eqn:Ec; [|done].
    eapply rec_external; view_cbn; [destruct Hs; by split|done..|].
    by rewrite decide_False.
  - apply rec_action; view_cbn; [|by case_decide].
    destruct Hclr as [[] ? ? ?]. split; view_cbn; [by split|done..].
Qed.

Lemma wp_request_start N started v :
  mid N v -> clear v -> N < max_uint64 ->
  WP (requestProviderAction providerActionStart) (OK (N + 1) started) (fun _ => True) v.
Proof.
  intros Hm Hc HN. unfold requestProviderAction. wps.
  apply wp_reconcile; [destruct Hm; close_mid| |done].
  apply rec_action; [|done]. destruct Hc as [[] ? ? ?]. split; view_cbn; [by split|done..].
Qed.

(** What the invariant depends on. *)
Lemma waiting_frame started v v' :
  waiting started v ->
  ProviderActive (vturn v') = ProviderActive (vturn v) ->
  Compaction (vturn v') = Compaction (vturn v) ->
  PendingProviderCompletion (vturn v') = PendingProviderCompletion (vturn v) ->
  PendingProviderAction (vturn v') = PendingProviderAction (vturn v) ->
  PendingExecs (vturn v') = PendingExecs (vturn v) ->
  PendingInteractions (vturn v') = PendingInteractions (vturn v) ->
  CurrentProviderToken (vturn v') = CurrentProviderToken (vturn v) ->
  CurrentCompactionToken (vturn v') = CurrentCompactionToken (vturn v) ->
  (CurrentProviderToken (vturn v) ∈ vpasses v' <-> CurrentProviderToken (vturn v) ∈ vpasses v) ->
  (CurrentCompactionToken (vturn v) ∈ vsummaries v' <-> CurrentCompactionToken (vturn v) ∈ vsummaries v) ->
  vterminal v' = vterminal v -> (armed v -> armed v') -> waiting started v'.
Proof.
  intros Hw Ea Ecm Ecp Eact Ex Ei Et Ec Hp Hs Ht Harm.
  assert (Hstill : still v -> still v').
  { intros []. split; rewrite ?Ea, ?Et, ?Ec, ?Hp, ?Hs; done. }
  assert (Hh : hook_pending (vturn v) -> hook_pending (vturn v')).
  { intros (id & pd & H). exists id, pd. by rewrite Ex, Ei. }
  assert (En : pendingBridgeCount (vturn v') = pendingBridgeCount (vturn v)).
  { unfold pendingBridgeCount. by rewrite Ex, Ei. }
  destruct Hw.
  - apply on_pass; rewrite ?Ea, ?Ecm, ?Ecp, ?Et, ?Ec, ?Hp, ?Hs; done.
  - eapply on_summary; rewrite ?Ea, ?Ecm, ?Ecp, ?Et, ?Ec, ?Hp, ?Hs, ?En; done.
  - eapply on_hook; rewrite ?Ecm, ?Ecp; eauto.
  - eapply on_external; rewrite ?Ecm, ?Ecp, ?Eact, ?En; eauto.
  - eapply on_resume; rewrite ?Ecm, ?Ecp, ?Eact, ?En; eauto.
  - eapply on_checkpoint; rewrite ?Ecm, ?Ecp, ?Eact, ?En, ?Ht; eauto.
  - eapply not_started; rewrite ?Ecm, ?Ecp, ?Eact, ?En; eauto.
Qed.

(** A pass whose token is current is the one the turn waits for. *)
Lemma waiting_pass started v :
  waiting started v -> CurrentProviderToken (vturn v) ∈ vpasses v ->
  ProviderActive (vturn v) = true /\ Compaction (vturn v) = None /\
  PendingProviderCompletion (vturn v) = None /\ CurrentCompactionToken (vturn v) ∉ vsummaries v.
Proof. by intros [| |? []|? []|[]|[]|? []]. Qed.

Lemma waiting_summary started v :
  waiting started v -> CurrentCompactionToken (vturn v) ∈ vsummaries v ->
  ProviderActive (vturn v) = true /\ CurrentProviderToken (vturn v) ∉ vpasses v /\
  PendingProviderCompletion (vturn v) = None /\ pendingBridgeCount (vturn v) = 0%nat.
Proof. by intros [| |? []|? []|[]|[]|? []]. Qed.

(** A stream with something pending that is not active waits for a hook or a completion. *)
Lemma waiting_pending started v :
  waiting started v -> (0 < pendingBridgeCount (vturn v))%nat ->
  ProviderActive (vturn v) = true /\ Compaction (vturn v) = None \/
  (exists plan, still v /\ Compaction (vturn v) = Some plan /\
     PendingProviderCompletion (vturn v) = None /\ hook_pending (vturn v)) \/
  (exists completion, still v /\ Compaction (vturn v) = None /\
     PendingProviderCompletion (vturn v) = Some completion /\
     PendingProviderAction (vturn v) <> providerActionStart).
Proof.
  intros [] ?; try (exfalso; lia);
    [by left|right; left; by exists plan|right; right; by exists completion].
Qed.

Lemma exec_pending s id pending : PendingExecs s !! id = Some pending -> (0 < pendingBridgeCount s)%nat.
Proof.
  intros Hp. destruct (pendingBridgeCount s) eqn:Ec; [|lia].
  apply pendings_zero in Ec as [He _]. by rewrite He in Hp.
Qed.

Lemma interaction_pending s id : id ∈ PendingInteractions s -> (0 < pendingBridgeCount s)%nat.
Proof.
  intros Hp. destruct (pendingBridgeCount s) eqn:Ec; [|lia].
  apply pendings_zero in Ec as [_ He]. set_solver.
Qed.

(** ** Each command keeps the invariant *)

(** The pendings of an active pass do not matter to what it waits for. *)
Lemma waiting_active started v execs interactions :
  ProviderActive (vturn v) = true -> Compaction (vturn v) = None -> waiting started v ->
  waiting started (mkView (vturn v <| PendingExecs := execs |> <| PendingInteractions := interactions |>)
                     (vpasses v) (vsummaries v) (vtimers v) (vterminal v)).
Proof.
  intros Ha Hc [| |? []|? []|[]|[]|? []]; [by apply on_pass|congruence..].
Qed.

(** Removing a pending that is not the hook of a compaction leaves a stream to reconcile. *)
Lemma settle started v execs interactions :
  waiting started v -> (0 < pendingBridgeCount (vturn v))%nat -> ~ hook_pending (vturn v) ->
  reconcilable started
    (mkView (vturn v <| PendingExecs := execs |> <| PendingInteractions := interactions |>)
       (vpasses v) (vsummaries v) (vtimers v) (vterminal v)).
Proof.
  intros Hw Hn Hh. destruct (waiting_pending _ _ Hw Hn) as
    [[Ha Hcm]|[(plan & _ & _ & _ & Hhook)|(completion & [] & Hcm & Hcp & Hact)]].
  - apply rec_active; [done|by apply waiting_active].
  - by destruct Hh.
  - eapply rec_external; view_cbn; [by split|done..].
Qed.

Lemma not_hook s id pending :
  PendingExecs s !! id = Some pending ->
  TrimSpace (Kind pending) <> executeHookPreCompact \/ Closed pending = true -> ~ hook_pending s.
Proof.
  intros Hp Hk (id' & p' & Hp' & _ & Hk' & Hc). rewrite Hp' in Hp.
  apply lookup_singleton_Some in Hp as [_ <-]. destruct Hk; congruence.
Qed.

Lemma mid_pendings N v execs interactions tokens timers :
  mid N v ->
  mid N (mkView (vturn v <| PendingExecs := execs |> <| PendingInteractions := interactions |>
                   <| Tokens := tokens |>) (vpasses v) (vsummaries v) timers (vterminal v)).
Proof. intros []. close_mid. Qed.

Lemma wp_settle_exec N started id pending v :
  good N started v -> N < max_uint64 -> PendingExecs (vturn v) !! id = Some pending ->
  TrimSpace (Kind pending) <> executeHookPreCompact \/ Closed pending = true ->
  WP reconcileStream (OK (N + 1) started) (fun _ => True)
    (mkView (vturn v <| PendingExecs := delete id (PendingExecs (vturn v)) |>)
       (vpasses v) (vsummaries v) (vtimers v) (vterminal v)).
Proof.
  intros [Hm Hw] HN Hp Hk. apply wp_reconcile; [destruct Hm; close_mid| |done].
  apply (settle started v _ (PendingInteractions (vturn v)));
    [done|by eapply exec_pending|by eapply not_hook].
Qed.

(** The end of a compaction hook, with its exec removed. *)
Lemma wp_hook_terminal N started id pending message v :
  good N started v -> N < max_uint64 -> PendingExecs (vturn v) !! id = Some pending ->
  WP (handlePreCompactTerminal message) (OK (N + 1) started) (fun _ => True)
    (mkView (vturn v <| PendingExecs := delete id (PendingExecs (vturn v)) |>)
       (vpasses v) (vsummaries v) (vtimers v) (vterminal v)).
Proof.
  intros [Hm Hw] HN Hp. pose proof (exec_pending _ _ _ Hp) as Hn.
  unfold handlePreCompactTerminal. set (v' := mkView _ _ _ _ _). wps.
  change (Compaction (vturn v')) with (Compaction (vturn v)).
  destruct (Compaction (vturn v)) as [plan|] eqn:Ecm; subst v'.
  - unfold startPendingCompactionSummary. wps. view_cbn. rewrite (mid_live _ _ Hm). wps. right.
    destruct Hm as [H1 H2 H3 H4 H5 H6 H7]. pose proof (wrap_next N _ H6 HN) as Hwrap.
    destruct (waiting_pending _ _ Hw Hn) as
      [[_ ?]|[(plan' & [] & _ & Hcp & Hh)|(completion & _ & ? & _)]]; [congruence| |congruence].
    split; [close_mid|]. eapply on_summary; view_cbn; [done..|set_solver|].
    destruct Hh as (id' & p' & He & Hi & _). apply pendings_zero. view_cbn. split; [|done].
    rewrite He in Hp |- *. apply lookup_singleton_Some in Hp as [<- _]. apply delete_singleton_eq.
  - assert (Hr : WP (requestProviderAction providerActionResume) (OK (N + 1) started) (fun _ => True)
      (mkView (vturn v <| PendingExecs := delete id (PendingExecs (vturn v)) |>)
         (vpasses v) (vsummaries v) (vtimers v) (vterminal v))).
    { apply wp_request_resume; [destruct Hm; close_mid|done|].
      destruct (waiting_pending _ _ Hw Hn) as
        [[Ha _]|[(plan & _ & Hcm & _)|(completion & [] & _ & Hcp & Hact)]]; [| |].
      - left. split; [done|]. by apply (waiting_active started v _ (PendingInteractions (vturn v))).
      - congruence.
      - right. left. split; [by split|]. view_cbn. split; [done|]. by rewrite Hcp. }
    case_decide; wps; [exact Hr|]. by apply wp_publish_summary.
Qed.

(** The pendings of an exec that is not a hook may change while something stays pending. *)
Lemma good_pendings N started id pending execs v :
  good N started v -> PendingExecs (vturn v) !! id = Some pending ->
  TrimSpace (Kind pending) <> executeHookPreCompact \/ Closed pending = true -> execs <> ∅ ->
  good N started (mkView (vturn v <| PendingExecs := execs |>) (vpasses v) (vsummaries v) (vtimers v) (vterminal v)).
Proof.
  intros [Hm Hw] Hp Hk Hne. split; [destruct Hm; close_mid|].
  destruct (waiting_pending _ _ Hw (exec_pending _ _ _ Hp)) as
    [[Ha Hcm]|[(plan & _ & _ & _ & Hhook)|(completion & [] & Hcm & Hcp & Hact)]].
  - by apply (waiting_active started v _ (PendingInteractions (vturn v))).
  - by destruct (not_hook _ _ _ Hp Hk).
  - eapply on_external; view_cbn; [by split|done..|].
    destruct (map_choose execs Hne) as (i & e & He). by eapply (exec_pending _ i).
Qed.

Lemma wp_settle N started id pending execs v :
  good N started v -> N < max_uint64 -> PendingExecs (vturn v) !! id = Some pending ->
  TrimSpace (Kind pending) <> executeHookPreCompact \/ Closed pending = true ->
  WP reconcileStream (OK (N + 1) started) (fun _ => True)
    (mkView (vturn v <| PendingExecs := execs |>) (vpasses v) (vsummaries v) (vtimers v) (vterminal v)).
Proof.
  intros [Hm Hw] HN Hp Hk. apply wp_reconcile; [destruct Hm; close_mid| |done].
  apply (settle started v _ (PendingInteractions (vturn v)));
    [done|by eapply exec_pending|by eapply not_hook].
Qed.

Lemma wp_recover_exec N started id pending v :
  good N started v -> N < max_uint64 -> PendingExecs (vturn v) !! id = Some pending ->
  TrimSpace (Kind pending) <> executeHookPreCompact \/ Closed pending = true ->
  WP (recoverExec id) (OK (N + 1) started) (fun _ => True) v.
Proof.
  intros Hg HN Hp Hc. unfold recoverExec, settleExec, markExecCompleted. wps. by eapply wp_settle.
Qed.

Lemma hidden_not_hook kind : isHiddenExecKind kind = true -> TrimSpace kind <> executeHookPreCompact.
Proof. intros H%bool_decide_eq_true E. rewrite E in H. by apply (bool_decide_pack _) in H. Qed.

Lemma shell_not_hook pending : isShell pending = true -> TrimSpace (Kind pending) <> executeHookPreCompact.
Proof. intros H%bool_decide_eq_true E. by rewrite E in H. Qed.

(** An edit whose exec is removed ends, and may start the next one. *)
Lemma wp_finish_edit N started id pending execs v :
  good N started v -> N < max_uint64 -> PendingExecs (vturn v) !! id = Some pending ->
  isHiddenExecKind (Kind pending) = true ->
  WP finishEditOperation (OK (N + 1) started) (fun _ => True)
    (mkView (vturn v <| PendingExecs := execs |>) (vpasses v) (vsummaries v) (vtimers v) (vterminal v)).
Proof.
  intros Hg HN Hp Hk. unfold finishEditOperation, set_exec. wps.
  destruct (opened_execs _) as [|[next exec] rest]; wps;
    (apply (wp_settle N started id pending _ v); [done|done|done|left; by apply hidden_not_hook]).
Qed.

Lemma wp_hidden_exec N started id pending v :
  good N started v -> N < max_uint64 -> PendingExecs (vturn v) !! id = Some pending ->
  isHiddenExecKind (Kind pending) = true ->
  WP (handleHiddenExecResult id) (OK (N + 1) started) (fun _ => True) v.
Proof.
  intros Hg HN Hp Hk. unfold handleHiddenExecResult, markExecCompleted, set_exec. wps.
  destruct (opened_execs _) as [|[next exec] rest]; wps; [by apply (wp_finish_edit N started id pending _ v)|].
  right. assert (Hgood : good N started (mkView (vturn v
    <| PendingExecs := <[next := exec]> (delete id (PendingExecs (vturn v))) |>) (vpasses v) (vsummaries v) (vtimers v)
    (vterminal v))) by (apply (good_pendings N started id pending _ v); [done|done|left; by apply hidden_not_hook|apply insert_non_empty]).
  destruct Hgood. split; [apply (mid_weaken N); [done|lia]|done].
Qed.

Lemma wp_interaction N started id v :
  good N started v -> N < max_uint64 ->
  WP (handleInteractionResult id) (OK (N + 1) started) (fun _ => True) v.
Proof.
  intros [Hm Hw] HN. unfold handleInteractionResult. wps. case_match eqn:Hp; wps.
  cbn [shouldAutoResumeAfterInteraction]. wps. zbool.
  apply wp_reconcile; [destruct Hm; close_mid| |done].
  apply (settle started v (PendingExecs (vturn v))); [done|by eapply interaction_pending|].
  intros (? & ? & _ & Hi & _). rewrite Hi in Hp. set_solver.
Qed.

(** An event of the current pass only touches its accumulators and the pendings, whether it
    is handled or fails. *)
Record same_turn (v v' : View) : Prop := {
  same_status : Status (vturn v') = Status (vturn v);
  same_claim : TerminalActionClaimed (vturn v') = TerminalActionClaimed (vturn v);
  same_phase : Phase (vturn v') = Phase (vturn v);
  same_active : ProviderActive (vturn v') = ProviderActive (vturn v);
  same_compaction : Compaction (vturn v') = Compaction (vturn v);
  same_completion : PendingProviderCompletion (vturn v') = PendingProviderCompletion (vturn v);
  same_token : CurrentProviderToken (vturn v') = CurrentProviderToken (vturn v);
  same_ctoken : CurrentCompactionToken (vturn v') = CurrentCompactionToken (vturn v);
  same_passes : vpasses v' = vpasses v;
  same_summaries : vsummaries v' = vsummaries v
}.

Lemma same_turn_good N started v v' :
  same_turn v v' -> CurrentProviderToken (vturn v) ∈ vpasses v -> good N started v -> good N started v'.
Proof.
  intros [E1 E2 E3 E4 E5 E6 E7 E8 E9 E10] Hin [[] Hw].
  destruct (waiting_pass _ _ Hw Hin) as (Ha & Hcm & Hcp & Hns).
  split; [split; rewrite ?E1, ?E2, ?E3, ?E7, ?E8, ?E9, ?E10; assumption|].
  apply on_pass; rewrite ?E4, ?E5, ?E6, ?E7, ?E8, ?E9, ?E10; assumption.
Qed.

Lemma wp_take (Q : string * providerReasoningPayload -> View -> Prop) E v :
  (forall taken, Q taken
     (mkView (vturn v <| ProviderAccumulatedText := EmptyString |>
                      <| ProviderAccumulatedReasoning := no_reasoning |>)
        (vpasses v) (vsummaries v) (vtimers v) (vterminal v))) ->
  WP takeProviderOutputForTool Q E v.
Proof. intros H w <-. apply H. Qed.

Lemma wp_apply_event event v :
  WP (applyProviderModelEvent event) (fun _ => same_turn v) (same_turn v) v.
Proof.
  unfold applyProviderModelEvent, flushAssistantText, handleToolInvocation.
  destruct event;
    repeat first [wp_once | apply wp_take; intros ? | case_decide | case_match]; by split.
Qed.

Lemma wp_provider_event N started token event v :
  good N started v -> token ∈ vpasses v ->
  WP (handleProviderEvent token event) (OK N started) (good N started) v.
Proof.
  intros Hg Hin. unfold handleProviderEvent, providerTokenMatches. wps. case_match eqn:Ht; wps.
  - zbool. subst token. eapply wp_mono; [apply wp_apply_event|intros ? ? ?; right|intros ? ?];
      by apply (same_turn_good N started v).
  - by right.
Qed.

Lemma wp_flush text reasoning only Q E v :
  Q tt v -> E v -> WP (flushAssistantText text reasoning only) Q E v.
Proof. intros HQ HE. unfold flushAssistantText. case_match; wps; done. Qed.

(** A turn whose pass ended, before it is decided what to do next. *)
Record passed (v : View) : Prop := {
  passed_still : still v;
  passed_compaction : Compaction (vturn v) = None;
  passed_completion : PendingProviderCompletion (vturn v) = None;
  passed_action : PendingProviderAction (vturn v) = providerActionNone
}.

Lemma passed_clear v : passed v -> pendingBridgeCount (vturn v) = 0%nat -> clear v.
Proof. intros [] ?. by split. Qed.

Lemma wp_resume_clear N started v :
  mid N v -> N < max_uint64 -> passed v -> pendingBridgeCount (vturn v) = 0%nat ->
  WP (requestProviderAction providerActionResume) (OK (N + 1) started) (fun _ => True) v.
Proof. intros Hm HN Hp Hn. apply wp_request_resume; [done..|]. right. right. by apply passed_clear. Qed.

Lemma wp_subagent N started finishReason text v :
  mid N v -> N < max_uint64 -> passed v -> pendingBridgeCount (vturn v) = 0%nat ->
  WP (handleSubagentEmptyStopAfterToolResult finishReason text)
    (fun handled v' => if handled : bool then ok (N + 1) started v' else v' = v) (fun _ => True) v.
Proof.
  intros Hm HN Hp Hn. unfold handleSubagentEmptyStopAfterToolResult.
  case_match; wps; [done|]. case_match; wps; try done.
  - eapply wp_mono; [by apply (wp_resume_clear N started v)| |done]. intros ? v' Hv'. wps. exact Hv'.
  - apply wp_fail; [|done]. intros v' Hv'. wps. by left.
Qed.

Lemma wp_pass_ended N started s v :
  mid N v -> N < max_uint64 -> passed v -> PendingProviderCompletion s = None ->
  WP (provider_pass_ended s) (OK (N + 1) started) (fun _ => True) v.
Proof.
  intros Hm HN Hp Hs. pose proof (mid_weaken N (N + 1) v Hm ltac:(lia)) as Hm1.
  unfold provider_pass_ended. rewrite Hs.
  apply wp_or_fail, wp_flush; [|done]. do 3 (apply wp_or_fail; wps). case_match eqn:Hn; wps.
  - apply wp_or_fail. wps. apply Nat.ltb_lt in Hn. destruct Hp as [[] ? ? Hact]. right. split.
    + destruct Hm1. split; view_cbn; try assumption. by case_match.
    + eapply on_external; view_cbn; [by split|done|done|by rewrite Hact|exact Hn].
  - assert (Hn0 : pendingBridgeCount (vturn v) = 0%nat) by (apply Nat.ltb_ge in Hn; lia).
    eapply wp_mono; [by eapply (wp_subagent N started)| |].
    + intros [] v' Hv'; [by wps|subst v']. case_match.
      * apply wp_or_fail. wps. apply wp_or_fail.
        eapply wp_mono; [by apply (wp_resume_clear N started)| |done]. intros ? v' Hv'. by wps.
      * unfold clearPendingProviderCompletion. wps. apply wp_or_fail. destruct Hm.
        eapply wp_mono; [by apply (wp_complete (N + 1) started)| |done]. intros ? v' Hv'. by wps.
    + intros v' _ e. failing.
Qed.

(** The end of a pass, which is no longer live when it is handled. *)
Lemma wp_provider_done N started token err v :
  good N started v -> N < max_uint64 -> token ∈ vpasses v ->
  (err = Some LoopInterrupted -> CurrentProviderToken (vturn v) <> token) ->
  WP (handleProviderDone token err) (OK (N + 1) started) (fun _ => True)
    (mkView (vturn v) (vpasses v ∖ {[token]}) (vsummaries v) (vtimers v) (vterminal v)).
Proof.
  intros [Hm Hw] HN Hin Hli. unfold handleProviderDone, providerTokenMatches. wps.
  case_match eqn:Ht; wps.
  - zbool. view_cbn. subst token. destruct (waiting_pass _ _ Hw Hin) as (Ha & Hcm & Hcp & Hns).
    assert (Hm' : mid N (mkView (vturn v <| ProviderActive := false |>
      <| PendingProviderAction := providerActionNone |>
      <| ProviderAccumulatedText := EmptyString |> <| ProviderAccumulatedReasoning := no_reasoning |>
      <| ProviderFinishReason := EmptyString |> <| ProviderUsage := empty_usage |>
      <| ProviderTerminalToolInvocation := false |> <| ToolInvocationCount := 0 |>)
      (vpasses v ∖ {[CurrentProviderToken (vturn v)]}) (vsummaries v) (vtimers v) (vterminal v)))
      by (destruct Hm; close_mid).
    unfold handleProviderDoneEvent. wps. rewrite (mid_live _ _ Hm).
    destruct err as [[|message|message]|]; [by destruct Hli|..]; wps.
    + unfold closeStreamWithProviderError. wps. apply wp_flush; [|done]. wps. failing.
    + eapply wp_flush; [wps; failing|]. intros e. failing.
    + apply (wp_pass_ended N); [exact Hm'|done| |done].
      split; view_cbn; [split; view_cbn; [done|set_solver|done]|done..].
  - right. destruct Hm. view_cbn. split; [close_mid|].
    assert (Hne : CurrentProviderToken (vturn v) <> token).
    { intros <-. specialize (mid_passes0 _ Hin). apply andb_false_iff in Ht as [Ht|Ht]; zbool. }
    eapply waiting_frame; [exact Hw|view_cbn; try done..]. set_solver.
Qed.

(** The end of a compaction summary, likewise. *)
Lemma wp_compaction N started token plan err v :
  good N started v -> N < max_uint64 -> token ∈ vsummaries v ->
  (err = Some LoopInterrupted -> CurrentCompactionToken (vturn v) <> token) ->
  WP (handleCompactionEvent token plan err) (OK (N + 1) started) (fun _ => True)
    (mkView (vturn v) (vpasses v) (vsummaries v ∖ {[token]}) (vtimers v) (vterminal v)).
Proof.
  intros [Hm Hw] HN Hin Hli. unfold handleCompactionEvent. wps.
  case_match eqn:Ht; wps; zbool; view_cbn.
  - right. destruct Hm. split; [close_mid|].
    eapply waiting_frame; [exact Hw|view_cbn; try done..]. set_solver.
  - subst token. destruct (waiting_summary _ _ Hw Hin) as (Ha & Hnp & Hcp & Hn).
    assert (Hm' : mid N (mkView (vturn v <| ProviderActive := false |>
      <| PendingProviderAction := providerActionNone |> <| Compaction := None |>) (vpasses v)
      (vsummaries v ∖ {[CurrentCompactionToken (vturn v)]}) (vtimers v) (vterminal v)))
      by (destruct Hm; close_mid).
    rewrite (mid_live _ _ Hm). destruct err as [[|message|message]|]; [by destruct Hli|..]; wps.
    1, 2: failing.
    do 4 (apply wp_or_failed; wps). apply wp_or_failed, wp_publish_summary; [|done].
    case_match; wps.
    + apply wp_complete_manual; [|intros e; failing]. wps. apply wp_publish_checkpoint; [|done].
      right. destruct Hm'. split; [close_mid|].
      apply on_checkpoint; view_cbn; try done. split; view_cbn; [done|done|set_solver].
    + apply wp_request_resume; [done..|]. right. right.
      split; view_cbn; [split; view_cbn; [done|done|set_solver]|done..].
Qed.

(** What a run needs of the stream once it superseded what ran. *)
Record superseded (N : Z) (v : View) : Prop := {
  super_mid : mid N v;
  super_active : ProviderActive (vturn v) = false;
  super_completion : PendingProviderCompletion (vturn v) = None
}.

Lemma wp_supersede N started Q E v :
  good N started v -> N + 2 < max_uint64 -> (forall v', superseded (N + 1) v' -> Q tt v') ->
  WP supersedeActiveRunWithSameRequest Q E v.
Proof.
  intros [Hm Hw] HN HQ. unfold supersedeActiveRunWithSameRequest. wps. apply HQ.
  destruct (_ || _ || _) eqn:Ea.
  - destruct Hm as [H1 H2 H3 H4 H5 H6 H7]. unfold clear_pending.
    pose proof (wrap_next N _ H4 ltac:(lia)). pose proof (wrap_next N _ H6 ltac:(lia)).
    split; [close_mid|done..].
  - apply orb_false_elim in Ea as [Ea _]. apply orb_false_elim in Ea as [Ea En].
    apply Nat.ltb_ge in En. split; [destruct Hm; close_mid|exact Ea|].
    view_cbn. destruct Hw; done || lia.
Qed.

Definition started_after (intent : RunIntent) : bool := negb (run_prewarm intent).

Lemma wp_run N started intent v :
  good N started v -> N + 3 <= max_uint64 ->
  run_prewarm intent || run_manual intent || run_has_work intent = true ->
  WP (handleRunIntent intent) (OK (N + 3) (started_after intent)) (fun _ => True) v.
Proof.
  intros Hg HN Hwork. unfold handleRunIntent. wps.
  eapply wp_supersede; [exact Hg|lia|]. clear v Hg. intros v [[H1 H2 H3 H4 H5 H6 H7] Ha Hcp].
  replace (_ && _ && _) with false
    by (destruct (run_prewarm intent), (run_manual intent), (run_has_work intent); done).
  pose proof (wrap_next _ _ H4 ltac:(lia)). pose proof (wrap_next _ _ H6 ltac:(lia)).
  unfold clear_pending. wps. set (v' := mkView _ _ _ _ _).
  assert (Hm : mid (N + 2) v').
  { subst v'. split; view_cbn; wraps;
      first [assumption|lia|token_bound|reflexivity|by destruct (Status (vturn v))]. }
  assert (Hc : clear v').
  { subst v'. split; [split|..]; view_cbn; wraps;
      [done|intros Hin%H5; lia|intros Hin%H7; lia|done|exact Hcp|reflexivity]. }
  assert (Hact : PendingProviderAction (vturn v') = providerActionNone) by reflexivity.
  clearbody v'. unfold started_after. destruct (run_prewarm intent); wps; cbn [negb].
  - right. split; [apply (mid_weaken (N + 2)); [done|lia]|]. destruct Hc. by apply not_started.
  - replace (N + 3) with (N + 2 + 1) by lia. apply wp_request_start; [done..|lia].
Qed.

Lemma wp_cancel N started v : WP handleCancelIntent (OK N started) (fun _ => True) v.
Proof.
  unfold handleCancelIntent, persistInterruptedProviderOutput, discardPendingCheckpoint,
    clearPendingProviderCompletion.
  repeat first [wp_once | case_match | (apply wp_broker_finish; [done|intros ? ?; by left|done]) | done].
Qed.

(** ** Timers *)

Lemma recovery_key execID :
  providerTimerKey streamTimerNonStreamingRecovery execID <> resume_key.
Proof. unfold providerTimerKey. case_decide; cbn; discriminate. Qed.

Lemma waiting_tokens started v tokens timers :
  waiting started v ->
  timer_token tokens resume_key = timer_token (Tokens (vturn v)) resume_key ->
  ((resume_key, timer_token (Tokens (vturn v)) resume_key) ∈ vtimers v ->
   (resume_key, timer_token (Tokens (vturn v)) resume_key) ∈ timers) ->
  waiting started (mkView (vturn v <| Tokens := tokens |>) (vpasses v) (vsummaries v) timers (vterminal v)).
Proof.
  intros Hw Et Hin. eapply waiting_frame; [exact Hw|view_cbn; try done..].
  unfold armed. view_cbn. by rewrite Et.
Qed.

(** Clearing a key moves its token, and no other. *)
Lemma clear_other key tokens :
  key <> resume_key ->
  timer_token (clearStreamTimer key tokens) resume_key = timer_token tokens resume_key.
Proof.
  intros Hne. unfold clearStreamTimer. case_decide; [done|]. unfold timer_token.
  by rewrite lookup_insert_ne.
Qed.

Lemma schedule_other key tokens :
  key <> resume_key ->
  timer_token (scheduleStreamTimer key tokens).2 resume_key = timer_token tokens resume_key.
Proof.
  intros Hne. unfold scheduleStreamTimer. case_decide; [done|]. cbn. unfold timer_token.
  by rewrite lookup_insert_ne.
Qed.

(** Scheduling a key that is not the resume's. *)
Lemma wp_schedule_keeps N started key v :
  good N started v -> key <> resume_key ->
  WP (schedule key) (fun _ v' => good N started v' /\ PendingExecs (vturn v') = PendingExecs (vturn v)) (fun _ => True) v.
Proof.
  intros [Hm Hw] Hne w <-. unfold schedule. pose proof (schedule_other key (Tokens (turn w)) Hne) as Ht.
  destruct (scheduleStreamTimer key (Tokens (turn w))) as [[token|] tokens]; (split; [|done]);
    (split; [destruct Hm; close_mid|apply (waiting_tokens _ (view w)); [done|done|set_solver]]).
Qed.

Lemma wp_schedule_other N started key v :
  good N started v -> key <> resume_key -> WP (schedule key) (OK N started) (fun _ => True) v.
Proof.
  intros Hg Hne. eapply wp_mono; [by apply (wp_schedule_keeps N started)| |done].
  intros _ v' [? _]. by right.
Qed.

(** Timers of execs are not the resume's. *)
Lemma exec_key kind execID :
  kind ∈ [streamTimerNonStreamingRecovery; streamTimerShellForeground; streamTimerShellDispatch; streamTimerShellTransportClose] ->
  providerTimerKey kind execID <> resume_key.
Proof.
  intros Hk. unfold providerTimerKey, resume_key. cbn.
  repeat (apply elem_of_cons in Hk as [->|Hk]; [by case_decide|]). by apply elem_of_nil in Hk.
Qed.

Lemma wp_schedule_exec N started kind execID v :
  good N started v ->
  kind ∈ [streamTimerNonStreamingRecovery; streamTimerShellForeground; streamTimerShellDispatch; streamTimerShellTransportClose] ->
  WP (schedule_exec_timer kind execID) (OK N started) (fun _ => True) v.
Proof.
  intros Hg Hk. unfold schedule_exec_timer. case_decide; wps; [by right|].
  apply wp_schedule_other; [done|by apply exec_key].
Qed.

Lemma good_clear N started key v : good N started v -> key <> resume_key ->
  good N started (mkView (vturn v <| Tokens := clearStreamTimer key (Tokens (vturn v)) |>) (vpasses v) (vsummaries v)
                    (vtimers v) (vterminal v)).
Proof.
  intros [Hm Hw] Hk. split; [destruct Hm; close_mid|]. by apply (waiting_tokens started v); [|apply clear_other|].
Qed.

Ltac exec_kind := apply (bool_decide_unpack _); vm_compute; exact I.

(** What is left of a shell that a message was about. *)
Lemma wp_exec_progress N started id pending message v :
  good N started v -> PendingExecs (vturn v) !! id = Some pending -> isShell pending = true ->
  WP (applyExecProgress id pending message)
    (fun _ v' => good N started v' /\ exists closed, PendingExecs (vturn v') !! id = Some (mkExec (Kind pending) closed))
    (fun _ => True) v.
Proof.
  intros Hg Hp Hk. unfold applyExecProgress, clear_timer. wps.
  apply (good_clear N started (providerTimerKey streamTimerShellDispatch id)) in Hg; [|apply exec_key; exec_kind].
  set (v1 := mkView _ _ _ _ _) in *. change (PendingExecs (vturn v1) !! id = Some pending) in Hp. clearbody v1.
  set (kept := fun v' => good N started v' /\ exists closed, PendingExecs (vturn v') !! id = Some (mkExec (Kind pending) closed)).
  assert (Hrest : forall v', kept v' -> WP (if message_running message
    then schedule_exec_timer streamTimerShellForeground id else ret tt) (fun _ => kept) (fun _ => True) v').
  { intros v' Hv'. destruct (message_running message); wps; [|done].
    unfold schedule_exec_timer. case_decide; wps; [done|]. destruct Hv' as [Hg' Hp'].
    eapply wp_mono; [apply (wp_schedule_keeps N started); [done|apply exec_key; exec_kind]| |done].
    intros _ v2 [? He]. split; [done|]. by rewrite He. }
  destruct (message_signal message); unfold set_exec; wps; apply Hrest; split; try done.
  - eapply good_pendings; [done|done|left; by apply shell_not_hook|apply insert_non_empty].
  - exists false. apply lookup_insert_eq.
  - exists (Closed pending). by destruct pending.
Qed.

Lemma wp_exec_result N started message v :
  good N started v -> N < max_uint64 ->
  WP (handleExecResult message) (OK (N + 1) started) (fun _ => True) v.
Proof.
  intros Hg HN. assert (Hstay : forall v', good N started v' -> ok (N + 1) started v').
  { intros v' []. right. split; [apply (mid_weaken N); [done|lia]|done]. }
  unfold handleExecResult. wps.
  destruct (PendingExecs (vturn v) !! message_exec message) as [pending|] eqn:Hp; [|case_match; wps; auto].
  assert (Hrest : forall v' closed, good N started v' -> PendingExecs (vturn v') !! message_exec message =
      Some (mkExec (Kind pending) closed) ->
    WP (if isHiddenExecKind (Kind pending) then handleHiddenExecResult (message_exec message)
        else service ;;;
          if negb (message_terminal message) then ret tt
          else service ;;; markExecCompleted (message_exec message) ;;;
            if decide (TrimSpace (Kind pending) = executeHookPreCompact)
            then handlePreCompactTerminal (message_hook message) else settleExec)
      (OK (N + 1) started) (fun _ => True) v').
  { intros v' closed Hg' Hp'. destruct (isHiddenExecKind (Kind pending)) eqn:Hh; [by eapply wp_hidden_exec|].
    wps. case_match; wps; [auto|]. unfold markExecCompleted, settleExec. wps. case_decide; wps.
    - by eapply wp_hook_terminal.
    - eapply wp_settle; [done|done|done|by left]. }
  destruct (isShell pending) eqn:Hs.
  - apply wp_bind. eapply wp_mono; [by apply (wp_exec_progress N started)| |done]. intros _ v' [? [closed ?]]. eauto.
  - wps. apply (Hrest v (Closed pending)); [done|]. by destruct pending.
Qed.

Lemma wp_transport_closed N started id pending timer v :
  good N started v -> PendingExecs (vturn v) !! id = Some pending ->
  TrimSpace (Kind pending) <> executeHookPreCompact ->
  timer ∈ [streamTimerNonStreamingRecovery; streamTimerShellForeground; streamTimerShellDispatch; streamTimerShellTransportClose] ->
  WP (transport_closed id pending timer) (OK N started) (fun _ => True) v.
Proof.
  intros Hg Hp Hk Ht. unfold transport_closed, set_exec. wps. apply wp_schedule_exec; [|done].
  eapply good_pendings; [done|done|by left|apply insert_non_empty].
Qed.

Lemma wp_exec_control N started id stale message v :
  good N started v -> N < max_uint64 ->
  WP (handleExecControl id stale message) (OK (N + 1) started) (fun _ => True) v.
Proof.
  intros Hg HN. assert (Hstay : forall v', ok N started v' -> ok (N + 1) started v').
  { intros v' [?|[]]; [by left|]. right. split; [apply (mid_weaken N); [done|lia]|done]. }
  assert (Hclose : forall pending timer v', good N started v' -> PendingExecs (vturn v') !! id = Some pending ->
    TrimSpace (Kind pending) <> executeHookPreCompact ->
    timer ∈ [streamTimerNonStreamingRecovery; streamTimerShellForeground; streamTimerShellDispatch; streamTimerShellTransportClose] ->
    WP (transport_closed id pending timer) (OK (N + 1) started) (fun _ => True) v').
  { intros pending timer v' Hg' Hp Hk Ht. eapply wp_mono; [by apply (wp_transport_closed N started)| |done].
    intros [] v2. apply Hstay. }
  unfold handleExecControl. wps.
  destruct (PendingExecs (vturn v) !! id) as [pending|] eqn:Hp; [|case_match; wps; apply Hstay; by right].
  destruct (isHiddenExecKind (Kind pending)) eqn:Hh.
  { pose proof (hidden_not_hook _ Hh). destruct message; wps; [apply Hstay; by right|by apply Hclose; try exec_kind|].
    unfold markExecCompleted. wps. by eapply wp_finish_edit. }
  assert (Hrest : forall v', good N started v' -> PendingExecs (vturn v') !! id = Some pending ->
    WP (match message with
        | ControlHeartbeat => ret tt
        | ControlStreamClose shell_over =>
            if decide (TrimSpace (Kind pending) = executeHookPreCompact) then
              markExecCompleted id ;;;
              handlePreCompactTerminal EmptyString
            else if isShell pending then
              if shell_over then ret tt
              else transport_closed id pending streamTimerShellTransportClose
            else transport_closed id pending streamTimerNonStreamingRecovery
        | ControlThrow =>
            markExecCompleted id ;;;
            if decide (TrimSpace (Kind pending) = executeHookPreCompact)
            then handlePreCompactTerminal EmptyString
            else settleExec
        end) (OK (N + 1) started) (fun _ => True) v').
  { intros v' Hg' Hp'. unfold markExecCompleted, settleExec. destruct message as [|shell_over|]; wps.
    - apply Hstay. by right.
    - case_decide; wps; [by eapply wp_hook_terminal|].
      destruct (isShell pending); [destruct shell_over; wps; [apply Hstay; by right|]|];
        (apply Hclose; [done|done|done|exec_kind]).
    - case_decide; wps; [by eapply wp_hook_terminal|].
      apply (wp_settle N started id pending _ v'); [done|done|done|by left]. }
  unfold clear_timer. destruct (isShell pending); wps; apply Hrest; try done.
  apply good_clear; [done|]. apply exec_key. exec_kind.
Qed.

(** The resume timer fires, its token cleared. *)
Lemma wp_resume_timer N started v tokens timers :
  good N started v -> N < max_uint64 ->
  WP (if ProviderActive (vturn v) || isTerminalStreamStatus (Status (vturn v)) ||
         negb (bool_decide (PendingProviderAction (vturn v) = providerActionResume)) ||
         (0 <? pendingBridgeCount (vturn v))%nat
      then ret tt
      else driveProvider) (OK (N + 1) started) (fun _ => True)
    (mkView (vturn v <| Tokens := tokens |>) (vpasses v) (vsummaries v) timers (vterminal v)).
Proof.
  intros [Hm Hw] HN. rewrite (mid_live _ _ Hm), orb_false_r.
  assert (Hm' : mid N (mkView (vturn v <| Tokens := tokens |>) (vpasses v) (vsummaries v) timers
    (vterminal v))) by (destruct Hm; close_mid).
  destruct (ProviderActive (vturn v) || negb _ || _) eqn:Ec.
  - wps. right. split; [apply (mid_weaken N); [done|lia]|].
    destruct Hw as [| |? []|? []|[Ha] ? ? Hact Hn|[]|? []].
    + by apply on_pass.
    + by eapply on_summary.
    + eapply on_hook; [by split|done..].
    + eapply on_external; [by split|done..].
    + by rewrite Ha, (bool_decide_eq_true_2 _ Hact), Hn in Ec.
    + apply on_checkpoint; [by split|done..].
    + apply not_started; [done|by split|done..].
  - apply wp_drive; [done| |done]. apply orb_false_elim in Ec as [Ec Hn].
    apply orb_false_elim in Ec as [Ha Hact]. zbool. apply Nat.ltb_ge in Hn.
    pose proof (hook_counts (vturn v)) as Hh.
    destruct Hw as [| |? []|? []|[] ? ? ? ?|[]|? []]; try congruence; [by apply Hh in H1; lia|lia|].
    split; view_cbn; [by split|done..].
Qed.

(** Any other timer fires, its token cleared. *)
Lemma good_fired N started key token v :
  good N started v -> key <> resume_key ->
  good N started (mkView (vturn v <| Tokens := clearStreamTimer key (Tokens (vturn v)) |>)
    (vpasses v) (vsummaries v) (vtimers v ∖ {[(key, token)]}) (vterminal v)).
Proof.
  intros [Hm Hw] Hk. split; [destruct Hm; close_mid|].
  apply (waiting_tokens started v); [done|by apply clear_other|]. intros Harm.
  apply elem_of_difference. split; [done|]. rewrite elem_of_singleton. by intros [=].
Qed.

Lemma wp_fail_shell N started id v :
  WP (failUnacknowledgedShellDispatch id) (OK N started) (fun _ => True) v.
Proof.
  unfold failUnacknowledgedShellDispatch, markExecCompleted. wps. apply wp_fail; [|done]. intros v' ?. by left.
Qed.

Lemma wp_timer N started kind token v :
  good N started v -> N < max_uint64 ->
  WP (handleTimerEvent kind token) (OK (N + 1) started) (fun _ => True)
    (mkView (vturn v) (vpasses v) (vsummaries v) (vtimers v ∖ {[(timer_key kind, token)]}) (vterminal v)).
Proof.
  intros [Hm Hw] HN. unfold handleTimerEvent. wps. case_match eqn:Hmatch; wps.
  - right. split; [apply (mid_weaken N); [destruct Hm; close_mid|lia]|].
    eapply waiting_frame; [exact Hw|view_cbn; try done..]. unfold armed. view_cbn.
    intros Harm. apply elem_of_difference. split; [done|]. rewrite elem_of_singleton.
    intros [= Hk <-]. rewrite <- Hk in Hmatch. unfold timerEventMatches in Hmatch.
    rewrite Z.eqb_refl in Hmatch. done.
  - assert (Hfired : timer_key kind <> resume_key -> good N started (mkView (vturn v
        <| Tokens := clearStreamTimer (timer_key kind) (Tokens (vturn v)) |>)
        (vpasses v) (vsummaries v) (vtimers v ∖ {[(timer_key kind, token)]}) (vterminal v))).
    { intros Hk. by apply good_fired. }
    assert (Hkeep : forall v', good N started v' -> ok (N + 1) started v').
    { intros v' []. right. split; [apply (mid_weaken N); [done|lia]|done]. }
    destruct kind as [|execID same|execID due|execID due|execID same|subscribers].
    1: by apply (wp_resume_timer N started v).
    1-4: specialize (Hfired ltac:(apply exec_key; exec_kind)).
    5: specialize (Hfired ltac:(done)).
    + case_match eqn:Hp; [case_match eqn:Hc|]; wps; auto. apply andb_prop in Hc as [Hc _].
      eapply wp_recover_exec; [done|done|done|by right].
    + case_match eqn:Hp; [case_match|]; wps; auto. apply wp_fail_shell.
    + case_match eqn:Hp; [case_match eqn:Hs|]; wps; auto. apply andb_prop in Hs as [Hs _].
      destruct due; wps; auto.
      * eapply wp_mono; [apply (wp_schedule_exec N started); [done|exec_kind]| |done].
        intros _ v' [?|?]; [by left|by apply Hkeep].
      * eapply wp_recover_exec; [done|done|done|left; by apply shell_not_hook].
    + case_match eqn:Hp; [case_match eqn:Hc|]; wps; auto. apply andb_prop in Hc as [Hc _].
      apply andb_prop in Hc as [Hc _]. eapply wp_recover_exec; [done|done|done|by right].
    + case_match; wps; [auto|apply wp_cancel].
Qed.



(** ** Reachable turns *)

(** What has run to its end when its command is handled. *)
Definition finished (command : Command) (w : World) : World :=
  match command with
  | CommandProviderDone token _ => w <| passes := passes w ∖ {[token]} |>
  | CommandCompaction token _ _ => w <| summaries := summaries w ∖ {[token]} |>
  | CommandTimer kind token => w <| timers := timers w ∖ {[(timer_key kind, token)]} |>
  | _ => w
  end.

(** Who can post a command.  A pass posts its events and then its end, a summary its end; they
    report an interruption only after their token was replaced.  A timer may fire late and
    stale.  A run must bring something to do. *)
Definition posted (command : Command) (w : World) : Prop :=
  match command with
  | CommandRun intent => run_prewarm intent || run_manual intent || run_has_work intent = true
  | CommandProviderEvent token _ => token ∈ passes w
  | CommandProviderDone token err =>
      token ∈ passes w /\ (err = Some LoopInterrupted -> CurrentProviderToken (turn w) <> token)
  | CommandCompaction token _ err =>
      token ∈ summaries w /\ (err = Some LoopInterrupted -> CurrentCompactionToken (turn w) <> token)
  | _ => True
  end.

Definition started_by (command : Command) (started : bool) : bool :=
  match command with CommandRun intent => started_after intent | _ => started end.

Definition provider_event (command : Command) : bool :=
  match command with CommandProviderEvent _ _ => true | _ => false end.

Definition fresh_turn (w : World) : Prop :=
  Status (turn w) = StatusCreated /\ TerminalActionClaimed (turn w) = false /\
  Phase (turn w) = PhaseIdle /\ ProviderActive (turn w) = false /\
  CurrentProviderToken (turn w) = 0 /\ CurrentCompactionToken (turn w) = 0 /\
  PendingProviderAction (turn w) = providerActionNone /\
  PendingProviderCompletion (turn w) = None /\ PendingExecs (turn w) = ∅ /\
  PendingInteractions (turn w) = ∅ /\ Compaction (turn w) = None /\
  passes w = ∅ /\ summaries w = ∅.

(** The states of an actor's stream after [n] commands; [started] tells whether the last run
    was more than a prewarm.  A command that fails without a client that waits for it fails the
    stream; one that is refused before it changed anything leaves the stream as it was; an error
    returned to a pass makes it end.  An error that a waiting client gets when the command has done
    part of its work is not followed further. *)
Inductive turn_reachable : nat -> bool -> World -> Prop :=
| turn_fresh w : fresh_turn w -> turn_reachable 0 false w
| turn_step n started w waits command r w' :
    turn_reachable n started w -> shouldStopStreamActor (turn w) = false -> posted command w ->
    actor_round waits command (finished command w) = (r, w') ->
    r = Ok tt \/ provider_event command = true ->
    turn_reachable (S n) (started_by command started) w'
| turn_refused n started w command e w' :
    turn_reachable n started w -> shouldStopStreamActor (turn w) = false ->
    actor_round true command w = (Err e, w') -> view w' = view w ->
    turn_reachable (S n) started w'.

Lemma fresh_good w : fresh_turn w -> good 0 false (view w).
Proof.
  intros (E1 & E2 & E3 & E4 & E5 & E6 & E7 & E8 & E9 & E10 & E11 & E12 & E13). split.
  - split; cbn; rewrite ?E1, ?E2, ?E3, ?E5, ?E6, ?E12, ?E13; done || lia || set_solver.
  - apply not_started; cbn; [done|split; cbn|..]; rewrite ?E4, ?E5, ?E6, ?E12, ?E13; try done;
      try set_solver. apply pendings_zero. by rewrite E9, E10.
Qed.

Lemma ok_weaken N N' started v : N <= N' -> ok N started v -> ok N' started v.
Proof. intros HN [?|[? ?]]; [by left|]. right. split; [by apply (mid_weaken N)|done]. Qed.

Lemma wp_weaken N N' started (m : M unit) v (E : View -> Prop) :
  N <= N' -> (forall v', E v') -> WP m (OK N started) (fun _ => True) v -> WP m (OK N' started) E v.
Proof. intros HN HE H. eapply wp_mono; [exact H|intros ? v'; by apply ok_weaken|done]. Qed.

Lemma wp_checkpoint_terminal N started v :
  good N started v ->
  WP (handleStreamCommand CommandCheckpointTerminal) (OK N started) (fun _ => True) v.
Proof.
  intros [Hm Hw]. cbn [handleStreamCommand]. apply wp_bind.
  assert (Hget : forall (Q : option pendingTurnCompletion -> View -> Prop) E,
    Q (vterminal v) v -> WP (fun w => (Ok (checkpoint_terminal w), w)) Q E v) by (by intros Q E HQ w <-).
  apply Hget. case_match; wps; [|by right].
  destruct Hm. by apply wp_finish.
Qed.

Lemma wp_maybe_orphaned N started subscribers v :
  good N started v -> WP (handleMaybeOrphaned subscribers) (OK N started) (fun _ => True) v.
Proof.
  intros Hg. unfold handleMaybeOrphaned. wps. case_match; wps; [by right|].
  by apply wp_schedule_other.
Qed.

Lemma wp_command N started command w :
  good N started (view w) -> N + 3 <= max_uint64 -> posted command w ->
  WP (handleStreamCommand command) (OK (N + 3) (started_by command started))
    (fun v => provider_event command = true -> good (N + 3) started v) (view (finished command w)).
Proof.
  intros Hg HN Hp.
  destruct command as [intent| |message|id stale message|id|token event|token err|kind token|token plan err|n|];
    cbn [started_by provider_event finished].
  6: { eapply wp_mono; [by apply (wp_provider_event N started)|intros ? v'; apply ok_weaken; lia|].
       intros v' [? ?] _. split; [by apply (mid_weaken N); [|lia]|done]. }
  - apply (wp_weaken (N + 3)); [lia|done|by apply (wp_run N started)].
  - apply (wp_weaken N); [lia|done|apply wp_cancel].
  - apply (wp_weaken (N + 1)); [lia|done|apply wp_exec_result; [done|lia]].
  - apply (wp_weaken (N + 1)); [lia|done|apply wp_exec_control; [done|lia]].
  - apply (wp_weaken (N + 1)); [lia|done|apply wp_interaction; [done|lia]].
  - destruct Hp. apply (wp_weaken (N + 1)); [lia|done|].
    apply (wp_provider_done N started token err (view w)); [done|lia|done..].
  - apply (wp_weaken (N + 1)); [lia|done|apply (wp_timer N started kind token (view w)); [done|lia]].
  - destruct Hp. apply (wp_weaken (N + 1)); [lia|done|].
    apply (wp_compaction N started token plan err (view w)); [done|lia|done..].
  - apply (wp_weaken N); [lia|done|by apply wp_maybe_orphaned].
  - apply (wp_weaken N); [lia|done|by apply wp_checkpoint_terminal].
Qed.

Lemma reachable_ok n started w :
  turn_reachable n started w -> 3 * Z.of_nat n <= max_uint64 ->
  ok (3 * Z.of_nat n) started (view w).
Proof.
  induction 1 as [w Hf|n started w waits command r w' _ IH Hlive Hp Hr Hres|n started w command e w' _ IH _ _ Hv]; intros HN.
  { right. by apply fresh_good. }
  2: { rewrite Hv. apply (ok_weaken (3 * Z.of_nat n)); [lia|]. apply IH. lia. }
  destruct (IH ltac:(lia)) as [He|Hg].
  { exfalso. unfold shouldStopStreamActor in Hlive. unfold ended in He. cbn in He. by rewrite He in Hlive. }
  pose proof (wp_command _ _ command w Hg ltac:(lia) Hp (finished command w) eq_refl) as Hc.
  replace (3 * Z.of_nat (S n)) with (3 * Z.of_nat n + 3) by lia.
  unfold actor_round, bind, try in Hr.
  destruct (handleStreamCommand command (finished command w)) as [[[]|e] w1].
  { by injection Hr as _ <-. }
  destruct waits.
  - injection Hr as <- <-. destruct Hres as [?|Hev]; [done|].
    right. destruct command; try done. by apply Hc.
  - left. pose proof (wp_fail "unknown" e (fun _ => ended) ended (view w1)) as Hf.
    specialize (Hf ltac:(done) ltac:(done) w1 eq_refl). unfold ignored, bind, try in Hr.
    destruct (failStream "unknown" e w1) as [[[]|] w2]; by injection Hr as _ <-.
Qed.

(** ** Properties *)


(** a run for the request of an active turn stops that turn before it looks for new work:
    when all its messages are already in the history it returns without an error, with the
    provider pass orphaned, the pendings dropped and the stream neither ended nor waiting for
    anything. *)
Theorem rerun_without_work_stalls n w intent :
  turn_reachable n true w -> 3 * Z.of_nat n + 1 <= max_uint64 ->
  isTerminalStreamStatus (Status (turn w)) = false -> ProviderActive (turn w) = true ->
  checkpoint_terminal w = None -> env_services w = [] ->
  run_prewarm intent || run_manual intent || run_has_work intent = false ->
  exists w', handleRunIntent intent w = (Ok tt, w') /\
    isTerminalStreamStatus (Status (turn w')) = false /\ ~ waiting true (view w').
Proof.
  intros Hr HN Hl Ha Ht Henv Hwork. apply orb_false_elim in Hwork as [Hwork Hh].
  apply orb_false_elim in Hwork as [Hp Hman].
  destruct (reachable_ok _ _ _ Hr ltac:(lia)) as [He|[Hm Hw]].
  { unfold ended in He. cbn in He. by rewrite Hl in He. }
  unfold handleRunIntent, supersedeActiveRunWithSameRequest, service, bind, update. rewrite Henv. cbn.
  rewrite Ha, Hp, Hman, Hh. eexists. split; [reflexivity|]. cbn. split; [exact Hl|].
  intros [H|? H|? ? H|? ? ? H|? ? ? H|? ? ? ? ? H|H]; cbn in *; congruence.
Qed.

End Turn.

(** ** Witnesses *)

Module Demo.

Definition prepared (s : TurnStream) : turnUsageSnapshot := empty_usage.

Definition fresh : TurnStream :=
  mkTurn "req" "conv" 0 false StatusCreated PhaseIdle false false providerActionNone None ∅ ∅ None
    false 0 0 0 EmptyString EmptyString no_reasoning false EmptyString empty_usage 0 false ∅.

Definition world (tools : list (result ToolOutcome)) : World :=
  mkWorld fresh ∅ ∅ ∅ None [] [] [] tools [] [].

Definition the_run : RunIntent := mkRun "conv" 1 false false true.
Definition rerun : RunIntent := mkRun "conv" 1 false false false.

Fixpoint play (commands : list Command) (w : World) : World :=
  match commands with
  | [] => w
  | command :: rest => play rest (actor_round prepared true command (finished command w)).2
  end.

Definition running : World := play [CommandRun the_run] (world []).

(** A tool call opened an exec and the pass ended: the turn waits for the exec. *)
Definition waiting_exec : World :=
  play [CommandRun the_run;
        CommandProviderEvent 2 (ModelEventTextDelta "hi");
        CommandProviderEvent 2 (ModelEventToolLikeCompleted true);
        CommandProviderDone 2 None]
    (world [Ok (mkOutcome [("exec-1", mkExec "read" false)] [] false)]).

Definition result_of (execID : string) : ExecMessage := mkExecMessage execID false false false true EmptyString.

Definition after_exec : World := play [CommandExecResult (result_of "exec-1")] waiting_exec.

Example exec_then_resume :
  Phase (turn waiting_exec) = PhaseWaitingExternal /\
  option_map CompletionDisposition (PendingProviderCompletion (turn waiting_exec)) =
    Some completionDispositionResumeAfterExternal /\
  PendingProviderAction (turn after_exec) = providerActionResume /\
  elements (timers after_exec) = [(resume_key, 1)] /\
  log after_exec = [EffectLaunch 2 1; EffectFlush "hi"; EffectTool "hi" no_reasoning].
Proof. vm_compute. done. Qed.

(** A pass whose tool answers at once resumes the turn; when an earlier run of the request was
    superseded after a tool that ends the turn, the flag of that tool is still set and the pass
    ends the turn instead. *)
Definition immediate : ToolOutcome := mkOutcome [] [] false.
Definition final_tool : ToolOutcome := mkOutcome [] [] true.

Definition one_pass (token : Z) : list Command :=
  [CommandProviderEvent token (ModelEventToolLikeCompleted true); CommandProviderDone token None].

Example immediate_tool_resumes :
  Status (turn (play (CommandRun the_run :: one_pass 2) (world [Ok immediate]))) = StatusStreaming /\
  PendingProviderAction (turn (play (CommandRun the_run :: one_pass 2) (world [Ok immediate]))) =
    providerActionResume.
Proof. by vm_compute. Qed.

Example stale_terminal_flag_ends_rerun :
  Status (turn (play ([CommandRun the_run;
                       CommandProviderEvent 2 (ModelEventToolLikeCompleted true);
                       CommandRun the_run] ++ one_pass 5)
                  (world [Ok final_tool; Ok immediate]))) = StatusCompleted.
Proof. by vm_compute. Qed.

Lemma running_reachable : turn_reachable prepared 1 true running.
Proof.
  apply (turn_step prepared 0 false (world []) true (CommandRun the_run) (Ok tt) running).
  - apply turn_fresh. repeat split.
  - reflexivity.
  - reflexivity.
  - vm_compute. reflexivity.
  - by left.
Qed.

End Demo.


Lemma rerun_without_work_stalls_witness :
  exists w', handleRunIntent Demo.prepared Demo.rerun Demo.running = (Ok tt, w') /\
    isTerminalStreamStatus (Status (turn w')) = false /\ ~ waiting true (view w').
Proof.
  apply (rerun_without_work_stalls Demo.prepared 1);
    [apply Demo.running_reachable|vm_compute; discriminate|reflexivity..].
Defined.
