(* ===== verification/Replay.v ===== *)
(** * What a replayed tool result shows (forwarder/tool_result_replay_truncation.go).

    A tool result goes back to the provider at every later pass, so its text is cut down:
    images, shell streams and edits are rewritten inside their JSON, and the text is cut at the
    limit of its tool (Truncation.v).  JSON documents are trees; parsing and printing them is
    the interface [Json]. *)

From S2P Require Import Prelude Go Strings Utf8 Truncation EditText.

(** ** JSON documents *)

(** [any] after [json.Unmarshal]; a number is kept as its text. *)
Inductive JSON :=
| JNull
| JBool (b : bool)
| JNumber (n : string)
| JString (s : string)
| JArray (items : list JSON)
| JObject (fields : list (string * JSON)).

(** [json.Unmarshal] and [json.Marshal] of encoding/json. *)
Class Json := {
  json_Unmarshal : string -> option JSON;
  json_Marshal : JSON -> string
}.

(** A lookup in a [map[string]any]: the last field of a name is the one that is kept. *)
Fixpoint field (key : string) (fields : list (string * JSON)) : option JSON :=
  match fields with
  | [] => None
  | (k, v) :: rest =>
      match field key rest with
      | Some w => Some w
      | None => if decide (k = key) then Some v else None
      end
  end.

Fixpoint firstJSONText (fields : list (string * JSON)) (keys : list string) : string :=
  match keys with
  | [] => EmptyString
  | key :: keys =>
      match field key fields with
      | Some (JString text) => text
      | _ => firstJSONText fields keys
      end
  end.

(** ** Rewriting strings inside a document *)

(** The walk of [compactGenerateImagePayload] and [compactProjectedShellFields]: [rewrite key
    text] is the new text of a string field, if the field is one to rewrite.  The second
    component tells whether something changed. *)
Section Walk.
Context (rewrite_text : string -> string -> option string) (counts : string -> string -> bool).

Fixpoint walk (value : JSON) : JSON * bool :=
  match value with
  | JObject fields =>
      let visited :=
        (fix go (fields : list (string * JSON)) : list (string * JSON) * bool :=
           match fields with
           | [] => ([], false)
           | (key, child) :: rest =>
               let '(rest', changed) := go rest in
               let '(child', c) :=
                 match child with
                 | JString text =>
                     match rewrite_text key text with
                     | Some next => (JString next, counts text next)
                     | None => (child, false)
                     end
                 | _ => walk child
                 end in
               ((key, child') :: rest', c || changed)
           end) fields in
      (JObject visited.1, visited.2)
  | JArray items =>
      let visited :=
        (fix go (items : list JSON) : list JSON * bool :=
           match items with
           | [] => ([], false)
           | item :: rest =>
               let '(rest', changed) := go rest in
               let '(item', c) := walk item in
               (item' :: rest', c || changed)
           end) items in
      (JArray visited.1, visited.2)
  | _ => (value, false)
  end.
End Walk.

Definition omitted_image (text : string) : string :=
  "[base64 image data omitted from replay; bytes=" +:+
  Sprintd (len (bytes_of (TrimSpace text))) +:+ "]".

Definition compactGenerateImagePayload : JSON -> JSON * bool :=
  walk (fun key text => if decide (key ∈ ["image_data"; "imageData"]) then Some (omitted_image text) else None)
    (fun _ _ => true).

Definition projectedReplayKiB : Z := 1024.
Definition projectedReadReplayLimit : Z := 64 * projectedReplayKiB.
Definition projectedShellReplayLimit : Z := 128 * projectedReplayKiB.
Definition projectedShellStreamLimit : Z := 16 * projectedReplayKiB.
Definition projectedShellInterleavedLimit : Z := 32 * projectedReplayKiB.
Definition projectedGrepReplayLimit : Z := 32 * projectedReplayKiB.
Definition projectedEditReplayLimit : Z := 32 * projectedReplayKiB.
Definition projectedPatchEditReplayLimit : Z := 32 * projectedReplayKiB.
Definition projectedWebFetchReplayLimit : Z := 32 * projectedReplayKiB.
Definition projectedWebSearchReplayLimit : Z := 16 * projectedReplayKiB.
Definition projectedMcpReplayLimit : Z := 32 * projectedReplayKiB.

(** Truncation.v works on bytes. *)
Definition truncate_text (toolName text : string) (limit : Z) : string :=
  string_of (truncateProjectedReplayText (bytes_of toolName) (bytes_of text) limit).

Definition truncate_middle (toolName text : string) (limit : Z) : string :=
  string_of (truncateProjectedReplayTextMiddle (bytes_of toolName) (bytes_of text) limit).

Definition shell_stream (key text : string) : option string :=
  if decide (key ∈ ["stdout"; "stderr"]) then
    Some (truncate_middle ("Shell " +:+ key) text projectedShellStreamLimit)
  else if decide (key ∈ ["interleaved_output"; "interleavedOutput"]) then
    Some (truncate_middle "Shell interleaved output" text projectedShellInterleavedLimit)
  else None.

Definition compactProjectedShellFields : JSON -> JSON * bool :=
  walk shell_stream (fun text next => negb (bool_decide (next = text))).

(** ** Limits *)

Definition projectedToolReplayLimit (toolName : string) : option Z :=
  let name := TrimSpace toolName in
  if decide (name = "GenerateImage") then Some projectedWebSearchReplayLimit
  else if decide (name = "Read") then Some projectedReadReplayLimit
  else if decide (name = "Shell") then Some projectedShellReplayLimit
  else if decide (name = "Grep") then Some projectedGrepReplayLimit
  else if decide (name ∈ ["PatchEdit"; "PatchEditLines"; "PatchEditSpan"])
  then Some projectedPatchEditReplayLimit
  else if decide (name ∈ ["Edit"; "Write"]) then Some projectedEditReplayLimit
  else if decide (name = "WebFetch") then Some projectedWebFetchReplayLimit
  else if decide (name = "WebSearch") then Some projectedWebSearchReplayLimit
  else if decide (name ∈ ["CallMcpTool"; "FetchMcpResource"; "ListMcpResources"])
  then Some projectedMcpReplayLimit
  else None.

Definition patchEditReplayLimit (toolName : string) : Z :=
  if decide (TrimSpace toolName ∈ ["PatchEdit"; "PatchEditLines"; "PatchEditSpan"])
  then projectedPatchEditReplayLimit else projectedEditReplayLimit.

Definition edit_tools : list string := ["PatchEdit"; "PatchEditLines"; "PatchEditSpan"; "Edit"; "Write"].

Section Replay.
Context `{!Json} (line_diffs : bytes -> bytes -> list Diff).

(** ** The rewriting of each tool *)

Definition compactProjectedGenerateImageResultReplay (toolName content resultText : string)
  : option string :=
  if decide (TrimSpace toolName <> "GenerateImage") then None
  else
    let fallback := TrimSpace resultText in
    let trimmed := TrimSpace content in
    if decide (trimmed ∈ [EmptyString; "{}"; "null"]) then
      if decide (fallback = EmptyString) then None else Some fallback
    else
      match json_Unmarshal trimmed with
      | None =>
          if decide (fallback = EmptyString)
          then Some (truncate_text "GenerateImage" trimmed projectedWebSearchReplayLimit)
          else Some fallback
      | Some payload =>
          let '(payload, changed) := compactGenerateImagePayload payload in
          if changed then Some (json_Marshal payload)
          else if decide (fallback <> EmptyString) then Some fallback
          else Some trimmed
      end.

Definition compactProjectedShellToolResultReplay (toolName content : string) : option string :=
  if decide (TrimSpace toolName <> "Shell") then None
  else
    let trimmed := TrimSpace content in
    if decide (trimmed ∈ [EmptyString; "{}"; "null"]) then None
    else
      match json_Unmarshal trimmed with
      | None => None
      | Some payload =>
          let '(payload, changed) := compactProjectedShellFields payload in
          if changed then Some (json_Marshal payload) else None
      end.

(** The diff a successful edit is replayed as: the stored one, or the one of the stored contents. *)
Definition replayed_diff (success : list (string * JSON)) : string * string :=
  let diffString := firstJSONText success ["diff_string"; "diffString"] in
  if decide (diffString = EmptyString) then
    let beforeContent := firstJSONText success ["before_full_file_content"; "beforeFullFileContent"] in
    let afterContent := firstJSONText success ["after_full_file_content"; "afterFullFileContent"] in
    (if decide (beforeContent = EmptyString) then EmptyString
     else string_of (computeEditDiff line_diffs (bytes_of beforeContent) (bytes_of afterContent)).1.1,
     afterContent)
  else (diffString, EmptyString).

Definition success_document (key text : string) : string :=
  json_Marshal (JObject [("success", JObject [(key, JString text)])]).

Definition compactProjectedEditToolResultReplay (toolName content : string) : option string :=
  if decide (TrimSpace toolName ∉ edit_tools) then None
  else
    let trimmed := TrimSpace content in
    if decide (trimmed ∈ [EmptyString; "{}"; "null"]) then None
    else
      match json_Unmarshal trimmed with
      | Some (JObject payload) =>
          match field "success" payload with
          | Some (JObject success) =>
              let '(diffString, afterContent) := replayed_diff success in
              if decide (diffString <> EmptyString) then
                Some (success_document "diff_string"
                        (truncate_text (firstNonEmpty [TrimSpace toolName; "PatchEdit"]) diffString
                           (patchEditReplayLimit toolName)))
              else if decide (afterContent <> EmptyString) then
                Some (success_document "after_full_file_content"
                        (truncate_text (firstNonEmpty [TrimSpace toolName; "Write"]) afterContent
                           (patchEditReplayLimit toolName)))
              else None
          | _ => None
          end
      | _ => None
      end.

Definition compactHistoricalEditErrorReplay (toolName content : string) : option string :=
  if decide (TrimSpace toolName ∉ edit_tools) then None
  else
    let trimmed := TrimSpace content in
    if decide (trimmed = EmptyString) then None
    else
      match json_Unmarshal trimmed with
      | Some (JObject payload) =>
          match field "error" payload with
          | Some (JObject errorPayload) =>
              if decide (firstJSONText errorPayload ["error"; "modelVisibleError"] = EmptyString)
              then None
              else Some (json_Marshal (JObject [("error", JObject [("error",
                     JString "historical edit error omitted from replay; re-read the file before editing")])]))
          | _ => None
          end
      | _ => None
      end.

(** ** The replayed text *)

(** One rewriting of the content; a rewritten content no longer is the stored tool call's. *)
Definition rewritten (compacted : option string) (state : string * bool) : string * bool :=
  match compacted with Some content => (content, false) | None => state end.

Definition truncated_notice (limit : Z) : string :=
  "[tool result replay truncated: stored ToolCall result exceeded " +:+ Sprintd limit +:+ " bytes]".

Definition limitProjectedToolResultReplay (toolName content resultText : string)
    (fromStoredToolCall historical : bool) : string :=
  match compactProjectedGenerateImageResultReplay toolName content resultText with
  | Some compacted => compacted
  | None =>
      let state := (content, fromStoredToolCall) in
      let state := if historical
                   then rewritten (compactHistoricalEditErrorReplay toolName state.1) state
                   else state in
      let state := rewritten (compactProjectedEditToolResultReplay toolName state.1) state in
      let state := rewritten (compactProjectedShellToolResultReplay toolName state.1) state in
      match projectedToolReplayLimit toolName with
      | None => TrimSpace state.1
      | Some limit =>
          let content := TrimSpace state.1 in
          if len (bytes_of content) <=? limit then content
          else if state.2 then
            let fallback := TrimSpace resultText in
            let notice := truncated_notice limit in
            truncate_text toolName
              (if decide (fallback = EmptyString) then notice
               else fallback +:+ string_of [newline; newline] +:+ notice) limit
          else truncate_text toolName content limit
      end
  end.
End Replay.

(** ** Lemmas *)

Lemma truncate_text_fits toolName text limit : 0 < limit ->
  len (bytes_of (truncate_text toolName text limit)) <= limit.
Proof. intros H. unfold truncate_text. rewrite bytes_of_string_of. by apply replay_fits. Qed.

Lemma truncate_middle_fits toolName text limit : 0 < limit ->
  len (bytes_of (truncate_middle toolName text limit)) <= limit.
Proof. intros H. unfold truncate_middle. rewrite bytes_of_string_of. by apply middle_fits. Qed.

Lemma limit_positive toolName limit : projectedToolReplayLimit toolName = Some limit -> 0 < limit.
Proof. unfold projectedToolReplayLimit. intros H. repeat case_decide; by simplify_eq. Qed.

(** The induction principle of documents that also descends into their lists. *)
Section JSONInd.
Context (P : JSON -> Prop).
Context (P_leaf : forall value, match value with JArray _ | JObject _ => False | _ => True end -> P value)
  (P_array : forall items, Forall P items -> P (JArray items))
  (P_object : forall fields, Forall (fun f => P f.2) fields -> P (JObject fields)).

Fixpoint JSON_nested_ind (value : JSON) : P value.
Proof.
  destruct value; try by apply P_leaf.
  - apply P_array. induction items as [|item items IH]; constructor; [apply JSON_nested_ind|exact IH].
  - apply P_object. induction fields as [|[key child] fields IH]; constructor;
      [apply JSON_nested_ind|exact IH].
Defined.
End JSONInd.

(** [holds_of_texts p value]: [p] holds of every string field of the document. *)
Fixpoint holds_of_texts (p : string -> string -> bool) (value : JSON) : bool :=
  match value with
  | JObject fields =>
      (fix go (fields : list (string * JSON)) : bool :=
         match fields with
         | [] => true
         | (key, child) :: rest =>
             match child with JString text => p key text | _ => holds_of_texts p child end && go rest
         end) fields
  | JArray items =>
      (fix go (items : list JSON) : bool :=
         match items with
         | [] => true
         | item :: rest => holds_of_texts p item && go rest
         end) items
  | _ => true
  end.

(** A walk establishes what its rewriting establishes of the texts it takes, and what holds of
    the texts it leaves. *)
Lemma walk_establishes rewrite_text counts (p : string -> string -> bool) value :
  (forall key text next, rewrite_text key text = Some next -> p key next = true) ->
  (forall key text, rewrite_text key text = None -> p key text = true) ->
  holds_of_texts p (walk rewrite_text counts value).1 = true.
Proof.
  intros Hnew Hold. induction value as [value Hleaf|items IH|fields IH] using JSON_nested_ind.
  - by destruct value.
  - simpl. induction items as [|item items IHi]; [done|]. inversion IH as [|? ? Hi Hr]; subst.
    specialize (IHi Hr). simpl in *.
    destruct ((fix go (items : list JSON) := _) items) as [rest' c]. simpl in IHi.
    destruct (walk rewrite_text counts item) as [item' c']. simpl in *. by rewrite Hi.
  - simpl. induction fields as [|[key child] fields IHf]; [done|]. inversion IH as [|? ? Hi Hr]; subst.
    specialize (IHf Hr). simpl in *.
    destruct ((fix go (fields : list (string * JSON)) := _) fields) as [rest' c]. simpl in IHf.
    destruct child; simpl in *; try by rewrite IHf.
    + destruct (rewrite_text key s) as [next|] eqn:E; simpl; rewrite IHf, andb_true_r; eauto.
    + destruct ((fix go (items : list JSON) := _) items) as [items' c']. simpl in *. by rewrite Hi, IHf.
    + destruct ((fix go (fields : list (string * JSON)) := _) fields0) as [fields' c'].
      simpl in *. by rewrite Hi, IHf.
Qed.

(** What a replayed shell result may still hold under a name. *)
Definition stream_fits (key text : string) : bool :=
  if decide (key ∈ ["stdout"; "stderr"]) then len (bytes_of text) <=? projectedShellStreamLimit
  else if decide (key ∈ ["interleaved_output"; "interleavedOutput"])
  then len (bytes_of text) <=? projectedShellInterleavedLimit
  else true.

(** ** Properties *)

(** C34: every replayed result of a limited tool fits the limit of the tool, whatever was
    stored: the raw text, a stored tool call, or a rewritten document; images alone are
    answered before their limit is looked at.  And in a shell result that is rewritten every
    stream, at any depth of the document, fits the limit of its kind. *)
Theorem replayed_result_bounded `{!Json} line_diffs toolName content resultText stored historical limit :
  projectedToolReplayLimit toolName = Some limit -> TrimSpace toolName <> "GenerateImage" ->
  len (bytes_of (limitProjectedToolResultReplay line_diffs toolName content resultText stored historical))
    <= limit /\
  forall document, holds_of_texts stream_fits (compactProjectedShellFields document).1 = true.
Proof.
  intros Hl Hn. split.
  - unfold limitProjectedToolResultReplay, compactProjectedGenerateImageResultReplay.
    rewrite decide_True by done. cbv zeta. rewrite Hl.
    set (state := rewritten (compactProjectedShellToolResultReplay _ _) _).
    destruct (Z.leb_spec (len (bytes_of (TrimSpace state.1))) limit) as [Hs|Hs]; [done|].
    apply limit_positive in Hl. destruct state.2; by apply truncate_text_fits.
  - intros document. apply walk_establishes.
    + unfold shell_stream, stream_fits. intros key text next Hnew. repeat case_decide; simplify_eq;
        try done; apply Z.leb_le, truncate_middle_fits; done.
    + unfold shell_stream, stream_fits. intros key text Hno. by repeat case_decide.
Qed.

(** ** Witness *)

Module Demo.

#[local] Instance no_json : Json := {
  json_Unmarshal := fun _ => None;
  json_Marshal := fun _ => EmptyString
}.

(** A document with a long stream under a nested field. *)
Definition shell_result : JSON :=
  JObject [("success", JObject [("stdout", JString (string_of (repeat "a"%char 17000)))])].

Example shell_result_cut :
  holds_of_texts stream_fits shell_result = false /\
  (compactProjectedShellFields shell_result).2 = true.
Proof. split; vm_compute; reflexivity. Qed.

(** An image result that is not JSON is replayed as the text of its result, of any length,
    although the tool has a limit. *)
Example image_result_unlimited resultText :
  TrimSpace resultText <> EmptyString ->
  projectedToolReplayLimit "GenerateImage" = Some projectedWebSearchReplayLimit /\
  limitProjectedToolResultReplay (fun _ _ => []) "GenerateImage" "saved" resultText true false =
  TrimSpace resultText.
Proof.
  intros H. split; [done|].
  unfold limitProjectedToolResultReplay, compactProjectedGenerateImageResultReplay.
  rewrite decide_False by (intros Hn; by apply Hn). cbv zeta.
  rewrite decide_False by (vm_compute; set_solver).
  cbn [json_Unmarshal no_json]. by rewrite decide_False.
Qed.

End Demo.

Lemma replayed_result_bounded_witness :
  len (bytes_of (limitProjectedToolResultReplay (H := Demo.no_json) (fun _ _ => []) "WebSearch"
         (string_of (repeat "a"%char 20000)) EmptyString false true)) <= 16384.
Proof.
  apply (replayed_result_bounded (H := Demo.no_json) (fun _ _ => []) "WebSearch"
           (string_of (repeat "a"%char 20000)) EmptyString false true 16384);
    [vm_compute; reflexivity|by vm_compute].
Defined.
