(* ===== verification/Messages.v ===== *)
(** * The message sequence a provider receives (forwarder/projector.go, agent/model/types.go).

    History is replayed as messages whose tool calls and tool results must pair up, since the
    providers refuse a call without its result.  [normalizeReplayMessageSequence] merges adjacent
    assistant tool calls, drops the suppressed tools, moves the results of an interleaved batch
    behind its calls and drops the calls that have no result.  The functions copy the messages
    they change ([cloneReplayModelMessage]), so that values model them; a batch under
    construction is the accumulator of its loop. *)

From S2P Require Import Prelude Go Strings.

(** ** Data *)

Record ImageContent := mkImage { MIMEType : string; ImagePath : string; ImageData : string }.

Record ContentPart := mkPart { PartType : string; PartText : string; PartImage : option ImageContent }.

Record ToolCallDescriptor := mkCall {
  CallID : string;
  CallIndex : Z;
  CallType : string;
  FunctionName : string;
  FunctionArguments : string;
  OpenAIResponsesID : string;
  OpenAIResponsesCallID : string;
  OpenAIResponsesStatus : string
}.

#[export] Instance eta_call : Eta ToolCallDescriptor := fun c =>
  mkCall (CallID c) (CallIndex c) (CallType c) (FunctionName c) (FunctionArguments c)
    (OpenAIResponsesID c) (OpenAIResponsesCallID c) (OpenAIResponsesStatus c).

Record Message := mkMessage {
  MsgRole : string;
  MsgContent : string;
  ContentParts : list ContentPart;
  ReasoningContent : string;
  ReasoningSignature : string;
  ReasoningSignatureSource : string;
  ReasoningID : string;
  ReasoningStatus : string;
  ReasoningSummary : bytes;
  ToolCalls : list ToolCallDescriptor;
  MsgToolCallID : string;
  MsgName : string
}.

#[export] Instance eta_message : Eta Message := fun m =>
  mkMessage (MsgRole m) (MsgContent m) (ContentParts m) (ReasoningContent m)
    (ReasoningSignature m) (ReasoningSignatureSource m) (ReasoningID m) (ReasoningStatus m)
    (ReasoningSummary m) (ToolCalls m) (MsgToolCallID m) (MsgName m).

Definition text_message (role content : string) : Message :=
  mkMessage role content [] EmptyString EmptyString EmptyString EmptyString EmptyString [] []
    EmptyString EmptyString.

(** [hasReplayableReasoningPayload] of reasoning_metadata.go. *)
Definition hasReplayableReasoning (content signature source : string) : bool :=
  negb (bool_decide (TrimSpace content = EmptyString)) ||
  negb (bool_decide (TrimSpace signature = EmptyString)) &&
  bool_decide (TrimSpace source = "openai_responses").

Definition message_reasoning (m : Message) : bool :=
  hasReplayableReasoning (ReasoningContent m) (ReasoningSignature m) (ReasoningSignatureSource m).

Definition is_assistant (m : Message) : bool := bool_decide (TrimSpace (MsgRole m) = "assistant").
Definition is_tool (m : Message) : bool := bool_decide (TrimSpace (MsgRole m) = "tool").

(** An assistant message with tool calls. *)
Definition calls_tools (m : Message) : bool := is_assistant m && negb (bool_decide (ToolCalls m = [])).

(** The [for] loops that renumber the calls they keep. *)
Definition number_from (start : Z) (calls : list ToolCallDescriptor) : list ToolCallDescriptor :=
  imap (fun i c => c <| CallIndex := start + Z.of_nat i |>) calls.

(** ** Merging adjacent assistant tool calls *)

Definition mergeReplayReasoning (left right : string) : string :=
  let left := TrimSpace left in
  let right := TrimSpace right in
  if decide (left = EmptyString) then right
  else if decide (right = EmptyString \/ right = left) then left
  else left +:+ string_of [LF; LF] +:+ right.

(** [mergeReplayReasoningSignature] and [mergeReplayReasoningSignatureSource]. *)
Definition mergeReplayReasoningSignature (left right : string) : string :=
  let left := TrimSpace left in
  let right := TrimSpace right in
  if decide (left = EmptyString) then right
  else if decide (right = EmptyString \/ right = left) then left
  else EmptyString.

Definition mergeReplayReasoningMetadata (last current : Message) : Message :=
  let leftSignature := TrimSpace (ReasoningSignature last) in
  let rightSignature := TrimSpace (ReasoningSignature current) in
  let merged := mergeReplayReasoningSignature leftSignature rightSignature in
  let last := last <| ReasoningSignature := merged |> in
  if decide (merged = EmptyString) then
    last <| ReasoningSignatureSource := EmptyString |> <| ReasoningID := EmptyString |>
         <| ReasoningStatus := EmptyString |> <| ReasoningSummary := [] |>
  else if decide (leftSignature = EmptyString /\ rightSignature <> EmptyString) then
    last <| ReasoningSignatureSource := TrimSpace (ReasoningSignatureSource current) |>
         <| ReasoningID := ReasoningID current |> <| ReasoningStatus := ReasoningStatus current |>
         <| ReasoningSummary := ReasoningSummary current |>
  else if decide (leftSignature = rightSignature) then
    last <| ReasoningSignatureSource := mergeReplayReasoningSignature
              (ReasoningSignatureSource last) (ReasoningSignatureSource current) |>
         <| ReasoningID := if decide (TrimSpace (ReasoningID last) = EmptyString)
                           then ReasoningID current else ReasoningID last |>
         <| ReasoningStatus := if decide (TrimSpace (ReasoningStatus last) = EmptyString)
                               then ReasoningStatus current else ReasoningStatus last |>
         <| ReasoningSummary := if decide (ReasoningSummary last = [])
                                then ReasoningSummary current else ReasoningSummary last |>
  else last.

Definition canMergeReplayAssistantToolCalls (last current : Message) : bool :=
  is_assistant last && is_assistant current &&
  negb (bool_decide (ToolCalls last = [])) && negb (bool_decide (ToolCalls current = [])) &&
  bool_decide (TrimSpace (MsgToolCallID last) = EmptyString) &&
  bool_decide (TrimSpace (MsgName last) = EmptyString) &&
  bool_decide (TrimSpace (MsgToolCallID current) = EmptyString) &&
  bool_decide (TrimSpace (MsgName current) = EmptyString) &&
  bool_decide (TrimSpace (MsgContent current) = EmptyString) &&
  bool_decide (ContentParts current = []).

(** The calls of [current] moved behind those of [last]. *)
Definition merge_calls (last current : Message) : Message :=
  let calls := ToolCalls last ++ number_from (Z.of_nat (length (ToolCalls last))) (ToolCalls current) in
  mergeReplayReasoningMetadata
    (last <| ToolCalls := calls |>
          <| ReasoningContent := mergeReplayReasoning (ReasoningContent last) (ReasoningContent current) |>)
    current.

(** [mergeReplayAssistantToolCalls] over the messages built so far. *)
Definition merge_message (messages : list Message) (message : Message) : list Message :=
  match last messages with
  | Some previous =>
      if canMergeReplayAssistantToolCalls previous message
      then removelast messages ++ [merge_calls previous message]
      else messages ++ [message]
  | None => messages ++ [message]
  end.

Definition merge_messages (messages : list Message) : list Message :=
  fold_left merge_message messages [].

(** ** Tools that are not replayed *)

Definition isProviderPromptReplaySuppressedToolName (toolName : string) : bool :=
  bool_decide (TrimSpace toolName = "GenerateImage").

(** What the filters share: the calls that are kept, the messages that are kept with them, the
    identifiers of the dropped calls; [extra] is what keeps an assistant message whose calls are
    all dropped besides its text and reasoning. *)
Section Filter.
Context (drop_call : ToolCallDescriptor -> bool) (record_id : string -> bool)
  (extra : Message -> bool) (renumber : list ToolCallDescriptor -> list ToolCallDescriptor)
  (drop_result : Message -> bool).

Definition kept_calls (calls : list ToolCallDescriptor) : list ToolCallDescriptor :=
  renumber (List.filter (fun c => negb (drop_call c)) calls).

Definition skipped_ids (calls : list ToolCallDescriptor) : gset string :=
  list_to_set (List.filter record_id
    (map (fun c => TrimSpace (CallID c)) (List.filter drop_call calls))).

Definition filter_step (state : list Message * gset string) (message : Message)
  : list Message * gset string :=
  let '(filtered, skipped) := state in
  if calls_tools message then
    let skipped := skipped ∪ skipped_ids (ToolCalls message) in
    let next := kept_calls (ToolCalls message) in
    if bool_decide (next = []) && bool_decide (TrimSpace (MsgContent message) = EmptyString) &&
       negb (extra message) && negb (message_reasoning message)
    then (filtered, skipped)
    else (filtered ++ [message <| ToolCalls := next |>], skipped)
  else if is_tool message &&
          (bool_decide (TrimSpace (MsgToolCallID message) ∈ skipped) || drop_result message)
  then (filtered, skipped)
  else (filtered ++ [message], skipped).

Definition filter_messages (messages : list Message) : list Message :=
  (fold_left filter_step messages ([], ∅)).1.
End Filter.

Definition has_parts (m : Message) : bool := negb (bool_decide (ContentParts m = [])).
Definition non_blank (s : string) : bool := negb (bool_decide (s = EmptyString)).

Definition filterProviderSuppressedToolReplayMessages : list Message -> list Message :=
  filter_messages (fun c => isProviderPromptReplaySuppressedToolName (FunctionName c)) non_blank
    has_parts (number_from 0) (fun m => isProviderPromptReplaySuppressedToolName (MsgName m)).

Definition shouldPersistCheckpointReplayToolResultName (toolName : string) : bool :=
  bool_decide (TrimSpace toolName ∈
    ["PatchEdit"; "PatchEditLines"; "PatchEditSpan"; "Edit"; "Write"; "GenerateImage"]).

Definition filterCheckpointPersistentToolReplay : list Message -> list Message :=
  filter_messages (fun c => negb (shouldPersistCheckpointReplayToolResultName (FunctionName c)))
    (fun _ => true) (fun _ => false) id
    (fun m => negb (shouldPersistCheckpointReplayToolResultName (MsgName m))).

Definition isLegacyPlainWriteToolCall (c : ToolCallDescriptor) : bool :=
  bool_decide (TrimSpace (FunctionName c) = "Write") &&
  bool_decide (TrimSpace (FunctionArguments c) ∈ [EmptyString; "{}"; "null"]).

Definition filterLegacyPlainWriteReplay : list Message -> list Message :=
  filter_messages isLegacyPlainWriteToolCall (fun _ => true) (fun _ => false) id (fun _ => false).

(** ** Batches whose calls and results interleave *)

(** [parts[1]] of [strings.SplitN(s, "_", 3)], if there is one. *)
Definition second_of_SplitN (s : bytes) : option bytes :=
  match Cut s (bytes_of "_") with
  | None => None
  | Some (_, rest) =>
      match Cut rest (bytes_of "_") with
      | None => Some rest
      | Some (part, _) => Some part
      end
  end.

Definition replayToolCallGroupID (toolCallID : string) : string :=
  let trimmed := TrimSpace toolCallID in
  if decide (trimmed = EmptyString) then EmptyString
  else match Cut (bytes_of trimmed) (bytes_of "::") with
       | Some (namespace, _) => TrimSpace (string_of namespace)
       | None =>
           match strip_prefix (bytes_of "tc_") (bytes_of trimmed), second_of_SplitN (bytes_of trimmed) with
           | Some _, Some part =>
               if decide (TrimSpace (string_of part) = EmptyString) then EmptyString
               else "tc_" +:+ TrimSpace (string_of part)
           | _, _ => EmptyString
           end
       end.

Fixpoint group_of (groupID : string) (calls : list ToolCallDescriptor) : string :=
  match calls with
  | [] => groupID
  | c :: calls =>
      let next := replayToolCallGroupID (CallID c) in
      if decide (next = EmptyString) then EmptyString
      else if decide (groupID = EmptyString) then group_of next calls
      else if decide (groupID = next) then group_of groupID calls
      else EmptyString
  end.

Definition replayAssistantToolGroupID (m : Message) : string :=
  if calls_tools m then group_of EmptyString (ToolCalls m) else EmptyString.

(** The inner loop: the batch, the results in the order their identifiers first came and
    whether anything was taken. *)
Record Batch := mkBatch {
  batch : Message;
  results : list (string * Message);
  changed : bool
}.

Definition put_result (id : string) (m : Message) (results : list (string * Message))
  : list (string * Message) :=
  if existsb (fun r => bool_decide (r.1 = id)) results
  then map (fun r => if decide (r.1 = id) then (id, m) else r) results
  else results ++ [(id, m)].

Fixpoint collect (groupID : string) (b : Batch) (l : list Message) : Batch * list Message :=
  match l with
  | [] => (b, [])
  | next :: rest =>
      if is_tool next && bool_decide (replayToolCallGroupID (MsgToolCallID next) = groupID) then
        collect groupID (mkBatch (batch b)
          (put_result (TrimSpace (MsgToolCallID next)) next (results b)) true) rest
      else if bool_decide (replayAssistantToolGroupID next = groupID) &&
              canMergeReplayAssistantToolCalls (batch b) next then
        collect groupID (mkBatch (merge_calls (batch b) next) (results b) true) rest
      else (b, l)
  end.

Definition find_result (id : string) (results : list (string * Message)) : option Message :=
  match List.find (fun r => bool_decide (r.1 = id)) results with
  | Some r => Some r.2
  | None => None
  end.

(** The results of the calls, in the order of the calls; a call that repeats an identifier
    repeats its result. *)
Definition called_results (b : Batch) : list Message :=
  omap (fun c => find_result (TrimSpace (CallID c)) (results b)) (ToolCalls (batch b)).

(** The other results, in the order they came. *)
Definition other_results (b : Batch) : list Message :=
  map snd (List.filter (fun r => negb (existsb (fun c => bool_decide (TrimSpace (CallID c) = r.1))
                                  (ToolCalls (batch b)))) (results b)).

Fixpoint coalesce_fuel (fuel : nat) (l : list Message) : list Message :=
  match fuel, l with
  | O, _ | _, [] => []
  | S fuel, m :: rest =>
      let groupID := replayAssistantToolGroupID m in
      if decide (groupID = EmptyString) then m :: coalesce_fuel fuel rest
      else
        let '(b, rest) := collect groupID (mkBatch m [] false) rest in
        (if changed b then batch b :: called_results b ++ other_results b else [m]) ++
        coalesce_fuel fuel rest
  end.

Definition coalesceInterleavedReplayToolBatches (l : list Message) : list Message :=
  coalesce_fuel (length l) l.

(** ** Calls without a result *)

(** The messages of [replayToolResponseWindowEnd], after the call. *)
Fixpoint response_window (after : list Message) : list Message :=
  match after with
  | [] => []
  | m :: rest =>
      if is_tool m then m :: response_window rest
      else if is_assistant m && bool_decide (ToolCalls m = []) then m :: response_window rest
      else []
  end.

Definition responded_ids (window : list Message) : gset string :=
  list_to_set (List.filter non_blank
    (map (fun m => TrimSpace (MsgToolCallID m)) (List.filter is_tool window))).

Definition call_ids (m : Message) : gset string :=
  list_to_set (List.filter non_blank (map (fun c => TrimSpace (CallID c)) (ToolCalls m))).

Fixpoint surviving (l : list Message) : gset string :=
  match l with
  | [] => ∅
  | m :: rest =>
      (if calls_tools m then call_ids m ∩ responded_ids (response_window rest) else ∅) ∪ surviving rest
  end.

Definition trim_message (ids : gset string) (m : Message) : list Message :=
  if calls_tools m then
    let next := number_from 0
      (List.filter (fun c => bool_decide (TrimSpace (CallID c) ∈ ids)) (ToolCalls m)) in
    if decide (next = []) then
      if bool_decide (TrimSpace (MsgContent m) = EmptyString) && negb (has_parts m) &&
         negb (message_reasoning m)
      then []
      else [m <| ToolCalls := [] |>]
    else [m <| ToolCalls := next |>]
  else if is_tool m && non_blank (TrimSpace (MsgToolCallID m)) &&
          negb (bool_decide (TrimSpace (MsgToolCallID m) ∈ ids))
  then []
  else [m].

Definition trimReplayDanglingAssistantToolCalls (l : list Message) : list Message :=
  List.flat_map (trim_message (surviving l)) l.

Definition normalizeReplayMessageSequence (messages : list Message) : list Message :=
  trimReplayDanglingAssistantToolCalls
    (coalesceInterleavedReplayToolBatches
      (filterProviderSuppressedToolReplayMessages (merge_messages messages))).

(** ** Lemmas: what the passes keep *)

(** A call without the position it has in its message. *)
Definition bare (c : ToolCallDescriptor) : ToolCallDescriptor := c <| CallIndex := 0 |>.

Definition message_calls (m : Message) : list ToolCallDescriptor :=
  if calls_tools m then map bare (ToolCalls m) else [].

Definition all_calls (l : list Message) : list ToolCallDescriptor := List.flat_map message_calls l.

Definition all_results (l : list Message) : list Message := List.filter is_tool l.

(** The messages that are neither calls nor results. *)
Definition plain (l : list Message) : list Message :=
  List.filter (fun m => negb (is_tool m) && negb (calls_tools m)) l.

Definition call_id (c : ToolCallDescriptor) : string := TrimSpace (CallID c).
Definition result_id (m : Message) : string := TrimSpace (MsgToolCallID m).

(** The identifiers of the calls and of the results. *)
Definition ids_of_calls (l : list Message) : list string := map call_id (all_calls l).
Definition ids_of_results (l : list Message) : list string :=
  List.filter non_blank (map result_id (all_results l)).

Lemma tool_not_calls m : is_tool m = true -> calls_tools m = false.
Proof.
  unfold is_tool, calls_tools, is_assistant. intros H. zbool. by rewrite H.
Qed.

Lemma bare_number start calls : map bare (number_from start calls) = map bare calls.
Proof.
  unfold number_from. revert start. induction calls as [|c calls IH]; intros start; [done|].
  rewrite imap_cons. cbn. f_equal. rewrite <- (IH (start + 1)). f_equal. apply imap_ext.
  intros i x _. cbn. f_equal. lia.
Qed.

Lemma call_id_bare calls : map call_id (map bare calls) = map call_id calls.
Proof. rewrite map_map. by apply map_ext. Qed.

Lemma merge_metadata_frame last current :
  MsgRole (mergeReplayReasoningMetadata last current) = MsgRole last /\
  ToolCalls (mergeReplayReasoningMetadata last current) = ToolCalls last.
Proof. unfold mergeReplayReasoningMetadata. cbv zeta. repeat case_decide; by split. Qed.

Lemma can_merge_calls last current :
  canMergeReplayAssistantToolCalls last current = true ->
  calls_tools last = true /\ calls_tools current = true.
Proof.
  unfold canMergeReplayAssistantToolCalls, calls_tools. intros H. bools_to_props.
  split; apply andb_true_intro; split; try done; by rewrite bool_decide_eq_false_2.
Qed.

Lemma merge_calls_spec last current :
  calls_tools last = true -> calls_tools current = true ->
  calls_tools (merge_calls last current) = true /\ is_tool (merge_calls last current) = is_tool last /\
  message_calls (merge_calls last current) = message_calls last ++ message_calls current.
Proof.
  intros Hl Hc. unfold merge_calls. cbv zeta.
  set (m := last <| ToolCalls := _ |> <| ReasoningContent := _ |>).
  destruct (merge_metadata_frame m current) as [Er Et].
  assert (Ha : calls_tools (mergeReplayReasoningMetadata m current) = true).
  { unfold calls_tools, is_assistant in *. rewrite Er, Et. subst m. cbn. zbool.
    rewrite bool_decide_eq_true_2 by done. rewrite bool_decide_eq_false_2; [done|].
    intros E. by apply app_eq_nil in E as [E _]. }
  split; [done|]. split; [unfold is_tool; by rewrite Er|].
  unfold message_calls. rewrite Ha, Hl, Hc, Et. subst m. cbn.
  by rewrite map_app, bare_number.
Qed.

Lemma all_calls_app l1 l2 : all_calls (l1 ++ l2) = all_calls l1 ++ all_calls l2.
Proof. apply List.flat_map_app. Qed.

Lemma all_results_app l1 l2 : all_results (l1 ++ l2) = all_results l1 ++ all_results l2.
Proof. apply List.filter_app. Qed.

Lemma plain_app l1 l2 : plain (l1 ++ l2) = plain l1 ++ plain l2.
Proof. apply List.filter_app. Qed.

Lemma calls_single m : calls_tools m = true ->
  all_calls [m] = message_calls m /\ all_results [m] = [] /\ plain [m] = [].
Proof.
  intros H. unfold all_calls, all_results, plain. cbn. rewrite app_nil_r, H.
  destruct (is_tool m) eqn:Et; [|done]. by rewrite (tool_not_calls _ Et) in H.
Qed.

(** Merging keeps the calls, in order, the results and the other messages. *)
Lemma merge_message_spec messages m :
  all_calls (merge_message messages m) = all_calls (messages ++ [m]) /\
  all_results (merge_message messages m) = all_results (messages ++ [m]) /\
  plain (merge_message messages m) = plain (messages ++ [m]).
Proof.
  unfold merge_message. destruct (last messages) as [previous|] eqn:El; [|done].
  destruct (canMergeReplayAssistantToolCalls previous m) eqn:Em; [|done].
  apply can_merge_calls in Em as [Hp Hm]. destruct (merge_calls_spec _ _ Hp Hm) as (H1 & H2 & H3).
  apply last_Some in El as [front ->].
  rewrite removelast_last, !all_calls_app, !all_results_app, !plain_app.
  destruct (calls_single _ H1) as (-> & -> & ->), (calls_single _ Hp) as (-> & -> & ->),
    (calls_single _ Hm) as (-> & -> & ->).
  by rewrite H3, !app_nil_r, !app_assoc.
Qed.

Lemma merge_messages_spec l :
  all_calls (merge_messages l) = all_calls l /\ all_results (merge_messages l) = all_results l /\
  plain (merge_messages l) = plain l.
Proof.
  unfold merge_messages. induction l as [|m l IH] using rev_ind; [done|].
  rewrite fold_left_app. cbn [fold_left]. destruct (merge_message_spec (fold_left merge_message l []) m) as (-> & -> & ->).
  destruct IH as (I1 & I2 & I3). by rewrite !all_calls_app, !all_results_app, !plain_app, I1, I2, I3.
Qed.

Lemma bare_filter f calls :
  (forall c, f (bare c) = f c) -> map bare (List.filter f calls) = List.filter f (map bare calls).
Proof.
  intros Hf. induction calls as [|c calls IH]; [done|]. cbn [map List.filter]. rewrite Hf.
  destruct (f c); cbn [map]; by rewrite IH.
Qed.

Lemma filter_sublist {A} (f : A -> bool) (l : list A) : List.filter f l `sublist_of` l.
Proof.
  induction l as [|x l IH]; [constructor|]. cbn. destruct (f x); by constructor.
Qed.

Lemma map_sublist {A B} (f : A -> B) (l k : list A) : l `sublist_of` k -> map f l `sublist_of` map f k.
Proof. induction 1; cbn; by constructor. Qed.

Lemma filter_sublist_mono {A} (f : A -> bool) (l k : list A) :
  l `sublist_of` k -> List.filter f l `sublist_of` List.filter f k.
Proof. induction 1; cbn; [constructor|..]; destruct (f x); by try constructor. Qed.

Lemma filter_permuted {A} (f : A -> bool) (l k : list A) :
  l ≡ₚ k -> List.filter f l ≡ₚ List.filter f k.
Proof.
  induction 1 as [|x l k _ IH|x y l|l k m _ IH1 _ IH2]; cbn; [done|..].
  - by destruct (f x); rewrite IH.
  - destruct (f x), (f y); (apply perm_swap || done).
  - by rewrite IH1.
Qed.

(** Filtering keeps a part of the calls and of the results, in order. *)
Lemma filter_messages_spec drop_call record_id extra renumber drop_result l :
  (forall c, drop_call (bare c) = drop_call c) ->
  (forall calls, map bare (renumber calls) = map bare calls) ->
  all_calls (filter_messages drop_call record_id extra renumber drop_result l) `sublist_of` all_calls l /\
  all_results (filter_messages drop_call record_id extra renumber drop_result l) `sublist_of` all_results l.
Proof.
  intros Hd Hn. unfold filter_messages.
  induction l as [|m l IH] using rev_ind; [split; constructor|].
  rewrite fold_left_app. cbn [fold_left].
  destruct (fold_left _ l ([], ∅)) as [kept skipped]. cbn [fst] in IH. destruct IH as [IC IR].
  rewrite !all_calls_app, !all_results_app.
  assert (Hsame : all_calls (kept ++ [m]) `sublist_of` all_calls l ++ all_calls [m] /\
                  all_results (kept ++ [m]) `sublist_of` all_results l ++ all_results [m]).
  { rewrite all_calls_app, all_results_app. split; by apply sublist_app. }
  assert (Hdrop : all_calls kept `sublist_of` all_calls l ++ all_calls [m] /\
                  all_results kept `sublist_of` all_results l ++ all_results [m]).
  { split; by apply sublist_inserts_r. }
  unfold filter_step. destruct (calls_tools m) eqn:Em.
  - destruct (_ && _ && _ && _); cbn [fst]; [done|].
    rewrite all_calls_app, all_results_app. destruct (calls_single _ Em) as (-> & -> & _).
    set (next := kept_calls _ _ _). split.
    + apply sublist_app; [done|]. unfold all_calls. cbn. rewrite app_nil_r.
      unfold message_calls. rewrite Em. cbn. case_match; [|apply sublist_nil_l].
      subst next. unfold kept_calls. rewrite Hn, bare_filter by (intros c; by rewrite Hd).
      apply filter_sublist.
    + apply sublist_app; [done|]. unfold all_results. cbn. unfold calls_tools, is_assistant in Em.
      zbool. unfold is_tool. cbn. by rewrite bool_decide_eq_false_2 by congruence.
  - destruct (is_tool m && _); cbn [fst]; done.
Qed.

(** ** Lemmas: batches *)

Lemma group_not_blank id : replayToolCallGroupID id <> EmptyString -> TrimSpace id <> EmptyString.
Proof. unfold replayToolCallGroupID. intros H E. by rewrite decide_True in H. Qed.

Lemma put_result_fresh id m rs : id ∉ map fst rs -> put_result id m rs = rs ++ [(id, m)].
Proof.
  intros Hid. unfold put_result. destruct (existsb _ rs) eqn:Ex; [|done].
  apply existsb_exists in Ex as (r & Hr & Er). zbool. destruct Hid. subst id.
  apply list_elem_of_fmap. exists r. split; [done|by apply list_elem_of_In].
Qed.

Lemma find_result_cons id k m rs :
  find_result id ((k, m) :: rs) = if decide (k = id) then Some m else find_result id rs.
Proof.
  unfold find_result. cbn. case_decide; [by rewrite bool_decide_eq_true_2|].
  by rewrite bool_decide_eq_false_2.
Qed.

Lemma find_result_None id rs : id ∉ map fst rs -> find_result id rs = None.
Proof.
  induction rs as [|[k m] rs IH]; [done|]. cbn. intros H. apply not_elem_of_cons in H as [Hk H].
  rewrite find_result_cons, decide_False by done. auto.
Qed.

Lemma omap_find_skip (ids : list string) k m rs :
  k ∉ ids -> omap (fun id => find_result id ((k, m) :: rs)) ids = omap (fun id => find_result id rs) ids.
Proof.
  induction ids as [|id ids IH]; [done|]. intros H. apply not_elem_of_cons in H as [Hk H]. cbn.
  rewrite find_result_cons, decide_False by done. by rewrite IH.
Qed.

Lemma omap_find_take (ids : list string) k m rs :
  NoDup ids -> k ∈ ids -> k ∉ map fst rs ->
  omap (fun id => find_result id ((k, m) :: rs)) ids ≡ₚ m :: omap (fun id => find_result id rs) ids.
Proof.
  intros Hnd Hin Hk. induction Hnd as [|id ids Hid Hnd IH]; [by apply elem_of_nil in Hin|].
  cbn. rewrite find_result_cons. case_decide as He.
  - subst id. rewrite (find_result_None k rs Hk), omap_find_skip by done. done.
  - apply elem_of_cons in Hin as [->|Hin]; [done|]. specialize (IH Hin).
    destruct (find_result id rs); rewrite IH; [apply perm_swap|done].
Qed.

(** The results come out once each, those of the calls first. *)
Lemma results_permuted (ids : list string) rs :
  NoDup ids -> NoDup (map fst rs) ->
  omap (fun id => find_result id rs) ids ++
    map snd (List.filter (fun r : string * Message => negb (existsb (fun id => bool_decide (id = r.1)) ids)) rs)
  ≡ₚ map snd rs.
Proof.
  intros Hids. induction rs as [|[k m] rs IH]; intros Hnd.
  - cbn. rewrite app_nil_r. induction ids; [done|]. by inversion_clear Hids; cbn; auto.
  - cbn in Hnd. apply NoDup_cons in Hnd as [Hk Hnd]. specialize (IH Hnd). cbn [List.filter map].
    destruct (existsb (fun id => bool_decide (id = (k, m).1)) ids) eqn:Ex; cbn [negb map snd].
    + assert (Hin : k ∈ ids).
      { apply existsb_exists in Ex as (id & Hid & E). zbool. cbn in E. subst id. by apply list_elem_of_In. }
      rewrite omap_find_take by done. cbn. by rewrite IH.
    + assert (Hin : k ∉ ids).
      { intros Hin. assert (existsb (fun id => bool_decide (id = (k, m).1)) ids = true); [|congruence].
        apply existsb_exists. exists k. split; [by apply list_elem_of_In|]. by apply bool_decide_eq_true_2. }
      rewrite omap_find_skip by done. cbn. by rewrite <- Permutation_middle, IH.
Qed.

Lemma called_results_ids b :
  called_results b = omap (fun id => find_result id (results b)) (map call_id (ToolCalls (batch b))).
Proof.
  unfold called_results. induction (ToolCalls (batch b)) as [|c calls IH]; [done|].
  cbn. fold (call_id c). destruct (find_result (call_id c) (results b)); by rewrite IH.
Qed.

Lemma other_results_ids b :
  other_results b = map snd (List.filter (fun r : string * Message =>
    negb (existsb (fun id => bool_decide (id = r.1)) (map call_id (ToolCalls (batch b))))) (results b)).
Proof.
  unfold other_results. f_equal. apply List.filter_ext. intros r. f_equal.
  induction (ToolCalls (batch b)) as [|c calls IH]; [done|]. cbn. by rewrite IH.
Qed.

Definition keyed (l : list Message) : list (string * Message) := map (fun m => (result_id m, m)) l.

Lemma keyed_fst l : map fst (keyed l) = map result_id l.
Proof. unfold keyed. rewrite map_map. by apply map_ext. Qed.

Lemma keyed_snd l : map snd (keyed l) = l.
Proof. unfold keyed. rewrite map_map. cbn. apply map_id. Qed.

(** What the inner loop takes from the messages that follow. *)
Record collected (b b' : Batch) (taken : list Message) : Prop := {
  co_calls_tools : calls_tools (batch b') = true;
  co_calls : message_calls (batch b') = message_calls (batch b) ++ all_calls taken;
  co_results : results b' = results b ++ keyed (all_results taken);
  co_plain : plain taken = [];
  co_ids : Forall (fun m => result_id m <> EmptyString) (all_results taken);
  co_changed : changed b' = changed b || negb (bool_decide (taken = []))
}.

Lemma collect_spec g b l :
  g <> EmptyString -> calls_tools (batch b) = true ->
  NoDup (map fst (results b) ++ ids_of_results l) ->
  exists taken, l = taken ++ (collect g b l).2 /\ collected b (collect g b l).1 taken.
Proof.
  intros Hg. revert b. induction l as [|m l IH]; intros b Hb Hnd.
  { exists []. split; [done|]. split; cbn; rewrite ?app_nil_r, ?orb_false_r; done. }
  cbn [collect].
  destruct (is_tool m && bool_decide (replayToolCallGroupID (MsgToolCallID m) = g)) eqn:Em;
    [|destruct (bool_decide (replayAssistantToolGroupID m = g) && _) eqn:Ea].
  - apply andb_prop in Em as [Em Eg]. apply bool_decide_eq_true in Eg.
    assert (Hid : result_id m <> EmptyString).
    { apply group_not_blank. by rewrite Eg. }
    assert (Hids : ids_of_results (m :: l) = result_id m :: ids_of_results l).
    { unfold ids_of_results, all_results. cbn [List.filter]. rewrite Em. cbn. unfold non_blank at 1.
      by rewrite bool_decide_eq_false_2. }
    rewrite Hids in Hnd. fold (result_id m).
    rewrite put_result_fresh by (apply NoDup_app in Hnd as (_ & Hd & _); set_solver).
    destruct (IH (mkBatch (batch b) (results b ++ [(result_id m, m)]) true)) as (taken & Hl & [C1 C2 C3 C4 C5 C6]).
    { done. }
    { cbn. rewrite map_app. cbn. by rewrite <- app_assoc. }
    exists (m :: taken). split; [cbn; by f_equal|].
    destruct (collect _ _ l) as [b' rest]. cbn in *. split; try done.
    + rewrite C2. f_equal. unfold all_calls. cbn. unfold message_calls. by rewrite (tool_not_calls m Em).
    + unfold all_results. cbn. by rewrite Em, C3, <- app_assoc.
    + cbn. by rewrite Em.
    + unfold all_results. cbn. rewrite Em. by constructor.
    + rewrite C6. by rewrite orb_true_r.
  - apply andb_prop in Ea as [_ Ea]. apply can_merge_calls in Ea as [_ Em'].
    destruct (merge_calls_spec _ _ Hb Em') as (M1 & M2 & M3). destruct (calls_single _ Em') as (S1 & S2 & S3).
    assert (Hids : ids_of_results (m :: l) = ids_of_results l).
    { unfold ids_of_results. change (m :: l) with ([m] ++ l). by rewrite all_results_app, S2. }
    rewrite Hids in Hnd.
    destruct (IH (mkBatch (merge_calls (batch b) m) (results b) true)) as (taken & Hl & [C1 C2 C3 C4 C5 C6]);
      [done..|].
    exists (m :: taken). split; [cbn; by f_equal|].
    destruct (collect _ _ l) as [b' rest]. cbn [fst snd batch results changed] in *.
    change (m :: taken) with ([m] ++ taken). split; try done.
    + rewrite C2, M3, all_calls_app, S1. by rewrite app_assoc.
    + by rewrite C3, all_results_app, S2.
    + rewrite plain_app, S3. done.
    + by rewrite all_results_app, S2.
    + rewrite C6. by rewrite orb_true_r.
  - exists []. split; [done|]. split; cbn; rewrite ?app_nil_r, ?orb_false_r; done.
Qed.

(** The messages of a batch. *)
Definition batch_messages (m : Message) (b : Batch) : list Message :=
  if changed b then batch b :: called_results b ++ other_results b else [m].

Lemma results_are_tools l : Forall (fun m => is_tool m = true) (all_results l).
Proof.
  apply Forall_forall. intros m Hm. apply list_elem_of_In, filter_In in Hm as [_ Hm]. exact Hm.
Qed.

Lemma all_tools l : Forall (fun m => is_tool m = true) l ->
  all_calls l = [] /\ all_results l = l /\ plain l = [].
Proof.
  induction 1 as [|m l Hm _ (I1 & I2 & I3)]; [done|]. change (m :: l) with ([m] ++ l).
  rewrite all_calls_app, all_results_app, plain_app, I1, I2, I3.
  unfold all_calls, all_results, plain, message_calls. cbn. by rewrite Hm, (tool_not_calls _ Hm).
Qed.

Lemma calls_ids m : calls_tools m = true -> map call_id (ToolCalls m) = map call_id (message_calls m).
Proof. intros H. unfold message_calls. by rewrite H, call_id_bare. Qed.

Lemma batch_messages_spec m b taken :
  calls_tools m = true -> collected (mkBatch m [] false) b taken ->
  NoDup (map call_id (message_calls m ++ all_calls taken)) -> NoDup (map result_id (all_results taken)) ->
  all_calls (batch_messages m b) = message_calls m ++ all_calls taken /\
  all_results (batch_messages m b) ≡ₚ all_results taken /\ plain (batch_messages m b) = [].
Proof.
  intros Hm [C1 C2 C3 C4 _ C6] Hids Hres. cbn in C2, C3, C6. unfold batch_messages. rewrite C6.
  destruct (calls_single _ Hm) as (S1 & S2 & S3), (calls_single _ C1) as (B1 & B2 & B3).
  destruct (decide (taken = [])) as [->|Ht].
  { rewrite bool_decide_eq_true_2 by done. cbn [negb]. rewrite S1, S2, S3, app_nil_r. done. }
  rewrite bool_decide_eq_false_2 by done. cbn [negb].
  assert (Hperm : called_results b ++ other_results b ≡ₚ all_results taken).
  { pose proof (results_permuted (map call_id (ToolCalls (batch b))) (results b)) as E.
    rewrite <- called_results_ids, <- other_results_ids in E. rewrite E, C3; [by rewrite keyed_snd|..].
    - by rewrite calls_ids, C2.
    - by rewrite C3, keyed_fst. }
  assert (Htools : Forall (fun m => is_tool m = true) (called_results b ++ other_results b)).
  { rewrite Hperm. apply results_are_tools. }
  destruct (all_tools _ Htools) as (A1 & A2 & A3).
  change (batch b :: ?x) with ([batch b] ++ x).
  rewrite all_calls_app, all_results_app, plain_app, B1, B2, B3, A1, A2, A3, app_nil_r. cbn.
  by split; [rewrite C2|split].
Qed.

Lemma NoDup_permuted {A} (l k : list A) : l ≡ₚ k -> NoDup k -> NoDup l.
Proof. by intros ->. Qed.

Lemma NoDup_filter_id (ids : list string) :
  Forall (fun id => id <> EmptyString) ids -> List.filter non_blank ids = ids.
Proof.
  induction 1 as [|id ids Hid _ IH]; [done|]. cbn. unfold non_blank at 1.
  rewrite bool_decide_eq_false_2 by done. cbn. by rewrite IH.
Qed.

Lemma ids_of_results_app l1 l2 : ids_of_results (l1 ++ l2) = ids_of_results l1 ++ ids_of_results l2.
Proof. unfold ids_of_results. by rewrite all_results_app, map_app, List.filter_app. Qed.

Lemma ids_of_calls_app l1 l2 : ids_of_calls (l1 ++ l2) = ids_of_calls l1 ++ ids_of_calls l2.
Proof. unfold ids_of_calls. by rewrite all_calls_app, map_app. Qed.

Lemma group_calls_tools m : replayAssistantToolGroupID m <> EmptyString -> calls_tools m = true.
Proof. unfold replayAssistantToolGroupID. by destruct (calls_tools m). Qed.

Lemma coalesce_fuel_spec fuel l :
  (length l <= fuel)%nat -> NoDup (ids_of_calls l) -> NoDup (ids_of_results l) ->
  all_calls (coalesce_fuel fuel l) = all_calls l /\
  all_results (coalesce_fuel fuel l) ≡ₚ all_results l /\ plain (coalesce_fuel fuel l) = plain l.
Proof.
  revert l. induction fuel as [|fuel IH]; intros [|m l] Hf Hc Hr; cbn in Hf; try done; try lia.
  cbn [coalesce_fuel]. cbv zeta. change (m :: l) with ([m] ++ l) in Hc, Hr.
  rewrite ids_of_calls_app in Hc. rewrite ids_of_results_app in Hr. case_decide as Hg.
  { apply NoDup_app in Hc as (_ & _ & Hc). apply NoDup_app in Hr as (_ & _ & Hr).
    destruct (IH l ltac:(lia) Hc Hr) as (I1 & I2 & I3).
    change (m :: l) with ([m] ++ l). change (m :: coalesce_fuel fuel l) with ([m] ++ coalesce_fuel fuel l).
    by rewrite !all_calls_app, !all_results_app, !plain_app, I1, I2, I3. }
  pose proof (group_calls_tools _ Hg) as Hm. destruct (calls_single _ Hm) as (S1 & S2 & S3).
  assert (Hr' : NoDup (ids_of_results l)) by by apply NoDup_app in Hr as (_ & _ & Hr).
  destruct (collect_spec _ (mkBatch m [] false) l Hg Hm Hr') as (taken & Hl & Hco).
  destruct (collect _ _ l) as [b rest]. cbn [fst snd] in Hl, Hco. subst l.
  rewrite ids_of_calls_app in Hc. rewrite ids_of_results_app in Hr'. rewrite app_assoc in Hc.
  apply NoDup_app in Hc as (Hc1 & _ & Hc2). apply NoDup_app in Hr' as (Hr1 & _ & Hr2).
  rewrite length_app in Hf. destruct (IH rest ltac:(lia) Hc2 Hr2) as (I1 & I2 & I3).
  pose proof (co_plain _ _ _ Hco) as Hp. pose proof (co_ids _ _ _ Hco) as Hids.
  fold (batch_messages m b).
  destruct (batch_messages_spec m b taken Hm Hco) as (B1 & B2 & B3).
  { rewrite map_app. unfold ids_of_calls in Hc1. by rewrite S1 in Hc1. }
  { unfold ids_of_results in Hr1. rewrite NoDup_filter_id in Hr1; [done|]. by apply Forall_map. }
  change (m :: taken ++ rest) with ([m] ++ taken ++ rest).
  by rewrite !all_calls_app, !all_results_app, !plain_app, S1, S2, S3, Hp, B1, B2, B3, I1, I2, I3, <- app_assoc.
Qed.

(** ** Lemmas: dangling calls *)

(** A key that no two elements share tells the position of its element. *)
Lemma key_position {A K} (keys : A -> list K) l1 x l2 l1' x' l2' k :
  NoDup (List.flat_map keys (l1 ++ x :: l2)) -> l1 ++ x :: l2 = l1' ++ x' :: l2' ->
  k ∈ keys x -> k ∈ keys x' -> l1 = l1' /\ x = x' /\ l2 = l2'.
Proof.
  assert (Hlater : forall y l k, k ∈ keys y -> y ∈ l -> k ∈ List.flat_map keys l).
  { intros y l k0 Hk Hy. apply list_elem_of_In, in_flat_map. exists y. by split; apply list_elem_of_In. }
  revert l1'. induction l1 as [|y l1 IH]; intros [|y' l1'] Hnd E Hx Hx'; cbn in E;
    injection E as Ey E.
  - by subst.
  - exfalso. subst. cbn in Hnd. apply NoDup_app in Hnd as (_ & Hd & _). apply (Hd k); [done|].
    apply (Hlater x'); set_solver.
  - exfalso. subst. cbn in Hnd. apply NoDup_app in Hnd as (_ & Hd & _). apply (Hd k); [done|].
    apply (Hlater x); set_solver.
  - subst y'. cbn in Hnd. apply NoDup_app in Hnd as (_ & _ & Hnd).
    destruct (IH l1' Hnd E Hx Hx') as (-> & -> & ->). done.
Qed.

Definition call_keys (m : Message) : list string := map call_id (message_calls m).
Definition result_keys (m : Message) : list string :=
  if is_tool m && non_blank (result_id m) then [result_id m] else [].

Lemma ids_of_calls_keys l : ids_of_calls l = List.flat_map call_keys l.
Proof.
  induction l as [|m l IH]; [done|]. change (m :: l) with ([m] ++ l).
  rewrite ids_of_calls_app, List.flat_map_app, IH. f_equal.
  unfold ids_of_calls, all_calls. cbn. by rewrite !app_nil_r.
Qed.

Lemma ids_of_results_keys l : ids_of_results l = List.flat_map result_keys l.
Proof.
  induction l as [|m l IH]; [done|]. change (m :: l) with ([m] ++ l).
  rewrite ids_of_results_app, List.flat_map_app, IH. f_equal.
  unfold ids_of_results, all_results, result_keys. cbn. rewrite app_nil_r.
  destruct (is_tool m); cbn; [|done]. by destruct (non_blank (result_id m)).
Qed.

Lemma call_keys_elem m id :
  id ∈ call_keys m <-> calls_tools m = true /\ id ∈ map call_id (ToolCalls m).
Proof.
  unfold call_keys, message_calls. destruct (calls_tools m); [rewrite call_id_bare|]; cbn; set_solver.
Qed.

Lemma result_keys_elem m id :
  id ∈ result_keys m <-> is_tool m = true /\ id <> EmptyString /\ result_id m = id.
Proof.
  unfold result_keys, non_blank. destruct (is_tool m), (decide (result_id m = EmptyString)) as [E|E];
    cbn; rewrite ?(bool_decide_eq_true_2 _ E), ?(bool_decide_eq_false_2 _ E); cbn; set_solver.
Qed.

(** What the messages after a call must hold: its result, in its window. *)
Definition answered (after : list Message) (id : string) : Prop :=
  id <> EmptyString /\ exists r, r ∈ response_window after /\ is_tool r = true /\ result_id r = id.

Lemma responded_ids_spec window id :
  id ∈ responded_ids window <-> id <> EmptyString /\ exists r, r ∈ window /\ is_tool r = true /\ result_id r = id.
Proof.
  unfold responded_ids. rewrite elem_of_list_to_set, list_elem_of_In, filter_In, in_map_iff.
  unfold non_blank. split.
  - intros [(r & <- & Hr) Hid]. apply filter_In in Hr as [Hr Ht]. zbool. split; [done|].
    exists r. by rewrite list_elem_of_In.
  - intros (Hid & r & Hr & Ht & E). split; [|by rewrite bool_decide_eq_false_2].
    exists r. split; [done|]. apply filter_In. by rewrite <- list_elem_of_In.
Qed.

Lemma surviving_spec l id :
  id ∈ surviving l <->
  exists pre m post, l = pre ++ m :: post /\ id ∈ call_keys m /\ answered post id.
Proof.
  induction l as [|m l IH].
  { split; [set_solver|]. intros (pre & m & post & E & _). by destruct pre. }
  cbn [surviving]. rewrite elem_of_union, IH. split.
  - intros [Hm|(pre & m' & post & -> & H)]; [|by exists (m :: pre), m', post].
    exists [], m, l. split; [done|]. destruct (calls_tools m) eqn:Em; [|set_solver].
    apply elem_of_intersection in Hm as [Hc Hr]. apply responded_ids_spec in Hr.
    unfold call_ids in Hc. rewrite elem_of_list_to_set, list_elem_of_In in Hc.
    apply filter_In in Hc as [Hc _]. apply list_elem_of_In in Hc. by rewrite call_keys_elem.
  - intros ([|y pre] & m' & post & E & Hk & Ha); injection E as -> ->; [left|right; by exists pre, m', post].
    apply call_keys_elem in Hk as [Em Hk]. rewrite Em. apply elem_of_intersection. split.
    + unfold call_ids. rewrite elem_of_list_to_set, list_elem_of_In. apply filter_In.
      rewrite <- list_elem_of_In. split; [done|]. destruct Ha as [Hid _]. unfold non_blank.
      by rewrite bool_decide_eq_false_2.
    + apply responded_ids_spec. exact Ha.
Qed.

Lemma window_prefix l r : r ∈ response_window l -> exists w1 w2, l = w1 ++ r :: w2.
Proof.
  induction l as [|m l IH]; cbn; [set_solver|]. intros H.
  assert (Hcases : r = m \/ r ∈ response_window l).
  { destruct (is_tool m); [set_solver|]. destruct (is_assistant m && _); set_solver. }
  destruct Hcases as [->|Hr]; [by exists [], l|]. destruct (IH Hr) as (w1 & w2 & ->).
  by exists (m :: w1), w2.
Qed.

Lemma trim_tool ids m : is_tool m = true ->
  trim_message ids m = [m] \/ trim_message ids m = [] /\ result_id m <> EmptyString /\ result_id m ∉ ids.
Proof.
  intros Ht. unfold trim_message. rewrite (tool_not_calls _ Ht), Ht. cbn. fold (result_id m).
  unfold non_blank. destruct (decide (result_id m = EmptyString)) as [E|E].
  - rewrite (bool_decide_eq_true_2 _ E). by left.
  - rewrite (bool_decide_eq_false_2 _ E). cbn. case_bool_decide; cbn; auto.
Qed.

Lemma trim_plain ids m : is_tool m = false -> calls_tools m = false -> trim_message ids m = [m].
Proof. intros Ht Hc. unfold trim_message. by rewrite Hc, Ht. Qed.

Lemma window_trim ids l r :
  r ∈ response_window l -> is_tool r = true -> result_id r ∈ ids ->
  r ∈ response_window (List.flat_map (trim_message ids) l).
Proof.
  intros Hr Ht Hid. induction l as [|m l IH]; [done|]. cbn in Hr |- *.
  destruct (is_tool m) eqn:Em.
  - destruct (trim_tool ids m Em) as [->|(-> & _ & Hn)]; cbn; rewrite ?Em.
    + apply elem_of_cons in Hr as [->|Hr]; [by constructor|]. apply elem_of_cons. auto.
    + apply elem_of_cons in Hr as [->|Hr]; [done|auto].
  - destruct (is_assistant m && bool_decide (ToolCalls m = [])) eqn:Ea; [|set_solver].
    assert (Hc : calls_tools m = false).
    { unfold calls_tools. bools_to_props. rewrite bool_decide_eq_true_2 by done. apply andb_false_r. }
    rewrite (trim_plain _ _ Em Hc). cbn. rewrite Em, Ea.
    apply elem_of_cons in Hr as [->|Hr]; [by constructor|]. apply elem_of_cons. auto.
Qed.

(** A message of the trimmed sequence comes from one message. *)
Lemma trim_at_most_one ids m : trim_message ids m = [] \/ exists m', trim_message ids m = [m'].
Proof. unfold trim_message. cbv zeta. repeat case_match; eauto. Qed.

Lemma flat_map_position ids l pre m post :
  List.flat_map (trim_message ids) l = pre ++ m :: post ->
  exists l1 x l2, l = l1 ++ x :: l2 /\ trim_message ids x = [m] /\
    pre = List.flat_map (trim_message ids) l1 /\ post = List.flat_map (trim_message ids) l2.
Proof.
  revert pre. induction l as [|y l IH]; intros pre H; [by destruct pre|]. cbn in H.
  destruct (trim_at_most_one ids y) as [E|[y' E]]; rewrite E in H; cbn in H.
  - destruct (IH pre H) as (l1 & x & l2 & -> & Ex & -> & ->).
    exists (y :: l1), x, l2. cbn. by rewrite E.
  - destruct pre as [|p pre]; injection H as -> H.
    + by exists [], y, l.
    + destruct (IH pre H) as (l1 & x & l2 & -> & Ex & -> & ->).
      exists (y :: l1), x, l2. cbn. by rewrite E.
Qed.

Lemma number_from_ids start calls : map call_id (number_from start calls) = map call_id calls.
Proof. rewrite <- (call_id_bare (number_from start calls)), bare_number. apply call_id_bare. Qed.

(** A kept call is one whose identifier survives. *)
Lemma trim_calls ids x m :
  trim_message ids x = [m] -> calls_tools m = true ->
  calls_tools x = true /\
  map call_id (ToolCalls m) = List.filter (fun id => bool_decide (id ∈ ids)) (map call_id (ToolCalls x)).
Proof.
  assert (Hf : forall calls, map call_id (List.filter (fun c => bool_decide (TrimSpace (CallID c) ∈ ids)) calls) =
    List.filter (fun id => bool_decide (id ∈ ids)) (map call_id calls)).
  { induction calls as [|c calls IH]; [done|]. cbn. fold (call_id c). case_bool_decide; cbn; by rewrite IH. }
  unfold trim_message. destruct (calls_tools x) eqn:Ex.
  - cbv zeta. intros H Hm. split; [done|]. repeat case_match; simplify_eq; cbn.
    + unfold calls_tools in Hm. cbn in Hm. by rewrite andb_false_r in Hm.
    + by rewrite number_from_ids, Hf.
  - intros H Hm. case_match; simplify_eq. congruence.
Qed.

Lemma trim_keeps_call ids x id :
  id ∈ call_keys x -> id ∈ ids ->
  exists m, trim_message ids x = [m] /\ id ∈ call_keys m.
Proof.
  intros Hk Hid. apply call_keys_elem in Hk as [Hx Hk]. unfold trim_message. rewrite Hx. cbv zeta.
  set (next := number_from 0 _).
  assert (Hnext : id ∈ map call_id next).
  { subst next. rewrite number_from_ids. apply list_elem_of_fmap in Hk as (c & -> & Hc).
    apply list_elem_of_fmap. exists c. split; [done|]. apply list_elem_of_In, filter_In.
    rewrite <- list_elem_of_In. split; [done|]. by apply bool_decide_eq_true_2. }
  case_decide as E; [exfalso; rewrite E in Hnext; cbn in Hnext; set_solver|].
  eexists. split; [reflexivity|]. apply call_keys_elem. split; [|done].
  unfold calls_tools, is_assistant in *. cbn. apply andb_prop in Hx as [-> _].
  by rewrite bool_decide_eq_false_2.
Qed.

Lemma trim_same_tool ids x m :
  trim_message ids x = [m] -> is_tool m = true -> m = x /\ (result_id m <> EmptyString -> result_id m ∈ ids).
Proof.
  intros H Hm. destruct (is_tool x) eqn:Ex.
  - destruct (trim_tool ids x Ex) as [E|(E & _)]; rewrite E in H; [|done]. injection H as ->.
    split; [done|]. intros Hid. unfold trim_message in E. rewrite (tool_not_calls _ Ex), Ex in E.
    cbn in E. fold (result_id m) in E. unfold non_blank in E. rewrite bool_decide_eq_false_2 in E by done.
    cbn in E. by case_bool_decide.
  - exfalso. assert (Hr : MsgRole m = MsgRole x).
    { unfold trim_message in H. cbv zeta in H. repeat case_match; by simplify_eq. }
    unfold is_tool in Hm, Ex. rewrite Hr in Hm. by rewrite Hm in Ex.
Qed.

(** Calls and results pair up: every call has its result in the window of messages the providers
    allow, every result that names a call comes after it. *)
Definition well_paired (l : list Message) : Prop :=
  forall pre m post, l = pre ++ m :: post ->
    Forall (answered post) (call_keys m) /\
    (is_tool m = true -> result_id m <> EmptyString ->
     exists p, p ∈ pre /\ result_id m ∈ call_keys p).

Lemma trim_well_paired l :
  NoDup (ids_of_calls l) -> NoDup (ids_of_results l) ->
  well_paired (trimReplayDanglingAssistantToolCalls l).
Proof.
  rewrite ids_of_calls_keys, ids_of_results_keys. intros Hc Hr pre m post E.
  unfold trimReplayDanglingAssistantToolCalls in E. set (ids := surviving l) in *.
  destruct (flat_map_position _ _ _ _ _ E) as (l1 & x & l2 & El & Ex & -> & ->). split.
  - apply Forall_forall. intros id Hk. apply call_keys_elem in Hk as [Hm Hk].
    destruct (trim_calls _ _ _ Ex Hm) as [Hx Hcalls]. rewrite Hcalls in Hk.
    apply list_elem_of_In, filter_In in Hk as [Hk Hid]. apply list_elem_of_In in Hk. zbool.
    pose proof Hid as Hs. apply surviving_spec in Hs as (p & y & q & El' & Hy & Hne & r & Hwin & Ht & Er).
    assert (Hkx : id ∈ call_keys x) by by apply call_keys_elem.
    rewrite El in Hc, El'. destruct (key_position call_keys _ _ _ _ _ _ id Hc El' Hkx Hy) as (_ & _ & <-).
    split; [done|]. exists r. split; [|done]. apply window_trim; [done|done|]. by rewrite Er.
  - intros Ht Hid. destruct (trim_same_tool _ _ _ Ex Ht) as [<- Hin]. specialize (Hin Hid).
    pose proof Hin as Hs. apply surviving_spec in Hs as (p & y & q & El' & Hy & Hne & r & Hwin & Htr & Er).
    destruct (window_prefix _ _ Hwin) as (w1 & w2 & ->).
    rewrite El in Hr, El'. change (p ++ y :: w1 ++ r :: w2) with (p ++ (y :: w1) ++ r :: w2) in El'.
    rewrite app_assoc in El'.
    destruct (key_position result_keys l1 m l2 (p ++ y :: w1) r w2 (result_id m) Hr El') as (-> & _ & _).
    { by apply result_keys_elem. }
    { by apply result_keys_elem. }
    destruct (trim_keeps_call ids y (result_id m) Hy Hin) as (y' & Ey & Hy').
    exists y'. split; [|done]. rewrite List.flat_map_app. cbn. rewrite Ey. set_solver.
Qed.

(** In a sequence that pairs up every identifier survives. *)
Lemma paired_survive l : well_paired l ->
  forall m, m ∈ l -> (forall id, id ∈ call_keys m -> id ∈ surviving l) /\
                 (is_tool m = true -> result_id m <> EmptyString -> result_id m ∈ surviving l).
Proof.
  intros Hw m Hm. apply list_elem_of_split in Hm as (pre & post & El).
  destruct (Hw _ _ _ El) as [Hc Hr]. rewrite Forall_forall in Hc. split.
  - intros id Hid. apply surviving_spec. exists pre, m, post. auto.
  - intros Ht Hid. destruct (Hr Ht Hid) as (p & Hp & Hk).
    apply list_elem_of_split in Hp as (p1 & p2 & ->). rewrite <- app_assoc in El.
    destruct (Hw p1 p (p2 ++ m :: post) El) as [Hp _]. rewrite Forall_forall in Hp.
    apply surviving_spec. exists p1, p, (p2 ++ m :: post). auto.
Qed.

Lemma kept_all (ids : gset string) m : calls_tools m = true -> (forall id, id ∈ call_keys m -> id ∈ ids) ->
  List.filter (fun c => bool_decide (TrimSpace (CallID c) ∈ ids)) (ToolCalls m) = ToolCalls m.
Proof.
  intros Em Hc. apply forallb_filter_id, forallb_forall. intros c Hin. apply bool_decide_eq_true_2, Hc, call_keys_elem.
  split; [done|]. apply list_elem_of_fmap. exists c. split; [done|]. by apply list_elem_of_In.
Qed.

(** Trimming a sequence that pairs up only renumbers its calls. *)
Lemma trim_keeps_paired l :
  well_paired l ->
  all_calls (trimReplayDanglingAssistantToolCalls l) = all_calls l /\
  all_results (trimReplayDanglingAssistantToolCalls l) = all_results l /\
  plain (trimReplayDanglingAssistantToolCalls l) = plain l.
Proof.
  intros Hw. pose proof (paired_survive l Hw) as Hs.
  unfold trimReplayDanglingAssistantToolCalls. revert Hs. generalize (surviving l). intros ids Hs.
  clear Hw. induction l as [|m l IH]; [done|].
  destruct IH as (I1 & I2 & I3); [intros x Hx; apply Hs; by constructor|].
  destruct (Hs m ltac:(by constructor)) as [Hc Hr]. clear Hs.
  cbn [List.flat_map]. change (m :: l) with ([m] ++ l).
  rewrite !all_calls_app, !all_results_app, !plain_app, I1, I2, I3.
  destruct (is_tool m) eqn:Et; [|destruct (calls_tools m) eqn:Em].
  - destruct (trim_tool ids m Et) as [->|(_ & Hid & Hn)]; [done|]. by destruct Hn; apply Hr.
  - pose proof (kept_all ids m Em Hc) as Hall.
    destruct (calls_single _ Em) as (-> & -> & ->).
    assert (Hne : ToolCalls m <> []).
    { unfold calls_tools in Em. apply andb_prop in Em as [_ Em]. by zbool. }
    unfold trim_message. rewrite Em, Hall. cbv zeta. rewrite decide_False.
    2: { intros E. apply (f_equal (map bare)) in E. rewrite bare_number in E.
         by destruct (ToolCalls m). }
    set (m' := m <| ToolCalls := _ |>).
    assert (Em' : calls_tools m' = true).
    { subst m'. unfold calls_tools, is_assistant in *. cbn. apply andb_prop in Em as [-> _].
      rewrite bool_decide_eq_false_2; [done|]. intros E. apply (f_equal (map bare)) in E.
      rewrite bare_number in E. by destruct (ToolCalls m). }
    destruct (calls_single _ Em') as (-> & -> & ->). split; [|done]. f_equal.
    unfold message_calls. rewrite Em, Em'. subst m'. cbn. apply bare_number.
  - by rewrite (trim_plain _ _ Et Em).
Qed.

(** ** Properties *)

(** What is sent to a provider pairs up.  When no two calls and no two results of the
    replayed history share an identifier, then in the normalised sequence every tool call is
    followed, with nothing but results and plain assistant texts between, by a result that
    carries its identifier, and every result that carries one comes after its call. *)
Lemma replay_well_paired messages :
  NoDup (ids_of_calls messages) -> NoDup (ids_of_results messages) ->
  well_paired (normalizeReplayMessageSequence messages).
Proof.
  intros Hc Hr. destruct (merge_messages_spec messages) as (M1 & M2 & _).
  set (merged := merge_messages messages) in *.
  destruct (filter_messages_spec (fun c => isProviderPromptReplaySuppressedToolName (FunctionName c))
    non_blank has_parts (number_from 0) (fun m => isProviderPromptReplaySuppressedToolName (MsgName m))
    merged) as [F1 F2]; [done|intros; apply bare_number|].
  unfold normalizeReplayMessageSequence, filterProviderSuppressedToolReplayMessages. fold merged.
  set (filtered := filter_messages _ _ _ _ _ _) in *.
  assert (Hc' : NoDup (ids_of_calls filtered)).
  { unfold ids_of_calls. eapply sublist_NoDup; [|by apply map_sublist].
    rewrite M1. exact Hc. }
  assert (Hr' : NoDup (ids_of_results filtered)).
  { unfold ids_of_results. eapply sublist_NoDup; [exact Hr|]. unfold ids_of_results. rewrite <- M2.
    apply filter_sublist_mono, map_sublist, F2. }
  destruct (coalesce_fuel_spec (length filtered) filtered (le_n _) Hc' Hr') as (C1 & C2 & _).
  apply trim_well_paired; unfold coalesceInterleavedReplayToolBatches.
  - unfold ids_of_calls. by rewrite C1.
  - eapply NoDup_permuted; [|exact Hr']. unfold ids_of_results.
    by apply filter_permuted, Permutation_map.
Qed.

(** normalising loses nothing it could send.  When identifiers are not shared and no tool is
    suppressed, a history whose calls are all answered once batches are put together keeps every
    call in its order, every result, and every other message in its order: the calls only change
    the message that carries them, the results only their place. *)
Theorem replay_loses_nothing messages :
  NoDup (ids_of_calls messages) -> NoDup (ids_of_results messages) ->
  filterProviderSuppressedToolReplayMessages (merge_messages messages) = merge_messages messages ->
  well_paired (coalesceInterleavedReplayToolBatches (merge_messages messages)) ->
  all_calls (normalizeReplayMessageSequence messages) = all_calls messages /\
  all_results (normalizeReplayMessageSequence messages) ≡ₚ all_results messages /\
  plain (normalizeReplayMessageSequence messages) = plain messages.
Proof.
  intros Hc Hr Hf Hw. unfold normalizeReplayMessageSequence. rewrite Hf.
  destruct (merge_messages_spec messages) as (M1 & M2 & M3).
  destruct (trim_keeps_paired _ Hw) as (-> & -> & ->).
  unfold coalesceInterleavedReplayToolBatches.
  destruct (coalesce_fuel_spec (length (merge_messages messages)) (merge_messages messages) (le_n _))
    as (C1 & C2 & C3).
  - unfold ids_of_calls. by rewrite M1.
  - unfold ids_of_results. by rewrite M2.
  - by rewrite C1, C2, C3, M1, M2, M3.
Qed.

(** ** Witnesses *)

Module Demo.

Definition a_call (id : string) : Message :=
  text_message "assistant" EmptyString <| ToolCalls := [mkCall id 0 "function" "Read" "{}" EmptyString EmptyString EmptyString] |>.

Definition a_result (id content : string) : Message :=
  text_message "tool" content <| MsgToolCallID := id |> <| MsgName := "Read" |>.

(** A batch whose first result came before its second call, and a call with no result. *)
Definition history : list Message :=
  [text_message "user" "hi"; a_call "run::1"; a_result "run::1" "one"; a_call "run::2";
   a_result "run::2" "two"; text_message "assistant" "done"; text_message "user" "again";
   a_call "other::3"].

Definition answered_history : list Message := take 6 history.

Example normalized :
  map (fun m => (MsgRole m, map CallID (ToolCalls m), MsgToolCallID m))
    (normalizeReplayMessageSequence history) =
  [("user", [], EmptyString); ("assistant", ["run::1"; "run::2"], EmptyString);
   ("tool", [], "run::1"); ("tool", [], "run::2"); ("assistant", [], EmptyString);
   ("user", [], EmptyString)].
Proof. by vm_compute. Qed.

End Demo.

Lemma replay_loses_nothing_witness :
  all_calls (normalizeReplayMessageSequence Demo.answered_history) = all_calls Demo.answered_history.
Proof.
  apply (replay_loses_nothing Demo.answered_history).
  - apply (bool_decide_unpack _); vm_compute; exact I.
  - apply (bool_decide_unpack _); vm_compute; exact I.
  - vm_compute. reflexivity.
  - set (l := coalesceInterleavedReplayToolBatches _).
    replace l with (trimReplayDanglingAssistantToolCalls l) by (vm_compute; reflexivity).
    apply trim_well_paired; apply (bool_decide_unpack _); vm_compute; exact I.
Defined.
