(* ===== verification/Router.v ===== *)
(** * The last check of the messages before a provider (agent/model/router.go).

    Whatever compiled the prompt, the router drops empty assistant messages, merges assistant
    messages a call follows, drops calls without a result, and lets no assistant message come
    last.  Here is shown that this takes nothing away from a prompt that pairs up, which is what
    the projector (Prompt.v) gives.  The merging of reasoning ([mergeProviderReasoning],
    [mergeProviderReasoningMetadata]) and the response window are the code of projector.go under
    other names, and so are their models those of Messages.v.  Choosing a channel and its
    settings is left out. *)

From S2P Require Import Prelude Go Strings Messages.

Definition isAssistantPlaceholderMessage (m : Message) : bool :=
  is_assistant m && bool_decide (ToolCalls m = []) && bool_decide (ContentParts m = []) &&
  bool_decide (TrimSpace (MsgToolCallID m) = EmptyString) && bool_decide (TrimSpace (MsgName m) = EmptyString) &&
  bool_decide (TrimSpace (ReasoningContent m) = EmptyString) &&
  bool_decide (TrimSpace (ReasoningSignature m) = EmptyString) &&
  bool_decide (TrimSpace (MsgContent m) = EmptyString).

Definition isAssistantPrefillMessage (m : Message) : bool :=
  is_assistant m && bool_decide (ToolCalls m = []) &&
  bool_decide (TrimSpace (MsgToolCallID m) = EmptyString) && bool_decide (TrimSpace (MsgName m) = EmptyString) &&
  (negb (bool_decide (TrimSpace (MsgContent m) = EmptyString)) ||
   negb (bool_decide (TrimSpace (ReasoningContent m) = EmptyString))).

Definition canMergeProviderAssistantToolCalls (last current : Message) : bool :=
  is_assistant last && is_assistant current &&
  negb (bool_decide (ToolCalls current = [])) &&
  bool_decide (TrimSpace (MsgToolCallID last) = EmptyString) &&
  bool_decide (TrimSpace (MsgName last) = EmptyString) &&
  bool_decide (TrimSpace (MsgToolCallID current) = EmptyString) &&
  bool_decide (TrimSpace (MsgName current) = EmptyString) &&
  bool_decide (TrimSpace (MsgContent current) = EmptyString) &&
  bool_decide (ContentParts current = []).

(** [mergeProviderAssistantToolCalls], over the messages built so far. *)
Definition mergeProviderAssistantToolCalls (messages : list Message) (message : Message) : list Message :=
  match last messages with
  | Some previous =>
      if canMergeProviderAssistantToolCalls previous message
      then removelast messages ++ [merge_calls previous message]
      else messages ++ [message]
  | None => messages ++ [message]
  end.

Definition mergeAdjacentAssistantToolCallMessages (input : list Message) : list Message :=
  fold_left mergeProviderAssistantToolCalls input [].

Definition trim_provider_message (ids : gset string) (m : Message) : list Message :=
  if calls_tools m then
    let next := number_from 0
      (List.filter (fun c => bool_decide (TrimSpace (CallID c) ∈ ids)) (ToolCalls m)) in
    if decide (next = []) then
      if bool_decide (TrimSpace (MsgContent m) = EmptyString) && bool_decide (ContentParts m = []) &&
         bool_decide (TrimSpace (ReasoningContent m) = EmptyString)
      then []
      else [m <| ToolCalls := [] |>]
    else [m <| ToolCalls := next |>]
  else if is_tool m && negb (bool_decide (TrimSpace (MsgToolCallID m) = EmptyString)) &&
          negb (bool_decide (TrimSpace (MsgToolCallID m) ∈ ids))
  then []
  else [m].

Definition trimDanglingAssistantToolCalls (input : list Message) : list Message :=
  List.flat_map (trim_provider_message (surviving input)) input.

(** The loop that drops the last message while it is a prefill. *)
Fixpoint trim_prefill (reversed : list Message) : list Message :=
  match reversed with
  | [] => []
  | m :: rest => if isAssistantPrefillMessage m then trim_prefill rest else reversed
  end.

Definition sanitizeProviderMessages (input : list Message) : list Message :=
  let filtered := List.filter (fun m => negb (isAssistantPlaceholderMessage m)) input in
  let filtered := mergeAdjacentAssistantToolCallMessages filtered in
  let filtered := trimDanglingAssistantToolCalls filtered in
  rev (trim_prefill (rev filtered)).

(** ** Lemmas: what a sequence that pairs up survives *)

(** An assistant message without calls. *)
Definition bystander (m : Message) : Prop := is_assistant m = true /\ ToolCalls m = [].

Lemma bystander_no_keys m : bystander m -> call_keys m = [] /\ is_tool m = false /\ message_calls m = [].
Proof.
  intros [Ha Hc]. assert (Ht : is_tool m = false).
  { destruct (is_tool m) eqn:E; [|done]. unfold is_tool, is_assistant in *. zbool. congruence. }
  split; [|split; [done|]]; unfold call_keys, message_calls, calls_tools; by rewrite Hc, andb_false_r.
Qed.

Lemma bystander_window m rest : bystander m -> response_window (m :: rest) = m :: response_window rest.
Proof.
  intros Hb. destruct (bystander_no_keys m Hb) as (_ & Ht & _). destruct Hb as [Ha Hc].
  cbn. by rewrite Ht, Ha, Hc.
Qed.

(** Dropping bystanders. *)
Lemma window_filter keep l r : (forall m, keep m = false -> bystander m) ->
  r ∈ response_window l -> is_tool r = true -> r ∈ response_window (List.filter keep l).
Proof.
  intros Hk Hr Ht. induction l as [|m l IH]; [done|].
  cbn [List.filter]. destruct (keep m) eqn:Em.
  - cbn [response_window] in Hr |- *.
    destruct (is_tool m); [|destruct (is_assistant m && _); [|set_solver]];
      (apply elem_of_cons in Hr as [->|Hr]; [by constructor|apply elem_of_cons; auto]).
  - pose proof (Hk m Em) as Hb. rewrite bystander_window in Hr by done.
    apply elem_of_cons in Hr as [->|Hr]; [|auto]. destruct (bystander_no_keys m Hb) as (_ & Hn & _). congruence.
Qed.

Lemma filter_position (keep : Message -> bool) l pre m post : List.filter keep l = pre ++ m :: post ->
  exists l1 l2, l = l1 ++ m :: l2 /\ pre = List.filter keep l1 /\ post = List.filter keep l2.
Proof.
  revert pre. induction l as [|x l IH]; intros pre H; [by destruct pre|]. cbn in H.
  destruct (keep x) eqn:Ex.
  - destruct pre as [|p pre]; injection H as -> H.
    + exists [], l. done.
    + destruct (IH pre H) as (l1 & l2 & -> & -> & ->). exists (p :: l1), l2. cbn. by rewrite Ex.
  - destruct (IH pre H) as (l1 & l2 & -> & -> & ->). exists (x :: l1), l2. cbn. by rewrite Ex.
Qed.

Lemma filter_well_paired keep l : (forall m, keep m = false -> bystander m) -> well_paired l ->
  well_paired (List.filter keep l).
Proof.
  intros Hk Hw pre m post E. destruct (filter_position _ _ _ _ _ E) as (l1 & l2 & -> & -> & ->).
  destruct (Hw l1 m l2 eq_refl) as [Hc Hr]. split.
  - eapply Forall_impl; [exact Hc|]. intros id (Hid & r & Hin & Ht & Er). split; [done|].
    exists r. split; [by apply window_filter|done].
  - intros Ht Hid. destruct (Hr Ht Hid) as (p & Hp & Hin). exists p. split; [|done].
    apply list_elem_of_In, filter_In. split; [by apply list_elem_of_In|].
    destruct (keep p) eqn:Ep; [done|]. destruct (bystander_no_keys p (Hk p Ep)) as (E' & _). rewrite E' in Hin.
    by apply elem_of_nil in Hin.
Qed.

Lemma filter_same_calls keep l : (forall m, keep m = false -> bystander m) ->
  all_calls (List.filter keep l) = all_calls l /\ all_results (List.filter keep l) = all_results l.
Proof.
  intros Hk. induction l as [|m l [IH1 IH2]]; [done|]. cbn [List.filter].
  change (m :: l) with ([m] ++ l). rewrite all_calls_app, all_results_app, <- IH1, <- IH2.
  destruct (keep m) eqn:Em.
  - change (m :: List.filter keep l) with ([m] ++ List.filter keep l). by rewrite all_calls_app, all_results_app.
  - destruct (bystander_no_keys m (Hk m Em)) as (_ & Ht & Hc).
    unfold all_calls at 2, all_results at 2. cbn. by rewrite Hc, Ht.
Qed.

Lemma placeholder_bystander m : isAssistantPlaceholderMessage m = true -> bystander m.
Proof. unfold isAssistantPlaceholderMessage. intros H. bools_to_props. by split. Qed.

Lemma prefill_bystander m : isAssistantPrefillMessage m = true -> bystander m.
Proof.
  unfold isAssistantPrefillMessage. intros H. apply andb_prop in H as [H _]. bools_to_props. by split.
Qed.

(** Merging: in a sequence that pairs up a call never follows open calls. *)
Lemma no_calls_before_calls pre x y post : well_paired (pre ++ x :: y :: post) -> calls_tools y = true ->
  is_tool x = false -> is_assistant x = true -> bystander x.
Proof.
  intros Hw Hy Ht Ha. split; [done|]. destruct (Hw pre x (y :: post) eq_refl) as [Hc _].
  destruct (ToolCalls x) as [|c calls] eqn:Ex; [done|exfalso].
  assert (Hk : call_id c ∈ call_keys x).
  { apply call_keys_elem. split.
    - unfold calls_tools. by rewrite Ha, Ex.
    - rewrite Ex. cbn. by left. }
  rewrite Forall_forall in Hc. destruct (Hc _ Hk) as (_ & r & Hr & _). cbn in Hr.
  assert (Hty : is_tool y = false).
  { destruct (is_tool y) eqn:E; [|done]. rewrite (tool_not_calls _ E) in Hy. done. }
  rewrite Hty in Hr. unfold calls_tools in Hy. apply andb_prop in Hy as [Hy1 Hy2].
  rewrite Hy1 in Hr. apply negb_true_iff in Hy2. rewrite Hy2 in Hr. by apply elem_of_nil in Hr.
Qed.

Lemma window_before_calls k x y post rest r : bystander x -> calls_tools y = true -> is_tool y = false ->
  r ∈ response_window (k ++ x :: y :: post) -> is_tool r = true -> r ∈ response_window (k ++ rest).
Proof.
  intros Hx Hy Hty Hr Ht. induction k as [|m k IH].
  - exfalso. cbn [app] in Hr. rewrite bystander_window in Hr by done.
    apply elem_of_cons in Hr as [->|Hr].
    + destruct (bystander_no_keys x Hx) as (_ & E & _). congruence.
    + cbn in Hr. rewrite Hty in Hr. unfold calls_tools in Hy. apply andb_prop in Hy as [Hya Hy].
      apply negb_true_iff in Hy. rewrite Hya, Hy in Hr. by apply elem_of_nil in Hr.
  - cbn [app response_window] in *.
    destruct (is_tool m); [|destruct (is_assistant m && _); [|set_solver]];
      (apply elem_of_cons in Hr as [->|Hr]; [by constructor|apply elem_of_cons; auto]).
Qed.

Lemma can_merge_provider x y : canMergeProviderAssistantToolCalls x y = true ->
  is_assistant x = true /\ is_tool x = false /\ calls_tools y = true /\ is_tool y = false.
Proof.
  unfold canMergeProviderAssistantToolCalls. intros H. bools_to_props.
  assert (Hn : forall m, is_assistant m = true -> is_tool m = false).
  { intros m Ha. destruct (is_tool m) eqn:E; [|done]. unfold is_tool, is_assistant in *. zbool. congruence. }
  split_and!; auto. unfold calls_tools. apply andb_true_intro. split; [done|]. by rewrite bool_decide_eq_false_2.
Qed.

(** A call moved into the assistant message before it. *)
Lemma merged_facts x y : bystander x -> calls_tools y = true ->
  is_tool (merge_calls x y) = false /\ calls_tools (merge_calls x y) = true /\
  message_calls (merge_calls x y) = message_calls y /\ call_keys (merge_calls x y) = call_keys y.
Proof.
  intros Hx Hy. pose proof (bystander_no_keys x Hx) as (_ & Hxt & _). destruct Hx as [Hxa Hxc].
  unfold merge_calls. cbv zeta. set (m := x <| ToolCalls := _ |> <| ReasoningContent := _ |>).
  destruct (merge_metadata_frame m y) as [Er Et].
  assert (Htool : is_tool (mergeReplayReasoningMetadata m y) = false) by (unfold is_tool in *; by rewrite Er).
  assert (Hcalls : ToolCalls m = number_from 0 (ToolCalls y)) by (subst m; cbn; by rewrite Hxc).
  assert (Ha : calls_tools (mergeReplayReasoningMetadata m y) = true).
  { unfold calls_tools, is_assistant in *. rewrite Er, Et, Hcalls. subst m. cbn. rewrite Hxa. cbn.
    apply andb_prop in Hy as [_ Hy]. rewrite bool_decide_eq_false_2; [done|]. intros E.
    apply (f_equal (map bare)) in E. rewrite bare_number in E. zbool. by destruct (ToolCalls y). }
  assert (Hm : message_calls (mergeReplayReasoningMetadata m y) = message_calls y).
  { unfold message_calls. rewrite Ha, Hy, Et, Hcalls. apply bare_number. }
  split_and!; [done|done|exact Hm|]. unfold call_keys. by rewrite Hm.
Qed.

Lemma merge_pair_well_paired pre x y post : well_paired (pre ++ x :: y :: post) ->
  canMergeProviderAssistantToolCalls x y = true ->
  well_paired (pre ++ merge_calls x y :: post) /\
  all_calls (pre ++ merge_calls x y :: post) = all_calls (pre ++ x :: y :: post) /\
  all_results (pre ++ merge_calls x y :: post) = all_results (pre ++ x :: y :: post).
Proof.
  intros Hw Hm. apply can_merge_provider in Hm as (Hxa & Hxt & Hy & Hyt).
  assert (Hx : bystander x) by by eapply no_calls_before_calls.
  destruct (merged_facts x y Hx Hy) as (Zt & Zc & Zm & Zk). destruct (bystander_no_keys x Hx) as (Xk & _ & Xm).
  set (z := merge_calls x y) in *. clearbody z. split; [|split].
  2: { rewrite !all_calls_app. f_equal. unfold all_calls. cbn. by rewrite Xm, Zm. }
  2: { rewrite !all_results_app. f_equal. unfold all_results. cbn. by rewrite Zt, Hxt, Hyt. }
  assert (Hz : Forall (answered post) (call_keys z) /\
    (is_tool z = true -> result_id z <> EmptyString -> exists p, p ∈ pre /\ result_id z ∈ call_keys p)).
  { split; [|by rewrite Zt]. rewrite Zk.
    destruct (Hw (pre ++ [x]) y post) as [Hc _]; [by rewrite <- app_assoc|exact Hc]. }
  intros pre' m post' E. apply app_eq_inv in E as [(k & -> & E)|(k & -> & E)]; destruct k as [|m' k].
  - rewrite app_nil_r in *. injection E as -> ->. exact Hz.
  - injection E as -> ->. destruct (Hw pre' m' (k ++ x :: y :: post)) as [Hc Hr]; [by rewrite <- app_assoc|].
    split; [|exact Hr]. eapply Forall_impl; [exact Hc|]. intros id (Hid & r & Hin & Ht & Er). split; [done|].
    exists r. split; [|done].
    exact (window_before_calls k x y post (z :: post) r Hx Hy Hyt Hin Ht).
  - rewrite app_nil_r. injection E as -> ->. exact Hz.
  - injection E as -> ->. destruct (Hw (pre ++ x :: y :: k) m post') as [Hc Hr]; [by rewrite <- app_assoc|].
    split; [exact Hc|]. intros Ht Hid. destruct (Hr Ht Hid) as (p & Hp & Hk).
    rewrite elem_of_app, !elem_of_cons in Hp. destruct Hp as [Hp|[->|[->|Hp]]].
    + exists p. rewrite elem_of_app. auto.
    + rewrite Xk in Hk. by apply elem_of_nil in Hk.
    + exists m'. rewrite elem_of_app, elem_of_cons, Zk. auto.
    + exists p. rewrite elem_of_app, elem_of_cons. auto.
Qed.

Lemma merge_all_well_paired rest built : well_paired (built ++ rest) ->
  let l := fold_left mergeProviderAssistantToolCalls rest built in
  well_paired l /\ all_calls l = all_calls (built ++ rest) /\ all_results l = all_results (built ++ rest).
Proof.
  revert built. induction rest as [|m rest IH]; intros built Hw l; subst l; cbn [fold_left].
  { by rewrite app_nil_r in *. }
  assert (Hkeep : well_paired ((built ++ [m]) ++ rest)) by by rewrite <- app_assoc.
  unfold mergeProviderAssistantToolCalls at 2 4 6. destruct (last built) as [x|] eqn:El.
  - apply last_Some in El as [front ->].
    destruct (canMergeProviderAssistantToolCalls x m) eqn:Em.
    + rewrite removelast_last. rewrite <- app_assoc in Hw. cbn [app] in Hw.
      destruct (merge_pair_well_paired front x m rest Hw Em) as (H1 & H2 & H3).
      change (merge_calls x m :: rest) with ([merge_calls x m] ++ rest) in H1, H2, H3. rewrite app_assoc in H1, H2, H3.
      destruct (IH _ H1) as (G1 & G2 & G3). split_and!; [exact G1| |];
        rewrite <- app_assoc; cbn [app]; congruence.
    + destruct (IH _ Hkeep) as (G1 & G2 & G3). split_and!; [exact G1| |]; rewrite <- !app_assoc in *; cbn [app] in *; congruence.
  - destruct (IH _ Hkeep) as (G1 & G2 & G3). split_and!; [exact G1| |]; rewrite <- !app_assoc in *; cbn [app] in *; congruence.
Qed.

(** Trimming a sequence that pairs up renumbers its calls and nothing more. *)
Definition renumber (m : Message) : Message :=
  if calls_tools m then m <| ToolCalls := number_from 0 (ToolCalls m) |> else m.

Lemma renumber_facts m :
  is_tool (renumber m) = is_tool m /\ is_assistant (renumber m) = is_assistant m /\
  bool_decide (ToolCalls (renumber m) = []) = bool_decide (ToolCalls m = []) /\
  result_id (renumber m) = result_id m /\ message_calls (renumber m) = message_calls m /\
  (is_tool m = true -> renumber m = m).
Proof.
  unfold renumber. destruct (calls_tools m) eqn:Em; [|done].
  assert (Hb : bool_decide (number_from 0 (ToolCalls m) = []) = bool_decide (ToolCalls m = [])).
  { apply bool_decide_ext. split; intros E; [|by rewrite E].
    apply (f_equal (map bare)) in E. rewrite bare_number in E. by destruct (ToolCalls m). }
  split_and!; try done.
  - unfold message_calls, calls_tools, is_assistant in *. cbn. rewrite Hb, Em. apply bare_number.
  - intros Ht. by rewrite (tool_not_calls _ Ht) in Em.
Qed.

Lemma renumber_window l r : r ∈ response_window l -> is_tool r = true -> r ∈ response_window (map renumber l).
Proof.
  intros Hr Ht. induction l as [|m l IH]; [done|]. cbn [response_window map] in *.
  destruct (renumber_facts m) as (H1 & H2 & H3 & _ & _ & H6). rewrite H1, H2, H3.
  destruct (is_tool m) eqn:Em.
  - rewrite H6 by done. apply elem_of_cons in Hr as [->|Hr]; [by constructor|apply elem_of_cons; auto].
  - destruct (is_assistant m && _); [|set_solver].
    apply elem_of_cons in Hr as [->|Hr]; [congruence|apply elem_of_cons; auto].
Qed.

Lemma renumber_well_paired l : well_paired l ->
  well_paired (map renumber l) /\ all_calls (map renumber l) = all_calls l /\
  all_results (map renumber l) = all_results l.
Proof.
  intros Hw. split; [|clear Hw; induction l as [|m l [IH1 IH2]]; [done|]].
  - intros pre m post E. apply fmap_app_inv in E as (l1 & l2 & -> & E & ->).
    symmetry in E. apply fmap_cons_inv in E as (x & l3 & -> & -> & ->). fold (map renumber l1) (map renumber l3).
    destruct (Hw l1 x l3 eq_refl) as [Hc Hr]. destruct (renumber_facts x) as (H1 & _ & _ & H4 & H5 & _).
    unfold call_keys. rewrite H1, H4, H5. split.
    + eapply Forall_impl; [exact Hc|]. intros id (Hid & r & Hin & Ht & Er). split; [done|].
      exists r. split; [by apply renumber_window|done].
    + intros Ht Hid. destruct (Hr Ht Hid) as (p & Hp & Hin). exists (renumber p). split.
      * apply list_elem_of_fmap. eauto.
      * destruct (renumber_facts p) as (_ & _ & _ & _ & E & _). by rewrite E.
  - cbn [map]. change (m :: l) with ([m] ++ l). change (renumber m :: map renumber l) with ([renumber m] ++ map renumber l).
    rewrite !all_calls_app, !all_results_app, IH1, IH2.
    destruct (renumber_facts m) as (H1 & _ & _ & _ & H5 & H6). unfold all_calls, all_results. cbn.
    rewrite H1, H5. destruct (is_tool m) eqn:Em; [by rewrite H6|done].
Qed.

Lemma trim_renumbers l : well_paired l -> trimDanglingAssistantToolCalls l = map renumber l.
Proof.
  intros Hw. unfold trimDanglingAssistantToolCalls. pose proof (paired_survive l Hw) as Hs.
  revert Hs. generalize (surviving l). intros ids Hs. clear Hw.
  induction l as [|m l IH]; [done|]. cbn [List.flat_map map].
  rewrite IH by (intros x Hx; apply Hs; by constructor). clear IH.
  destruct (Hs m ltac:(by constructor)) as [Hc Hr]. unfold trim_provider_message, renumber.
  destruct (calls_tools m) eqn:Em.
  - rewrite (kept_all ids m Em Hc). cbv zeta. rewrite decide_False; [done|]. intros E.
    apply (f_equal (map bare)) in E. rewrite bare_number in E. unfold calls_tools in Em.
    apply andb_prop in Em as [_ Em]. zbool. by destruct (ToolCalls m).
  - destruct (is_tool m) eqn:Et; [|done]. cbn. fold (result_id m).
    destruct (decide (result_id m = EmptyString)) as [E|E]; [by rewrite (bool_decide_eq_true_2 _ E)|].
    rewrite (bool_decide_eq_false_2 _ E). cbn. by rewrite (bool_decide_eq_true_2 _ (Hr eq_refl E)).
Qed.

(** Dropping bystanders off the end. *)
Lemma window_snoc l x r : r ∈ response_window (l ++ [x]) -> is_tool r = true -> is_tool x = false ->
  r ∈ response_window l.
Proof.
  intros Hr Ht Hx. induction l as [|m l IH]; cbn [app response_window] in *.
  - rewrite Hx in Hr. destruct (is_assistant x && _); [|set_solver].
    apply list_elem_of_singleton in Hr as ->. congruence.
  - destruct (is_tool m); [|destruct (is_assistant m && _); [|set_solver]];
      (apply elem_of_cons in Hr as [->|Hr]; [by constructor|apply elem_of_cons; auto]).
Qed.

Lemma drop_last_well_paired l x : bystander x -> well_paired (l ++ [x]) ->
  well_paired l /\ all_calls l = all_calls (l ++ [x]) /\ all_results l = all_results (l ++ [x]).
Proof.
  intros Hb Hw. destruct (bystander_no_keys x Hb) as (_ & Ht & Hc). split; [|split].
  - intros pre m post ->. destruct (Hw pre m (post ++ [x])) as [H1 H2]; [by rewrite <- app_assoc|].
    split; [|exact H2]. eapply Forall_impl; [exact H1|]. intros id (Hid & r & Hin & Hrt & Er). split; [done|].
    exists r. split; [|done]. by eapply window_snoc.
  - rewrite all_calls_app. unfold all_calls at 3. cbn. by rewrite Hc, !app_nil_r.
  - rewrite all_results_app. unfold all_results at 3. cbn. by rewrite Ht, app_nil_r.
Qed.

Lemma trim_prefill_spec reversed : well_paired (rev reversed) ->
  well_paired (rev (trim_prefill reversed)) /\
  all_calls (rev (trim_prefill reversed)) = all_calls (rev reversed) /\
  all_results (rev (trim_prefill reversed)) = all_results (rev reversed) /\
  forall m, head (trim_prefill reversed) = Some m -> isAssistantPrefillMessage m = false.
Proof.
  induction reversed as [|m l IH]; intros Hw; cbn [trim_prefill]; [done|].
  destruct (isAssistantPrefillMessage m) eqn:Em; [|split_and!; try done; by intros x [= <-]].
  cbn [rev] in *. destruct (drop_last_well_paired (rev l) m (prefill_bystander m Em) Hw) as (H1 & H2 & H3).
  destruct (IH H1) as (G1 & G2 & G3 & G4). split_and!; [exact G1|congruence|congruence|exact G4].
Qed.

(** C25: the router takes no call and no result away from a prompt that pairs up.  Its four passes
    keep every call, with its arguments and in order, and every result; what they leave pairs up
    again, so that a provider accepts it; and no text of the assistant comes last, which
    providers would take for the start of their own answer. *)
Theorem sanitize_keeps_pairs input :
  well_paired input ->
  let sanitized := sanitizeProviderMessages input in
  all_calls sanitized = all_calls input /\ all_results sanitized = all_results input /\
  well_paired sanitized /\
  forall m, last sanitized = Some m -> isAssistantPrefillMessage m = false.
Proof.
  intros Hw sanitized. subst sanitized. unfold sanitizeProviderMessages. cbv zeta.
  set (keep := fun m => negb (isAssistantPlaceholderMessage m)).
  assert (Hk : forall m, keep m = false -> bystander m).
  { intros m Hm. apply placeholder_bystander. subst keep. by apply negb_false_iff in Hm. }
  destruct (filter_same_calls keep input Hk) as [F1 F2].
  pose proof (filter_well_paired keep input Hk Hw) as Fw. set (l1 := List.filter keep input) in *.
  destruct (merge_all_well_paired l1 [] Fw) as (Mw & M1 & M2). fold (mergeAdjacentAssistantToolCallMessages l1) in *.
  set (l2 := mergeAdjacentAssistantToolCallMessages l1) in *. rewrite (trim_renumbers l2 Mw).
  destruct (renumber_well_paired l2 Mw) as (Rw & R1 & R2). set (l3 := map renumber l2) in *.
  destruct (trim_prefill_spec (rev l3)) as (T0 & T1 & T2 & T3); [by rewrite rev_involutive|].
  rewrite rev_involutive in T1, T2. cbn [app] in M1, M2.
  split_and!; [congruence|congruence|exact T0|]. intros m Hm. apply T3.
  destruct (trim_prefill (rev l3)) as [|x l]; [done|]. cbn [rev] in Hm. by rewrite last_snoc in Hm.
Qed.

(** ** Witness *)

Module Demo.
Definition call (id : string) : Message :=
  text_message "assistant" EmptyString <| ToolCalls := [mkCall id 0 "function" "Read" "{}" EmptyString EmptyString EmptyString] |>.
Definition result (id : string) : Message := text_message "tool" "text" <| MsgToolCallID := id |>.

Definition prompt : list Message :=
  [text_message "user" "read both"; text_message "assistant" "first"; call "a"; text_message "assistant" EmptyString;
   result "a"; call "b"; result "b"; text_message "assistant" "so"].

Example prompt_sanitized :
  map (fun m => (MsgRole m, MsgContent m, map CallID (ToolCalls m), MsgToolCallID m)) (sanitizeProviderMessages prompt) =
  [("user", "read both", [], EmptyString); ("assistant", "first", ["a"], EmptyString); ("tool", "text", [], "a");
   ("assistant", EmptyString, ["b"], EmptyString); ("tool", "text", [], "b")].
Proof. vm_compute. reflexivity. Qed.

(** The demonstration prompt pairs up: the trimming of the projector finds nothing to drop. *)
Lemma prompt_paired : well_paired prompt.
Proof.
  assert (E : prompt = trimReplayDanglingAssistantToolCalls prompt) by (vm_compute; reflexivity).
  rewrite E. apply trim_well_paired; apply (bool_decide_unpack _); vm_compute; exact I.
Qed.
End Demo.

Lemma sanitize_keeps_pairs_witness :
  all_calls (sanitizeProviderMessages Demo.prompt) = all_calls Demo.prompt /\
  all_results (sanitizeProviderMessages Demo.prompt) = all_results Demo.prompt /\
  well_paired (sanitizeProviderMessages Demo.prompt) /\
  forall m, last (sanitizeProviderMessages Demo.prompt) = Some m -> isAssistantPrefillMessage m = false.
Proof. exact (sanitize_keeps_pairs Demo.prompt Demo.prompt_paired). Defined.
