(* ===== verification/Tokens.v ===== *)
(** * Token estimates (forwarder/token_estimator.go).

    The forwarder estimates a prompt from its characters, four to a token, to decide when a
    conversation is compacted, and shows the client a breakdown of the prompt by category.
    Sizes are lengths of texts in memory, so that sums of them fit 64 bits; the one product,
    in [fitSpecialEstimates], wraps around. *)

From stdpp Require Import sorting.
From S2P Require Import Prelude Go Strings Utf8 Modes Messages.

(** ** Runes and substrings *)

(** The bytes of the first rune of a text: a byte that starts no valid encoding is one rune. *)
Definition rune_size (s : bytes) : nat :=
  match s with
  | [] => 0
  | c :: s1 =>
      match lead_kind c, s1 with
      | Lead2, c2 :: _ => if continuation c2 then 2 else 1
      | Lead3 lo hi, c2 :: c3 :: _ => if in_range lo hi c2 && continuation c3 then 3 else 1
      | Lead4 lo hi, c2 :: c3 :: c4 :: _ =>
          if in_range lo hi c2 && continuation c3 && continuation c4 then 4 else 1
      | _, _ => 1
      end
  end.

Fixpoint rune_count_fuel (fuel : nat) (s : bytes) : nat :=
  match fuel, s with
  | O, _ | _, [] => 0
  | S fuel, _ => S (rune_count_fuel fuel (drop (rune_size s) s))
  end.

(** [utf8.RuneCountInString] *)
Definition RuneCount (s : bytes) : nat := rune_count_fuel (length s) s.

Definition ContainsText (s sub : bytes) : bool :=
  match Index s sub with Some _ => true | None => false end.

(** ** The estimate of a prompt *)

Record CompiledConversation := mkCompiled {
  CompiledMessages : list Message;
  CompiledTools : list string
}.

Definition estimatedTokensPerMessageOverhead : Z := 8.
Definition estimatedTokensPerToolCallOverhead : Z := 6.
Definition estimatedTokensPerImagePart : Z := 1024.

Definition runes (s : string) : Z := Z.of_nat (RuneCount (bytes_of s)).
Definition newlines (s : string) : Z := Z.of_nat (Count (bytes_of s) [LF]).

Definition estimateTextTokens (text : string) : Z :=
  let trimmed := TrimSpace text in
  if decide (trimmed = EmptyString) then 0
  else
    let runeCount := runes trimmed in
    if runeCount <=? 0 then 0
    else
      let estimated := (runeCount + 3) / 4 + newlines trimmed in
      if estimated <? 1 then 1 else estimated.

Definition estimateImageTokens (image : option ImageContent) : Z :=
  estimatedTokensPerImagePart +
  match image with
  | Some image => estimateTextTokens (MIMEType image) + estimateTextTokens (ImagePath image)
  | None => 0
  end.

Definition estimateModelContentPartsTokens (content : string) (parts : list ContentPart) : Z :=
  sum (map (fun part =>
      let type := TrimSpace (ToLower (PartType part)) in
      if decide (type ∈ [EmptyString; "text"]) then
        if decide (TrimSpace content = EmptyString) then estimateTextTokens (PartText part) else 0
      else if decide (type = "image") then estimateImageTokens (PartImage part)
      else 0) parts).

Definition estimateToolCallTokens (call : ToolCallDescriptor) : Z :=
  estimatedTokensPerToolCallOverhead + estimateTextTokens (CallID call) +
  estimateTextTokens (CallType call) + estimateTextTokens (FunctionName call) +
  estimateTextTokens (FunctionArguments call).

Definition estimateModelMessageTokens (item : Message) : Z :=
  estimatedTokensPerMessageOverhead + estimateTextTokens (MsgRole item) +
  estimateTextTokens (MsgContent item) +
  estimateModelContentPartsTokens (MsgContent item) (ContentParts item) +
  estimateTextTokens (ReasoningContent item) + estimateTextTokens (ReasoningSignature item) +
  estimateTextTokens (MsgToolCallID item) + estimateTextTokens (MsgName item) +
  sum (map estimateToolCallTokens (ToolCalls item)).

Definition estimateModelMessagesTokens (messages : list Message) : Z :=
  sum (map estimateModelMessageTokens messages).

Definition estimateToolDescriptorsTokens (tools : list string) : Z := sum (map estimateTextTokens tools).

Definition estimateCompiledPromptTokens (compiled : CompiledConversation) : Z :=
  estimateModelMessagesTokens (CompiledMessages compiled) +
  estimateToolDescriptorsTokens (CompiledTools compiled).

(** ** The breakdown: categories and measures *)

Inductive Category :=
| breakdownCatSystemPrompt
| breakdownCatTools
| breakdownCatRules
| breakdownCatSkills
| breakdownCatMCP
| breakdownCatSubagents
| breakdownCatSummary
| breakdownCatConversation.

#[export] Instance category_eq_dec : EqDecision Category.
Proof. solve_decision. Defined.

(** The categories before the conversation, in their order, and all of them. *)
Definition specials : list Category :=
  [breakdownCatSystemPrompt; breakdownCatTools; breakdownCatRules; breakdownCatSkills;
   breakdownCatMCP; breakdownCatSubagents; breakdownCatSummary].

Definition categories : list Category := specials ++ [breakdownCatConversation].

Definition category_id (c : Category) : string :=
  match c with
  | breakdownCatSystemPrompt => "system_prompt"
  | breakdownCatTools => "tools"
  | breakdownCatRules => "rules"
  | breakdownCatSkills => "skills"
  | breakdownCatMCP => "mcp"
  | breakdownCatSubagents => "subagents"
  | breakdownCatSummary => "summarized_conversation"
  | breakdownCatConversation => "conversation"
  end.

Record breakdownMeasure := mkMeasure { characters : Z; newline_count : Z; overheadTokens : Z }.

Definition no_measure : breakdownMeasure := mkMeasure 0 0 0.

Definition measure_add (text : string) (m : breakdownMeasure) : breakdownMeasure :=
  let trimmed := TrimSpace text in
  if decide (trimmed = EmptyString) then m
  else mkMeasure (characters m + runes trimmed) (newline_count m + newlines trimmed) (overheadTokens m).

Definition addOverhead (tokens : Z) (m : breakdownMeasure) : breakdownMeasure :=
  mkMeasure (characters m) (newline_count m) (overheadTokens m + tokens).

Definition estimatedTokens (m : breakdownMeasure) : Z :=
  if (characters m =? 0) && (overheadTokens m =? 0) then 0
  else
    (if 0 <? characters m
     then Z.max 1 ((characters m + 3) / 4 + newline_count m)
     else 0) + overheadTokens m.

(** The arrays indexed by category. *)
Definition put {A} (c : Category) (x : A) (f : Category -> A) : Category -> A :=
  fun d => if decide (d = c) then x else f d.

Record Measures := mkMeasures {
  measures : Category -> breakdownMeasure;
  measuredStatic : Category -> bool
}.

Definition measure_in (c : Category) (f : breakdownMeasure -> breakdownMeasure) (m : Measures) : Measures :=
  mkMeasures (put c (f (measures m c)) (measures m)) (measuredStatic m).

(** ** Tagged sections of a text *)

Record breakdownTagRange := mkRange { start : nat; end_ : nat; category : Category }.

Fixpoint collect_ranges (fuel : nat) (text opening closing : bytes) (category : Category) (cursor : nat)
  : list breakdownTagRange :=
  match fuel with
  | O => []
  | S fuel =>
      match Index (drop cursor text) opening with
      | None => []
      | Some relativeStart =>
          let start := (cursor + relativeStart)%nat in
          match Index (drop start text) [">"%char] with
          | None => []
          | Some openEndRel =>
              let openEnd := (start + openEndRel + 1)%nat in
              match Index (drop openEnd text) closing with
              | None => []
              | Some relativeEnd =>
                  let end_ := (openEnd + relativeEnd + length closing)%nat in
                  mkRange start end_ category ::
                  collect_ranges fuel text opening closing category end_
              end
          end
      end
  end.

Definition collectTagRanges (text : bytes) (tag : string) (category : Category) : list breakdownTagRange :=
  collect_ranges (S (length text)) text ("<"%char :: bytes_of tag)
    ("<"%char :: "/"%char :: bytes_of tag ++ [">"%char]) category 0.

Definition collect_tags (text : bytes) (tags : list string) (category : Category)
  : list breakdownTagRange :=
  List.flat_map (fun tag => collectTagRanges text tag category) tags.

Definition system_ranges (text : bytes) : list breakdownTagRange :=
  collect_tags text ["shared_user_rules"; "rules"; "rule"; "user_rules"; "always_applied_workspace_rules";
    "agent_requestable_workspace_rules"; "cursor_rules_context"] breakdownCatRules.

Definition runtime_ranges (text : bytes) : list breakdownTagRange :=
  collect_tags text ["shared_user_rules"; "rules"; "rule"; "user_rule"; "user_rules";
    "always_applied_workspace_rules"; "agent_requestable_workspace_rules"; "cursor_rules_context"]
    breakdownCatRules ++
  collect_tags text ["agent_skills"; "available_skills"; "skill"] breakdownCatSkills ++
  collect_tags text ["subagents"] breakdownCatSubagents ++
  collect_tags text ["mcp_meta_tools"; "mcp_instructions"; "mcp_file_system";
    "mcp_file_system_servers"; "mcp_descriptors"] breakdownCatMCP ++
  collect_tags text ["conversation_summary"; "summary_of_previous_conversation"] breakdownCatSummary.

(** [text[i:j]] *)
Definition slice (i j : nat) (text : bytes) : bytes := drop i (take j text).

(** The pieces a text is measured in: a range that starts inside an earlier one is skipped,
    what lies between the ranges belongs to [outside]. *)
Fixpoint pieces (outside : Category) (text : bytes) (cursor : nat) (ranges : list breakdownTagRange)
  : list (bool * Category * bytes) :=
  match ranges with
  | [] => [(false, outside, drop cursor text)]
  | r :: ranges =>
      if (start r <? cursor)%nat then pieces outside text cursor ranges
      else (false, outside, slice cursor (start r) text) ::
           (true, category r, slice (start r) (end_ r) text) ::
           pieces outside text (end_ r) ranges
  end.

Definition static_category (c : Category) : bool :=
  bool_decide (c ∈ [breakdownCatRules; breakdownCatSkills; breakdownCatSubagents; breakdownCatMCP]).

(** A tagged section of a runtime text is counted once per prompt when its category is static. *)
Definition measure_runtime_piece (m : Measures) (piece : bool * Category * bytes) : Measures :=
  let '(tagged, c, chunk) := piece in
  let added := measure_in c (measure_add (string_of chunk)) m in
  if tagged && static_category c then
    if measuredStatic m c then m else mkMeasures (measures added) (put c true (measuredStatic m))
  else added.

Definition measure_system_piece (m : Measures) (piece : bool * Category * bytes) : Measures :=
  let '(_, c, chunk) := piece in measure_in c (measure_add (string_of chunk)) m.

(** ** The breakdown of a prompt *)

(** [sort.Slice] by an integer key: the result is a permutation in the order of the keys; which
    one, when keys are equal, is not said. *)
Class SortSlice := {
  sort_Slice : forall {A}, (A -> Z) -> list A -> list A;
  sort_permutes : forall {A} (key : A -> Z) l, sort_Slice key l ≡ₚ l;
  sort_orders : forall {A} (key : A -> Z) l, StronglySorted (fun x y => key x <= key y) (sort_Slice key l)
}.

Section Breakdown.
Context {SS : SortSlice}.

Definition sort_ranges (ranges : list breakdownTagRange) : list breakdownTagRange :=
  sort_Slice (fun r => Z.of_nat (start r)) ranges.

Definition measureSystemPrompt (text : string) (m : Measures) : Measures :=
  fold_left measure_system_piece
    (pieces breakdownCatSystemPrompt (bytes_of text) 0 (sort_ranges (system_ranges (bytes_of text)))) m.

Definition measureRuntimeText (text : string) (m : Measures) : Measures :=
  fold_left measure_runtime_piece
    (pieces breakdownCatConversation (bytes_of text) 0 (sort_ranges (runtime_ranges (bytes_of text)))) m.

Definition in_conversation (f : breakdownMeasure -> breakdownMeasure) : Measures -> Measures :=
  measure_in breakdownCatConversation f.

Definition measure_part (m : Measures) (part : ContentPart) : Measures :=
  let type := TrimSpace (ToLower (PartType part)) in
  if decide (type ∈ [EmptyString; "text"]) then measureRuntimeText (PartText part) m
  else if decide (type = "image") then
    let m := in_conversation (addOverhead estimatedTokensPerImagePart) m in
    match PartImage part with
    | Some image => in_conversation (measure_add (ImagePath image))
                      (in_conversation (measure_add (MIMEType image)) m)
    | None => m
    end
  else m.

Definition measure_call (m : Measures) (call : ToolCallDescriptor) : Measures :=
  fold_left (fun m text => in_conversation (measure_add text) m)
    [CallID call; CallType call; FunctionName call; FunctionArguments call] m.

Definition measureBreakdownMessage (m : Measures) (message : Message) : Measures :=
  let m := in_conversation (addOverhead estimatedTokensPerMessageOverhead) m in
  if decide (TrimSpace (MsgRole message) = "system") then measureSystemPrompt (MsgContent message) m
  else
    let m :=
      if decide (ContentParts message <> []) then fold_left measure_part (ContentParts message) m
      else if decide (MsgContent message <> EmptyString) then measureRuntimeText (MsgContent message) m
      else m in
    let m := if decide (ReasoningContent message <> EmptyString)
             then in_conversation (measure_add (ReasoningContent message)) m else m in
    if decide (ToolCalls message <> []) then
      fold_left measure_call (ToolCalls message)
        (in_conversation (addOverhead (Z.of_nat (length (ToolCalls message)) *
                                       estimatedTokensPerToolCallOverhead)) m)
    else m.

(** The double quote. *)
Definition quote : ascii := byte_of 34.

Definition isMcpToolJSON (raw : string) : bool :=
  let lower := bytes_of (ToLower raw) in
  existsb (fun pattern => ContainsText lower pattern)
    [quote :: bytes_of "mcp_"; quote :: bytes_of "call_mcp_tool" ++ [quote];
     bytes_of "mcp-server"; bytes_of "mcp_registry";
     quote :: bytes_of "read_mcp_resource" ++ [quote];
     quote :: bytes_of "list_mcp_resources" ++ [quote]].

(** ** Fitting the estimates to what was used *)

(** The scaled estimates, rounded down, and what rounding lost of each. *)
Definition scale (total specialTotal estimate : Z) : Z * Z :=
  let product := wrap_int64 (estimate * total) in
  (Z.quot product specialTotal, Z.rem product specialTotal).

(** The first [remainder] categories of the order get one token more. *)
Fixpoint hand_out (remainder : Z) (orders : list (Category * Z)) (estimates : Category -> Z)
  : Category -> Z :=
  match orders with
  | [] => estimates
  | (c, _) :: orders =>
      if remainder <=? 0 then estimates
      else hand_out (remainder - 1) orders (put c (estimates c + 1) estimates)
  end.

Definition special_sum (estimates : Category -> Z) : Z := sum (map estimates specials).

Definition fitSpecialEstimates (estimates : Category -> Z) (total : Z) : Category -> Z :=
  let specialTotal := special_sum estimates in
  if (specialTotal <=? total) || (specialTotal =? 0) then estimates
  else
    let scaled := fun c => if decide (c ∈ specials) then (scale total specialTotal (estimates c)).1
                           else estimates c in
    let orders := sort_Slice (fun o : Category * Z => - o.2)
      (map (fun c => (c, (scale total specialTotal (estimates c)).2)) specials) in
    hand_out (total - special_sum scaled) orders scaled.

Definition clampInt64ToUint32 (value : Z) : Z :=
  if value <=? 0 then 0 else if max_uint32 <? value then max_uint32 else value.

Definition clampInt64ToInt32 (value : Z) : Z :=
  if value <=? 0 then 0 else if 2 ^ 31 - 1 <? value then 2 ^ 31 - 1 else value.

Record PromptTokenBreakdownCategory := mkCategory {
  BreakdownId : string;
  EstimatedTokens : Z;
  CharacterCount : option Z
}.

Record PromptTokenBreakdownSnapshot := mkSnapshot {
  TotalUsedTokens : Z;
  MaxTokens : Z;
  Categories : list PromptTokenBreakdownCategory
}.

Definition measure_compiled (compiled : CompiledConversation) : Measures :=
  let tools := fold_left (fun m raw =>
      measure_in (if isMcpToolJSON raw then breakdownCatMCP else breakdownCatTools) (measure_add raw) m)
    (CompiledTools compiled) (mkMeasures (fun _ => no_measure) (fun _ => false)) in
  fold_left measureBreakdownMessage (reverse (CompiledMessages compiled)) tools.

(** Whether the breakdown lists a category. *)
Definition listed (m : Measures) (estimates : Category -> Z) (c : Category) : bool :=
  negb ((estimates c <=? 0) &&
        negb (bool_decide (c ∈ [breakdownCatConversation; breakdownCatSystemPrompt; breakdownCatTools])) &&
        (characters (measures m c) =? 0) && (overheadTokens (measures m c) =? 0)).

Definition category_entry (m : Measures) (estimates : Category -> Z) (c : Category)
  : PromptTokenBreakdownCategory :=
  mkCategory (category_id c) (clampInt64ToUint32 (estimates c))
    (if 0 <? characters (measures m c) then Some (clampInt64ToUint32 (characters (measures m c))) else None).

Definition final_estimates (estimates : Category -> Z) (effectiveUsedTokens : Z) : Category -> Z :=
  if 0 <? effectiveUsedTokens then
    let estimates := fitSpecialEstimates estimates effectiveUsedTokens in
    let specialSum := special_sum estimates in
    put breakdownCatConversation
      (if specialSum <=? effectiveUsedTokens then effectiveUsedTokens - specialSum else 0) estimates
  else estimates.

Definition estimateCheckpointPromptTokenBreakdown (compiled : option CompiledConversation)
    (usedTokens maxTokens : Z) : option PromptTokenBreakdownSnapshot :=
  if maxTokens =? 0 then None
  else
    let m := match compiled with
             | Some compiled => measure_compiled compiled
             | None => mkMeasures (fun _ => no_measure) (fun _ => false)
             end in
    let estimates := fun c => estimatedTokens (measures m c) in
    let localTotal := sum (map estimates categories) in
    let effectiveUsedTokens := if usedTokens <=? 0 then localTotal else usedTokens in
    let estimates := final_estimates estimates effectiveUsedTokens in
    let entries := map (category_entry m estimates) (List.filter (listed m estimates) categories) in
    let categorySum := sum (map EstimatedTokens entries) in
    let finalUsedTokens := if effectiveUsedTokens <? categorySum then categorySum else effectiveUsedTokens in
    let finalUsedTokens := if finalUsedTokens <=? 0 then 1 else finalUsedTokens in
    Some (mkSnapshot (clampInt64ToUint32 finalUsedTokens) maxTokens entries).
End Breakdown.

(** ** Handing out what rounding lost *)

Lemma hand_out_spec n orders est : NoDup (map fst orders) -> forall c,
  hand_out n orders est c =
  est c + (if decide (c ∈ take (Z.to_nat n) (map fst orders)) then 1 else 0).
Proof.
  revert n est. induction orders as [|[d f] orders IH]; intros n est Hnd c; simpl.
  - rewrite take_nil. try (case_decide as Hin; [by apply elem_of_nil in Hin|]); lia.
  - inversion Hnd as [|? ? Hd Hnd']; subst. destruct (Z.leb_spec n 0) as [Hn|Hn].
    + replace (Z.to_nat n) with 0%nat by lia. simpl.
      try (case_decide as Hin; [by apply elem_of_nil in Hin|]); lia.
    + rewrite IH by done. replace (Z.to_nat n) with (S (Z.to_nat (n - 1))) by lia. simpl. unfold put.
      assert (Hsub : c ∈ take (Z.to_nat (n - 1)) (map fst orders) -> c <> d)
        by (intros Hin ->; by apply Hd, (subseteq_take _ _ _ Hin)).
      assert (Hcons : c ∈ d :: take (Z.to_nat (n - 1)) (map fst orders) <->
                      c = d \/ c ∈ take (Z.to_nat (n - 1)) (map fst orders)) by apply elem_of_cons.
      assert (Hest : c = d -> est d = est c) by (by intros ->).
      repeat case_decide; try (rewrite ?Hest by done; lia); exfalso; tauto.
Qed.

Lemma hand_out_sum n orders est cats : NoDup (map fst orders) -> map fst orders ≡ₚ cats ->
  0 <= n <= Z.of_nat (length orders) ->
  sum (map (hand_out n orders est) cats) = sum (map est cats) + n.
Proof.
  intros Hnd Hp Hn. rewrite <- (sum_permuted _ _ (Permutation_map (hand_out n orders est) Hp)).
  rewrite <- (sum_permuted _ _ (Permutation_map est Hp)). clear Hp cats.
  revert n est Hn. induction orders as [|[c f] orders IH]; intros n est Hn; simpl in *; [lia|].
  inversion Hnd as [|? ? Hd Hnd']; subst.
  assert (Hrest : forall g : Category -> Z, sum (map (put c (est c + 1) g) (map fst orders)) =
                  sum (map g (map fst orders))).
  { intros g. apply sum_ext, Forall_forall. intros x Hx. unfold put. rewrite decide_False; [done|].
    intros ->. done. }
  destruct (Z.leb_spec n 0) as [H0|H0]; [lia|].
  rewrite IH by (done || lia). rewrite Hrest.
  rewrite hand_out_spec by done. unfold put. rewrite decide_True by done. rewrite decide_False; [lia|].
  intros Hin. by apply Hd, (subseteq_take _ _ _ Hin).
Qed.

Lemma sum_bounded l S : Forall (fun f => 0 <= f < S) l -> sum l <= Z.of_nat (length l) * (S - 1).
Proof. induction 1; simpl; nia. Qed.

(** Among the first of a list in descending order whose sum is large enough, none is zero. *)
Lemma descending_positive (S n : Z) (l : list Z) :
  Forall (fun f => 0 <= f < S) l -> StronglySorted (fun x y => y <= x) l -> 0 < S -> sum l = n * S ->
  n <= Z.of_nat (length l) /\ forall i f, l !! i = Some f -> Z.of_nat i < n -> 0 < f.
Proof.
  intros Hb Hs HS Hsum. split; [pose proof (sum_bounded _ _ Hb); nia|]. intros i f Hi Hin.
  rewrite <- (take_drop_middle _ _ _ Hi) in Hb, Hs, Hsum.
  apply Forall_app in Hb as [Hb1 Hb2]. apply StronglySorted_app in Hs as (_ & _ & Hs).
  inversion Hb2 as [|? ? Hf Hb3]; subst. inversion Hs as [|? ? _ Hle]; subst.
  destruct (Z.eq_dec f 0) as [->|]; [|lia]. exfalso.
  assert (Hz : sum (drop (Datatypes.S i) l) <= 0).
  { clear -Hle. induction Hle; simpl; lia. }
  rewrite sum_app in Hsum. simpl in Hsum. apply sum_bounded in Hb1.
  rewrite length_take in Hb1. nia.
Qed.


Section Fit.
Context {SS : SortSlice}.

Lemma fit_facts estimates total :
  Forall (fun c => 0 <= estimates c < 2 ^ 31) specials -> 0 <= total <= max_uint32 ->
  special_sum (fitSpecialEstimates estimates total) = Z.min (special_sum estimates) total /\
  forall c, c ∈ specials -> 0 <= fitSpecialEstimates estimates total c <= estimates c.
Proof.
  intros Hb Ht. unfold fitSpecialEstimates.
  remember (special_sum estimates) as S eqn:ES.
  rewrite Forall_forall in Hb.
  assert (HS : 0 <= S) by (rewrite ES; apply sum_map_nonneg; intros c Hc; specialize (Hb c Hc); lia).
  destruct (Z.leb_spec S total) as [Hle|Hgt]; cbn [orb].
  { split; [lia|]. intros c Hc. specialize (Hb c Hc). lia. }
  destruct (Z.eqb_spec S 0); [lia|].
  set (q := fun c => (scale total S (estimates c)).1). set (f := fun c => (scale total S (estimates c)).2).
  assert (Hscale : forall c, c ∈ specials ->
    estimates c * total = S * q c + f c /\ 0 <= f c < S /\ 0 <= q c).
  { intros c Hc. specialize (Hb c Hc). subst q f. unfold scale. cbn.
    rewrite wrap_int64_id by (unfold is_int64, max_int64, max_uint32 in *; nia).
    assert (0 <= estimates c * total) by nia.
    split; [apply Z.quot_rem'|]. split; [apply Z.rem_bound_pos; lia|apply Z.quot_pos; lia]. }
  set (scaled := fun c => if decide (c ∈ specials) then q c else estimates c).
  set (orders := sort_Slice _ _). set (r := total - special_sum scaled).
  change (special_sum (hand_out r orders scaled) = Z.min S total /\
          forall c, c ∈ specials -> 0 <= hand_out r orders scaled c <= estimates c).
  assert (Hperm : orders ≡ₚ map (fun c => (c, f c)) specials) by apply sort_permutes.
  assert (Hfst : map fst orders ≡ₚ specials) by (rewrite Hperm; done).
  assert (Hnd : NoDup (map fst orders)) by (rewrite Hfst; apply (bool_decide_unpack _); vm_compute; exact I).
  assert (Hq : special_sum scaled = sum (map q specials)).
  { apply sum_ext, Forall_forall. intros c Hc. subst scaled. simpl. by rewrite decide_True. }
  assert (Hr : sum (map snd orders) = r * S).
  { rewrite (sum_permuted _ _ (Permutation_map snd Hperm)), map_map.
    change (sum (map f specials) = r * S). subst r. rewrite Hq. transitivity (total * S - S * sum (map q specials)); [|lia].
    replace (sum (map f specials)) with (sum (map (fun c => total * estimates c + - (S * q c)) specials)).
    2:{ apply sum_ext, Forall_forall. intros c Hc. destruct (Hscale c Hc) as (Hd & _). simpl. lia. }
    rewrite (sum_linear estimates (fun c => - (S * q c)) total specials). fold (special_sum estimates). rewrite <- ES.
    replace (sum (map (fun c => - (S * q c)) specials)) with (sum (map (fun c => - S * q c + 0) specials)).
    2:{ apply sum_ext, Forall_forall. intros c _. lia. }
    rewrite (sum_linear q (fun _ => 0) (- S) specials). replace (sum (map (fun _ : Category => 0) specials)) with 0 by done. lia. }
  assert (Hfb : Forall (fun f => 0 <= f < S) (map snd orders)).
  { rewrite (Permutation_map snd Hperm), map_map. apply Forall_map, Forall_forall. intros c Hc. simpl.
    by destruct (Hscale c Hc) as (_ & H & _). }
  assert (Hdesc : StronglySorted (fun x y => y <= x) (map snd orders)).
  { pose proof (sort_orders (fun o : Category * Z => - o.2)
      (map (fun c => (c, (scale total S (estimates c)).2)) specials)) as Hs. fold orders in Hs.
    clear -Hs. induction Hs as [|o l _ IH Hall]; simpl; constructor; [done|].
    apply Forall_map. eapply Forall_impl; [exact Hall|simpl; lia]. }
  destruct (descending_positive S r (map snd orders)) as [Hlen Hpos]; try done; [lia|].
  rewrite length_map in Hlen.
  assert (Hr0 : 0 <= r).
  { assert (0 <= sum (map snd orders)); [|nia]. apply sum_nonneg. eapply Forall_impl; [exact Hfb|cbn; lia]. }
  split.
  - unfold special_sum. rewrite hand_out_sum by done. fold (special_sum scaled). subst r. lia.
  - intros c Hc. rewrite hand_out_spec by done.
    replace (scaled c) with (q c) by (subst scaled; simpl; by rewrite decide_True).
    destruct (Hscale c Hc) as (Hd & Hf & Hq0). specialize (Hb c Hc).
    assert (Hle : estimates c * total <= S * estimates c) by nia.
    destruct (decide _) as [Hin|Hin].
    2:{ split; [lia|]. rewrite Z.add_0_r. apply (Z.mul_le_mono_pos_l _ _ S); lia. }
    split; [lia|]. assert (0 < f c).
    2:{ rewrite Z.add_1_r. apply Z.le_succ_l, (Z.mul_lt_mono_pos_l S); lia. }
    apply elem_of_take in Hin as (i & Hi & Hlt). rewrite list_lookup_fmap in Hi.
    destruct (orders !! i) as [[d g]|] eqn:Ei; simplify_eq/=.
    assert (Hg : (c, g) ∈ map (fun c => (c, f c)) specials)
      by (rewrite <- Hperm; by apply list_elem_of_lookup_2 in Ei).
    apply list_elem_of_fmap in Hg as (x & Hx & _). simplify_eq. eapply (Hpos i); [|lia].
    by rewrite list_lookup_fmap, Ei.
Qed.

(** ** Measures are not negative *)

Definition measure_ok (m : breakdownMeasure) : Prop :=
  0 <= characters m /\ 0 <= newline_count m /\ 0 <= overheadTokens m.

Definition measures_ok (m : Measures) : Prop := forall c, measure_ok (measures m c).

Lemma measure_add_ok text m : measure_ok m -> measure_ok (measure_add text m).
Proof.
  unfold measure_ok, measure_add, runes, newlines. intros (? & ? & ?).
  case_decide; [done|]. cbn. lia.
Qed.

Lemma addOverhead_ok tokens m : 0 <= tokens -> measure_ok m -> measure_ok (addOverhead tokens m).
Proof. unfold measure_ok. intros ? (? & ? & ?). cbn. lia. Qed.

Lemma measure_in_ok c f m : (forall x, measure_ok x -> measure_ok (f x)) -> measures_ok m ->
  measures_ok (measure_in c f m).
Proof. intros Hf Hm d. cbn. unfold put. case_decide; [|done]. apply Hf, Hm. Qed.

Lemma fold_ok {A} (f : Measures -> A -> Measures) l m :
  (forall m x, measures_ok m -> measures_ok (f m x)) -> measures_ok m -> measures_ok (fold_left f l m).
Proof. intros Hf. revert m. induction l as [|x l IH]; intros m Hm; simpl; [done|]. by apply IH, Hf. Qed.

Create HintDb measures.
#[local] Hint Resolve measure_add_ok addOverhead_ok measure_in_ok fold_ok : measures.

Lemma system_text_ok text m : measures_ok m -> measures_ok (measureSystemPrompt text m).
Proof. intros Hm. apply fold_ok; [|done]. intros m' [[b c] chunk] Hm'. simpl. eauto with measures. Qed.

Lemma runtime_text_ok text m : measures_ok m -> measures_ok (measureRuntimeText text m).
Proof.
  intros Hm. apply fold_ok; [|done]. intros m' [[b c] chunk] Hm'. unfold measure_runtime_piece.
  assert (Ha : measures_ok (measure_in c (measure_add (string_of chunk)) m')) by eauto with measures.
  destruct (b && static_category c); [|done]. by destruct (measuredStatic m' c).
Qed.

#[local] Hint Resolve system_text_ok runtime_text_ok : measures.

Lemma part_ok m part : measures_ok m -> measures_ok (measure_part m part).
Proof.
  intros Hm. unfold measure_part. case_decide; [by apply runtime_text_ok|]. case_decide; [|done].
  assert (Ho : measures_ok (in_conversation (addOverhead estimatedTokensPerImagePart) m))
    by (apply measure_in_ok; [intros; by apply addOverhead_ok|done]).
  destruct (PartImage part); [|done]. unfold in_conversation. eauto with measures.
Qed.

Lemma call_ok m call : measures_ok m -> measures_ok (measure_call m call).
Proof. intros Hm. apply fold_ok; [|done]. unfold in_conversation. eauto with measures. Qed.

#[local] Hint Resolve part_ok call_ok : measures.

Lemma message_ok m message : measures_ok m -> measures_ok (measureBreakdownMessage m message).
Proof.
  intros Hm. unfold measureBreakdownMessage. cbv zeta. unfold in_conversation.
  assert (Ho : measures_ok (measure_in breakdownCatConversation
    (addOverhead estimatedTokensPerMessageOverhead) m))
    by (apply measure_in_ok; [intros; by apply addOverhead_ok|done]).
  case_decide; [by apply system_text_ok|].
  set (m1 := if decide (ContentParts message <> []) then _ else _).
  assert (H1 : measures_ok m1) by (subst m1; repeat case_decide; eauto with measures).
  set (m2 := if decide (ReasoningContent message <> EmptyString) then _ else _).
  assert (H2 : measures_ok m2) by (subst m2; repeat case_decide; eauto with measures).
  destruct (decide (ToolCalls message <> [])); [|done]. apply fold_ok; [eauto with measures|].
  apply measure_in_ok; [|done]. intros x Hx. apply addOverhead_ok; [|done].
  unfold estimatedTokensPerToolCallOverhead. lia.
Qed.

Lemma compiled_ok compiled : measures_ok (measure_compiled compiled).
Proof.
  unfold measure_compiled. apply fold_ok; [intros; by apply message_ok|].
  apply fold_ok; [eauto with measures|]. intros c. unfold measure_ok. simpl. lia.
Qed.

Lemma estimatedTokens_nonneg m : measure_ok m -> 0 <= estimatedTokens m.
Proof.
  intros (H1 & H2 & H3). unfold estimatedTokens.
  destruct ((characters m =? 0) && (overheadTokens m =? 0)); [lia|].
  destruct (0 <? characters m); lia.
Qed.

(** ** The breakdown adds up *)

Definition measured (compiled : option CompiledConversation) : Measures :=
  match compiled with
  | Some compiled => measure_compiled compiled
  | None => mkMeasures (fun _ => no_measure) (fun _ => false)
  end.

Definition local_estimate (compiled : option CompiledConversation) (c : Category) : Z :=
  estimatedTokens (measures (measured compiled) c).

Lemma local_nonneg compiled c : 0 <= local_estimate compiled c.
Proof.
  apply estimatedTokens_nonneg. destruct compiled; [apply compiled_ok|]. unfold measure_ok. simpl. lia.
Qed.

Lemma sum_put (c : Category) x f l : c ∉ l -> sum (map (put c x f) l) = sum (map f l).
Proof.
  intros H. apply sum_ext, Forall_forall. intros d Hd. unfold put. rewrite decide_False; [done|].
  intros ->. done.
Qed.

Lemma sum_categories f : sum (map f categories) = special_sum f + f breakdownCatConversation.
Proof. unfold categories, special_sum. rewrite map_app, sum_app. simpl. lia. Qed.

Lemma sum_listed (m : Measures) estimates l : (forall c, c ∈ l -> 0 <= estimates c <= max_uint32) ->
  sum (map EstimatedTokens (map (category_entry m estimates) (List.filter (listed m estimates) l))) =
  sum (map estimates l).
Proof.
  induction l as [|c l IH]; intros H; [done|]. simpl.
  assert (Hc : 0 <= estimates c <= max_uint32) by (apply H; by left).
  assert (Hl : forall c, c ∈ l -> 0 <= estimates c <= max_uint32) by (intros d Hd; apply H; by right).
  destruct (listed m estimates c) eqn:El; simpl; rewrite IH by done.
  - unfold clampInt64ToUint32. destruct (Z.leb_spec (estimates c) 0); [lia|].
    by rewrite (proj2 (Z.ltb_ge max_uint32 (estimates c))) by lia.
  - unfold listed in El. apply negb_false_iff in El. repeat (apply andb_true_iff in El as [El ?]).
    apply Z.leb_le in El. lia.
Qed.

(** C36: the breakdown shown to the client adds up.  The tokens of the listed categories sum to
    the total it shows, which is the number of tokens the provider reported, or without a
    report the sum of the local estimates. *)
Theorem breakdown_adds_up compiled usedTokens maxTokens :
  let effective := if usedTokens <=? 0 then sum (map (local_estimate compiled) categories)
                   else usedTokens in
  maxTokens <> 0 -> 0 < effective <= max_uint32 ->
  Forall (fun c => local_estimate compiled c < 2 ^ 31) specials ->
  exists snapshot,
    estimateCheckpointPromptTokenBreakdown compiled usedTokens maxTokens = Some snapshot /\
    sum (map EstimatedTokens (Categories snapshot)) = TotalUsedTokens snapshot /\
    TotalUsedTokens snapshot = effective.
Proof.
  intros effective Hmax Heff Hb. unfold estimateCheckpointPromptTokenBreakdown.
  rewrite (proj2 (Z.eqb_neq maxTokens 0)) by done. fold (measured compiled). cbv zeta.
  change (fun c => estimatedTokens (measures (measured compiled) c)) with (local_estimate compiled).
  fold effective. eexists. split; [reflexivity|]. cbn [Categories TotalUsedTokens].
  assert (Hb' : Forall (fun c => 0 <= local_estimate compiled c < 2 ^ 31) specials)
    by (eapply Forall_impl; [exact Hb|]; intros c Hc; pose proof (local_nonneg compiled c); cbv beta in *; lia).
  destruct (fit_facts (local_estimate compiled) effective Hb' ltac:(lia)) as [Hs Hc].
  set (final := final_estimates (local_estimate compiled) effective).
  assert (Hfinal : final = put breakdownCatConversation
    (effective - special_sum (fitSpecialEstimates (local_estimate compiled) effective))
    (fitSpecialEstimates (local_estimate compiled) effective)).
  { subst final. unfold final_estimates. rewrite (proj2 (Z.ltb_lt 0 effective)) by lia.
    by rewrite (proj2 (Z.leb_le _ effective)) by lia. }
  assert (Hnot : breakdownCatConversation ∉ specials)
    by (intros H; apply (bool_decide_pack _) in H; vm_compute in H; done).
  assert (Hsum : sum (map final categories) = effective).
  { rewrite sum_categories, Hfinal. unfold special_sum at 1. rewrite sum_put by done.
    unfold put. rewrite decide_True by done. fold (special_sum (fitSpecialEstimates
      (local_estimate compiled) effective)). lia. }
  assert (Hrange : forall c, c ∈ categories -> 0 <= final c <= max_uint32).
  { assert (Hpos : forall c, c ∈ categories -> 0 <= final c).
    { intros c Hin. rewrite Hfinal. unfold put. case_decide as E; [|].
      - assert (0 <= special_sum (local_estimate compiled)) by
          (apply sum_map_nonneg; intros; apply local_nonneg). lia.
      - apply Hc. apply elem_of_app in Hin as [Hin|Hin]; [done|].
        by apply list_elem_of_singleton in Hin. }
    intros c Hin. split; [by apply Hpos|].
    transitivity effective; [|lia]. rewrite <- Hsum. apply sum_elem; [|done]. by apply Forall_forall. }
  rewrite sum_listed by done. rewrite Hsum, Z.ltb_irrefl.
  rewrite (proj2 (Z.leb_gt effective 0)) by lia. unfold clampInt64ToUint32.
  rewrite (proj2 (Z.leb_gt effective 0)), (proj2 (Z.ltb_ge max_uint32 effective)) by lia. done.
Qed.

(** ** Every byte is measured once *)

Definition range_ok (text : bytes) (r : breakdownTagRange) : Prop :=
  (start r <= end_ r <= length text)%nat.

Lemma collect_ok fuel text opening closing c cursor :
  Forall (range_ok text) (collect_ranges fuel text opening closing c cursor).
Proof.
  revert cursor. induction fuel as [|fuel IH]; intros cursor; cbn [collect_ranges]; [constructor|].
  destruct (Index (drop cursor text) opening) as [a|]; [|constructor]. cbv zeta.
  destruct (Index (drop (cursor + a) text) _) as [b|] eqn:Eb; [|constructor].
  destruct (Index (drop (cursor + a + b + 1) text) closing) as [d|] eqn:E; [|constructor].
  constructor; [|apply IH]. apply Index_bound in E, Eb. rewrite length_drop in E, Eb. simpl in Eb.
  unfold range_ok. simpl. lia.
Qed.

(** The loop stops before its fuel does: every range it finds moves the cursor. *)
Lemma collect_fuel fuel fuel' text opening closing c cursor : opening <> [] ->
  (length text < fuel + cursor)%nat -> (length text < fuel' + cursor)%nat ->
  collect_ranges fuel text opening closing c cursor = collect_ranges fuel' text opening closing c cursor.
Proof.
  intros Ho. revert fuel' cursor. induction fuel as [|fuel IH]; intros fuel' cursor H H'.
  - destruct fuel'; [done|]. cbn [collect_ranges].
    destruct (Index (drop cursor text) opening) as [a|] eqn:Ea; [|done]. exfalso.
    apply Index_bound in Ea. rewrite length_drop in Ea. destruct opening; [done|]. simpl in Ea. lia.
  - destruct fuel' as [|fuel']; cbn [collect_ranges].
    + destruct (Index (drop cursor text) opening) as [a|] eqn:Ea; [|done]. exfalso.
      apply Index_bound in Ea. rewrite length_drop in Ea. destruct opening; [done|]. simpl in Ea. lia.
    + destruct (Index (drop cursor text) opening) as [a|]; [|done]. cbv zeta.
      destruct (Index (drop (cursor + a) text) _) as [b|]; [|done].
      destruct (Index (drop (cursor + a + b + 1) text) closing) as [d|]; [|done].
      f_equal. apply IH; lia.
Qed.

Lemma tags_ok text tags c : Forall (range_ok text) (collect_tags text tags c).
Proof.
  unfold collect_tags. induction tags as [|tag tags IH]; [constructor|]. simpl.
  apply Forall_app. split; [apply collect_ok|done].
Qed.

Lemma pieces_concat outside text cursor ranges : (cursor <= length text)%nat ->
  Forall (range_ok text) ranges -> concat (map snd (pieces outside text cursor ranges)) = drop cursor text.
Proof.
  intros Hc Hr. revert cursor Hc. induction Hr as [|r ranges Hr _ IH]; intros cursor Hc; simpl.
  - by rewrite app_nil_r.
  - destruct (Nat.ltb_spec (start r) cursor) as [Hlt|Hge]; [by apply IH|]. simpl.
    destruct Hr as [H1 H2]. rewrite IH by done. unfold slice.
    rewrite app_assoc. rewrite <- (take_drop (end_ r) text) at 4.
    rewrite drop_app_le by (rewrite length_take; lia). f_equal.
    rewrite <- (take_drop (start r) (take (end_ r) text)) at 2.
    rewrite take_take, Nat.min_l by done. by rewrite drop_app_le by (rewrite length_take; lia).
Qed.

Lemma sorted_ok text ranges : Forall (range_ok text) ranges -> Forall (range_ok text) (sort_ranges ranges).
Proof. intros H. unfold sort_ranges. by rewrite sort_permutes. Qed.

(** no part of a text is measured twice or forgotten.  The pieces a system prompt or a
    runtime text is cut into, in their order, give the text back, however its tagged sections
    nest or overlap; and the search for sections has come to its end when its fuel is used. *)
Theorem text_measured_once text :
  concat (map snd (pieces breakdownCatSystemPrompt text 0 (sort_ranges (system_ranges text)))) = text /\
  concat (map snd (pieces breakdownCatConversation text 0 (sort_ranges (runtime_ranges text)))) = text /\
  forall tag c extra,
    collect_ranges (S (length text) + extra) text ("<"%char :: bytes_of tag)
      ("<"%char :: "/"%char :: bytes_of tag ++ [">"%char]) c 0 = collectTagRanges text tag c.
Proof.
  split_and!.
  - rewrite pieces_concat; [by rewrite drop_0|lia|]. apply sorted_ok, tags_ok.
  - rewrite pieces_concat; [by rewrite drop_0|lia|]. apply sorted_ok. unfold runtime_ranges.
    do 4 (apply Forall_app; split; [apply tags_ok|]). apply tags_ok.
  - intros tag c extra. apply collect_fuel; [done|lia..].
Qed.

(** the two estimators agree: the budget check and the breakdown give one text the same
    number of tokens. *)
Theorem text_estimates_agree text :
  estimatedTokens (measure_add text no_measure) = estimateTextTokens text.
Proof.
  unfold measure_add, estimateTextTokens. cbv zeta. destruct (decide (TrimSpace text = EmptyString)) as [|Hne];
    [done|]. unfold estimatedTokens. cbn [characters newline_count overheadTokens no_measure].
  assert (Hr : 0 < runes (TrimSpace text)).
  { unfold runes, RuneCount. destruct (TrimSpace text); [done|]. simpl. lia. }
  rewrite !Z.add_0_l. rewrite (proj2 (Z.eqb_neq _ 0)), (proj2 (Z.ltb_lt 0 _)) by lia. cbn [andb].
  rewrite (proj2 (Z.leb_gt _ 0)) by lia. rewrite Z.add_0_r.
  destruct (Z.ltb_spec ((runes (TrimSpace text) + 3) / 4 + newlines (TrimSpace text)) 1); lia.
Qed.
End Fit.

(** ** Examples and witnesses *)

Module Demo.

#[local] Instance sort_by_merge : SortSlice.
Proof.
  refine {| sort_Slice := fun A key l => merge_sort (fun x y => key x <= key y) l |}.
  - intros A key l. apply (merge_sort_Permutation (fun x y => key x <= key y)).
  - intros A key l.
    assert (Transitive (fun x y => key x <= key y)) by (intros x y z; lia).
    assert (Total (fun x y => key x <= key y)) by (intros x y; lia).
    apply (StronglySorted_merge_sort (fun x y => key x <= key y)).
Defined.

Definition prompt : option CompiledConversation :=
  Some (mkCompiled
    [text_message "system" "<rules>be brief</rules> You are an assistant";
     text_message "user" "<agent_skills>none</agent_skills> hello"] ["{}"]).

Example prompt_breakdown :
  (map (fun c => (BreakdownId c, EstimatedTokens c)) ∘ Categories <$>
     estimateCheckpointPromptTokenBreakdown prompt 8 1000) =
  Some [("system_prompt", 2); ("tools", 0); ("rules", 2); ("skills", 4); ("conversation", 0)].
Proof. vm_compute. reflexivity. Qed.

(** The opening of a tag is searched without its end: [<rule] is found in [<rules>], so that a
    section named by a prefix of another tag starts at the wrong one. *)
Example rule_found_in_rules :
  map (fun r => (start r, end_ r))
    (collectTagRanges (bytes_of "<rules>a</rules> chat <rule>b</rule>") "rule" breakdownCatRules) =
  [(0, 36)]%nat.
Proof. vm_compute. reflexivity. Qed.

End Demo.

Lemma breakdown_adds_up_witness :
  exists snapshot,
    estimateCheckpointPromptTokenBreakdown (SS := Demo.sort_by_merge) Demo.prompt 8 1000 = Some snapshot /\
    sum (map EstimatedTokens (Categories snapshot)) = TotalUsedTokens snapshot /\
    TotalUsedTokens snapshot = 8.
Proof.
  apply (breakdown_adds_up (SS := Demo.sort_by_merge) Demo.prompt 8 1000); [done|by vm_compute|].
  repeat constructor.
Defined.
