(* ===== verification/Anthropic.v ===== *)
(** * The messages of a request to Anthropic (agent/model/anthropic.go, content_parts.go).

    The prompt is a list of messages with calls and results of their own; Anthropic wants turns of
    content blocks, the results of the calls of an assistant turn in the user turn that follows.
    This file holds the translation, the relocation of images and the places where the request is
    marked for the prompt cache.

    A block is a JSON object in the code, here a constructor of [Block].  Parameters: SHA-256, the
    decoding of the arguments of a call, the file system, the detection of a content type, the file
    extension, base64 and the full [strings.ToLower]. *)

From S2P Require Import Prelude Go Strings ToolCallId Messages Tokens.

(** ** Data *)

Inductive Block (Value : Type) :=
| TextBlock (text : string)
| ImageBlock (media_type data : string)
| ThinkingBlock (thinking : string) (signature : option string)
| ToolUseBlock (id name : string) (input : Value)
| ToolResultBlock (tool_use_id : string) (content : string + list (Block Value)).

Arguments TextBlock {_}.
Arguments ImageBlock {_}.
Arguments ThinkingBlock {_}.
Arguments ToolUseBlock {_}.
Arguments ToolResultBlock {_}.

Record anthropicMessage (Value : Type) := mkTurn { TurnRole : string; Content : list (Block Value) }.

Arguments mkTurn {_}.
Arguments TurnRole {_}.
Arguments Content {_}.

Record anthropicThinkingCarrier := mkCarrier { carried_reasoning : string; carried_signature : string }.

Definition ReasoningSignatureSourceAnthropic : string := "anthropic".

Section Anthropic.
Context {Value : Type} (empty_object : Value) (Unmarshal : string -> result Value).
Context (sha256 : bytes -> bytes).
Context (ReadFile : string -> result bytes) (DetectContentType : bytes -> string) (Ext : string -> string)
  (LowerCase : string -> string) (Base64 : bytes -> string).

Notation Block := (Block Value).
Notation anthropicMessage := (anthropicMessage Value).

(** ** Content parts *)

Definition normalizeContentPartType (value : string) : string :=
  let trimmed := TrimSpace (LowerCase value) in
  if decide (trimmed = EmptyString) then "text" else trimmed.

Definition hasImageContentParts (parts : list ContentPart) : bool :=
  existsb (fun part => bool_decide (normalizeContentPartType (PartType part) = "image")) parts.

Definition collapseTextContentParts (parts : list ContentPart) : string :=
  String.concat EmptyString
    (map PartText (List.filter (fun part =>
       bool_decide (normalizeContentPartType (PartType part) = "text") &&
       negb (bool_decide (TrimSpace (PartText part) = EmptyString))) parts)).

Definition normalizeImageMIMEType (mimeType path : string) (payload : bytes) : string :=
  let trimmed := TrimSpace (LowerCase mimeType) in
  if decide (trimmed <> EmptyString) then trimmed
  else
    let detected := TrimSpace (LowerCase (DetectContentType payload)) in
    if decide (payload <> [] /\ is_Some (strip_prefix (bytes_of "image/") (bytes_of detected))) then detected
    else
      let ext := LowerCase (Ext (TrimSpace path)) in
      if decide (ext ∈ [".jpg"; ".jpeg"]) then "image/jpeg"
      else if decide (ext = ".gif") then "image/gif"
      else if decide (ext = ".webp") then "image/webp"
      else "image/png".

Definition resolveImageContent (image : option ImageContent) : result (bytes * string) :=
  match image with
  | None => Err "image content is required"
  | Some image =>
      let data := bytes_of (ImageData image) in
      if decide (data <> []) then Ok (data, normalizeImageMIMEType (MIMEType image) (ImagePath image) data)
      else
        let path := TrimSpace (ImagePath image) in
        if decide (path = EmptyString) then Err "image content is missing data and path"
        else match ReadFile path with
             | Err e => Err ("read image content failed: " +:+ e)
             | Ok payload => Ok (payload, normalizeImageMIMEType (MIMEType image) path payload)
             end
  end.

Fixpoint part_blocks (parts : list ContentPart) : result (list Block) :=
  match parts with
  | [] => Ok []
  | part :: parts =>
      let type := normalizeContentPartType (PartType part) in
      match (if decide (type = "text") then
               Ok (if decide (PartText part = EmptyString) then [] else [TextBlock (PartText part)])
             else if decide (type = "image") then
               match resolveImageContent (PartImage part) with
               | Err e => Err e
               | Ok (payload, mediaType) => Ok [ImageBlock mediaType (Base64 payload)]
               end
             else Err ("unsupported anthropic content part type: " +:+ TrimSpace (PartType part))) with
      | Err e => Err e
      | Ok blocks => match part_blocks parts with Err e => Err e | Ok rest => Ok (blocks ++ rest) end
      end
  end.

Definition anthropicContentBlocks (message : Message) : result (list Block) :=
  let text := if decide (TrimSpace (MsgContent message) = EmptyString) then []
              else [TextBlock (MsgContent message)] in
  if decide (ContentParts message = []) then Ok text
  else match part_blocks (ContentParts message) with
       | Err e => Err e
       | Ok [] => Ok text
       | Ok blocks => Ok blocks
       end.

(** ** Thinking *)

Definition anthropicThinkingSignature (message : Message) : string :=
  let signature := TrimSpace (ReasoningSignature message) in
  let source := TrimSpace (ReasoningSignatureSource message) in
  if decide (signature = EmptyString) then EmptyString
  else if decide (source = EmptyString \/ source = ReasoningSignatureSourceAnthropic) then signature
  else EmptyString.

Definition shouldIncludeAnthropicThinkingBlock (message : Message) (thinkingEnabled : bool) : bool :=
  thinkingEnabled && bool_decide (TrimSpace (MsgRole message) = "assistant").

Definition anthropicProviderContentBlocks (message : Message) (thinkingEnabled : bool)
    (carrier : option anthropicThinkingCarrier) : result (list Block) :=
  match anthropicContentBlocks message with
  | Err e => Err e
  | Ok blocks =>
      if negb (shouldIncludeAnthropicThinkingBlock message thinkingEnabled) then Ok blocks
      else
        let reasoning := TrimSpace (ReasoningContent message) in
        let '(reasoning, signature) :=
          match carrier with
          | Some carrier => if decide (reasoning = EmptyString)
                            then (carried_reasoning carrier, carried_signature carrier)
                            else (reasoning, anthropicThinkingSignature message)
          | None => (reasoning, anthropicThinkingSignature message)
          end in
        Ok (ThinkingBlock reasoning (if decide (signature = EmptyString) then None else Some signature) :: blocks)
  end.

(** ** Tool calls *)

Definition decodeAnthropicToolInput (arguments : string) : result Value :=
  let trimmed := TrimSpace arguments in
  if decide (trimmed = EmptyString) then Ok empty_object
  else match Unmarshal trimmed with
       | Err e => Err ("decode anthropic tool input failed: " +:+ e)
       | Ok value => Ok value
       end.

Definition provider_id (toolCallID : string) : string := string_of (providerToolCallID sha256 (bytes_of toolCallID)).

Fixpoint tool_use_blocks (calls : list ToolCallDescriptor) : result (list Block) :=
  match calls with
  | [] => Ok []
  | toolCall :: calls =>
      match decodeAnthropicToolInput (FunctionArguments toolCall) with
      | Err e => Err e
      | Ok input =>
          match tool_use_blocks calls with
          | Err e => Err e
          | Ok blocks => Ok (ToolUseBlock (provider_id (CallID toolCall)) (TrimSpace (FunctionName toolCall)) input :: blocks)
          end
      end
  end.

Definition is_thinking (block : Block) : bool := match block with ThinkingBlock _ _ => true | _ => false end.

Definition anthropicMessageHasLeadingThinking (message : anthropicMessage) (reasoning signature : string) : bool :=
  match Content message with
  | ThinkingBlock thinking sig :: _ =>
      bool_decide (TrimSpace thinking = reasoning) && bool_decide (TrimSpace (default EmptyString sig) = signature)
  | _ => false
  end.

(** The messages with the tool calls moved into the last one, when they continue its thinking. *)
Definition mergeAnthropicAssistantToolUseWithPrevious (messages : list anthropicMessage) (message : Message)
    (blocks : list Block) : option (list anthropicMessage) :=
  match last messages with
  | None => None
  | Some previous =>
      if negb (bool_decide (TrimSpace (MsgRole message) = "assistant")) || bool_decide (ToolCalls message = []) then None
      else if negb (bool_decide (TrimSpace (MsgContent message) = EmptyString)) ||
              negb (bool_decide (ContentParts message = [])) then None
      else
        let reasoning := TrimSpace (ReasoningContent message) in
        let signature := anthropicThinkingSignature message in
        if decide (reasoning = EmptyString) then None
        else if negb (bool_decide (TrimSpace (TurnRole previous) = "assistant")) ||
                negb (anthropicMessageHasLeadingThinking previous reasoning signature) then None
        else
          let toolUseBlocks := List.filter (fun block => negb (is_thinking block)) blocks in
          if decide (toolUseBlocks = []) then None
          else Some (removelast messages ++ [mkTurn (TurnRole previous) (Content previous ++ toolUseBlocks)])
  end.

(** ** The translation *)

Record Request := mkRequest {
  systemParts : list string;
  messages : list anthropicMessage;
  pendingToolResults : list Block;
  thinkingCarrier : option anthropicThinkingCarrier
}.

Definition flushToolResults (r : Request) : Request :=
  if decide (pendingToolResults r = []) then r
  else mkRequest (systemParts r) (messages r ++ [mkTurn "user" (pendingToolResults r)]) [] (thinkingCarrier r).

Definition add_turn (turn : anthropicMessage) (r : Request) : Request :=
  mkRequest (systemParts r) (messages r ++ [turn]) (pendingToolResults r) (thinkingCarrier r).

Definition add_system (message : Message) (r : Request) : result Request :=
  if hasImageContentParts (ContentParts message)
  then Err "anthropic system message does not support image content"
  else
    let content := if bool_decide (TrimSpace (MsgContent message) = EmptyString) &&
                      negb (bool_decide (ContentParts message = []))
                   then collapseTextContentParts (ContentParts message) else MsgContent message in
    Ok (if decide (TrimSpace content = EmptyString) then r
        else mkRequest (systemParts r ++ [content]) (messages r) (pendingToolResults r) (thinkingCarrier r)).

Definition add_result (message : Message) (r : Request) : result Request :=
  let toolUseID := provider_id (MsgToolCallID message) in
  if decide (toolUseID = EmptyString) then Err "anthropic tool message requires tool_call_id"
  else
    match (if hasImageContentParts (ContentParts message)
           then match anthropicContentBlocks message with Err e => Err e | Ok blocks => Ok (inr blocks) end
           else Ok (inl (MsgContent message))) with
    | Err e => Err e
    | Ok content =>
        Ok (mkRequest (systemParts r) (messages r)
              (pendingToolResults r ++ [ToolResultBlock toolUseID content]) (thinkingCarrier r))
    end.

Definition carry_thinking (thinkingEnabled : bool) (role : string) (message : Message) (r : Request) : Request :=
  let reasoning := TrimSpace (ReasoningContent message) in
  if thinkingEnabled && bool_decide (role = "assistant") && negb (bool_decide (reasoning = EmptyString))
  then mkRequest (systemParts r) (messages r) (pendingToolResults r)
         (Some (mkCarrier reasoning (anthropicThinkingSignature message)))
  else r.

Definition add_speech (thinkingEnabled : bool) (role : string) (message : Message) (r : Request) : result Request :=
  let r := carry_thinking thinkingEnabled role message (flushToolResults r) in
  match anthropicProviderContentBlocks message thinkingEnabled (thinkingCarrier r) with
  | Err e => Err e
  | Ok contentBlocks =>
      match (if decide (role = "assistant") then tool_use_blocks (ToolCalls message) else Ok []) with
      | Err e => Err e
      | Ok toolUse =>
          let blocks := contentBlocks ++ toolUse in
          if decide (blocks = []) then Ok r
          else if decide (role = "assistant") then
            match mergeAnthropicAssistantToolUseWithPrevious (messages r) message blocks with
            | Some merged => Ok (mkRequest (systemParts r) merged (pendingToolResults r) (thinkingCarrier r))
            | None => Ok (add_turn (mkTurn role blocks) r)
            end
          else Ok (add_turn (mkTurn role blocks) r)
      end
  end.

Definition add_other (message : Message) (r : Request) : Request :=
  let r := flushToolResults r in
  if decide (TrimSpace (MsgContent message) = EmptyString) then r
  else add_turn (mkTurn "user" [TextBlock (MsgContent message)]) r.

Definition add_message (thinkingEnabled : bool) (message : Message) (r : Request) : result Request :=
  let role := TrimSpace (MsgRole message) in
  if decide (role = "system") then add_system message r
  else if decide (role = "tool") then add_result message r
  else if decide (role = "user" \/ role = "assistant") then add_speech thinkingEnabled role message r
  else Ok (add_other message r).

Fixpoint add_messages (thinkingEnabled : bool) (input : list Message) (r : Request) : result Request :=
  match input with
  | [] => Ok r
  | message :: input =>
      match add_message thinkingEnabled message r with
      | Err e => Err e
      | Ok r => add_messages thinkingEnabled input r
      end
  end.

(** ** Relocating the images *)

Definition isAnthropicImageBlock (block : Block) : bool := match block with ImageBlock _ _ => true | _ => false end.

Definition is_user (turn : anthropicMessage) : bool := bool_decide (TrimSpace (TurnRole turn) = "user").

(** The turns before the last one of the user, this one, and the turns after it. *)
Fixpoint split_last_user (turns : list anthropicMessage)
  : option (list anthropicMessage * anthropicMessage * list anthropicMessage) :=
  match turns with
  | [] => None
  | turn :: turns =>
      match split_last_user turns with
      | Some (before, found, after) => Some (turn :: before, found, after)
      | None => if is_user turn then Some ([], turn, turns) else None
      end
  end.

Definition turn_images (turn : anthropicMessage) : list Block :=
  if is_user turn then List.filter isAnthropicImageBlock (Content turn) else [].

Definition without_images (turn : anthropicMessage) : anthropicMessage :=
  if is_user turn then mkTurn (TurnRole turn) (List.filter (fun block => negb (isAnthropicImageBlock block)) (Content turn))
  else turn.

Definition not_emptied (turn : anthropicMessage) : bool :=
  negb (is_user turn && bool_decide (length (Content turn) = 0%nat)).

Definition relocateAnthropicImagesToLastUserMessage (turns : list anthropicMessage) : list anthropicMessage :=
  match split_last_user turns with
  | None => turns
  | Some (before, found, after) =>
      let relocated := List.flat_map turn_images before ++ List.flat_map turn_images after in
      if decide (length relocated = 0%nat) then turns
      else List.filter not_emptied (map without_images before) ++
           mkTurn (TurnRole found) (Content found ++ relocated) ::
           List.filter not_emptied (map without_images after)
  end.

Definition normalizeAnthropicProviderMessages (input : list Message) (thinkingEnabled relocateImages : bool)
  : result (list string * list anthropicMessage) :=
  match add_messages thinkingEnabled input (mkRequest [] [] [] None) with
  | Err e => Err e
  | Ok r =>
      let r := flushToolResults r in
      Ok (systemParts r, if relocateImages then relocateAnthropicImagesToLastUserMessage (messages r) else messages r)
  end.

(** The number of messages that come from the stable part of the prompt. *)
Definition anthropicStableProviderMessageCount (input : list Message) (stableReplayMessageCount : Z)
    (thinkingEnabled : bool) : nat :=
  if stableReplayMessageCount <=? 0 then O
  else
    let stable := take (Z.to_nat stableReplayMessageCount)
                    (List.filter (fun m => negb (bool_decide (TrimSpace (MsgRole m) = "system"))) input) in
    match normalizeAnthropicProviderMessages stable thinkingEnabled false with
    | Ok (_, turns) => length turns
    | Err _ => O
    end.

End Anthropic.

(** ** Calls and results of turns *)

Section Pairs.
Context {Value : Type} (empty_object : Value) (Unmarshal : string -> result Value).
Context (sha256 : bytes -> bytes).
Context (ReadFile : string -> result bytes) (DetectContentType : bytes -> string) (Ext : string -> string)
  (LowerCase : string -> string) (Base64 : bytes -> string).

Notation Block := (Block Value).
Notation anthropicMessage := (anthropicMessage Value).
Notation content_blocks := (anthropicContentBlocks (Value := Value) ReadFile DetectContentType Ext LowerCase Base64).
Notation provider_blocks := (anthropicProviderContentBlocks (Value := Value) ReadFile DetectContentType Ext LowerCase Base64).
Notation speech := (add_speech empty_object Unmarshal sha256 ReadFile DetectContentType Ext LowerCase Base64).
Notation step := (add_message empty_object Unmarshal sha256 ReadFile DetectContentType Ext LowerCase Base64).
Notation steps := (add_messages empty_object Unmarshal sha256 ReadFile DetectContentType Ext LowerCase Base64).
Notation normalize := (normalizeAnthropicProviderMessages empty_object Unmarshal sha256 ReadFile DetectContentType Ext LowerCase Base64).

Definition block_use (block : Block) : list (string * string) :=
  match block with ToolUseBlock id name _ => [(id, name)] | _ => [] end.

Definition block_result (block : Block) : list string :=
  match block with ToolResultBlock id _ => [id] | _ => [] end.

(** The calls, with their names, and the results of a turn. *)
Definition uses (turn : anthropicMessage) : list (string * string) := List.flat_map block_use (Content turn).
Definition results (turn : anthropicMessage) : list string := List.flat_map block_result (Content turn).

(** What the calls and the results of a message become. *)
Definition sent_calls (message : Message) : list (string * string) :=
  if bool_decide (TrimSpace (MsgRole message) = "assistant")
  then map (fun c => (provider_id sha256 (CallID c), TrimSpace (FunctionName c))) (ToolCalls message) else [].

Definition sent_results (message : Message) : list string :=
  if is_tool message then [provider_id sha256 (MsgToolCallID message)] else [].

Definition quiet_block (block : Block) : Prop := block_use block = [] /\ block_result block = [].

Lemma quiet_blocks blocks : Forall quiet_block blocks ->
  List.flat_map block_use blocks = [] /\ List.flat_map block_result blocks = [].
Proof. induction 1 as [|b l [Hu Hr] _ [IHu IHr]]; simpl; [done|]. by rewrite Hu, Hr, IHu, IHr. Qed.

Lemma part_blocks_quiet parts blocks :
  part_blocks ReadFile DetectContentType Ext LowerCase Base64 parts = Ok blocks -> Forall quiet_block blocks.
Proof.
  revert blocks. induction parts as [|p parts IH]; intros blocks; simpl; [by intros [= <-]|].
  destruct (decide (normalizeContentPartType LowerCase (PartType p) = "text")).
  - destruct (part_blocks _ _ _ _ _ parts) as [rest|] eqn:Hr; [|done]. intros [= <-].
    apply Forall_app. split; [|by apply IH]. destruct (decide (PartText p = EmptyString)); repeat constructor.
  - destruct (decide (normalizeContentPartType LowerCase (PartType p) = "image")); [|done].
    destruct (resolveImageContent _ _ _ _ (PartImage p)) as [[payload media]|]; [|done].
    destruct (part_blocks _ _ _ _ _ parts) as [rest|] eqn:Hr; [|done]. intros [= <-].
    constructor; [by split|by apply IH].
Qed.

Lemma content_blocks_quiet message blocks : content_blocks message = Ok blocks -> Forall quiet_block blocks.
Proof.
  unfold anthropicContentBlocks.
  assert (Ht : Forall quiet_block (if decide (TrimSpace (MsgContent message) = EmptyString) then []
                                  else [TextBlock (MsgContent message)]))
    by (destruct (decide (TrimSpace (MsgContent message) = EmptyString)); repeat constructor).
  destruct (decide (ContentParts message = [])); [by intros [= <-]|].
  destruct (part_blocks _ _ _ _ _ _) as [[|b l]|] eqn:Hp; [by intros [= <-]| |done].
  intros [= <-]. by eapply part_blocks_quiet.
Qed.

Lemma provider_blocks_quiet message thinkingEnabled carrier blocks :
  provider_blocks message thinkingEnabled carrier = Ok blocks -> Forall quiet_block blocks.
Proof.
  unfold anthropicProviderContentBlocks. destruct (content_blocks message) as [l|] eqn:Hl; [|done].
  apply content_blocks_quiet in Hl. destruct (negb _); [by intros [= <-]|].
  destruct (match carrier with Some _ => _ | None => _ end) as [reasoning signature].
  intros [= <-]. constructor; [by split|done].
Qed.

(** With thinking on, an assistant message starts with a thinking block. *)
Lemma provider_blocks_thinking message carrier blocks :
  TrimSpace (MsgRole message) = "assistant" -> provider_blocks message true carrier = Ok blocks ->
  exists thinking signature rest, blocks = ThinkingBlock thinking signature :: rest.
Proof.
  intros Hr. unfold anthropicProviderContentBlocks, shouldIncludeAnthropicThinkingBlock.
  destruct (content_blocks message) as [l|]; [|done]. rewrite bool_decide_true by done. simpl.
  destruct (match carrier with Some _ => _ | None => _ end) as [reasoning signature]. intros [= <-]. eauto.
Qed.

Lemma tool_use_blocks_uses calls blocks :
  tool_use_blocks empty_object Unmarshal sha256 calls = Ok blocks ->
  List.flat_map block_use blocks = map (fun c => (provider_id sha256 (CallID c), TrimSpace (FunctionName c))) calls /\
  List.flat_map block_result blocks = [] /\ Forall (fun b => is_thinking b = false) blocks /\
  length blocks = length calls.
Proof.
  revert blocks. induction calls as [|c calls IH]; intros blocks; simpl; [by intros [= <-]|].
  destruct (decodeAnthropicToolInput _ _ _) as [input|]; [|done].
  destruct (tool_use_blocks _ _ _ calls) as [rest|]; [|done]. intros [= <-].
  destruct (IH rest eq_refl) as (Hu & Hr & Ht & Hl). simpl. rewrite Hu, Hl. split; [done|]. split; [done|].
  split; [by constructor|done].
Qed.

(** Dropping thinking blocks drops no call and no result. *)
Lemma no_thinking_uses blocks :
  List.flat_map block_use (List.filter (fun b => negb (is_thinking b)) blocks) = List.flat_map block_use blocks /\
  List.flat_map block_result (List.filter (fun b => negb (is_thinking b)) blocks) = List.flat_map block_result blocks.
Proof. induction blocks as [|[] l [IHu IHr]]; simpl; by rewrite ?IHu, ?IHr. Qed.

(** *** The turns answer each other *)

(** Every call that is open has its result in the next turn, which is the user's and has no other
    result, and only the assistant calls. *)
Fixpoint follows (open : list string) (turns : list anthropicMessage) : Prop :=
  match turns with
  | [] => True
  | turn :: turns =>
      (forall id, id ∈ open <-> id ∈ results turn) /\ (open <> [] -> TrimSpace (TurnRole turn) = "user") /\
      (uses turn <> [] -> TrimSpace (TurnRole turn) = "assistant") /\ follows (map fst (uses turn)) turns
  end.

Definition open_after (open : list string) (turns : list anthropicMessage) : list string :=
  match last turns with Some turn => map fst (uses turn) | None => open end.

Definition answered_turns (turns : list anthropicMessage) : Prop := follows [] turns /\ open_after [] turns = [].

Lemma open_after_cons open turn turns : open_after open (turn :: turns) = open_after (map fst (uses turn)) turns.
Proof.
  unfold open_after. rewrite last_cons. by destruct (last turns).
Qed.

Lemma follows_app open l k : follows open (l ++ k) <-> follows open l /\ follows (open_after open l) k.
Proof.
  revert open. induction l as [|t l IH]; intros open; simpl; [by split; [|intros [_ H]]|].
  rewrite IH, open_after_cons. tauto.
Qed.

Lemma open_after_snoc open l t : open_after open (l ++ [t]) = map fst (uses t).
Proof. unfold open_after. by rewrite last_snoc. Qed.

(** A turn without calls and results comes after turns that have none open. *)
Lemma answered_quiet turns t :
  answered_turns turns -> uses t = [] -> results t = [] -> answered_turns (turns ++ [t]).
Proof.
  intros [Hf Ho] Hu Hr. split; [|by rewrite open_after_snoc, Hu]. rewrite follows_app, Ho. split; [done|].
  simpl. rewrite Hu, Hr. done.
Qed.

Lemma last_split {A} (l : list A) x : last l = Some x -> l = removelast l ++ [x].
Proof.
  intros H. destruct l as [|a l] using rev_ind; [done|]. rewrite last_snoc in H. injection H as ->.
  by rewrite removelast_last.
Qed.

(** *** What a message adds *)

Definition starts_thinking (turn : anthropicMessage) : Prop :=
  match Content turn with block :: _ => is_thinking block = true | [] => False end.

(** A user or assistant message, after the results before it have been flushed to [turns]. *)
Inductive spoken (thinkingEnabled : bool) (message : Message) (turns : list anthropicMessage)
  : list anthropicMessage -> Prop :=
| spoken_nothing : sent_calls message = [] -> spoken thinkingEnabled message turns turns
| spoken_turn turn :
    TrimSpace (TurnRole turn) = TrimSpace (MsgRole message) ->
    uses turn = sent_calls message -> results turn = [] ->
    (thinkingEnabled = true -> TrimSpace (MsgRole message) = "assistant" -> starts_thinking turn) ->
    spoken thinkingEnabled message turns (turns ++ [turn])
| spoken_merged front previous turn :
    turns = front ++ [previous] -> TrimSpace (MsgRole message) = "assistant" -> ToolCalls message <> [] ->
    TrimSpace (TurnRole previous) = "assistant" -> TurnRole turn = TurnRole previous ->
    uses turn = uses previous ++ sent_calls message -> results turn = results previous ->
    starts_thinking turn ->
    spoken thinkingEnabled message turns (front ++ [turn]).

Lemma flush_pending (r : @Request Value) : pendingToolResults (flushToolResults r) = [].
Proof. unfold flushToolResults. by destruct (decide (pendingToolResults r = [])). Qed.

Lemma carry_messages te role message (r : @Request Value) :
  messages (carry_thinking te role message r) = messages r /\
  pendingToolResults (carry_thinking te role message r) = pendingToolResults r.
Proof. unfold carry_thinking. by destruct (_ && _ && _). Qed.

Lemma flat_map_turns {A B} (f : A -> list B) l k : List.flat_map f (l ++ k) = List.flat_map f l ++ List.flat_map f k.
Proof. apply List.flat_map_app. Qed.

Lemma speech_spoken te role message r r' :
  TrimSpace role = role -> role = TrimSpace (MsgRole message) ->
  speech te role message r = Ok r' ->
  spoken te message (messages (flushToolResults r)) (messages r') /\ pendingToolResults r' = [].
Proof.
  intros Htrim Hrole. unfold add_speech.
  destruct (carry_messages te role message (flushToolResults r)) as [Hm Hp]. rewrite flush_pending in Hp.
  set (r0 := carry_thinking te role message (flushToolResults r)) in *.
  destruct (provider_blocks message te (thinkingCarrier r0)) as [content|] eqn:Hcontent; [|done].
  pose proof (quiet_blocks _ (provider_blocks_quiet _ _ _ _ Hcontent)) as [Hcu Hcr].
  destruct (if decide (role = "assistant") then _ else _) as [toolUse|] eqn:Huse; [|done].
  assert (Hsent : List.flat_map block_use toolUse = sent_calls message /\ List.flat_map block_result toolUse = [] /\
                  (ToolCalls message <> [] -> role = "assistant" -> toolUse <> [])).
  { unfold sent_calls. rewrite <- Hrole. destruct (decide (role = "assistant")) as [Ha|Ha].
    - rewrite bool_decide_true by done. apply tool_use_blocks_uses in Huse as (H1 & H2 & _ & H3).
      split; [done|]. split; [done|]. intros Hne _ ->. by destruct (ToolCalls message).
    - rewrite bool_decide_false by done. injection Huse as <-. split; [done|]. split; [done|]. by intros _ ?. }
  destruct Hsent as (Hsu & Hsr & Hne).
  destruct (decide (content ++ toolUse = [])) as [Hnil|Hsome].
  { intros [= <-]. rewrite Hm. split; [|done]. apply app_eq_nil in Hnil as [_ ->]. by constructor. }
  assert (Hnew : spoken te message (messages r0) (messages r0 ++ [mkTurn role (content ++ toolUse)])).
  { constructor 2; cbn.
    - by rewrite Htrim.
    - unfold uses. cbn. by rewrite flat_map_turns, Hcu, Hsu.
    - unfold results. cbn. by rewrite flat_map_turns, Hcr, Hsr.
    - intros -> Ha. destruct (provider_blocks_thinking _ _ _ Ha Hcontent) as (t & sig & rest & ->). done. }
  rewrite <- Hm. destruct (decide (role = "assistant")) as [Ha|Ha]; [|by intros [= <-]].
  destruct (mergeAnthropicAssistantToolUseWithPrevious (messages r0) message (content ++ toolUse)) as [merged|] eqn:Hmerge;
    [|by intros [= <-]].
  intros [= <-]. split; [|done]. cbn. unfold mergeAnthropicAssistantToolUseWithPrevious in Hmerge.
  destruct (last (messages r0)) as [previous|] eqn:Hlast; [|done].
  destruct (decide (ToolCalls message = [])) as [Hno|Hcalls].
  { rewrite (bool_decide_true (ToolCalls message = [])) in Hmerge by done. by rewrite orb_true_r in Hmerge. }
  destruct (negb _ || _); [done|]. destruct (negb _ || _); [done|].
  destruct (decide (TrimSpace (ReasoningContent message) = EmptyString)); [done|].
  destruct (bool_decide (TrimSpace (TurnRole previous) = "assistant")) eqn:Hprev; [|done]. cbn in Hmerge.
  destruct (anthropicMessageHasLeadingThinking _ _ _) eqn:Hlead; [|done]. cbn in Hmerge.
  destruct (decide (_ = [])); [done|]. injection Hmerge as <-. zbool.
  destruct (no_thinking_uses (content ++ toolUse)) as [Hfu Hfr].
  econstructor 3; [by apply last_split|by rewrite <- Hrole|done|done|done| | |].
  - unfold uses. cbn. by rewrite flat_map_turns, Hfu, flat_map_turns, Hcu, Hsu.
  - unfold results. cbn. by rewrite flat_map_turns, Hfr, flat_map_turns, Hcr, Hsr, app_nil_r.
  - unfold anthropicMessageHasLeadingThinking in Hlead. unfold starts_thinking. cbn.
    destruct (Content previous) as [|[] rest]; try done.
Qed.

(** *** All the messages *)

Definition all_uses (turns : list anthropicMessage) : list (string * string) := List.flat_map uses turns.
Definition all_turn_results (turns : list anthropicMessage) : list string := List.flat_map results turns.

Lemma all_uses_snoc l t : all_uses (l ++ [t]) = all_uses l ++ uses t.
Proof. unfold all_uses. rewrite flat_map_turns. simpl. by rewrite app_nil_r. Qed.

Lemma all_results_snoc l t : all_turn_results (l ++ [t]) = all_turn_results l ++ results t.
Proof. unfold all_turn_results. rewrite flat_map_turns. simpl. by rewrite app_nil_r. Qed.

Definition assistant_thinks (turn : anthropicMessage) : Prop :=
  TrimSpace (TurnRole turn) = "assistant" -> starts_thinking turn.

(** What the request holds after the messages of [done]. *)
Record holds_messages (te : bool) (done : list Message) (r : @Request Value) : Prop := {
  held_uses : all_uses (messages r) = List.flat_map sent_calls done;
  held_results : all_turn_results (messages r) ++ List.flat_map block_result (pendingToolResults r)
                 = List.flat_map sent_results done;
  held_pending : List.flat_map block_use (pendingToolResults r) = [];
  held_thinking : te = true -> Forall assistant_thinks (messages r)
}.

Lemma flush_holds te done r : holds_messages te done r -> holds_messages te done (flushToolResults r).
Proof.
  intros [Hu Hr Hp Ht]. unfold flushToolResults. destruct (decide (pendingToolResults r = [])) as [|Hne]; [done|].
  split; cbn.
  - unfold all_uses in *. rewrite flat_map_turns, <- Hu. simpl. rewrite app_nil_r.
    transitivity (List.flat_map uses (messages r) ++ []); [f_equal; exact Hp|apply app_nil_r].
  - unfold all_turn_results in *. rewrite flat_map_turns, <- Hr. simpl. by rewrite !app_nil_r.
  - done.
  - intros Hte. apply Forall_app. split; [by apply Ht|]. constructor; [|done]. intros H. by vm_compute in H.
Qed.

Lemma speech_holds te done role message r r' :
  TrimSpace role = role -> role = TrimSpace (MsgRole message) -> is_tool message = false ->
  holds_messages te done r -> speech te role message r = Ok r' -> holds_messages te (done ++ [message]) r'.
Proof.
  intros Htrim Hrole Htool Hh Hs. apply flush_holds in Hh. pose proof (flush_pending r) as Hfp.
  destruct (speech_spoken _ _ _ _ _ Htrim Hrole Hs) as [Hsp Hp]. destruct Hh as [Hu Hr _ Ht].
  rewrite Hfp in Hr. simpl in Hr. rewrite app_nil_r in Hr.
  assert (Hsr : sent_results message = []) by (unfold sent_results; by rewrite Htool).
  split; rewrite ?Hp; [| |done|].
  - rewrite flat_map_turns. simpl. rewrite app_nil_r, <- Hu.
    destruct Hsp as [-> |turn _ Hus _ _|front previous turn E _ _ _ _ Hus _ _].
    + by rewrite app_nil_r.
    + by rewrite all_uses_snoc, Hus.
    + by rewrite E, !all_uses_snoc, Hus, app_assoc.
  - rewrite flat_map_turns. simpl. rewrite Hsr, !app_nil_r, <- Hr.
    destruct Hsp as [_ |turn _ _ Hus _|front previous turn E _ _ _ _ _ Hus _]; [done| |].
    + by rewrite all_results_snoc, Hus, app_nil_r.
    + by rewrite E, !all_results_snoc, Hus.
  - intros Hte. specialize (Ht Hte). destruct Hsp as [_ |turn Hro _ _ Hth|front previous turn E Ha _ _ Hro _ _ Hth];
      [done| |].
    + apply Forall_app. split; [done|]. constructor; [|done]. intros H. apply Hth; [done|congruence].
    + rewrite E in Ht. apply Forall_app in Ht as [Ht _]. apply Forall_app. split; [done|]. constructor; [by intros _|done].
Qed.

Lemma step_holds te done message r r' :
  holds_messages te done r -> step te message r = Ok r' -> holds_messages te (done ++ [message]) r'.
Proof.
  intros Hh. unfold add_message.
  assert (Hquiet : forall role, TrimSpace (MsgRole message) = role -> role <> "assistant" -> role <> "tool" ->
    sent_calls message = [] /\ sent_results message = []).
  { intros role Hr Ha Ht. unfold sent_calls, sent_results, is_tool. rewrite Hr.
    by rewrite !bool_decide_false by done. }
  assert (Hmore : forall r0, sent_calls message = [] -> sent_results message = [] ->
    holds_messages te done r0 -> holds_messages te (done ++ [message]) r0).
  { intros r0 H1 H2 [Hu Hr Hp Ht]. split; try done; rewrite flat_map_turns; cbn; rewrite ?H1, ?H2, !app_nil_r; done. }
  destruct (decide (TrimSpace (MsgRole message) = "system")) as [Hsys|Hsys].
  { destruct (Hquiet _ Hsys) as [H1 H2]; [done|done|]. unfold add_system.
    destruct (hasImageContentParts _ _); [done|].
    destruct (decide (TrimSpace _ = EmptyString)); intros [= <-]; apply Hmore; try done.
    destruct Hh; by split. }
  destruct (decide (TrimSpace (MsgRole message) = "tool")) as [Htool|Htool].
  { unfold add_result. destruct (decide (provider_id sha256 (MsgToolCallID message) = EmptyString)); [done|].
    destruct (if hasImageContentParts _ _ then _ else _) as [content|]; [|done]. intros [= <-].
    assert (Ht : is_tool message = true) by (unfold is_tool; by rewrite Htool).
    destruct Hh as [Hu Hr Hp Hth]. split; simpl; [| | |exact Hth].
    - rewrite Hu, flat_map_turns. simpl. unfold sent_calls. rewrite Htool. simpl. by rewrite !app_nil_r.
    - rewrite !flat_map_turns. simpl. unfold sent_results at 2. rewrite Ht. simpl. by rewrite app_assoc, Hr.
    - by rewrite flat_map_turns, Hp. }
  destruct (decide (TrimSpace (MsgRole message) = "user" \/ TrimSpace (MsgRole message) = "assistant")) as [Hspeech|Hother].
  { apply speech_holds; try done; [apply TrimSpace_idem|]. unfold is_tool. by rewrite bool_decide_false. }
  intros [= <-]. unfold add_other. destruct (Hquiet _ eq_refl) as [H1 H2]; [tauto|done|].
  apply Hmore; [done|done|]. pose proof (flush_holds _ _ _ Hh) as [Hu Hr Hp Hth].
  destruct (decide (TrimSpace (MsgContent message) = EmptyString)); [done|]. split; cbn; try done.
  - unfold all_uses. rewrite flat_map_turns. cbn. by rewrite app_nil_r.
  - unfold all_turn_results. rewrite flat_map_turns. cbn. by rewrite app_nil_r.
  - intros Hte. apply Forall_app. split; [by apply Hth|]. constructor; [|done]. intros H. by vm_compute in H.
Qed.

Lemma steps_hold te done input r r' :
  holds_messages te done r -> steps te input r = Ok r' -> holds_messages te (done ++ input) r'.
Proof.
  revert done r. induction input as [|m input IH]; intros done r Hh; simpl; [intros [= <-]; by rewrite app_nil_r|].
  destruct (step te m r) as [r1|] eqn:Hs; [|done]. intros H.
  replace (done ++ m :: input) with ((done ++ [m]) ++ input) by by rewrite <- app_assoc.
  eapply IH; [by eapply step_holds|exact H].
Qed.

(** *** Relocation *)

Lemma split_last_user_spec (turns before : list anthropicMessage) found after :
  split_last_user turns = Some (before, found, after) ->
  turns = before ++ found :: after /\ is_user found = true.
Proof.
  revert before. induction turns as [|t turns IH]; intros before; simpl; [done|].
  destruct (split_last_user turns) as [[[b f] a]|] eqn:Hs.
  - intros [= <- <- <-]. destruct (IH b eq_refl) as [-> Hf]. done.
  - destruct (is_user t) eqn:Hu; [|done]. intros [= <- <- <-]. done.
Qed.

Lemma without_images_same (t : anthropicMessage) :
  uses (without_images t) = uses t /\ results (without_images t) = results t /\
  TurnRole (without_images t) = TurnRole t.
Proof.
  unfold without_images. destruct (is_user t); [|done]. unfold uses, results. cbn.
  induction (Content t) as [|[] l (IHu & IHr & _)]; cbn; by rewrite ?IHu, ?IHr.
Qed.

Lemma turn_images_quiet (l : list anthropicMessage) : Forall quiet_block (List.flat_map turn_images l).
Proof.
  apply Forall_forall. intros b Hb. apply list_elem_of_In, in_flat_map in Hb as (t & _ & Hb).
  unfold turn_images in Hb. destruct (is_user t); [|done]. apply filter_In in Hb as [_ Hb]. by destruct b.
Qed.

Lemma emptied_quiet (t : anthropicMessage) : not_emptied t = false -> uses t = [] /\ results t = [] /\ is_user t = true.
Proof.
  unfold not_emptied. intros H. apply negb_false_iff, andb_prop in H as [Hu H]. zbool.
  apply nil_length_inv in H. unfold uses, results. by rewrite H.
Qed.

(** The turns, of which some without calls and results are gone, and the others call and answer as
    they did. *)
Inductive thinned : list anthropicMessage -> list anthropicMessage -> Prop :=
| thinned_nil : thinned [] []
| thinned_keep t t' l l' : uses t' = uses t -> results t' = results t -> TurnRole t' = TurnRole t ->
    (assistant_thinks t -> assistant_thinks t') -> thinned l l' -> thinned (t :: l) (t' :: l')
| thinned_drop t l l' : uses t = [] -> results t = [] -> thinned l l' -> thinned (t :: l) l'.

Lemma thinned_app l1 l2 k1 k2 : thinned l1 l2 -> thinned k1 k2 -> thinned (l1 ++ k1) (l2 ++ k2).
Proof. induction 1; intros Hk; simpl; [done|constructor; auto|constructor; auto]. Qed.

Lemma thinned_refl l : thinned l l.
Proof. induction l; constructor; auto. Qed.

Lemma thinned_images (l : list anthropicMessage) : thinned l (List.filter not_emptied (map without_images l)).
Proof.
  induction l as [|t l IH]; [exact thinned_nil|]. cbn [map List.filter].
  destruct (without_images_same t) as (Hu & Hr & Hro). destruct (not_emptied (without_images t)) eqn:He.
  - constructor; try done. intros Ha H. rewrite Hro in H. specialize (Ha H). unfold starts_thinking, without_images in *.
    unfold is_user. rewrite H. exact Ha.
  - apply emptied_quiet in He as (He1 & He2 & _). constructor; [congruence|congruence|done].
Qed.

Lemma relocate_thinned (l : list anthropicMessage) : thinned l (relocateAnthropicImagesToLastUserMessage l).
Proof.
  unfold relocateAnthropicImagesToLastUserMessage.
  destruct (split_last_user l) as [[[before found] after]|] eqn:Hs; [|apply thinned_refl].
  apply split_last_user_spec in Hs as [-> Hu].
  destruct (decide (length _ = 0%nat)); [apply thinned_refl|].
  apply thinned_app; [apply thinned_images|].
  assert (Hq : Forall quiet_block (List.flat_map turn_images before ++ List.flat_map turn_images after))
    by (apply Forall_app; split; apply turn_images_quiet).
  apply quiet_blocks in Hq as [Hqu Hqr].
  constructor; [| | | |apply thinned_images]; try done.
  - unfold uses. cbn. by rewrite flat_map_turns, Hqu, app_nil_r.
  - unfold results. cbn. by rewrite flat_map_turns, Hqr, app_nil_r.
  - intros _ H. cbn in H. unfold is_user in Hu. zbool. congruence.
Qed.

Lemma thinned_same l l' : thinned l l' ->
  all_uses l' = all_uses l /\ all_turn_results l' = all_turn_results l /\
  (Forall assistant_thinks l -> Forall assistant_thinks l').
Proof.
  unfold all_uses, all_turn_results.
  induction 1 as [|t t' l l' Hu Hr _ Ht _ (IHu & IHr & IHt)|t l l' Hu Hr _ (IHu & IHr & IHt)]; simpl; [done| |].
  - rewrite Hu, Hr, IHu, IHr. split; [done|]. split; [done|]. intros H. inversion H; subst. constructor; auto.
  - rewrite Hu, Hr, IHu, IHr. split; [done|]. split; [done|]. intros H. inversion H; subst. auto.
Qed.

(** No call and no result is lost on the way to Anthropic.  Whenever the translation succeeds, with or
    without the relocation of the images, the turns hold the calls of the assistant's messages
    in order, each under the identifier for the provider and its trimmed name, and
    the results of the tool messages in order; and when thinking is on, every turn of the
    assistant starts with a thinking block. *)
Theorem anthropic_keeps_calls input thinkingEnabled relocateImages system turns :
  normalize input thinkingEnabled relocateImages = Ok (system, turns) ->
  all_uses turns = List.flat_map sent_calls input /\
  all_turn_results turns = List.flat_map sent_results input /\
  (thinkingEnabled = true -> Forall assistant_thinks turns).
Proof.
  unfold normalizeAnthropicProviderMessages. destruct (steps _ _ _) as [r|] eqn:Hs; [|done].
  assert (H0 : holds_messages thinkingEnabled [] (mkRequest [] [] [] None)) by (split; intros; try done; constructor).
  pose proof (flush_holds _ _ _ (steps_hold _ _ _ _ _ H0 Hs)) as [Hu Hr _ Ht].
  rewrite flush_pending in Hr. cbn in Hu, Hr. rewrite app_nil_r in Hr. intros [= <- <-].
  destruct relocateImages; [|done].
  destruct (thinned_same _ _ (relocate_thinned (messages (flushToolResults r)))) as (H1 & H2 & H3).
  rewrite H1, H2. split; [done|]. split; [done|]. auto.
Qed.

(** *** Results next to their calls *)

(** The prompt is made of batches of calls with their results right behind them, and other messages. *)
Inductive batched : list Message -> Prop :=
| batched_nil : batched []
| batched_other m l : calls_tools m = false -> is_tool m = false -> batched l -> batched (m :: l)
| batched_calls m tools l :
    calls_tools m = true -> Forall (fun t => is_tool t = true) tools ->
    (forall id, id ∈ map call_id (ToolCalls m) <-> id ∈ map result_id tools) ->
    batched l -> batched (m :: tools ++ l).

Lemma provider_id_trimmed s : provider_id sha256 (TrimSpace s) = provider_id sha256 s.
Proof.
  assert (Hi : trim_space (bytes_of (TrimSpace s)) = trim_space (bytes_of s)).
  { pose proof (TrimSpace_idem s) as H. unfold TrimSpace in H |- *. apply (f_equal bytes_of) in H.
    rewrite !String.list_ascii_of_string_of_list_ascii in H. by rewrite String.list_ascii_of_string_of_list_ascii. }
  unfold provider_id, providerToolCallID. cbv zeta. by rewrite Hi.
Qed.

Lemma sent_call_ids m : calls_tools m = true ->
  map fst (sent_calls m) = map (provider_id sha256) (map call_id (ToolCalls m)).
Proof.
  intros H. unfold calls_tools, is_assistant in H. apply andb_prop in H as [Ha _]. unfold sent_calls. rewrite Ha.
  rewrite !map_map. apply map_ext. intros c. simpl. by rewrite <- provider_id_trimmed.
Qed.

Lemma sent_result_ids tools : Forall (fun t => is_tool t = true) tools ->
  List.flat_map sent_results tools = map (provider_id sha256) (map result_id tools).
Proof.
  induction 1 as [|t tools Ht _ IH]; [done|]. simpl. rewrite IH. unfold sent_results at 1. rewrite Ht. simpl.
  f_equal. unfold result_id. by rewrite provider_id_trimmed.
Qed.

(** Flushed, the turns so far answer each other. *)
Definition closed (r : @Request Value) : Prop := answered_turns (messages (flushToolResults r)).

Lemma closed_flushed r : pendingToolResults r = [] -> closed r <-> answered_turns (messages r).
Proof. intros H. unfold closed, flushToolResults. by rewrite decide_True. Qed.

(** A message that adds no call and no result. *)
Lemma quiet_spoken te m turns turns' :
  spoken te m turns turns' -> sent_calls m = [] -> ToolCalls m = [] \/ TrimSpace (MsgRole m) <> "assistant" ->
  answered_turns turns -> answered_turns turns'.
Proof.
  intros [_|turn _ Hu Hr _|front previous turn _ Ha Hne _ _ _ _ _] Hsent Hno Hans; [done| |].
  - apply answered_quiet; [done|congruence|done].
  - by destruct Hno.
Qed.

Lemma step_other te m r r' :
  calls_tools m = false -> is_tool m = false -> closed r -> step te m r = Ok r' -> closed r'.
Proof.
  intros Hc Ht Hr. unfold add_message. destruct (decide (TrimSpace (MsgRole m) = "system")) as [Hsys|Hsys].
  { unfold add_system. destruct (hasImageContentParts _ _); [done|].
    destruct (decide (TrimSpace _ = EmptyString)); intros [= <-]; [done|]. revert Hr. unfold closed, flushToolResults. cbn.
    by destruct (decide (pendingToolResults r = [])). }
  rewrite decide_False by (unfold is_tool in Ht; by zbool).
  destruct (decide (TrimSpace (MsgRole m) = "user" \/ TrimSpace (MsgRole m) = "assistant")) as [Hspeech|Hother].
  - intros Hs. apply speech_spoken in Hs as [Hsp Hp]; [|apply TrimSpace_idem|done].
    apply closed_flushed; [done|]. unfold calls_tools, is_assistant in Hc.
    assert (Hno : ToolCalls m = [] \/ TrimSpace (MsgRole m) <> "assistant").
    { destruct (decide (TrimSpace (MsgRole m) = "assistant")) as [Ha|Ha]; [left|by right].
      rewrite bool_decide_true in Hc by done. simpl in Hc. by zbool. }
    eapply quiet_spoken; [exact Hsp| |exact Hno|exact Hr]. unfold sent_calls.
    destruct Hno as [->|Ha]; [by destruct (bool_decide _)|by rewrite bool_decide_false].
  - intros [= <-]. unfold add_other. pose proof (flush_pending r) as Hp.
    assert (Hf : closed (flushToolResults r)) by by apply closed_flushed.
    destruct (decide (TrimSpace (MsgContent m) = EmptyString)); [done|]. apply closed_flushed; [done|]. cbn.
    by apply answered_quiet.
Qed.

(** The turn of the calls, before their results. *)
Lemma step_calls te m r r' :
  calls_tools m = true -> closed r -> step te m r = Ok r' ->
  follows [] (messages r') /\ open_after [] (messages r') = map fst (sent_calls m) /\ pendingToolResults r' = [].
Proof.
  intros Hc Hr Hs. assert (Ha : TrimSpace (MsgRole m) = "assistant").
  { unfold calls_tools, is_assistant in Hc. apply andb_prop in Hc as [Hc _]. by zbool. }
  unfold add_message in Hs. rewrite Ha in Hs. rewrite decide_False, decide_False, decide_True in Hs by auto.
  apply speech_spoken in Hs as [Hsp Hp]; [|done|done]. destruct Hr as [Hf Ho].
  assert (Hne : sent_calls m <> []).
  { unfold sent_calls. rewrite bool_decide_true by done. unfold calls_tools in Hc. apply andb_prop in Hc as [_ Hc].
    zbool. by destruct (ToolCalls m). }
  destruct Hsp as [H|turn Hro Hu Hre _|front previous turn E _ _ Hro Hro' Hu Hre _]; [done| |].
  - rewrite open_after_snoc, Hu. split; [|done]. apply follows_app. rewrite Ho. split; [done|]. simpl.
    rewrite Hre. split; [done|]. split; [done|]. split; [|done]. by rewrite Hro.
  - rewrite E in Hf, Ho. rewrite open_after_snoc in *. apply fmap_nil_inv in Ho. rewrite Hu, Ho. split; [|done].
    rewrite follows_app in *. destruct Hf as [Hf1 (H1 & H2 & _ & _)]. split; [done|]. simpl.
    rewrite Hre, Hro'. split; [done|]. by split.
Qed.

Lemma tools_pending te tools r r' :
  Forall (fun t => is_tool t = true) tools -> steps te tools r = Ok r' ->
  messages r' = messages r /\
  List.flat_map block_result (pendingToolResults r') =
    List.flat_map block_result (pendingToolResults r) ++ List.flat_map sent_results tools /\
  (List.flat_map block_use (pendingToolResults r) = [] -> List.flat_map block_use (pendingToolResults r') = []).
Proof.
  intros Ht. revert r. induction Ht as [|t tools Ht _ IH]; intros r; simpl; [intros [= <-]; by rewrite app_nil_r|].
  destruct (step te t r) as [r1|] eqn:Hs; [|done]. intros H. destruct (IH r1 H) as (-> & Hb & Hu). clear IH H.
  assert (Hrole : TrimSpace (MsgRole t) = "tool") by (unfold is_tool in Ht; by zbool).
  unfold add_message in Hs. rewrite Hrole in Hs. rewrite decide_False, decide_True in Hs by done.
  unfold add_result in Hs. destruct (decide (provider_id sha256 (MsgToolCallID t) = EmptyString)); [done|].
  destruct (if hasImageContentParts _ _ then _ else _) as [content|]; [|done]. injection Hs as <-.
  split; [done|]. simpl in Hb. rewrite flat_map_turns in Hb. split.
  - rewrite Hb. unfold sent_results at 2. rewrite Ht. simpl. by rewrite <- app_assoc.
  - intros H. apply Hu. simpl. rewrite flat_map_turns. by rewrite H.
Qed.

Lemma steps_app te l k r :
  steps te (l ++ k) r = match steps te l r with Err e => Err e | Ok r => steps te k r end.
Proof.
  revert r. induction l as [|m l IH]; intros r; simpl; [done|]. destruct (step te m r); [apply IH|done].
Qed.

Lemma batched_closed te input r r' : batched input -> closed r -> steps te input r = Ok r' -> closed r'.
Proof.
  intros Hb. revert r. induction Hb as [|m l Hc Ht _ IH|m tools l Hc Ht Hids _ IH]; intros r Hr; simpl.
  - by intros [= <-].
  - destruct (step te m r) as [r1|] eqn:Hs; [|done]. apply IH. by eapply step_other.
  - destruct (step te m r) as [r1|] eqn:Hs; [|done]. rewrite steps_app.
    destruct (steps te tools r1) as [r2|] eqn:Hts; [|done]. apply IH.
    destruct (step_calls _ _ _ _ Hc Hr Hs) as (Hf & Ho & Hp1).
    destruct (tools_pending _ _ _ _ Ht Hts) as (Hm & Hres & Huse). rewrite Hp1 in Hres, Huse. cbn in Hres.
    specialize (Huse eq_refl). rewrite sent_call_ids in Ho by done. rewrite sent_result_ids in Hres by done.
    assert (Hsame : forall id, id ∈ open_after [] (messages r1) <-> id ∈ List.flat_map block_result (pendingToolResults r2)).
    { intros id. rewrite Ho, Hres. rewrite !list_elem_of_fmap. split; intros (x & -> & Hx); exists x; (split; [done|]);
        by apply Hids. }
    unfold closed, flushToolResults. destruct (decide (pendingToolResults r2 = [])) as [Hnil|Hsome].
    + rewrite Hm. split; [done|]. rewrite Hnil in Hsame. cbn in Hsame.
      destruct (open_after [] (messages r1)) as [|id l']; [done|]. exfalso.
      apply (not_elem_of_nil id), Hsame. by left.
    + cbn. rewrite Hm. split; [|by rewrite open_after_snoc; unfold uses; cbn; rewrite Huse].
      apply follows_app. split; [done|]. cbn. split; [exact Hsame|]. split; [done|].
      unfold uses. cbn. by rewrite Huse.
Qed.

(** Turns without calls and results may go. *)
Lemma thinned_follows l l' open : thinned l l' -> follows open l -> follows open l'.
Proof.
  intros H. revert open. induction H as [|t t' l l' Hu Hr Hro _ _ IH|t l l' Hu Hr _ IH]; intros open; simpl; [done| |].
  - intros (H1 & H2 & H3 & H4). rewrite Hu, Hr, Hro. auto.
  - rewrite Hu, Hr. intros (H1 & _ & _ & H4). apply IH in H4. destruct open as [|id open]; [done|]. exfalso.
    apply (not_elem_of_nil id), H1. by left.
Qed.

Lemma thinned_open l l' open : thinned l l' -> follows open l -> open_after open l' = open_after open l.
Proof.
  intros H. revert open. induction H as [|t t' l l' Hu Hr Hro _ _ IH|t l l' Hu Hr _ IH]; intros open; [done| |]; simpl.
  - intros (_ & _ & _ & H4). rewrite !open_after_cons, Hu. by apply IH.
  - intros (H1 & _ & _ & H4). rewrite open_after_cons, Hu. rewrite Hr in H1. rewrite Hu in H4.
    assert (open = []) as -> by (destruct open as [|id open]; [done|]; exfalso; apply (not_elem_of_nil id), H1; by left).
    by apply IH.
Qed.

(** C19: Anthropic accepts the turns of a prompt whose results stand right behind their calls: the calls of
    every turn, which is then the assistant's, have their results in the next turn, which is the
    user's and holds no other result, and no turn before or after the relocation of
    the images leaves a call open. *)
Theorem anthropic_turns_answered input thinkingEnabled relocateImages system turns :
  batched input ->
  normalize input thinkingEnabled relocateImages = Ok (system, turns) -> answered_turns turns.
Proof.
  intros Hb. unfold normalizeAnthropicProviderMessages. destruct (steps _ _ _) as [r|] eqn:Hs; [|done].
  assert (H0 : closed (mkRequest [] [] [] None)) by done.
  pose proof (batched_closed _ _ _ _ Hb H0 Hs) as Hc. intros [= <- <-]. unfold closed in Hc.
  destruct relocateImages; [|done]. destruct Hc as [Hf Ho]. pose proof (relocate_thinned (messages (flushToolResults r))) as Ht.
  split; [by eapply thinned_follows|]. by rewrite (thinned_open _ _ _ Ht).
Qed.

(** *** A longer prompt keeps the turns *)

(** The turns of [s] come back in [t] where they were; only the last one may have got more blocks. *)
Definition grows (s t : list anthropicMessage) : Prop := forall i u, s !! i = Some u ->
  exists u', t !! i = Some u' /\ TurnRole u' = TurnRole u /\ Content u `prefix_of` Content u' /\
             ((S i < length s)%nat -> u' = u).

Lemma grows_refl s : grows s s.
Proof. intros i u H. exists u. by split_and!. Qed.

Lemma grows_length s t : grows s t -> (length s <= length t)%nat.
Proof.
  intros H. destruct s as [|u s] using rev_ind; [simpl; lia|].
  destruct (H (length s) u) as (u' & Hu & _); [by apply list_lookup_middle|].
  apply lookup_lt_Some in Hu. rewrite length_app. simpl. lia.
Qed.

Lemma grows_trans s t v : grows s t -> grows t v -> grows s v.
Proof.
  intros H1 H2 i u Hu. destruct (H1 i u Hu) as (u' & Hu' & Hr & Hc & Hs).
  destruct (H2 i u' Hu') as (u'' & Hu'' & Hr' & Hc' & Hs'). exists u''. split_and!; [done|congruence|by etrans|].
  intros Hi. rewrite (Hs Hi) in Hs'. apply Hs'. pose proof (grows_length _ _ H1). lia.
Qed.

Lemma grows_app s t : grows s (s ++ t).
Proof. intros i u H. exists u. split_and!; [by apply lookup_app_l_Some|done|done|done]. Qed.

Lemma grows_last front u u' : TurnRole u' = TurnRole u -> Content u `prefix_of` Content u' ->
  grows (front ++ [u]) (front ++ [u']).
Proof.
  intros Hr Hc i v Hv. apply lookup_app_Some in Hv as [Hv|[Hi Hv]].
  - exists v. split_and!; [by apply lookup_app_l_Some|done|done|done].
  - apply list_lookup_singleton_Some in Hv as [Hi' <-]. exists u'. split_and!; [|done|done|].
    + rewrite lookup_app_r by done. by rewrite Hi'.
    + rewrite length_app. simpl. lia.
Qed.

Notation turns_of r := (messages (flushToolResults r)).

Lemma result_grows message r r' : add_result sha256 ReadFile DetectContentType Ext LowerCase Base64 message r = Ok r' ->
  grows (turns_of r) (turns_of r').
Proof.
  unfold add_result. destruct (decide (provider_id sha256 (MsgToolCallID message) = EmptyString)); [done|].
  destruct (if hasImageContentParts _ _ then _ else _) as [content|]; [|done]. intros [= <-].
  unfold flushToolResults. cbn [pendingToolResults]. set (block := ToolResultBlock _ _).
  destruct (decide (pendingToolResults r ++ [block] = [])) as [Hbad%app_nil|_]; [by destruct Hbad|].
  destruct (decide (pendingToolResults r = [])) as [->|Hp]; cbn [messages]; [apply grows_app|].
  apply grows_last; [done|]. cbn [Content]. by apply prefix_app_r.
Qed.

Lemma merge_grows turns message blocks merged :
  mergeAnthropicAssistantToolUseWithPrevious turns message blocks = Some merged -> grows turns merged.
Proof.
  unfold mergeAnthropicAssistantToolUseWithPrevious. destruct (last turns) as [previous|] eqn:Hl; [|done].
  destruct (_ || _); [done|]. destruct (_ || _); [done|].
  destruct (decide (TrimSpace (ReasoningContent message) = EmptyString)); [done|].
  destruct (_ || _); [done|]. destruct (decide (_ = [])); [done|]. intros [= <-].
  rewrite (last_split _ _ Hl) at 1. apply grows_last; [done|]. cbn [Content]. by apply prefix_app_r.
Qed.

Lemma step_grows te m r r' : step te m r = Ok r' -> grows (turns_of r) (turns_of r').
Proof.
  unfold add_message. destruct (decide (TrimSpace (MsgRole m) = "system")).
  { unfold add_system. destruct (hasImageContentParts _ _); [done|].
    destruct (decide (TrimSpace _ = EmptyString)); intros [= <-]; [apply grows_refl|].
    unfold flushToolResults. cbn. destruct (decide (pendingToolResults r = [])); apply grows_refl. }
  destruct (decide (TrimSpace (MsgRole m) = "tool")); [apply result_grows|].
  destruct (decide (_ \/ _)).
  - intros H. pose proof (speech_spoken _ _ _ _ _ (TrimSpace_idem _) eq_refl H) as [_ Hp].
    assert (Hr' : turns_of r' = messages r') by (unfold flushToolResults; by rewrite decide_True).
    rewrite Hr'. revert H. unfold add_speech. destruct (carry_messages te (TrimSpace (MsgRole m)) m (flushToolResults r)) as [Hm _].
    rewrite <- Hm. set (r0 := carry_thinking _ _ _ _). destruct (provider_blocks _ _ _); [|done].
    destruct (if decide _ then _ else _); [|done]. destruct (decide (_ = [])); [intros [= <-]; apply grows_refl|].
    destruct (decide (TrimSpace (MsgRole m) = "assistant")); [|intros [= <-]; apply grows_app].
    destruct (mergeAnthropicAssistantToolUseWithPrevious _ _ _) eqn:Hmerge; intros [= <-]; [|apply grows_app].
    by eapply merge_grows.
  - intros [= <-]. unfold add_other. pose proof (flush_pending r) as Hp. set (r0 := flushToolResults r) in *.
    destruct (decide (TrimSpace (MsgContent m) = EmptyString)); unfold flushToolResults; cbn; rewrite decide_True by done;
      [apply grows_refl|apply grows_app].
Qed.

Lemma steps_grow te input r r' : steps te input r = Ok r' -> grows (turns_of r) (turns_of r').
Proof.
  revert r. induction input as [|m input IH]; intros r; cbn [add_messages]; [intros [= <-]; apply grows_refl|].
  destruct (step te m r) as [r1|] eqn:Hs; [|done]. intros H. eapply grows_trans; [by eapply step_grows|by apply IH].
Qed.

Definition not_system (m : Message) : bool := negb (bool_decide (TrimSpace (MsgRole m) = "system")).

(** Requests that differ in their system parts. *)
Definition same_turns (r1 r2 : @Request Value) : Prop :=
  messages r1 = messages r2 /\ pendingToolResults r1 = pendingToolResults r2 /\ thinkingCarrier r1 = thinkingCarrier r2.

Lemma step_same te m r1 r2 r1' : TrimSpace (MsgRole m) <> "system" -> same_turns r1 r2 -> step te m r1 = Ok r1' ->
  exists r2', step te m r2 = Ok r2' /\ same_turns r1' r2'.
Proof.
  destruct r1 as [s1 ms p c], r2 as [s2 ms2 p2 c2]. intros Hsys (Hm & Hp & Hc). cbn in Hm, Hp, Hc. subst ms2 p2 c2.
  unfold add_message. rewrite !(decide_False (P := TrimSpace (MsgRole m) = "system")) by done.
  destruct (decide (TrimSpace (MsgRole m) = "tool")).
  - unfold add_result. destruct (decide (provider_id sha256 (MsgToolCallID m) = EmptyString)); [done|].
    destruct (if hasImageContentParts _ _ then _ else _); [|done]. intros [= <-]. eexists. split; [done|]. done.
  - destruct (decide (_ \/ _)).
    + unfold add_speech, carry_thinking, flushToolResults. cbn.
      destruct (decide (p = [])); cbn; (destruct (_ && _ && _); cbn; (destruct (provider_blocks _ _ _); [|done]);
        (destruct (if decide _ then _ else _); [|done]);
        repeat (match goal with |- context [decide ?P] => destruct (decide P) | |- context [mergeAnthropicAssistantToolUseWithPrevious ?a ?b ?c] => destruct (mergeAnthropicAssistantToolUseWithPrevious a b c) end);
        intros [= <-]; eexists; (split; [done|]); done).
    + unfold add_other, flushToolResults. cbn. destruct (decide (p = [])); cbn;
        destruct (decide (TrimSpace (MsgContent m) = EmptyString)); intros [= <-]; eexists; (split; [done|]); done.
Qed.

(** The system messages take no part in the turns. *)
Lemma steps_without_system te input r1 r2 r1' : same_turns r1 r2 -> steps te input r1 = Ok r1' ->
  exists r2', steps te (List.filter not_system input) r2 = Ok r2' /\ same_turns r1' r2'.
Proof.
  revert r1 r2. induction input as [|m input IH]; intros r1 r2 Hr; cbn [add_messages List.filter];
    [intros [= <-]; by exists r2|].
  destruct (step te m r1) as [r1m|] eqn:Hs; [|done]. intros H. unfold not_system at 1.
  destruct (decide (TrimSpace (MsgRole m) = "system")) as [Hsys|Hsys].
  - rewrite bool_decide_true by done. cbn [negb]. eapply IH; [|exact H]. unfold add_message in Hs.
    rewrite decide_True in Hs by done. unfold add_system in Hs. destruct (hasImageContentParts _ _); [done|].
    destruct (decide (TrimSpace _ = EmptyString)); by injection Hs as <-.
  - rewrite bool_decide_false by done. cbn [negb add_messages].
    destruct (step_same _ _ _ _ _ Hsys Hr Hs) as (r2m & -> & Hr2). by eapply IH.
Qed.

Lemma same_turns_flushed r1 r2 : same_turns r1 r2 -> turns_of r1 = turns_of r2.
Proof.
  intros (Hm & Hp & Hc). unfold flushToolResults. rewrite Hp. destruct (decide (pendingToolResults r2 = [])); [done|].
  cbn. by rewrite Hm.
Qed.

Lemma step_system te m r r' : not_system m = true -> step te m r = Ok r' -> systemParts r' = systemParts r.
Proof.
  intros Hm. unfold not_system in Hm. unfold add_message. rewrite decide_False by (by zbool).
  destruct (decide (TrimSpace (MsgRole m) = "tool")).
  - unfold add_result. destruct (decide (_ = EmptyString)); [done|].
    destruct (if hasImageContentParts _ _ then _ else _); [|done]. by intros [= <-].
  - assert (Hf : systemParts (flushToolResults r) = systemParts r) by (unfold flushToolResults; by destruct (decide _)).
    destruct (decide (_ \/ _)).
    + unfold add_speech.
      assert (Hc : systemParts (carry_thinking te (TrimSpace (MsgRole m)) m (flushToolResults r)) = systemParts r)
        by (unfold carry_thinking; by destruct (_ && _ && _)).
      rewrite <- Hc. destruct (provider_blocks _ _ _); [|done]. destruct (if decide _ then _ else _); [|done].
      destruct (decide (_ = [])); [by intros [= <-]|]. destruct (decide (_ = "assistant")); [|by intros [= <-]].
      destruct (mergeAnthropicAssistantToolUseWithPrevious _ _ _); by intros [= <-].
    + unfold add_other. rewrite <- Hf. destruct (decide (_ = EmptyString)); by intros [= <-].
Qed.

Lemma steps_system te l r r' : Forall (fun m => not_system m = true) l -> steps te l r = Ok r' ->
  systemParts r' = systemParts r.
Proof.
  intros Hl. revert r. induction Hl as [|m l Hm _ IH]; intros r; cbn [add_messages]; [by intros [= <-]|].
  destruct (step te m r) as [rm|] eqn:Hs; [|done]. intros H. rewrite (IH _ H). by eapply step_system.
Qed.

(** The turns that come from the first messages of a prompt. *)
Lemma stable_turns input n te system turns : normalize input te false = Ok (system, turns) ->
  exists stable, normalize (take n (List.filter not_system input)) te false = Ok ([], stable) /\ grows stable turns.
Proof.
  unfold normalizeAnthropicProviderMessages. destruct (steps te input _) as [r|] eqn:Hs; [|done]. intros [= <- <-].
  destruct (steps_without_system te input _ (mkRequest [] [] [] None) r ltac:(done) Hs) as (r2 & H2 & Hsame).
  rewrite (same_turns_flushed _ _ Hsame). rewrite <- (take_drop n (List.filter _ _)), steps_app in H2.
  destruct (steps te (take n _) _) as [r1|] eqn:H1; [|done]. exists (turns_of r1). split; [|by eapply steps_grow].
  f_equal. f_equal. clear H2 Hs Hsame r r2.
  assert (Hn : Forall (fun m => not_system m = true) (take n (List.filter not_system input))).
  { apply Forall_take, Forall_forall. intros m Hm. apply list_elem_of_In, filter_In in Hm. tauto. }
  change [] with (systemParts (@mkRequest Value [] [] [] None)) at 1. rewrite <- (steps_system _ _ _ _ Hn H1).
  unfold flushToolResults. by destruct (decide _).
Qed.

(** The stable part of a prompt gives a stable part of the request.  When a prompt is translated, without
    relocating images, the count of stable turns is the number of turns its first [n] messages (without the
    system's) give alone; these turns stand at the front of the request in the same places, and only
    the last of them may have got more blocks at its end. *)
Theorem stable_turns_counted input n te system turns :
  0 < n -> normalize input te false = Ok (system, turns) ->
  exists stable,
    normalize (take (Z.to_nat n) (List.filter not_system input)) te false = Ok ([], stable) /\
    anthropicStableProviderMessageCount empty_object Unmarshal sha256 ReadFile DetectContentType Ext LowerCase Base64
      input n te = length stable /\
    grows stable turns.
Proof.
  intros Hn H. destruct (stable_turns _ (Z.to_nat n) _ _ _ H) as (stable & Hs & Hg). exists stable.
  split; [done|]. split; [|done]. unfold anthropicStableProviderMessageCount. replace (n <=? 0) with false by lia.
  fold not_system. by rewrite Hs.
Qed.

End Pairs.

(** ** Demonstrations

    A file system with one picture; the arguments of a call are kept as they are. *)
Module Demo.
Definition picture : string := "pixels".

Definition demo_read (path : string) : result bytes :=
  if decide (path = "/shot.webp") then Ok (bytes_of picture) else Err "no such file".

Definition demo_ext (path : string) : string := if decide (path = "/shot.webp") then ".webp" else EmptyString.

Definition translate : list Message -> bool -> bool -> result (list string * list (anthropicMessage string)) :=
  normalizeAnthropicProviderMessages "{}" Ok id demo_read (fun _ => "application/octet-stream") demo_ext id
    (fun data => string_of data).

Definition call (id name : string) : ToolCallDescriptor :=
  mkCall id 0 "function" name EmptyString EmptyString EmptyString EmptyString.

Definition calls (reasoning : string) (ids : list string) : Message :=
  text_message "assistant" EmptyString <| ReasoningContent := reasoning |>
    <| ToolCalls := map (fun id => call id " Read ") ids |>.

Definition answer (id : string) : Message := text_message "tool" "text" <| MsgToolCallID := id |>.

Definition look : Message :=
  text_message "user" EmptyString
    <| ContentParts := [mkPart "image" EmptyString (Some (mkImage EmptyString "/shot.webp" EmptyString))] |>.

(** A picture, a thought followed by its two calls, their results in the other order, a question. *)
Definition prompt : list Message :=
  [text_message "system" "be brief"; look; text_message "assistant" "let me see" <| ReasoningContent := "hm" |>;
   calls "hm" ["a"; "b"]; answer "b"; answer " a "; text_message "user" "and?"].

(** The calls continue the thinking turn, the results share a turn, the picture moves to the question
    and the turn it came from is gone. *)
Example prompt_translated :
  translate prompt true true =
  Ok (["be brief"],
      [mkTurn "assistant" [ThinkingBlock "hm" None; TextBlock "let me see"; ToolUseBlock "a" "Read" "{}";
                           ToolUseBlock "b" "Read" "{}"];
       mkTurn "user" [ToolResultBlock "b" (inl "text"); ToolResultBlock "a" (inl "text")];
       mkTurn "user" [TextBlock "and?"; ImageBlock "image/webp" picture]]).
Proof. vm_compute. reflexivity. Qed.

Lemma prompt_batched : batched prompt.
Proof.
  apply batched_other; [done|done|]. apply batched_other; [done|done|]. apply batched_other; [done|done|].
  apply (batched_calls (calls "hm" ["a"; "b"]) [answer "b"; answer " a "] [text_message "user" "and?"]); [done| | |].
  - repeat constructor.
  - assert (Hp : map call_id (ToolCalls (calls "hm" ["a"; "b"])) ≡ₚ map result_id [answer "b"; answer " a "])
      by (vm_compute; constructor).
    intros id. by rewrite Hp.
  - apply batched_other; [done|done|constructor].
Qed.

(** A text of the assistant between two results is well paired for the router, but the second result then
    comes a turn too late, and Anthropic refuses the request. *)
Definition interrupted : list Message :=
  [calls EmptyString ["a"; "b"]; answer "a"; text_message "assistant" "meanwhile"; answer "b"].

Example interrupted_is_well_paired :
  map (fun m => (MsgContent m, map CallID (ToolCalls m), MsgToolCallID m)) (normalizeReplayMessageSequence interrupted) =
  map (fun m => (MsgContent m, map CallID (ToolCalls m), MsgToolCallID m)) interrupted.
Proof. vm_compute. reflexivity. Qed.

Example interrupted_calls_are_not_answered :
  exists turns, translate interrupted false false = Ok ([], turns) /\
    map (fun t => (TurnRole t, map fst (uses t), results t)) turns =
    [("assistant", ["a"; "b"], []); ("user", [], ["a"]); ("assistant", [], []); ("user", [], ["b"])] /\
    ~ answered_turns turns.
Proof.
  eexists. split; [vm_compute; reflexivity|]. split; [vm_compute; reflexivity|].
  intros [(_ & _ & _ & H & _) _]. specialize (H "b"). assert (Hb : ("b" : string) ∈ ["a"; "b"]) by (right; left).
  apply H in Hb. vm_compute in Hb. inversion Hb as [|? ? ? Hin]; subst. inversion Hin.
Qed.
End Demo.

Lemma anthropic_keeps_calls_witness : exists turns,
  Demo.translate Demo.prompt true true = Ok (["be brief"], turns) /\
  all_uses turns = List.flat_map (sent_calls id) Demo.prompt /\
  all_turn_results turns = List.flat_map (sent_results id) Demo.prompt /\
  (true = true -> Forall assistant_thinks turns).
Proof.
  eexists. split; [exact Demo.prompt_translated|].
  exact (anthropic_keeps_calls _ _ _ _ _ _ _ _ Demo.prompt true true _ _ Demo.prompt_translated).
Defined.

Lemma anthropic_turns_answered_witness : exists turns,
  batched Demo.prompt /\ Demo.translate Demo.prompt true true = Ok (["be brief"], turns) /\ answered_turns turns.
Proof.
  eexists. split; [exact Demo.prompt_batched|]. split; [exact Demo.prompt_translated|].
  exact (anthropic_turns_answered _ _ _ _ _ _ _ _ Demo.prompt true true _ _ Demo.prompt_batched Demo.prompt_translated).
Defined.
