(* ===== verification/AnthropicCache.v ===== *)
(** * The prompt cache of a request to Anthropic (agent/model/anthropic.go, service.go).

    The body of a request is marked at four places at most: behind the tools, the system prompt, the
    stable turns and all turns.  The hash of the body up to the last mark is kept with the
    conversation; when the next body begins the same way, a read of the cache is expected.

    A body is the JSON object before and after it is cloned through JSON: the code reads typed lists
    before and generic ones after, of the same shape.  Tools, and the fields of the body that play no
    part here, are opaque.  Marshalling a body and SHA-256 are parameters. *)

From S2P Require Import Prelude Go Strings ToolCallId Messages Tokens Anthropic.

(** ** Data *)

(** An object and whether it has the ["cache_control"] of [anthropicEphemeralCacheControl]. *)
Record Marked (A : Type) := mark { item : A; cache_control : bool }.

Arguments mark {_}.
Arguments item {_}.
Arguments cache_control {_}.

Record Turn (Value : Type) := mkMarkedTurn { Role : string; Blocks : list (Marked (Block Value)) }.

Arguments mkMarkedTurn {_}.
Arguments Role {_}.
Arguments Blocks {_}.

(** [None] when the key ["messages"] is missing. *)
Record Body (Tool Fields Value : Type) := mkBody {
  fields : Fields;
  body_tools : list (Marked Tool);
  body_system : list (Marked string);
  body_messages : option (list (Turn Value))
}.

Arguments mkBody {_ _ _}.
Arguments fields {_ _ _}.
Arguments body_tools {_ _ _}.
Arguments body_system {_ _ _}.
Arguments body_messages {_ _ _}.

#[export] Instance eta_turn {Value} : Eta (Turn Value) := fun t => mkMarkedTurn (Role t) (Blocks t).
#[export] Instance eta_body {Tool Fields Value} : Eta (Body Tool Fields Value) := fun b =>
  mkBody (fields b) (body_tools b) (body_system b) (body_messages b).

Record anthropicCacheFrontier := mkFrontier {
  CanonicalBodyHash : bytes;
  FrontierHash : bytes;
  FrontierPath : bytes;
  BreakpointPositions : list bytes;
  BreakpointCount : Z;
  ExpectedCacheRead : bool;
  PreviousFrontierMatched : bool
}.

#[export] Instance eta_frontier : Eta anthropicCacheFrontier := fun f =>
  mkFrontier (CanonicalBodyHash f) (FrontierHash f) (FrontierPath f) (BreakpointPositions f) (BreakpointCount f)
    (ExpectedCacheRead f) (PreviousFrontierMatched f).

(** What the request knows of the frontier before: ["previous_cache_frontier_hash"], and
    ["previous_cache_frontier"] with its hash and path. *)
Record Knobs := mkKnobs { previous_hash : bytes; previous_frontier : option (bytes * bytes) }.

Section Cache.
Context {Tool Fields Value : Type}.
Context (sha256 : bytes -> bytes) (Marshal : Body Tool Fields Value -> result bytes).

Notation Body := (Body Tool Fields Value).
Notation Turn := (Turn Value).
Notation Block := (Block Value).

(** ** Where to mark *)

Definition isAnthropicCacheableBlock (block : Block) : bool :=
  match block with
  | TextBlock text => negb (bool_decide (TrimSpace text = EmptyString))
  | ToolResultBlock _ (inl content) => negb (bool_decide (TrimSpace content = EmptyString))
  | ToolResultBlock _ (inr content) => negb (bool_decide (length content = 0%nat))
  | ToolUseBlock id name _ =>
      negb (bool_decide (TrimSpace id = EmptyString)) && negb (bool_decide (TrimSpace name = EmptyString))
  | ImageBlock _ _ | ThinkingBlock _ _ => false
  end.

Definition bracket_path (name : string) (i : nat) : bytes :=
  bytes_of name ++ bytes_of "[" ++ decimal (Z.of_nat i) ++ bytes_of "]".

Definition block_path (i j : nat) : bytes :=
  bytes_of "messages[" ++ decimal (Z.of_nat i) ++ bytes_of "].content[" ++ decimal (Z.of_nat j) ++ bytes_of "]".

(** The last cacheable block among the first [n]. *)
Fixpoint last_cacheable (blocks : list (Marked Block)) (n : nat) : option nat :=
  match n with
  | O => None
  | S j => match blocks !! j with
           | Some block => if isAnthropicCacheableBlock (item block) then Some j else last_cacheable blocks j
           | None => last_cacheable blocks j
           end
  end.

Fixpoint last_cacheable_in (messages : list Turn) (n : nat) : option (nat * nat) :=
  match n with
  | O => None
  | S i => match messages !! i with
           | Some message => match last_cacheable (Blocks message) (length (Blocks message)) with
                             | Some j => Some (i, j)
                             | None => last_cacheable_in messages i
                             end
           | None => last_cacheable_in messages i
           end
  end.

Definition anthropicMessageCacheBreakpointPath (body : Body) (messageCount : nat) : bytes :=
  match body_messages body with
  | None => []
  | Some messages =>
      match last_cacheable_in messages (Nat.min messageCount (length messages)) with
      | Some (i, j) => block_path i j
      | None => []
      end
  end.

Definition anthropicBodyMessageCount (body : Body) : nat :=
  match body_messages body with Some messages => length messages | None => 0 end.

Fixpoint dedupe (seen : gset bytes) (items : list bytes) : list bytes :=
  match items with
  | [] => []
  | item :: items =>
      let item := trim_space item in
      if decide (item = []) then dedupe seen items
      else if decide (item ∈ seen) then dedupe seen items
      else item :: dedupe ({[item]} ∪ seen) items
  end.

Definition dedupeAnthropicCacheBreakpointPositions (items : list bytes) : list bytes := dedupe ∅ items.

Definition last_path {A} (name : string) (l : list A) : list bytes :=
  if decide (length l = 0%nat) then [] else [bracket_path name (pred (length l))].

Definition path_unless_empty (path : bytes) : list bytes := if decide (path = []) then [] else [path].

Definition anthropicCacheBreakpointPositions (body : Body) (stableMessageCount : nat) : list bytes :=
  dedupeAnthropicCacheBreakpointPositions (
    last_path "tools" (body_tools body) ++
    last_path "system" (body_system body) ++
    (if decide (stableMessageCount = 0%nat) then []
     else path_unless_empty (anthropicMessageCacheBreakpointPath body stableMessageCount)) ++
    path_unless_empty (anthropicMessageCacheBreakpointPath body (anthropicBodyMessageCount body))).

(** ** The body *)

Definition anthropicBillingHeaderSystemText : string :=
  "x-anthropic-billing-header: cc_version=2.1.179.61a; cc_entrypoint=cli; cch=37703;".

Definition anthropicProviderSystemBlocks (systemParts : list string) : list string :=
  anthropicBillingHeaderSystemText ::
  (if decide (length systemParts = 0%nat) then []
   else [String.concat (string_of [LF; LF]) systemParts]).

Definition unmarked {A} (x : A) : Marked A := mark x false.

Definition request_body (other : Fields) (tools : list Tool) (systemParts : list string)
    (turns : list (anthropicMessage Value)) : Body :=
  mkBody other (map unmarked tools) (map unmarked (anthropicProviderSystemBlocks systemParts))
    (Some (map (fun turn => mkMarkedTurn (TurnRole turn) (map unmarked (Content turn))) turns)).

(** ** Marking *)

Definition mark_item {A} (m : Marked A) : Marked A := mark (item m) true.

(** Nothing happens when the index is out of range. *)
Definition mark_at {A} (i : Z) (l : list (Marked A)) : list (Marked A) :=
  if i <? 0 then l else alter mark_item (Z.to_nat i) l.

Definition parseAnthropicBracketIndex (position : bytes) (prefix : string) : option Z :=
  match strip_prefix (bytes_of prefix ++ bytes_of "[") position with
  | None => None
  | Some rest =>
      if HasSuffix position (bytes_of "]") then Atoi (TrimSuffix rest (bytes_of "]")) else None
  end.

(** [strings.Split] gives two parts when the separator occurs once. *)
Definition parseAnthropicMessageBlockPath (position : bytes) : option (Z * Z) :=
  match strip_prefix (bytes_of "messages[") position with
  | None => None
  | Some rest =>
      if negb (HasSuffix position (bytes_of "]")) then None
      else match Cut rest (bytes_of "].content[") with
           | None => None
           | Some (first, second) =>
               match Cut second (bytes_of "].content[") with
               | Some _ => None
               | None =>
                   match Atoi first with
                   | None => None
                   | Some messageIndex =>
                       match Atoi (TrimSuffix second (bytes_of "]")) with
                       | None => None
                       | Some blockIndex => Some (messageIndex, blockIndex)
                       end
                   end
               end
           end
  end.

Definition mark_block (messageIndex blockIndex : Z) (messages : list Turn) : list Turn :=
  if messageIndex <? 0 then messages
  else alter (fun message => message <| Blocks := mark_at blockIndex (Blocks message) |>) (Z.to_nat messageIndex) messages.

Definition applyAnthropicCacheBreakpoint (body : Body) (position : bytes) : Body :=
  let position := trim_space position in
  if decide (is_Some (strip_prefix (bytes_of "tools[") position)) then
    match parseAnthropicBracketIndex position "tools" with
    | Some index => body <| body_tools := mark_at index (body_tools body) |>
    | None => body
    end
  else if decide (is_Some (strip_prefix (bytes_of "system[") position)) then
    match parseAnthropicBracketIndex position "system" with
    | Some index => body <| body_system := mark_at index (body_system body) |>
    | None => body
    end
  else
    match parseAnthropicMessageBlockPath position with
    | Some (messageIndex, blockIndex) =>
        body <| body_messages := mark_block messageIndex blockIndex <$> body_messages body |>
    | None => body
    end.

Definition applyAnthropicCacheBreakpoints (body : Body) (positions : list bytes) : Body :=
  fold_left applyAnthropicCacheBreakpoint positions body.

(** ** The frontier *)

Definition anthropicCanonicalHash (body : Body) : bytes :=
  match Marshal body with Err _ => [] | Ok payload => take 16 (EncodeToString (sha256 payload)) end.

Definition cut_message (blockIndex : Z) (message : Turn) : Turn :=
  if (0 <=? blockIndex) && (blockIndex <? Z.of_nat (length (Blocks message)))
  then message <| Blocks := take (Z.to_nat (blockIndex + 1)) (Blocks message) |> else message.

Definition trimAnthropicBodyAfterFrontier (body : Body) (frontierPath : bytes) : Body :=
  if decide (is_Some (strip_prefix (bytes_of "tools[") frontierPath)) then body
  else if decide (is_Some (strip_prefix (bytes_of "system[") frontierPath)) then body <| body_messages := None |>
  else
    match parseAnthropicMessageBlockPath frontierPath, body_messages body with
    | Some (messageIndex, blockIndex), Some messages =>
        if (messageIndex <? 0) || (Z.of_nat (length messages) <=? messageIndex) then body
        else body <| body_messages :=
               Some (alter (cut_message blockIndex) (Z.to_nat messageIndex) (take (Z.to_nat (messageIndex + 1)) messages)) |>
    | _, _ => body
    end.

Definition anthropicCanonicalPrefixHash (body : Body) (frontierPath : bytes) : bytes :=
  if decide (trim_space frontierPath = []) then anthropicCanonicalHash body
  else anthropicCanonicalHash (trimAnthropicBodyAfterFrontier body frontierPath).

Definition buildAnthropicCacheFrontier (canonicalBody : Body) (stableMessageCount : nat) : anthropicCacheFrontier :=
  let positions := anthropicCacheBreakpointPositions canonicalBody stableMessageCount in
  let path := default [] (last positions) in
  mkFrontier (anthropicCanonicalHash canonicalBody)
    (if decide (positions = []) then [] else anthropicCanonicalPrefixHash canonicalBody path)
    path positions (Z.of_nat (length positions)) false false.

Definition anthropicPreviousFrontierHash (knobs : Knobs) : bytes :=
  let value := trim_space (previous_hash knobs) in
  if decide (value <> []) then value
  else match previous_frontier knobs with Some (hash, _) => trim_space hash | None => [] end.

Definition anthropicPreviousFrontierPath (knobs : Knobs) : bytes :=
  match previous_frontier knobs with Some (_, path) => trim_space path | None => [] end.

(** The frontier that goes into the knobs. *)
Definition annotateAnthropicRequestKnobs (knobs : Knobs) (canonicalBody : Body) (frontier : anthropicCacheFrontier)
  : anthropicCacheFrontier :=
  let previousHash := anthropicPreviousFrontierHash knobs in
  let previousPath := anthropicPreviousFrontierPath knobs in
  let current := if decide (previousPath = []) then [] else anthropicCanonicalPrefixHash canonicalBody previousPath in
  let matched := negb (bool_decide (previousHash = [])) && bool_decide (current = previousHash) in
  frontier <| PreviousFrontierMatched := matched |>
           <| ExpectedCacheRead := matched && (0 <? BreakpointCount frontier) |>.

(** What the conversation remembers of the frontier of its last request ([LatestRequestPrefix]). *)
Definition withPreviousCacheFrontierHint (prefix : option anthropicCacheFrontier) : Knobs :=
  match prefix with
  | None => mkKnobs [] None
  | Some prefix =>
      let frontierHash := trim_space (FrontierHash prefix) in
      if decide (frontierHash = []) then mkKnobs [] None
      else mkKnobs frontierHash (Some (frontierHash, FrontierPath prefix))
  end.

End Cache.

(** ** The places of a body *)

Section Places.
Context {Tool Fields Value : Type}.

Notation Body := (Body Tool Fields Value).
Notation Turn := (Turn Value).

Inductive Place := ToolPlace (i : nat) | SystemPlace (i : nat) | BlockPlace (i j : nat).

Definition print_place (p : Place) : bytes :=
  match p with
  | ToolPlace i => bracket_path "tools" i
  | SystemPlace i => bracket_path "system" i
  | BlockPlace i j => block_path i j
  end.

Definition blocks_at (body : Body) (i : nat) : list (Marked (Block Value)) :=
  match default [] (body_messages body) !! i with Some message => Blocks message | None => [] end.

(** The mark at a place, [None] when there is none. *)
Definition mark_of (body : Body) (p : Place) : option bool :=
  match p with
  | ToolPlace i => cache_control <$> body_tools body !! i
  | SystemPlace i => cache_control <$> body_system body !! i
  | BlockPlace i j => cache_control <$> blocks_at body i !! j
  end.

Definition marked (body : Body) (p : Place) : Prop := mark_of body p = Some true.

(** A body without its marks. *)
Definition unmark {A} (m : Marked A) : Marked A := mark (item m) false.

Definition unmark_turn (message : Turn) : Turn := message <| Blocks := map unmark (Blocks message) |>.

Definition unmark_body (body : Body) : Body :=
  mkBody (fields body) (map unmark (body_tools body)) (map unmark (body_system body))
    (map unmark_turn <$> body_messages body).

Definition small (n : nat) : Prop := Z.of_nat n <= max_int64.

(** Its lists have lengths of machine integers. *)
Definition small_body (body : Body) : Prop :=
  small (length (body_tools body)) /\ small (length (body_system body)) /\
  small (length (default [] (body_messages body))) /\ forall i, small (length (blocks_at body i)).

Definition small_place (p : Place) : Prop :=
  match p with ToolPlace i | SystemPlace i => small i | BlockPlace i j => small i /\ small j end.

(** *** Paths are read back *)

Lemma digit_code c : is_digit c -> (48 <= nat_of_ascii c <= 57)%nat.
Proof. intros (k & Hk & ->). unfold digit, byte_of. rewrite nat_ascii_embedding; lia. Qed.

Lemma decimal_no_bracket n : small n -> "]"%char ∉ decimal (Z.of_nat n).
Proof.
  intros Hn Hin. destruct (decimal_parsed (Z.of_nat n)) as (Hd & _ & _); [unfold small in Hn; lia|].
  rewrite Forall_forall in Hd. apply Hd, digit_code in Hin. vm_compute in Hin. lia.
Qed.

(** A path starts with a letter and ends with a bracket. *)
Lemma path_trimmed c s : graphic c = true -> trim_space (c :: s ++ bytes_of "]") = c :: s ++ bytes_of "]".
Proof. intros Hc. by apply (trim_space_graphic _ c (s ++ bytes_of "]") (c :: s) "]"%char). Qed.

Lemma print_trimmed p : trim_space (print_place p) = print_place p.
Proof.
  destruct p as [i|i|i j]; cbn [print_place]; unfold bracket_path, block_path.
  - rewrite !app_assoc. by apply (path_trimmed "t"%char ((bytes_of "ools" ++ bytes_of "[") ++ decimal (Z.of_nat i))).
  - rewrite !app_assoc. by apply (path_trimmed "s"%char ((bytes_of "ystem" ++ bytes_of "[") ++ decimal (Z.of_nat i))).
  - rewrite !app_assoc. by apply (path_trimmed "m"%char (((bytes_of "essages[" ++ decimal (Z.of_nat i)) ++
      bytes_of "].content[") ++ decimal (Z.of_nat j))).
Qed.

Lemma strip_app p s : strip_prefix p (p ++ s) = Some s.
Proof. by apply strip_prefix_Some. Qed.

Lemma parse_bracket name i : small i -> parseAnthropicBracketIndex (bracket_path name i) name = Some (Z.of_nat i).
Proof.
  intros Hi. unfold parseAnthropicBracketIndex, bracket_path. rewrite (app_assoc (bytes_of name)), strip_app.
  assert (Hs : HasSuffix ((bytes_of name ++ bytes_of "[") ++ decimal (Z.of_nat i) ++ bytes_of "]") (bytes_of "]") = true)
    by (apply HasSuffix_spec; eexists; by rewrite !app_assoc).
  rewrite Hs, TrimSuffix_app. apply Atoi_decimal. unfold small in Hi. lia.
Qed.

Lemma cut_content front s : "]"%char ∉ front ->
  Cut (front ++ s) (bytes_of "].content[") =
  match Cut s (bytes_of "].content[") with
  | Some (before, after) => Some (front ++ before, after)
  | None => None
  end.
Proof. apply Cut_skip_front. Qed.

Lemma parse_block i j : small i -> small j ->
  parseAnthropicMessageBlockPath (block_path i j) = Some (Z.of_nat i, Z.of_nat j).
Proof.
  intros Hi Hj. unfold parseAnthropicMessageBlockPath, block_path. rewrite strip_app.
  set (rest := decimal (Z.of_nat i) ++ bytes_of "].content[" ++ decimal (Z.of_nat j) ++ bytes_of "]").
  assert (Hs : HasSuffix (bytes_of "messages[" ++ rest) (bytes_of "]") = true)
    by (apply HasSuffix_spec; eexists; unfold rest; by rewrite !app_assoc).
  rewrite Hs. cbn [negb]. unfold rest. rewrite cut_content by by apply decimal_no_bracket.
  rewrite (Cut_here _ _ (decimal (Z.of_nat j) ++ bytes_of "]")) by done. rewrite app_nil_r.
  rewrite cut_content by by apply decimal_no_bracket.
  assert (Hno : Cut (bytes_of "]") (bytes_of "].content[") = None) by done.
  rewrite Hno, Atoi_decimal by (unfold small in Hi; lia).
  rewrite TrimSuffix_app, Atoi_decimal by (unfold small in Hj; lia). done.
Qed.

Lemma decimal_inj i j : small i -> small j -> decimal (Z.of_nat i) = decimal (Z.of_nat j) -> i = j.
Proof.
  intros Hi Hj E. apply (f_equal Atoi) in E. unfold small in *. rewrite !Atoi_decimal in E by lia.
  injection E as E. lia.
Qed.

Lemma print_inj p q : small_place p -> small_place q -> print_place p = print_place q -> p = q.
Proof.
  assert (Hb : forall name i j, small i -> small j -> bracket_path name i = bracket_path name j -> i = j).
  { intros name i j Hi Hj E. apply (f_equal (fun s => parseAnthropicBracketIndex s name)) in E.
    rewrite !parse_bracket in E by done. injection E as E. lia. }
  destruct p as [i|i|i j], q as [i'|i'|i' j']; cbn [small_place print_place]; intros Hp Hq E; try done.
  - f_equal. by eapply Hb.
  - f_equal. by eapply Hb.
  - destruct Hp, Hq. apply (f_equal parseAnthropicMessageBlockPath) in E. rewrite !parse_block in E by done.
    injection E as E1 E2. f_equal; lia.
Qed.

(** *** Marking a place *)

Definition mark_place (body : Body) (p : Place) : Body :=
  match p with
  | ToolPlace i => body <| body_tools := alter mark_item i (body_tools body) |>
  | SystemPlace i => body <| body_system := alter mark_item i (body_system body) |>
  | BlockPlace i j =>
      body <| body_messages :=
        alter (fun message => message <| Blocks := alter mark_item j (Blocks message) |>) i <$> body_messages body |>
  end.

Lemma mark_at_nat {A} i (l : list (Marked A)) : mark_at (Z.of_nat i) l = alter mark_item i l.
Proof. unfold mark_at. rewrite (proj2 (Z.ltb_ge (Z.of_nat i) 0)) by lia. by rewrite Nat2Z.id. Qed.

Lemma apply_place body p : small_place p -> applyAnthropicCacheBreakpoint body (print_place p) = mark_place body p.
Proof.
  intros Hp. unfold applyAnthropicCacheBreakpoint. rewrite print_trimmed. cbv zeta.
  destruct p as [i|i|i j]; cbn [print_place small_place] in *.
  - rewrite decide_True by (eexists; apply strip_prefix_Some; reflexivity).
    rewrite parse_bracket by done. cbn [mark_place]. by rewrite mark_at_nat.
  - rewrite decide_False by (intros [x Hx]; done).
    rewrite decide_True by (eexists; apply strip_prefix_Some; reflexivity).
    rewrite parse_bracket by done. cbn [mark_place]. by rewrite mark_at_nat.
  - rewrite decide_False, decide_False by (intros [x Hx]; done). destruct Hp. rewrite parse_block by done.
    cbn [mark_place]. destruct body as [o t s [l|]]; [|done]. cbn. f_equal. f_equal. unfold mark_block.
    rewrite (proj2 (Z.ltb_ge (Z.of_nat i) 0)) by lia. rewrite Nat2Z.id. apply list_alter_ext; [|done].
    intros m Hm. cbn. by rewrite mark_at_nat.
Qed.

Lemma lookup_mark {A} i k (l : list (Marked A)) :
  cache_control <$> alter mark_item i l !! k = Some true <->
  cache_control <$> l !! k = Some true \/ k = i /\ is_Some (l !! k).
Proof.
  destruct (decide (k = i)) as [->|Hne].
  - rewrite list_lookup_alter_eq. destruct (l !! i) as [x|]; cbn.
    + split; [|done]. intros _. right. split; [done|by eexists].
    + split; [done|]. by intros [H|[_ [? H]]].
  - rewrite list_lookup_alter_ne by done. tauto.
Qed.

Lemma unmark_alter {A} i (l : list (Marked A)) : map unmark (alter mark_item i l) = map unmark l.
Proof.
  apply list_eq. intros k. rewrite !list_lookup_fmap. destruct (decide (k = i)) as [->|Hne].
  - rewrite list_lookup_alter_eq. by destruct (l !! i).
  - by rewrite list_lookup_alter_ne.
Qed.

Lemma mark_place_same body p : unmark_body (mark_place body p) = unmark_body body.
Proof.
  destruct body as [o t s m], p as [i|i|i j]; unfold unmark_body; cbn; f_equal; try apply unmark_alter.
  destruct m as [l|]; [|done]. cbn. f_equal. apply list_eq. intros k. rewrite !list_lookup_fmap.
  destruct (decide (k = i)) as [->|Hne]; [|by rewrite list_lookup_alter_ne].
  rewrite list_lookup_alter_eq. destruct (l !! i) as [x|]; [|done]. cbn. f_equal. unfold unmark_turn. cbn.
  by rewrite unmark_alter.
Qed.

Lemma mark_place_marked body p q :
  marked (mark_place body p) q <-> marked body q \/ q = p /\ is_Some (mark_of body q).
Proof.
  assert (Hother : forall P R : Prop, q <> p -> (P <-> P \/ q = p /\ R)) by (intros P R Hne; tauto).
  assert (Hnone : forall P Q R : Prop, ~ R -> (P <-> P \/ Q /\ R)) by (intros; tauto).
  unfold marked. destruct p as [i|i|i j], q as [i'|i'|i' j']; try (by apply Hother); cbn.
  - rewrite lookup_mark, fmap_is_Some. intuition congruence.
  - rewrite lookup_mark, fmap_is_Some. intuition congruence.
  - unfold blocks_at. destruct body as [o t s [l|]]; cbn;
      [|rewrite !lookup_nil; apply Hnone, is_Some_None].
    destruct (decide (i' = i)) as [->|Hne].
    + rewrite list_lookup_alter_eq. destruct (l !! i) as [m|]; cbn; [|apply Hnone; cbn; apply is_Some_None].
      rewrite lookup_mark, fmap_is_Some. intuition congruence.
    + rewrite list_lookup_alter_ne by done. intuition congruence.
Qed.

Lemma mark_place_shape body p q : is_Some (mark_of (mark_place body p) q) <-> is_Some (mark_of body q).
Proof.
  assert (H : forall b, is_Some (mark_of b q) <-> is_Some (mark_of (unmark_body b) q)).
  { intros [o t s m]. destruct q as [i|i|i j]; cbn; rewrite ?list_lookup_fmap, !fmap_is_Some; try done.
    unfold blocks_at. cbn. destruct m as [l|]; [|done]. cbn. rewrite list_lookup_fmap.
    destruct (l !! i) as [x|]; [|done]. cbn. by rewrite list_lookup_fmap, fmap_is_Some. }
  by rewrite H, mark_place_same, <- H.
Qed.

Lemma marks_of_places ps body q : Forall small_place ps ->
  unmark_body (applyAnthropicCacheBreakpoints body (map print_place ps)) = unmark_body body /\
  (marked (applyAnthropicCacheBreakpoints body (map print_place ps)) q <->
   marked body q \/ q ∈ ps /\ is_Some (mark_of body q)).
Proof.
  intros Hps. unfold applyAnthropicCacheBreakpoints. revert body.
  induction Hps as [|p ps Hp _ IH]; intros body; cbn [map fold_left]; [split; [done|set_solver]|].
  rewrite apply_place by done. destruct (IH (mark_place body p)) as [-> ->]. split; [apply mark_place_same|].
  rewrite mark_place_marked, mark_place_shape, elem_of_cons. naive_solver.
Qed.

(** *** The last cacheable blocks *)

Definition cacheable (blocks : list (Marked (Block Value))) (j : nat) : Prop :=
  exists block, blocks !! j = Some block /\ isAnthropicCacheableBlock (item block) = true.

(** The block [j] of message [i] is the last cacheable one of the first [n] messages. *)
Definition newest_cacheable (body : Body) (n i j : nat) : Prop :=
  (i < n)%nat /\ cacheable (blocks_at body i) j /\
  forall i' j', (i' < n)%nat -> cacheable (blocks_at body i') j' -> (i' < i \/ i' = i /\ j' <= j)%nat.

Lemma last_cacheable_spec blocks n :
  match last_cacheable blocks n with
  | Some j => (j < n)%nat /\ cacheable blocks j /\ forall j', (j' < n)%nat -> cacheable blocks j' -> (j' <= j)%nat
  | None => forall j', (j' < n)%nat -> ~ cacheable blocks j'
  end.
Proof.
  induction n as [|n IH]; cbn [last_cacheable]; [intros; lia|].
  assert (Hskip : ~ cacheable blocks n ->
    match last_cacheable blocks n with
    | Some j => (j < S n)%nat /\ cacheable blocks j /\ forall j', (j' < S n)%nat -> cacheable blocks j' -> (j' <= j)%nat
    | None => forall j', (j' < S n)%nat -> ~ cacheable blocks j'
    end).
  { intros Hn. destruct (last_cacheable blocks n) as [j|].
    - destruct IH as (H1 & H2 & H3). split_and!; [lia|done|]. intros j' Hj' Hc. apply H3; [|done].
      destruct (decide (j' = n)) as [->|]; [done|lia].
    - intros j' Hj'. destruct (decide (j' = n)) as [->|]; [done|apply IH; lia]. }
  destruct (blocks !! n) as [b|] eqn:Hb; [|apply Hskip; intros (b & Hb' & _); congruence].
  destruct (isAnthropicCacheableBlock (item b)) eqn:Hc; [|apply Hskip; intros (b' & Hb' & Hc'); congruence].
  split_and!; [lia|by exists b|intros; lia].
Qed.

Lemma last_cacheable_in_spec body messages n : body_messages body = Some messages ->
  match last_cacheable_in messages n with
  | Some (i, j) => newest_cacheable body n i j
  | None => forall i j, (i < n)%nat -> ~ cacheable (blocks_at body i) j
  end.
Proof.
  intros Hm. induction n as [|n IH]; cbn [last_cacheable_in]; [intros; lia|].
  assert (Hskip : (forall j, ~ cacheable (blocks_at body n) j) ->
    match last_cacheable_in messages n with
    | Some (i, j) => newest_cacheable body (S n) i j
    | None => forall i j, (i < S n)%nat -> ~ cacheable (blocks_at body i) j
    end).
  { intros Hn. destruct (last_cacheable_in messages n) as [[i j]|].
    - destruct IH as (H1 & H2 & H3). split_and!; [lia|done|]. intros i' j' Hi' Hc. apply H3; [|done].
      destruct (decide (i' = n)) as [->|]; [by destruct (Hn j')|lia].
    - intros i j Hi. destruct (decide (i = n)) as [->|]; [apply Hn|apply IH; lia]. }
  assert (Hat : blocks_at body n = match messages !! n with Some m => Blocks m | None => [] end)
    by (unfold blocks_at; by rewrite Hm).
  destruct (messages !! n) as [m|]; [|apply Hskip; intros j (b & Hb & _); by rewrite Hat in Hb].
  pose proof (last_cacheable_spec (Blocks m) (length (Blocks m))) as Hl.
  assert (Hin : forall j, cacheable (blocks_at body n) j -> (j < length (Blocks m))%nat)
    by (intros j (b & Hb & _); rewrite Hat in Hb; by apply lookup_lt_Some in Hb).
  destruct (last_cacheable (Blocks m) _) as [j|].
  - destruct Hl as (_ & H2 & H3). split_and!; [lia|by rewrite Hat|]. intros i' j' Hi' Hc.
    destruct (decide (i' = n)) as [->|]; [right|left; lia]. split; [done|]. apply H3; [auto|by rewrite <- Hat].
  - apply Hskip. intros j Hc. apply (Hl j); [auto|by rewrite <- Hat].
Qed.

(** *** The places of the breakpoints *)

Definition block_places (body : Body) (n : nat) : list Place :=
  match body_messages body with
  | None => []
  | Some messages => match last_cacheable_in messages (Nat.min n (length messages)) with
                     | Some (i, j) => [BlockPlace i j]
                     | None => []
                     end
  end.

Definition last_place {A} (f : nat -> Place) (l : list A) : list Place :=
  if decide (length l = 0%nat) then [] else [f (pred (length l))].

Definition break_places (body : Body) (stable : nat) : list Place :=
  last_place ToolPlace (body_tools body) ++ last_place SystemPlace (body_system body) ++
  (if decide (stable = 0%nat) then [] else block_places body stable) ++
  block_places body (anthropicBodyMessageCount body).

Lemma print_not_empty p : print_place p <> [].
Proof. by destruct p. Qed.

Lemma block_places_path body n :
  path_unless_empty (anthropicMessageCacheBreakpointPath body n) = map print_place (block_places body n).
Proof.
  unfold path_unless_empty, anthropicMessageCacheBreakpointPath, block_places.
  destruct (body_messages body) as [messages|]; [|done].
  destruct (last_cacheable_in messages (Nat.min n (length messages))) as [[i j]|]; [|done].
  rewrite decide_False; [done|]. exact (print_not_empty (BlockPlace i j)).
Qed.

Lemma positions_of_places body stable :
  anthropicCacheBreakpointPositions body stable =
  dedupeAnthropicCacheBreakpointPositions (map print_place (break_places body stable)).
Proof.
  unfold anthropicCacheBreakpointPositions, break_places. f_equal. rewrite !map_app, !block_places_path.
  assert (Hl : forall A name f (l : list A), (forall i, print_place (f i) = bracket_path name i) ->
    last_path name l = map print_place (last_place f l)).
  { intros A name f l Hf. unfold last_path, last_place. destruct (decide _); [done|]. cbn. by rewrite Hf. }
  rewrite (Hl _ _ ToolPlace), (Hl _ _ SystemPlace) by done. by destruct (decide (stable = 0%nat)).
Qed.

Lemma dedupe_places l seen : exists ps, dedupe seen (map print_place l) = map print_place ps /\
  (length ps <= length l)%nat /\ (forall p, p ∈ ps -> p ∈ l) /\
  forall p, p ∈ l -> print_place p ∈ map print_place ps \/ print_place p ∈ seen.
Proof.
  revert seen. induction l as [|p l IH]; intros seen; cbn [map dedupe].
  - exists []. split_and!; [done|done|done|]. intros p Hp. by apply not_elem_of_nil in Hp.
  - rewrite print_trimmed, decide_False by apply print_not_empty.
    destruct (decide (print_place p ∈ seen)) as [Hs|Hs].
    + destruct (IH seen) as (ps & -> & Hl & Hsub & Hall). exists ps. split_and!; [done|cbn; lia|set_solver|].
      intros q [->|Hq]%elem_of_cons; [by right|auto].
    + destruct (IH ({[print_place p]} ∪ seen)) as (ps & -> & Hl & Hsub & Hall). exists (p :: ps).
      split_and!; [done|cbn; lia|set_solver|]. cbn [map].
      intros q [->|Hq]%elem_of_cons; [left; by left|]. destruct (Hall q Hq) as [?|?]; set_solver.
Qed.

End Places.

(** ** The marks of a request *)

Section Marks.
Context {Tool Fields Value : Type}.

Notation Body := (Body Tool Fields Value).

Lemma block_places_spec (body : Body) n p : (n <= anthropicBodyMessageCount body)%nat ->
  p ∈ block_places body n <-> exists i j, p = BlockPlace i j /\ newest_cacheable body n i j.
Proof.
  unfold block_places, anthropicBodyMessageCount. intros Hn.
  destruct (body_messages body) as [messages|] eqn:Hm.
  - rewrite Nat.min_l by lia. pose proof (last_cacheable_in_spec body messages n Hm) as H.
    destruct (last_cacheable_in messages n) as [[i j]|].
    + rewrite list_elem_of_singleton. split; [intros ->; by exists i, j|].
      intros (i' & j' & -> & H1 & H2 & H3). destruct H as (H4 & H5 & H6).
      specialize (H3 i j H4 H5). specialize (H6 i' j' H1 H2). f_equal; lia.
    + split; [by intros ?%not_elem_of_nil|]. intros (i & j & _ & H1 & H2 & _). by destruct (H i j).
  - split; [by intros ?%not_elem_of_nil|]. intros (i & j & _ & _ & (b & Hb & _) & _).
    unfold blocks_at in Hb. by rewrite Hm in Hb.
Qed.

(** The places the request is to be marked at. *)
Definition breakpoint (body : Body) (stable : nat) (p : Place) : Prop :=
  match p with
  | ToolPlace i => length (body_tools body) = S i
  | SystemPlace i => length (body_system body) = S i
  | BlockPlace i j =>
      newest_cacheable body (Nat.min stable (anthropicBodyMessageCount body)) i j \/
      newest_cacheable body (anthropicBodyMessageCount body) i j
  end.

Lemma block_places_min (body : Body) n :
  block_places body n = block_places body (Nat.min n (anthropicBodyMessageCount body)).
Proof.
  unfold block_places, anthropicBodyMessageCount. destruct (body_messages body) as [messages|]; [|done].
  by replace (Nat.min (Nat.min n (length messages)) (length messages)) with (Nat.min n (length messages)) by lia.
Qed.

Lemma last_place_spec {A} (f : nat -> Place) (l : list A) p :
  p ∈ last_place f l <-> exists i, p = f i /\ length l = S i.
Proof.
  unfold last_place. destruct (decide (length l = 0%nat)) as [H|H].
  - split; [by intros ?%not_elem_of_nil|]. intros (i & _ & Hi). lia.
  - rewrite list_elem_of_singleton. split; [intros ->; eexists; split; [done|lia]|]. intros (i & -> & ->). done.
Qed.

Lemma break_places_spec (body : Body) stable p : p ∈ break_places body stable <-> breakpoint body stable p.
Proof.
  unfold break_places. rewrite !elem_of_app, !last_place_spec, (block_places_spec body (anthropicBodyMessageCount body)) by lia.
  assert (Hs : p ∈ (if decide (stable = 0%nat) then [] else block_places body stable) <->
    exists i j, p = BlockPlace i j /\ newest_cacheable body (Nat.min stable (anthropicBodyMessageCount body)) i j).
  { destruct (decide (stable = 0%nat)) as [->|Hne].
    - split; [by intros ?%not_elem_of_nil|]. intros (i & j & _ & H & _). lia.
    - rewrite block_places_min. apply block_places_spec. lia. }
  rewrite Hs. destruct p as [i|i|i j]; cbn; naive_solver.
Qed.

Lemma break_places_count (body : Body) stable : (length (break_places body stable) <= 4)%nat.
Proof.
  unfold break_places, last_place, block_places. rewrite !length_app.
  repeat (match goal with
          | |- context [decide ?P] => destruct (decide P)
          | |- context [match body_messages body with _ => _ end] => destruct (body_messages body)
          | |- context [last_cacheable_in ?l ?n] => destruct (last_cacheable_in l n) as [[]|]
          end; cbn [length]); lia.
Qed.

(** The places exist, so that their indices are small. *)
Lemma breakpoint_in_range (body : Body) stable p : small_body body -> breakpoint body stable p ->
  small_place p /\ is_Some (mark_of body p).
Proof.
  unfold small_body, small. intros (Ht & Hs & Hm & Hb).
  destruct p as [i|i|i j]; cbn; rewrite ?fmap_is_Some, ?lookup_lt_is_Some; unfold small; [lia|lia|].
  intros H. assert (Hc : (i < anthropicBodyMessageCount body)%nat /\ cacheable (blocks_at body i) j)
    by (destruct H as [(H1 & H2 & _)|(H1 & H2 & _)]; split; [lia|done|lia|done]).
  destruct Hc as [Hi (b & Hb' & _)]. apply lookup_lt_Some in Hb'. specialize (Hb i).
  unfold anthropicBodyMessageCount in Hi. destruct (body_messages body); cbn in *; lia.
Qed.

Definition no_marks (body : Body) : Prop := forall p, ~ marked body p.

(** C21: A request is marked for the cache where it should be, and nowhere else.  Four paths are computed at
    most; parsed and applied to a body without marks they mark the last tool, the last system block, the
    last cacheable block of the stable turns and the last one of all turns, these four when
    they exist, and change nothing else of the body. *)
Theorem cache_breakpoints_marked (body : Body) stable :
  small_body body -> no_marks body ->
  let positions := anthropicCacheBreakpointPositions body stable in
  let marked_body := applyAnthropicCacheBreakpoints body positions in
  (length positions <= 4)%nat /\ unmark_body marked_body = unmark_body body /\
  forall p, marked marked_body p <-> breakpoint body stable p.
Proof.
  intros Hsmall Hno. cbv zeta. rewrite positions_of_places. unfold dedupeAnthropicCacheBreakpointPositions.
  destruct (dedupe_places (break_places body stable) ∅) as (ps & -> & Hl & Hsub & Hall).
  pose proof (break_places_count body stable) as H4. split; [rewrite length_map; lia|].
  assert (Hps : Forall small_place ps).
  { apply Forall_forall. intros p Hp. eapply breakpoint_in_range; [done|]. by apply break_places_spec, Hsub. }
  split; [by apply (marks_of_places ps body (ToolPlace 0))|]. intros p.
  destruct (marks_of_places ps body p Hps) as [_ ->]. split.
  - intros [H|[Hp _]]; [by destruct (Hno p)|]. by apply break_places_spec, Hsub.
  - intros Hp. destruct (breakpoint_in_range _ _ _ Hsmall Hp) as [Hsp Hm]. right. split; [|done].
    apply break_places_spec in Hp. destruct (Hall p Hp) as [H|H]; [|set_solver].
    apply list_elem_of_fmap in H as (q & Hq & Hin).
    apply print_inj in Hq; [by subst|done|]. rewrite Forall_forall in Hps. by apply Hps.
Qed.

End Marks.

(** ** The frontier of the request before *)

Section Frontier.
Context {Tool Fields Value : Type}.
Context (sha256 : bytes -> bytes) (Marshal : Body Tool Fields Value -> result bytes).
Context (Hsha : forall s, sha256 s <> []) (Hmarshal : forall b, exists payload, Marshal b = Ok payload).

Notation Body := (Body Tool Fields Value).
Notation build := (buildAnthropicCacheFrontier sha256 Marshal).
Notation hash := (anthropicCanonicalHash sha256 Marshal).
Notation trim := (@trimAnthropicBodyAfterFrontier Tool Fields Value).

Lemma dedupe_app seen l k :
  dedupe seen (l ++ k) = dedupe seen l ++ dedupe (list_to_set (dedupe seen l) ∪ seen) k.
Proof.
  revert seen. induction l as [|x l IH]; intros seen; cbn [app dedupe].
  - f_equal. set_solver.
  - destruct (decide (trim_space x = [])); [apply IH|]. destruct (decide (trim_space x ∈ seen)); [apply IH|].
    rewrite IH. cbn [app list_to_set foldr]. f_equal. f_equal. f_equal. set_solver.
Qed.

(** The last position is behind the tools, when there is a system prompt. *)
Lemma frontier_place (body : Body) stable : length (body_system body) <> 0%nat ->
  exists front p, anthropicCacheBreakpointPositions body stable = front ++ [print_place p] /\
    breakpoint body stable p /\ forall i, p <> ToolPlace i.
Proof.
  intros Hs. rewrite positions_of_places. unfold break_places, dedupeAnthropicCacheBreakpointPositions.
  rewrite map_app, dedupe_app. set (first := last_place ToolPlace (body_tools body)).
  set (rest := last_place SystemPlace (body_system body) ++ _).
  assert (Hrest : forall p, p ∈ rest -> breakpoint body stable p /\ forall i, p <> ToolPlace i).
  { intros p Hp. split; [apply break_places_spec; unfold break_places; apply elem_of_app; by right|].
    unfold rest in Hp. intros i ->. rewrite !elem_of_app, last_place_spec in Hp.
    assert (Hb : forall n, ToolPlace i ∉ block_places body n).
    { intros n. rewrite block_places_min. intros (i' & j' & E & _)%block_places_spec; [done|lia]. }
    destruct Hp as [(i' & E & _)|[Hp|Hp]]; [done| |by eapply Hb].
    destruct (decide (stable = 0%nat)); [by apply not_elem_of_nil in Hp|by eapply Hb]. }
  set (system := SystemPlace (pred (length (body_system body)))).
  assert (Hsys : system ∈ rest).
  { unfold rest. apply elem_of_app. left. apply last_place_spec. eexists. split; [done|lia]. }
  destruct (dedupe_places first ∅) as (fs & -> & _ & Hfs & _).
  destruct (dedupe_places rest (list_to_set (map print_place fs) ∪ ∅)) as (ps & -> & _ & Hps & Hall).
  destruct (Hall system Hsys) as [Hin|Hin].
  - destruct ps as [|p ps] using rev_ind; [by apply not_elem_of_nil in Hin|].
    rewrite map_app. cbn [map]. exists (map print_place fs ++ map print_place ps), p. rewrite app_assoc.
    split; [done|]. apply Hrest, Hps, elem_of_app. right. by left.
  - exfalso. rewrite elem_of_union, elem_of_list_to_set, list_elem_of_fmap in Hin.
    destruct Hin as [(q & E & Hq)|?]; [|set_solver]. apply Hfs, last_place_spec in Hq as (i & -> & _). done.
Qed.

Lemma encoded_graphic s : forallb graphic (EncodeToString s) = true.
Proof.
  induction s as [|c s IH]; [done|]. unfold EncodeToString. cbn [List.flat_map]. rewrite forallb_app. fold (EncodeToString s).
  rewrite IH, andb_true_r. cbn [forallb]. pose proof (nat_ascii_bounded c) as Hb.
  assert (Hg : forall n, (n < 16)%nat -> graphic (hex_char n) = true).
  { intros n Hn. unfold hex_char, graphic, byte_of. rewrite nat_ascii_embedding by (destruct (n <? 10)%nat; lia).
    apply andb_true_intro. destruct (n <? 10)%nat; split; apply Nat.leb_le; lia. }
  rewrite !Hg; [done|apply Nat.mod_upper_bound; lia|apply Nat.Div0.div_lt_upper_bound; lia].
Qed.

Lemma hash_shape body : hash body <> [] /\ trim_space (hash body) = hash body.
Proof.
  unfold anthropicCanonicalHash. destruct (Hmarshal body) as [payload ->]. split.
  - destruct (sha256 payload) as [|c s] eqn:E; [by apply Hsha in E|]. by cbn.
  - apply graphic_trimmed. pose proof (encoded_graphic (sha256 payload)) as H.
    rewrite <- (take_drop 16 (EncodeToString _)), forallb_app in H. by apply andb_prop in H as [? _].
Qed.

Lemma frontier_of (body : Body) stable : length (body_system body) <> 0%nat ->
  exists p, FrontierPath (build body stable) = print_place p /\ breakpoint body stable p /\ (forall i, p <> ToolPlace i) /\
    FrontierHash (build body stable) = hash (trim body (print_place p)) /\ 0 < BreakpointCount (build body stable).
Proof.
  intros Hs. destruct (frontier_place body stable Hs) as (front & p & Hpos & Hp & Ht). exists p.
  unfold buildAnthropicCacheFrontier. rewrite Hpos. cbn [FrontierPath FrontierHash BreakpointCount].
  replace (default [] (last (front ++ [print_place p]))) with (print_place p) by by rewrite last_snoc.
  split_and!; [done|done|done| |rewrite length_app; simpl; lia].
  rewrite decide_False by (by intros [_ ?]%app_nil). unfold anthropicCanonicalPrefixHash.
  by rewrite print_trimmed, decide_False by apply print_not_empty.
Qed.

Lemma matched_iff (body body' : Body) stable f : length (body_system body) <> 0%nat ->
  let previous := build body stable in
  PreviousFrontierMatched (annotateAnthropicRequestKnobs sha256 Marshal (withPreviousCacheFrontierHint (Some previous)) body' f) = true <->
  hash (trim body' (FrontierPath previous)) = hash (trim body (FrontierPath previous)).
Proof.
  intros Hs. destruct (frontier_of body stable Hs) as (p & Hpath & _ & _ & Hhash & _). cbv zeta.
  unfold annotateAnthropicRequestKnobs, withPreviousCacheFrontierHint. rewrite Hpath, Hhash.
  destruct (hash_shape (trim body (print_place p))) as [Hne Ht]. rewrite Ht, decide_False by done.
  unfold anthropicPreviousFrontierHash, anthropicPreviousFrontierPath. cbn [previous_hash previous_frontier].
  rewrite Ht, decide_True, print_trimmed by done. rewrite decide_False by apply print_not_empty.
  unfold anthropicCanonicalPrefixHash. rewrite print_trimmed, decide_False by apply print_not_empty.
  cbn. rewrite bool_decide_false by done. cbn. apply bool_decide_eq_true.
Qed.

(** *** Prompts that grow *)

Context (empty_object : Value) (Unmarshal : string -> result Value).
Context (ReadFile : string -> result bytes) (DetectContentType : bytes -> string) (Ext : string -> string)
  (LowerCase : string -> string) (Base64 : bytes -> string).

Notation normalize := (normalizeAnthropicProviderMessages empty_object Unmarshal sha256 ReadFile DetectContentType Ext LowerCase Base64).
Notation turns_body := (@request_body Tool Fields Value).

Lemma grows_front (s t : list (anthropicMessage Value)) i : grows s t -> (i < length s)%nat -> take i t = take i s.
Proof.
  intros Hg Hi. apply list_eq. intros k. destruct (decide (k < i)%nat) as [Hk|Hk].
  - rewrite !lookup_take_lt by done. destruct (lookup_lt_is_Some_2 s k) as [u Hu]; [lia|].
    destruct (Hg k u Hu) as (u' & Hu' & _ & _ & Hs). rewrite Hu, Hu'. f_equal. apply Hs. lia.
  - by rewrite !lookup_take_ge by lia.
Qed.

(** Cut behind a block, a body is the same whatever follows. *)
Lemma cut_same other tools system (s t : list (anthropicMessage Value)) i j u :
  grows s t -> s !! i = Some u -> (j < length (Content u))%nat -> small i -> small j ->
  trim (turns_body other tools system t) (block_path i j) = trim (turns_body other tools system s) (block_path i j).
Proof.
  intros Hg Hu Hj Hsi Hsj. destruct (Hg i u Hu) as (u' & Hu' & Hr & [rest Hc] & _).
  pose proof (lookup_lt_Some _ _ _ Hu) as Hi. pose proof (lookup_lt_Some _ _ _ Hu') as Hi'.
  unfold trimAnthropicBodyAfterFrontier. rewrite decide_False, decide_False by (intros [x Hx]; done).
  rewrite parse_block by done. cbn [request_body body_messages]. rewrite !length_map.
  assert (Hin : forall n, (i < n)%nat -> (Z.of_nat i <? 0) || (Z.of_nat n <=? Z.of_nat i) = false)
    by (intros n Hn; apply orb_false_intro; [apply Z.ltb_ge|apply Z.leb_gt]; lia).
  rewrite !Hin by done. unfold set_field, request_body. cbn [fields body_tools body_system]. f_equal. f_equal.
  replace (Z.to_nat (Z.of_nat i + 1)) with (S i) by lia. rewrite Nat2Z.id, !firstn_map.
  rewrite (take_S_r _ _ _ Hu), (take_S_r _ _ _ Hu'), (grows_front _ _ _ Hg Hi), !map_app. cbn [map].
  assert (Hlen : length (map (fun turn => mkMarkedTurn (TurnRole turn) (map unmarked (Content turn))) (take i s)) = i)
    by (rewrite length_map, length_take; lia).
  assert (Halter : forall f x, alter f i (map (fun turn => mkMarkedTurn (TurnRole turn) (map unmarked (Content turn))) (take i s) ++ [x]) =
    map (fun turn => mkMarkedTurn (TurnRole turn) (map unmarked (Content turn))) (take i s) ++ [f x]).
  { intros f x. rewrite alter_app_r_alt by lia. by rewrite Hlen, Nat.sub_diag. }
  rewrite !Halter. f_equal. f_equal.
  unfold cut_message. cbn [Blocks]. rewrite !length_map, Hr, Hc, length_app.
  assert (Hcut : forall n, (j < n)%nat -> (0 <=? Z.of_nat j) && (Z.of_nat j <? Z.of_nat n) = true)
    by (intros n Hn; apply andb_true_intro; split; [apply Z.leb_le|apply Z.ltb_lt]; lia).
  rewrite !Hcut by lia.
  cbn. f_equal. rewrite !firstn_map. f_equal. apply take_app_le. lia.
Qed.

(** C22: A prompt that only grows is expected to read the cache.  When messages other than the system's are
    added at the end of a prompt, and nothing else of the request changes, the frontier remembered of the
    request before matches the next body and a read is expected, wherever the stable turns end;
    images must not be relocated. *)
Theorem growing_prompt_reads_cache input more te other tools system system' turns turns' stable stable' :
  normalize input te false = Ok (system, turns) -> normalize (input ++ more) te false = Ok (system', turns') ->
  Forall (fun m => not_system m = true) more ->
  small_body (turns_body other tools system turns) ->
  let previous := build (turns_body other tools system turns) stable in
  let body := turns_body other tools system' turns' in
  ExpectedCacheRead (annotateAnthropicRequestKnobs sha256 Marshal (withPreviousCacheFrontierHint (Some previous))
                       body (build body stable')) = true.
Proof.
  intros H1 H2 Hmore Hsmall previous body.
  assert (Hgrow : grows turns turns' /\ system' = system).
  { unfold normalizeAnthropicProviderMessages in H1, H2. rewrite steps_app in H2.
    destruct (add_messages _ _ _ _ _ _ _ _ te input _) as [r|] eqn:Hr; [|done]. injection H1 as <- <-.
    destruct (add_messages _ _ _ _ _ _ _ _ te more r) as [r'|] eqn:Hr'; [|done]. injection H2 as <- <-.
    split; [by eapply steps_grow|]. pose proof (steps_system _ _ _ _ _ _ _ _ _ _ _ _ Hmore Hr') as Hs.
    assert (Hf : forall q : @Request Value, systemParts (flushToolResults q) = systemParts q)
      by (intros q; unfold flushToolResults; by destruct (decide _)).
    by rewrite !Hf. }
  destruct Hgrow as [Hgrow ->].
  destruct (frontier_of (turns_body other tools system turns) stable) as (p & Hpath & Hp & Ht & _); [done|].
  destruct (frontier_of body stable') as (_ & _ & _ & _ & _ & Hcount); [done|].
  cbn [annotateAnthropicRequestKnobs]. apply andb_true_intro. split; [|by apply Z.ltb_lt].
  pose proof (proj2 (matched_iff (turns_body other tools system turns) body stable (build body stable') ltac:(done))) as Hm.
  apply Hm. clear Hm. f_equal. rewrite Hpath.
  destruct (breakpoint_in_range _ _ _ Hsmall Hp) as [Hsp Hin].
  destruct p as [i|i|i j]; [by destruct (Ht i)|done|]. destruct Hsp. cbn in Hin. unfold blocks_at in Hin. cbn in Hin.
  rewrite list_lookup_fmap in Hin. destruct (turns !! i) as [u|] eqn:Hu; cbn in Hin; [|by rewrite lookup_nil in Hin; destruct Hin].
  rewrite fmap_is_Some, list_lookup_fmap, fmap_is_Some in Hin. apply lookup_lt_is_Some in Hin.
  by apply (cut_same other tools system turns turns' i j u).
Qed.

End Frontier.

(** ** Demonstrations

    A body is written as its other fields and the texts of its blocks; the hash keeps everything. *)
Module Demo.
Definition block_text (m : Marked (Block string)) : string :=
  match item m with TextBlock text => text | ToolUseBlock id _ _ => id | _ => "." end.

Definition write_body (body : Body unit string string) : result bytes :=
  Ok (bytes_of (fields body +:+ String.concat "," (map (fun t : Turn string => String.concat EmptyString (map block_text (Blocks t)))
                                (default [] (body_messages body))))).

Definition all_bytes (s : bytes) : bytes := "#"%char :: s.

Lemma all_bytes_some s : all_bytes s <> [].
Proof. done. Qed.

Lemma write_body_total body : exists payload, write_body body = Ok payload.
Proof. by eexists. Qed.

Definition translate : list Message -> bool -> bool -> result (list string * list (anthropicMessage string)) :=
  normalizeAnthropicProviderMessages "{}" Ok all_bytes (fun _ => Ok (bytes_of "pixels")) (fun _ => "image/png")
    (fun _ => ".png") id (fun data => string_of data).

Definition count_stable (prompt : list Message) (n : Z) : nat :=
  anthropicStableProviderMessageCount "{}" Ok all_bytes (fun _ => Ok (bytes_of "pixels")) (fun _ => "image/png")
    (fun _ => ".png") id (fun data => string_of data) prompt n false.

Definition turns_of (prompt : list Message) (relocate : bool) : list (anthropicMessage string) :=
  match translate prompt false relocate with Ok (_, turns) => turns | Err _ => [] end.

Definition body_of (other : string) (prompt : list Message) (relocate : bool) : Body unit string string :=
  request_body other [tt] [] (turns_of prompt relocate).

Definition before : list Message := [text_message "user" "u1"; text_message "assistant" "a1"].
Definition more : list Message := [text_message "assistant" "a2"; text_message "user" "u2"].

Definition positions (body : Body unit string string) (stable : nat) : list string :=
  map string_of (anthropicCacheBreakpointPositions body stable).

Example positions_computed :
  positions (body_of "m" (before ++ more) false) (count_stable (before ++ more) 2) =
  ["tools[0]"; "system[0]"; "messages[1].content[0]"; "messages[3].content[0]"].
Proof. vm_compute. reflexivity. Qed.

(** With more tokens left for the answer the same prompt does not match, although all that the provider
    caches is the same. *)
Example other_limit_does_not_match :
  let previous := buildAnthropicCacheFrontier all_bytes write_body (body_of "4096" before false) 0 in
  let next other := let body := body_of other (before ++ more) false in
    ExpectedCacheRead (annotateAnthropicRequestKnobs all_bytes write_body (withPreviousCacheFrontierHint (Some previous))
                         body (buildAnthropicCacheFrontier all_bytes write_body body 0)) in
  next "4096" = true /\ next "4095" = false.
Proof. vm_compute. by split. Qed.

(** Relocating images drops turns that held nothing else; the count of stable turns does not know, and the mark
    behind them falls on a turn that is not stable. *)
Definition picture : Message :=
  text_message "user" EmptyString
    <| ContentParts := [mkPart "image" EmptyString (Some (mkImage "image/png" EmptyString "pixels"))] |>.

Definition with_picture : list Message := [picture; text_message "assistant" "a1"; text_message "user" "u2"; text_message "assistant" "a2"].

Example relocation_moves_the_mark :
  count_stable with_picture 2 = 2%nat /\
  map (fun t => (TurnRole t, length (Content t))) (turns_of with_picture true) = [("assistant", 1%nat); ("user", 2%nat); ("assistant", 1%nat)] /\
  positions (body_of "m" with_picture false) 2 = ["tools[0]"; "system[0]"; "messages[1].content[0]"; "messages[3].content[0]"] /\
  positions (body_of "m" with_picture true) 2 = ["tools[0]"; "system[0]"; "messages[1].content[0]"; "messages[2].content[0]"] /\
  nth 1 (map (fun t => length (Content t)) (turns_of with_picture true)) 0%nat = 2%nat.
Proof. vm_compute. split_and!; reflexivity. Qed.

Lemma small_body_of body :
  (length (body_tools body) <= 9)%nat -> (length (body_system body) <= 9)%nat ->
  (length (default [] (body_messages body)) <= 9)%nat ->
  Forall (fun t : Turn string => (length (Blocks t) <= 9)%nat) (default [] (body_messages body)) ->
  small_body (body : Body unit string string).
Proof.
  assert (H9 : forall n, (n <= 9)%nat -> small n) by (unfold small, max_int64; lia).
  intros H1 H2 H3 H4. split_and!; try by apply H9. intros i. apply H9. unfold blocks_at.
  destruct (_ !! i) as [t|] eqn:E; [|simpl; lia]. rewrite Forall_forall in H4. apply H4. by eapply list_elem_of_lookup_2.
Qed.

Lemma unmarked_body_of other prompt relocate : no_marks (body_of other prompt relocate).
Proof.
  assert (H : forall A (l : list A) i, cache_control <$> map unmarked l !! i <> Some true).
  { intros A l i. rewrite list_lookup_fmap. by destruct (l !! i). }
  intros [i|i|i j]; unfold marked; cbn [mark_of]; [apply (H _ [tt])|apply H|]. unfold blocks_at. cbn.
  rewrite list_lookup_fmap. destruct (turns_of prompt relocate !! i); cbn; [apply H|by rewrite lookup_nil].
Qed.
End Demo.

Lemma cache_breakpoints_marked_witness :
  small_body (Demo.body_of "m" (Demo.before ++ Demo.more) false) /\
  no_marks (Demo.body_of "m" (Demo.before ++ Demo.more) false) /\
  forall p, marked (applyAnthropicCacheBreakpoints (Demo.body_of "m" (Demo.before ++ Demo.more) false)
                      (anthropicCacheBreakpointPositions (Demo.body_of "m" (Demo.before ++ Demo.more) false) 2)) p <->
            breakpoint (Demo.body_of "m" (Demo.before ++ Demo.more) false) 2 p.
Proof.
  assert (Hs : small_body (Demo.body_of "m" (Demo.before ++ Demo.more) false))
    by (apply Demo.small_body_of; apply (bool_decide_unpack _); vm_compute; exact I).
  assert (Hn : no_marks (Demo.body_of "m" (Demo.before ++ Demo.more) false)) by apply Demo.unmarked_body_of.
  split; [exact Hs|]. split; [exact Hn|].
  exact (proj2 (proj2 (cache_breakpoints_marked (Demo.body_of "m" (Demo.before ++ Demo.more) false) 2 Hs Hn))).
Defined.

Lemma growing_prompt_reads_cache_witness : exists turns turns',
  Demo.translate Demo.before false false = Ok ([], turns) /\
  Demo.translate (Demo.before ++ Demo.more) false false = Ok ([], turns') /\
  ExpectedCacheRead
    (annotateAnthropicRequestKnobs Demo.all_bytes Demo.write_body
       (withPreviousCacheFrontierHint
          (Some (buildAnthropicCacheFrontier Demo.all_bytes Demo.write_body (request_body "4096" [tt] [] turns) 2)))
       (request_body "4096" [tt] [] turns')
       (buildAnthropicCacheFrontier Demo.all_bytes Demo.write_body (request_body "4096" [tt] [] turns') 2)) = true.
Proof.
  eexists _, _. split; [vm_compute; reflexivity|]. split; [vm_compute; reflexivity|].
  apply (growing_prompt_reads_cache Demo.all_bytes Demo.write_body Demo.all_bytes_some Demo.write_body_total
           "{}" Ok (fun _ => Ok (bytes_of "pixels")) (fun _ => "image/png") (fun _ => ".png") id (fun data => string_of data)
           Demo.before Demo.more false).
  - vm_compute. reflexivity.
  - vm_compute. reflexivity.
  - repeat constructor.
  - apply Demo.small_body_of; apply (bool_decide_unpack _); vm_compute; exact I.
Defined.

Lemma stable_turns_counted_witness : exists stable turns,
  0 < 2 /\ Demo.translate (Demo.before ++ Demo.more) false false = Ok ([], turns) /\
  Demo.count_stable (Demo.before ++ Demo.more) 2 = length stable /\ grows stable turns.
Proof.
  assert (H : exists turns, Demo.translate (Demo.before ++ Demo.more) false false = Ok ([], turns))
    by (eexists; vm_compute; reflexivity).
  destruct H as [turns H].
  destruct (stable_turns_counted "{}" Ok Demo.all_bytes (fun _ => Ok (bytes_of "pixels")) (fun _ => "image/png")
              (fun _ => ".png") id (fun data => string_of data) (Demo.before ++ Demo.more) 2 false [] turns eq_refl H)
    as (stable & _ & Hc & Hg).
  exists stable, turns. split; [reflexivity|]. split; [exact H|]. split; [exact Hc|exact Hg].
Defined.
