(* ===== verification/Projection.v ===== *)
(** * From the history to the prompt (forwarder/projector.go, prompt_context.go,
    agent/prompt/replay.go).

    The history of a conversation is append-only.  What a provider sees of it is computed at
    every pass: the entries before the latest compaction marker are replaced by its summary
    and by the entries of the current turn it preserves ([compactedPromptProjectionEntries]),
    the turns that were cancelled are dropped or reduced ([sanitizeCanceledReplayEntries]), and
    the rest is turned into messages ([ProjectPromptReplay]), which Messages.v puts into a
    sequence the provider accepts.

    The JSON payloads, the protobuf documents and the rendering of a request context are the
    interface [ReplayPayloads]. *)

From S2P Require Import Prelude Go Strings Modes Conversation Truncation EditText Replay Messages.

(** ** Payloads *)

Record compactionSummaryEntryPayload := mkCompactionSummary {
  Summary : string;
  Trigger : string;
  SummaryTurnSeq : Z;
  SummaryRequestID : string;
  SummaryCompactTurnCount : Z;
  SummaryMessagesToCompact : Z;
  PreserveCurrentTurnInputs : bool
}.

(** The zero value, which a payload that does not decode leaves. *)
Definition no_summary : compactionSummaryEntryPayload :=
  mkCompactionSummary EmptyString EmptyString 0 EmptyString 0 0 false.

(** The reasoning an assistant produced with a text, a call or a result. *)
Record ReasoningPayload := mkReasoning {
  PayloadReasoning : string;
  PayloadSignature : string;
  PayloadSignatureSource : string;
  ReasoningItemID : string;
  PayloadReasoningStatus : string;
  PayloadReasoningSummary : bytes
}.

Record assistantTextPayload := mkAssistantText {
  AssistantText : string;
  TextReasoning : ReasoningPayload
}.

(** The identifiers the OpenAI responses interface gave a call. *)
Record ProviderIDs := mkProviderIDs {
  ProviderItemID : string;
  ProviderCallID : string;
  ProviderStatus : string
}.

Record toolCallEntryPayload := mkToolCallPayload {
  CallPayloadID : string;
  CallPayloadName : string;
  CallReasoning : ReasoningPayload;
  CallProvider : ProviderIDs;
  CallDocument : string
}.

Record toolResultEntryPayload := mkToolResultPayload {
  ResultPayloadID : string;
  ResultToolName : string;
  ResultArguments : string;
  ResultText : string;
  ResultReasoning : ReasoningPayload;
  ResultProvider : ProviderIDs;
  ResultDocument : string
}.

#[export] Instance eta_result_payload : Eta toolResultEntryPayload := fun p =>
  mkToolResultPayload (ResultPayloadID p) (ResultToolName p) (ResultArguments p) (ResultText p)
    (ResultReasoning p) (ResultProvider p) (ResultDocument p).

Record promptContextEntryPayload := mkPromptContextPayload {
  ContextSource : string;
  ContextRole : string;
  ContextContent : string;
  ContextHash : string
}.

Record toolCallReplayShape := mkShape {
  ShapeToolName : string;
  ArgsJSON : string;
  ResultJSON : string;
  HasResult : bool
}.

(** What is decoded from the history: [encoding/json] on the payloads, protojson on the
    documents inside, the parts of a document the replay reads (a user message's text, and
    the sections and images of its selected context; the sections of a request context; the
    name, arguments and result of a tool call), and the hash of a prompt context. *)
Class ReplayPayloads (Payload ToolCall UserMessage RequestContext : Type) `{!Decoders Payload} := {
  decode_model_message : Payload -> option Message;
  decode_summary : Payload -> option compactionSummaryEntryPayload;
  decode_user_message : Payload -> option UserMessage;
  decode_request_context : Payload -> option RequestContext;
  decode_prompt_context : Payload -> option promptContextEntryPayload;
  decode_assistant_text : Payload -> option assistantTextPayload;
  decode_tool_call : Payload -> option toolCallEntryPayload;
  decode_tool_result : Payload -> option toolResultEntryPayload;
  encode_tool_result : toolResultEntryPayload -> Payload;
  same_payload : Payload -> Payload -> bool;
  decode_document : string -> option ToolCall;
  inferToolName : ToolCall -> string;
  extractToolCallReplayShape : ToolCall -> option toolCallReplayShape;
  GetText : UserMessage -> string;
  selected_sections : UserMessage -> list string;
  selected_images : UserMessage -> list ImageContent;
  request_context_sections : RequestContext -> list string;
  content_hash : string -> string -> string;
  tool_call_id_of : forall p,
    decode_tool_call_id p = option_map CallPayloadID (decode_tool_call p);
  tool_result_id_of : forall p,
    decode_tool_result_id p = option_map ResultPayloadID (decode_tool_result p);
  tool_result_roundtrip : forall p, decode_tool_result (encode_tool_result p) = Some p
}.

Arguments HistoryEntry Payload : clear implicits.
Arguments ConversationFile Payload Docs : clear implicits.

Section Projection.
Context {Payload Docs ToolCall UserMessage RequestContext : Type}
  `{!Decoders Payload} `{!ReplayPayloads Payload ToolCall UserMessage RequestContext}
  {JL : Json} (line_diffs : bytes -> bytes -> list Diff).

Notation Entry := (HistoryEntry Payload).
Notation kind_of e := (TrimSpace (Kind e)).

(** ** The latest compaction *)

Definition isCompactionSummaryKind (kind : string) : bool :=
  bool_decide (TrimSpace kind ∈ ["compaction_summary"; "compacted_summary"]).

Definition isPromptReplayEntryKind (kind : string) : bool :=
  bool_decide (TrimSpace kind ∈
    ["model_message"; "compaction_summary"; "compacted_summary"; "user_message";
     "request_context"; "prompt_context"; "assistant_text"; "tool_call"; "tool_result"]).

Definition decodeCompactionSummaryEntry (entry : Entry) : option string :=
  match decode_summary (Payload_ entry) with
  | None => None
  | Some payload =>
      let text := TrimSpace (Summary payload) in
      if decide (text = EmptyString) then None else Some text
  end.

(** The entries of one turn of one request. *)
Definition in_turn (turnSeq : Z) (requestID : string) (entry : Entry) : bool :=
  (TurnSeq entry =? turnSeq) && bool_decide (TrimSpace (RequestID entry) = TrimSpace requestID).

Definition latestCompletedToolCallIDForTurn (entries : list Entry) (turnSeq : Z)
    (requestID : string) : string :=
  fold_left (fun latest entry =>
      if in_turn turnSeq requestID entry && bool_decide (kind_of entry = "tool_result") then
        let toolCallID := historyEntryToolCallID entry in
        if decide (toolCallID = EmptyString) then latest else toolCallID
      else latest)
    entries EmptyString.

Definition shouldPreserveAutoCompactionEntry (entry : Entry) (latestToolCallID : string) : bool :=
  let kind := kind_of entry in
  if decide (kind ∈ ["request_context"; "user_message"]) then true
  else if decide (kind ∈ ["tool_call"; "tool_result"]) then
    let toolCallID := historyEntryToolCallID entry in
    negb (bool_decide (toolCallID = EmptyString)) &&
    bool_decide (toolCallID = TrimSpace latestToolCallID)
  else if decide (kind = "metadata") then
    match decode_metadata (Payload_ entry) with
    | None => false
    | Some payload => bool_decide (TrimSpace (Conversation.Type_ payload) ∈ ["mode"; "run_request"])
    end
  else false.

Definition toolCallEntryNeedsReasoningCarrier (entry : Entry) : bool :=
  bool_decide (kind_of entry = "tool_call") &&
  match decode_tool_call (Payload_ entry) with
  | None => false
  | Some payload =>
      bool_decide (TrimSpace (PayloadReasoning (CallReasoning payload)) = EmptyString) ||
      bool_decide (TrimSpace (PayloadSignature (CallReasoning payload)) = EmptyString)
  end.

(** The scan back from the tool call, over the entries before it, the nearest first. *)
Fixpoint carrier_from (turnSeq : Z) (requestID : string) (before : list (nat * Entry)) : option nat :=
  match before with
  | [] => None
  | (index, entry) :: before =>
      if negb (in_turn turnSeq requestID entry) then carrier_from turnSeq requestID before
      else if decide (kind_of entry = "assistant_text") then
        match decode_assistant_text (Payload_ entry) with
        | None => carrier_from turnSeq requestID before
        | Some payload =>
            if bool_decide (TrimSpace (PayloadReasoning (TextReasoning payload)) <> EmptyString) &&
               bool_decide (TrimSpace (PayloadSignature (TextReasoning payload)) <> EmptyString)
            then Some index else carrier_from turnSeq requestID before
        end
      else if decide (kind_of entry ∈ ["user_message"; "request_context"]) then None
      else carrier_from turnSeq requestID before
  end.

(** [for index, entry := range entries] *)
Definition indexed (entries : list Entry) : list (nat * Entry) := imap pair entries.

Definition latestAssistantReasoningCarrierIndex (entries : list Entry) (beforeIndex : nat)
    (turnSeq : Z) (requestID : string) : option nat :=
  carrier_from turnSeq requestID (reverse (take beforeIndex (indexed entries))).

Definition latest_tool_call_index (entries : list Entry) (turnSeq : Z) (requestID : string)
    (toolCallID : string) : option nat :=
  fold_left (fun latest item =>
      if in_turn turnSeq requestID item.2 && bool_decide (kind_of item.2 = "tool_call") &&
         bool_decide (historyEntryToolCallID item.2 = toolCallID)
      then Some item.1 else latest)
    (indexed entries) None.

Definition autoCompactionPreservedEntryIndexes (entries : list Entry) (turnSeq : Z)
    (requestID : string) (latestToolCallID : string) : gset nat :=
  if turnSeq <=? 0 then ∅
  else
    let toolCallID := TrimSpace latestToolCallID in
    let preserved := list_to_set (map fst (List.filter (fun item =>
        in_turn turnSeq requestID item.2 && shouldPreserveAutoCompactionEntry item.2 toolCallID)
      (indexed entries))) in
    match latest_tool_call_index entries turnSeq requestID toolCallID with
    | None => preserved
    | Some latest =>
        if match entries !! latest with
           | Some entry => toolCallEntryNeedsReasoningCarrier entry
           | None => false
           end
        then match latestAssistantReasoningCarrierIndex entries latest turnSeq requestID with
             | Some carrier => {[ carrier ]} ∪ preserved
             | None => preserved
             end
        else preserved
    end.

Definition autoCompactionPreservedToolResultLimitBytes : Z := 16 * 1024.

Definition autoCompactionOmittedToolResultText (toolName : string) : string :=
  "[" +:+ firstNonEmpty [TrimSpace toolName; "tool"] +:+
  " result omitted by auto compaction because the preserved current turn still exceeded the context budget; rerun the relevant tool if exact output is needed]".

Definition rewriteAutoCompactionToolResultEntry (entry : Entry) (limitBytes : Z) (minimal : bool)
  : option Entry :=
  if decide (kind_of entry <> "tool_result") then None
  else
    match decode_tool_result (Payload_ entry) with
    | None => None
    | Some payload =>
        let toolName := firstNonEmpty [TrimSpace (ResultToolName payload); "tool"] in
        let resultText := TrimSpace (ResultText payload) in
        let resultText := default resultText
          (compactProjectedEditToolResultReplay line_diffs toolName resultText) in
        let next :=
          if minimal then
            payload <| ResultDocument := EmptyString |>
                    <| ResultText := autoCompactionOmittedToolResultText toolName |>
          else
            (if (limitBytes <? len (bytes_of (ResultDocument payload))) ||
                (limitBytes <? len (bytes_of (ResultText payload)))
             then payload <| ResultDocument := EmptyString |> else payload)
            <| ResultText :=
                 if decide (resultText = EmptyString)
                 then autoCompactionOmittedToolResultText toolName
                 else truncate_text toolName resultText limitBytes |> in
        let encoded := encode_tool_result next in
        if same_payload (Payload_ entry) encoded then None
        else Some (entry <| Payload_ := encoded |>)
    end.

(** The entry a compacted prompt shows for a preserved one. *)
Definition compactedProjectionPreservedEntry (entry : Entry) : Entry :=
  if decide (kind_of entry <> "tool_result") then entry
  else default entry (rewriteAutoCompactionToolResultEntry entry
                        autoCompactionPreservedToolResultLimitBytes false).

(** The index of the newest compaction marker. *)
Definition compaction_index (entries : list Entry) : option nat :=
  head (map fst (List.filter (fun item => isCompactionSummaryKind (Kind item.2))
                   (reverse (indexed entries)))).

Definition marker_payload (entry : Entry) : compactionSummaryEntryPayload :=
  default no_summary (decode_summary (Payload_ entry)).

Definition preserved_by (entries : list Entry) (marker : Entry) : gset nat :=
  let payload := marker_payload marker in
  if PreserveCurrentTurnInputs payload then
    autoCompactionPreservedEntryIndexes entries (SummaryTurnSeq payload) (SummaryRequestID payload)
      (latestCompletedToolCallIDForTurn entries (SummaryTurnSeq payload) (SummaryRequestID payload))
  else ∅.

Definition compactedPromptProjectionEntries (entries : list Entry) : list Entry :=
  match compaction_index entries with
  | None => entries
  | Some index =>
      match entries !! index with
      | None => entries
      | Some marker =>
          let before := take index (indexed entries) in
          let preserved := preserved_by entries marker in
          map snd (List.filter (fun item => negb (isPromptReplayEntryKind (Kind item.2))) before)
          ++ marker
          :: map (fun item => compactedProjectionPreservedEntry item.2)
               (List.filter (fun item => bool_decide (item.1 ∈ preserved) &&
                                    negb (isCompactionSummaryKind (Kind item.2))) before)
          ++ drop (S index) entries
      end
  end.

(** ** Cancelled turns *)

Inductive CancelReplayPolicy :=
| cancelReplayPolicyDropTurn
| cancelReplayPolicyDropUnstarted
| cancelReplayPolicyKeepStableInput
| cancelReplayPolicyKeepInterrupted.

#[export] Instance cancel_policy_eq_dec : EqDecision CancelReplayPolicy.
Proof. solve_decision. Defined.

(** [strings.Contains] *)
Definition Contains (s sub : string) : bool :=
  match Cut (bytes_of s) (bytes_of sub) with Some _ => true | None => false end.

Definition cancelReplayPolicyForReason (reason : string) : CancelReplayPolicy :=
  if Contains (ToLower (TrimSpace reason)) "superseded by newer request"
  then cancelReplayPolicyDropUnstarted else cancelReplayPolicyKeepStableInput.

Definition normalizeCancelReplayPolicy (policy reason : string) : CancelReplayPolicy :=
  let policy := TrimSpace policy in
  if decide (policy = "drop_turn") then
    if Contains (ToLower (TrimSpace reason)) "superseded by newer request"
    then cancelReplayPolicyDropUnstarted else cancelReplayPolicyDropTurn
  else if decide (policy = "drop_unstarted_turn") then cancelReplayPolicyDropUnstarted
  else if decide (policy = "keep_stable_input") then cancelReplayPolicyKeepStableInput
  else if decide (policy = "keep_interrupted_output") then cancelReplayPolicyKeepInterrupted
  else cancelReplayPolicyForReason reason.

Definition canceledReplayPolicyForEntry (entry : Entry) : option CancelReplayPolicy :=
  if decide (kind_of entry <> "metadata") then None
  else
    match decode_metadata (Payload_ entry) with
    | None => None
    | Some payload =>
        if decide (TrimSpace (Conversation.Type_ payload) <> "control") then None
        else if decide (TrimSpace (readStringValue (Value payload !! "status")) <> "canceled") then None
        else Some (normalizeCancelReplayPolicy (readStringValue (Value payload !! "replay_policy"))
                     (readStringValue (Value payload !! "reason")))
    end.

Definition canceled_step (canceledTurns : gmap Z CancelReplayPolicy) (entry : Entry)
  : gmap Z CancelReplayPolicy :=
  if TurnSeq entry <=? 0 then canceledTurns
  else
    match canceledReplayPolicyForEntry entry with
    | None => canceledTurns
    | Some cancelReplayPolicyDropTurn => <[TurnSeq entry := cancelReplayPolicyDropTurn]> canceledTurns
    | Some policy =>
        match canceledTurns !! TurnSeq entry with
        | Some _ => canceledTurns
        | None => <[TurnSeq entry := policy]> canceledTurns
        end
    end.

Definition canceledReplayPolicies (entries : list Entry) : gmap Z CancelReplayPolicy :=
  fold_left canceled_step entries ∅.

Definition isStableCanceledTurnInputEntry (entry : Entry) : bool :=
  bool_decide (kind_of entry ∈ ["request_context"; "user_message"; "prompt_context"]).

Definition isCanceledTurnActivityEntry (entry : Entry) : bool :=
  bool_decide (kind_of entry ∈ ["model_message"; "assistant_text"; "tool_call"; "tool_result"]).

Definition canceledReplayActivityTurns (entries : list Entry) : gset Z :=
  list_to_set (map TurnSeq
    (List.filter (fun entry => negb (TurnSeq entry <=? 0) && isCanceledTurnActivityEntry entry)
       entries)).

(** Whether the replay keeps an entry. *)
Definition kept_in_replay (canceledTurns : gmap Z CancelReplayPolicy) (active : gset Z)
    (entry : Entry) : bool :=
  if 0 <? TurnSeq entry then
    match canceledTurns !! TurnSeq entry with
    | None => true
    | Some cancelReplayPolicyKeepInterrupted => true
    | Some cancelReplayPolicyDropTurn => false
    | Some cancelReplayPolicyDropUnstarted => bool_decide (TurnSeq entry ∈ active)
    | Some cancelReplayPolicyKeepStableInput =>
        bool_decide (TurnSeq entry ∈ active) || isStableCanceledTurnInputEntry entry
    end
  else true.

Definition sanitizeCanceledReplayEntries (entries : list Entry) : list Entry :=
  let canceledTurns := canceledReplayPolicies entries in
  if decide (canceledTurns = ∅) then entries
  else List.filter (kept_in_replay canceledTurns (canceledReplayActivityTurns entries)) entries.

Definition replayablePromptProjectionEntries (entries : list Entry) : list Entry :=
  sanitizeCanceledReplayEntries (compactedPromptProjectionEntries entries).

Definition checkpointProjectionEntries (entries : list Entry) : list Entry :=
  sanitizeCanceledReplayEntries entries.

(** ** Messages from documents (agent/prompt/replay.go) *)

Definition BuildToolCallReplayDescriptor (toolCallID : string) (toolCall : ToolCall)
  : option ToolCallDescriptor :=
  if decide (TrimSpace toolCallID = EmptyString) then None
  else
    match extractToolCallReplayShape toolCall with
    | None => None
    | Some shape =>
        Some (mkCall (TrimSpace toolCallID) 0 "function" (ShapeToolName shape)
                (firstNonEmpty [ArgsJSON shape; "{}"]) EmptyString EmptyString EmptyString)
    end.

Definition BuildToolResultReplayMessage (toolCallID : string) (toolCall : ToolCall) : option Message :=
  if decide (TrimSpace toolCallID = EmptyString) then None
  else
    match extractToolCallReplayShape toolCall with
    | None => None
    | Some shape =>
        if HasResult shape
        then Some (text_message "tool" (ResultJSON shape)
                     <| MsgToolCallID := TrimSpace toolCallID |> <| MsgName := ShapeToolName shape |>)
        else None
    end.

Definition assistant_call (descriptor : ToolCallDescriptor) : Message :=
  text_message "assistant" EmptyString <| ToolCalls := [descriptor] |>.

Definition BuildAssistantToolCallReplayMessage (toolCallID : string) (toolCall : ToolCall)
  : option Message :=
  option_map assistant_call (BuildToolCallReplayDescriptor toolCallID toolCall).

Definition BuildToolCallReplayMessages (toolCallID : string) (toolCall : ToolCall)
  : option (list Message) :=
  match BuildToolCallReplayDescriptor toolCallID toolCall,
        BuildToolResultReplayMessage toolCallID toolCall with
  | Some descriptor, Some toolResult => Some [assistant_call descriptor; toolResult]
  | _, _ => None
  end.

(** [strings.Join] *)
Fixpoint Join (items : list string) (sep : string) : string :=
  match items with
  | [] => EmptyString
  | [item] => item
  | item :: rest => item +:+ sep +:+ Join rest sep
  end.

Definition LFs (n : nat) : string := string_of (repeat newline n).

Definition BuildUserMessageReplayMessage (userMessage : UserMessage) : option Message :=
  let text := TrimSpace (GetText userMessage) in
  let images := map (fun image => mkPart "image" EmptyString (Some image)) (selected_images userMessage) in
  let query := if decide (text = EmptyString) then []
               else [TrimSpace ("<user_query>" +:+ LFs 1 +:+ text +:+ LFs 1 +:+ "</user_query>")] in
  let content := TrimSpace (Join (query ++ selected_sections userMessage) (LFs 2)) in
  if decide (content = EmptyString /\ images = []) then None
  else if decide (images = []) then Some (text_message "user" content)
  else Some (text_message "user" content <| ContentParts :=
               (if decide (content = EmptyString) then [] else [mkPart "text" content None]) ++ images |>).

Definition BuildRequestContextReplayMessages (requestContext : RequestContext) : list Message :=
  match request_context_sections requestContext with
  | [] => []
  | sections => [text_message "user" (Join sections (LFs 2))]
  end.

(** ** Prompt contexts (prompt_context.go) *)

Record PromptContextMessage := mkPromptContext {
  Source : string;
  PromptHash : string;
  PromptMessage : Message;
  Persist : bool
}.

Definition promptContextContentHash (message : Message) : string :=
  content_hash (TrimSpace (MsgRole message)) (TrimSpace (MsgContent message)).

Definition normalizePromptContextMessage (context : PromptContextMessage) : PromptContextMessage :=
  let message := PromptMessage context
    <| MsgRole := TrimSpace (MsgRole (PromptMessage context)) |>
    <| MsgContent := TrimSpace (MsgContent (PromptMessage context)) |> in
  let hash := TrimSpace (PromptHash context) in
  mkPromptContext (TrimSpace (Source context))
    (if decide (hash = EmptyString) then promptContextContentHash message else hash)
    message (Persist context).

Definition isReplayablePromptContext (context : PromptContextMessage) : bool :=
  let context := normalizePromptContextMessage context in
  let message := PromptMessage context in
  negb (bool_decide (Source context = EmptyString)) &&
  negb (bool_decide (TrimSpace (MsgContent message) = EmptyString)) &&
  bool_decide (MsgRole message ∈ [EmptyString; "user"; "system"]) &&
  bool_decide (TrimSpace (MsgName message) = EmptyString) &&
  bool_decide (TrimSpace (MsgToolCallID message) = EmptyString) &&
  bool_decide (ToolCalls message = []) && bool_decide (ContentParts message = []).

(** Source and hash, joined by a zero byte. *)
Definition promptContextKey (context : PromptContextMessage) : string :=
  let context := normalizePromptContextMessage context in
  Source context +:+ string_of [byte_of 0] +:+ PromptHash context.

Definition stored_context (role : string) (content : string) (payload : promptContextEntryPayload)
  : PromptContextMessage :=
  normalizePromptContextMessage
    (mkPromptContext (ContextSource payload) (ContextHash payload) (text_message role content) true).

Definition collectCurrentTurnPromptContextKeys (conversation : ConversationFile Payload Docs)
  : gset string :=
  let currentTurnSeq := wrap_int64 (NextTurnSeq conversation - 1) in
  if currentTurnSeq <=? 0 then ∅
  else
    list_to_set (omap (fun entry =>
      if (TurnSeq entry =? currentTurnSeq) && bool_decide (kind_of entry = "prompt_context") then
        match decode_prompt_context (Payload_ entry) with
        | None => None
        | Some payload =>
            let context := stored_context (ContextRole payload) (ContextContent payload) payload in
            if isReplayablePromptContext context then Some (promptContextKey context) else None
        end
      else None) (Entries conversation)).

Definition filterCurrentTurnPromptContexts (conversation : ConversationFile Payload Docs)
    (contexts : list PromptContextMessage) : list PromptContextMessage :=
  let seen := collectCurrentTurnPromptContextKeys conversation in
  List.filter (fun context => isReplayablePromptContext context &&
                 negb (Persist context && bool_decide (promptContextKey context ∈ seen)))
    (map normalizePromptContextMessage contexts).

(** ** The names and arguments a replayed call shows *)

Definition isLegacyPatchEditToolName (name : string) : bool :=
  bool_decide (TrimSpace name ∈ ["PatchEditLines"; "PatchEditSpan"]).

Definition isLegacyPlainWriteReplay (toolName : string) (hasStructuredToolCall : bool) : bool :=
  negb hasStructuredToolCall && bool_decide (TrimSpace toolName = "Write").

Definition effectiveReplayToolName (currentName overrideName : string) : string :=
  if isLegacyPatchEditToolName currentName || isLegacyPatchEditToolName overrideName then "Edit"
  else if decide (TrimSpace currentName ∈ ["PatchEdit"; "Edit"; "Write"]) then
    if decide (TrimSpace overrideName ∈ ["PatchEdit"; "Edit"; "Write"])
    then TrimSpace overrideName else TrimSpace currentName
  else TrimSpace overrideName.

Definition override_call (overrideName overrideArgs : string) (call : ToolCallDescriptor)
  : ToolCallDescriptor :=
  let arguments := TrimSpace (FunctionArguments call) in
  let effectiveArgs :=
    if isLegacyPatchEditToolName overrideName then firstNonEmpty [arguments; "{}"]
    else firstNonEmpty [overrideArgs; arguments; "{}"] in
  call <| FunctionName := effectiveReplayToolName (TrimSpace (FunctionName call)) overrideName |>
       <| FunctionArguments := firstNonEmpty [effectiveArgs; "{}"] |>.

Definition overrideModelToolReplayFromEntry (toolName arguments : string) (message : Message) : Message :=
  let overrideName := TrimSpace toolName in
  if decide (overrideName = EmptyString) then message
  else if is_assistant message then
    message <| ToolCalls := map (override_call overrideName (TrimSpace arguments)) (ToolCalls message) |>
  else if is_tool message then
    message <| MsgName := effectiveReplayToolName (TrimSpace (MsgName message)) overrideName |>
  else message.

Definition overrideToolReplayFromEntry (toolName arguments : string) (messages : list Message)
  : list Message :=
  map (overrideModelToolReplayFromEntry toolName arguments) messages.

Definition with_reasoning (reasoning : ReasoningPayload) (message : Message) : Message :=
  message <| ReasoningContent := PayloadReasoning reasoning |>
          <| ReasoningSignature := PayloadSignature reasoning |>
          <| ReasoningSignatureSource := PayloadSignatureSource reasoning |>
          <| ReasoningID := ReasoningItemID reasoning |>
          <| ReasoningStatus := PayloadReasoningStatus reasoning |>
          <| ReasoningSummary := PayloadReasoningSummary reasoning |>.

Definition applyPromptProviderMetadataToFirstToolCall (provider : ProviderIDs) (message : Message)
  : Message :=
  match ToolCalls message with
  | [] => message
  | first :: rest =>
      message <| ToolCalls :=
        (first <| OpenAIResponsesID := TrimSpace (ProviderItemID provider) |>
               <| OpenAIResponsesCallID := TrimSpace (ProviderCallID provider) |>
               <| OpenAIResponsesStatus := TrimSpace (ProviderStatus provider) |>) :: rest |>
  end.

(** ** The prompt *)

Definition isHistoricalReplayToolResult (conversation : ConversationFile Payload Docs) (entry : Entry)
  : bool :=
  let currentTurnSeq := wrap_int64 (NextTurnSeq conversation - 1) in
  (0 <? TurnSeq entry) && (0 <? currentTurnSeq) && (TurnSeq entry <? currentTurnSeq).

Record Replay_ := mkReplay {
  messages : list Message;
  seenToolCalls : gset string;
  openReplayCalls : gset string;
  toolCallMessageIndexes : gmap string nat
}.

#[export] Instance eta_replay : Eta Replay_ := fun r =>
  mkReplay (messages r) (seenToolCalls r) (openReplayCalls r) (toolCallMessageIndexes r).

Definition emit (new : list Message) (r : Replay_) : Replay_ := r <| messages := messages r ++ new |>.

Definition reasoning_replayable (reasoning : ReasoningPayload) : bool :=
  hasReplayableReasoning (PayloadReasoning reasoning) (PayloadSignature reasoning)
    (PayloadSignatureSource reasoning).

Definition replay_assistant_text (r : Replay_) (payload : assistantTextPayload) : Replay_ :=
  let text := TrimSpace (AssistantText payload) in
  let reasoning := TextReasoning payload in
  if bool_decide (text = EmptyString) && bool_decide (TrimSpace (PayloadReasoning reasoning) <> EmptyString) &&
     negb (bool_decide (openReplayCalls r = ∅))
  then r
  else if bool_decide (text = EmptyString) && negb (reasoning_replayable reasoning) then r
  else emit [with_reasoning reasoning (text_message "assistant" text)] r.

Definition replay_tool_call (r : Replay_) (payload : toolCallEntryPayload) : result Replay_ :=
  match decode_document (CallDocument payload) with
  | None => Err "decode tool_call payload"
  | Some toolCall =>
      match BuildAssistantToolCallReplayMessage (CallPayloadID payload) toolCall with
      | None => Ok r
      | Some message =>
          let message := applyPromptProviderMetadataToFirstToolCall (CallProvider payload)
            (with_reasoning (CallReasoning payload) message) in
          let r := emit [message] r in
          let toolCallID := TrimSpace (CallPayloadID payload) in
          Ok (if decide (toolCallID = EmptyString) then r
              else r <| toolCallMessageIndexes :=
                          <[toolCallID := pred (length (messages r))]> (toolCallMessageIndexes r) |>
                     <| seenToolCalls := {[ toolCallID ]} ∪ seenToolCalls r |>
                     <| openReplayCalls := {[ toolCallID ]} ∪ openReplayCalls r |>)
      end
  end.

(** A result whose call was replayed: the call takes the name and arguments the result
    recorded, and the result follows as a tool message. *)
Definition replay_seen_result (historical : bool) (r : Replay_) (payload : toolResultEntryPayload)
  : Replay_ :=
  let toolCallID := TrimSpace (ResultPayloadID payload) in
  let r := r <| openReplayCalls := openReplayCalls r ∖ {[ toolCallID ]} |> in
  let r := match toolCallMessageIndexes r !! toolCallID with
           | Some index =>
               r <| messages := alter (overrideModelToolReplayFromEntry (ResultToolName payload)
                                         (ResultArguments payload)) index (messages r) |>
                 <| toolCallMessageIndexes := delete toolCallID (toolCallMessageIndexes r) |>
           | None => r
           end in
  let stored := negb (bool_decide (ResultDocument payload = EmptyString)) in
  let toolCall := if stored then decode_document (ResultDocument payload) else None in
  let toolName := TrimSpace (ResultToolName payload) in
  let toolName := if decide (toolName = EmptyString)
                  then match toolCall with Some toolCall => inferToolName toolCall | None => EmptyString end
                  else toolName in
  if decide (toolCallID = EmptyString \/ toolName = EmptyString) then r
  else if isLegacyPlainWriteReplay toolName stored then r
  else
    match (match toolCall with
           | Some toolCall => BuildToolResultReplayMessage toolCallID toolCall
           | None => None
           end) with
    | Some message =>
        emit [message <| MsgName := toolName |>
                      <| MsgContent := limitProjectedToolResultReplay line_diffs toolName
                           (MsgContent message) (ResultText payload) true historical |>] r
    | None =>
        emit [text_message "tool"
                (limitProjectedToolResultReplay line_diffs toolName (ResultText payload) EmptyString
                   false historical)
              <| MsgName := toolName |> <| MsgToolCallID := toolCallID |>] r
    end.

(** The messages of a stored tool call that no earlier entry announced. *)
Definition replay_stored_call (historical : bool) (payload : toolResultEntryPayload)
    (replayMessages : list Message) : list Message :=
  map (fun message =>
      if calls_tools message then
        applyPromptProviderMetadataToFirstToolCall (ResultProvider payload)
          (with_reasoning (ResultReasoning payload) message)
      else if is_tool message then
        message <| MsgContent := limitProjectedToolResultReplay line_diffs
          (firstNonEmpty [TrimSpace (MsgName message); TrimSpace (ResultToolName payload)])
          (MsgContent message) (ResultText payload) true historical |>
      else message)
    (overrideToolReplayFromEntry (ResultToolName payload) (ResultArguments payload) replayMessages).

(** A result without a stored tool call and without its call: only its reasoning is worth
    replaying, with a call made up for it. *)
Definition replay_bare_result (historical : bool) (payload : toolResultEntryPayload) : list Message :=
  let toolCallID := TrimSpace (ResultPayloadID payload) in
  let toolName := TrimSpace (ResultToolName payload) in
  if decide (toolCallID = EmptyString \/ toolName = EmptyString) then []
  else if isLegacyPlainWriteReplay toolName false then []
  else if negb (reasoning_replayable (ResultReasoning payload)) then []
  else
    let effectiveToolName := effectiveReplayToolName toolName toolName in
    let effectiveArguments :=
      if isLegacyPatchEditToolName (ResultToolName payload) then "{}"
      else firstNonEmpty [TrimSpace (ResultArguments payload); "{}"] in
    let provider := ResultProvider payload in
    [with_reasoning (ResultReasoning payload)
       (assistant_call (mkCall toolCallID 0 "function" effectiveToolName effectiveArguments
          (TrimSpace (ProviderItemID provider)) (TrimSpace (ProviderCallID provider))
          (TrimSpace (ProviderStatus provider))));
     text_message "tool"
       (limitProjectedToolResultReplay line_diffs (ResultToolName payload) (ResultText payload)
          EmptyString false historical)
     <| MsgName := effectiveToolName |> <| MsgToolCallID := toolCallID |>].

Definition replay_tool_result (historical : bool) (r : Replay_) (payload : toolResultEntryPayload)
  : result Replay_ :=
  if decide (TrimSpace (ResultPayloadID payload) ∈ seenToolCalls r)
  then Ok (replay_seen_result historical r payload)
  else if decide (ResultDocument payload <> EmptyString) then
    match decode_document (ResultDocument payload) with
    | None => Err "decode tool_result tool_call entry"
    | Some toolCall =>
        Ok match BuildToolCallReplayMessages (ResultPayloadID payload) toolCall with
           | None => r
           | Some replayMessages => emit (replay_stored_call historical payload replayMessages) r
           end
    end
  else Ok (emit (replay_bare_result historical payload) r).

Definition replay_prompt_context (r : Replay_) (payload : promptContextEntryPayload) : Replay_ :=
  let context := stored_context (firstNonEmpty [TrimSpace (ContextRole payload); "user"])
    (TrimSpace (ContextContent payload)) payload in
  if isReplayablePromptContext context then emit [PromptMessage context] r else r.

(** A payload that must decode, and what is done with it. *)
Definition decoded {A} (error : string) (payload : option A) (k : A -> result Replay_) : result Replay_ :=
  match payload with Some payload => k payload | None => Err error end.

Definition replay_entry (conversation : ConversationFile Payload Docs) (r : Replay_) (entry : Entry)
  : result Replay_ :=
  let kind := kind_of entry in
  let payload := Payload_ entry in
  if decide (kind = "model_message") then
    decoded "decode model_message entry" (decode_model_message payload) (fun message =>
      Ok (if decide (TrimSpace (MsgRole message) = EmptyString) then r else emit [message] r))
  else if isCompactionSummaryKind kind then
    Ok match decodeCompactionSummaryEntry entry with
       | Some summary => emit [text_message "user" ("<conversation_summary>" +:+ LFs 1 +:+ summary +:+
                                 LFs 1 +:+ "</conversation_summary>")] r
       | None => r
       end
  else if decide (kind = "user_message") then
    decoded "decode user_message entry" (decode_user_message payload) (fun userMessage =>
      Ok match BuildUserMessageReplayMessage userMessage with
         | Some message => emit [message] r
         | None => r
         end)
  else if decide (kind = "request_context") then
    decoded "decode request_context entry" (decode_request_context payload) (fun requestContext =>
      Ok (emit (BuildRequestContextReplayMessages requestContext) r))
  else if decide (kind = "prompt_context") then
    decoded "decode prompt_context entry" (decode_prompt_context payload) (fun payload =>
      Ok (replay_prompt_context r payload))
  else if decide (kind = "assistant_text") then
    decoded "decode assistant_text entry" (decode_assistant_text payload) (fun payload =>
      Ok (replay_assistant_text r payload))
  else if decide (kind = "tool_call") then
    decoded "decode tool_call entry" (decode_tool_call payload) (replay_tool_call r)
  else if decide (kind = "tool_result") then
    decoded "decode tool_result entry" (decode_tool_result payload)
      (replay_tool_result (isHistoricalReplayToolResult conversation entry) r)
  else Ok r.

Fixpoint replay_entries (conversation : ConversationFile Payload Docs) (r : Replay_)
    (entries : list Entry) : result Replay_ :=
  match entries with
  | [] => Ok r
  | entry :: entries =>
      match replay_entry conversation r entry with
      | Ok r => replay_entries conversation r entries
      | Err e => Err e
      end
  end.

(** What [ProjectPromptReplay] collects, before it is normalised. *)
Definition collected_replay (conversation : ConversationFile Payload Docs) : result (list Message) :=
  match replay_entries conversation (mkReplay [] ∅ ∅ ∅)
          (replayablePromptProjectionEntries (Entries conversation)) with
  | Ok r => Ok (messages r)
  | Err e => Err e
  end.

Definition ProjectPromptReplay (conversation : ConversationFile Payload Docs) : result (list Message) :=
  match collected_replay conversation with
  | Ok collected => Ok (normalizeReplayMessageSequence collected)
  | Err e => Err e
  end.

(** ** Cancelled turns: lemmas *)

(** The policy of a turn only depends on the entries of the turn. *)
Definition turn_entries (turn : Z) (entries : list Entry) : list Entry :=
  List.filter (fun entry => TurnSeq entry =? turn) entries.

Lemma canceled_step_other policies entry turn : TurnSeq entry <> turn ->
  canceled_step policies entry !! turn = policies !! turn.
Proof.
  intros H. unfold canceled_step. destruct (TurnSeq entry <=? 0); [done|].
  destruct (canceledReplayPolicyForEntry entry) as [[]|]; try done;
    repeat case_match; try done; by rewrite lookup_insert_ne.
Qed.

Lemma canceled_step_same p q entry :
  p !! TurnSeq entry = q !! TurnSeq entry ->
  canceled_step p entry !! TurnSeq entry = canceled_step q entry !! TurnSeq entry.
Proof.
  intros H. unfold canceled_step. destruct (TurnSeq entry <=? 0); [done|].
  destruct (canceledReplayPolicyForEntry entry) as [policy|]; [|done].
  rewrite H. destruct policy, (q !! TurnSeq entry) eqn:E; rewrite ?lookup_insert_eq, ?E; done.
Qed.

Lemma policies_of_turn turn entries p q : p !! turn = q !! turn ->
  fold_left canceled_step entries p !! turn =
  fold_left canceled_step (turn_entries turn entries) q !! turn.
Proof.
  revert p q. induction entries as [|entry entries IH]; intros p q H; simpl; [done|].
  destruct (Z.eqb_spec (TurnSeq entry) turn) as [<-|Hne]; simpl; apply IH.
  - by apply canceled_step_same.
  - by rewrite canceled_step_other.
Qed.

Lemma policies_local turn E1 E2 : turn_entries turn E1 = turn_entries turn E2 ->
  canceledReplayPolicies E1 !! turn = canceledReplayPolicies E2 !! turn.
Proof.
  intros H. unfold canceledReplayPolicies. rewrite (policies_of_turn turn E1 ∅ ∅) by done.
  rewrite (policies_of_turn turn E2 ∅ ∅) by done. by rewrite H.
Qed.

(** A policy comes from an entry that announces it. *)
Lemma policy_announced entries p turn :
  is_Some (fold_left canceled_step entries p !! turn) ->
  is_Some (p !! turn) \/ exists entry, entry ∈ entries /\ TurnSeq entry = turn /\ 0 < turn /\
    is_Some (canceledReplayPolicyForEntry entry).
Proof.
  revert p. induction entries as [|entry entries IH]; intros p H; simpl in *; [by left|].
  destruct (IH _ H) as [Hs|(e & He & Ht)]; [|right; exists e; split; [set_solver|done]].
  destruct (decide (TurnSeq entry = turn)) as [<-|Hne];
    [|left; by rewrite canceled_step_other in Hs].
  unfold canceled_step in Hs. destruct (Z.leb_spec (TurnSeq entry) 0); [by left|].
  destruct (canceledReplayPolicyForEntry entry) eqn:E; [|by left].
  right. exists entry. rewrite E. split; [set_solver|]. by repeat split; try lia.
Qed.

Lemma filter_turn f turn entries :
  turn_entries turn (List.filter f entries) = List.filter f (turn_entries turn entries).
Proof.
  unfold turn_entries. induction entries as [|e entries IH]; simpl; [done|].
  destruct (f e) eqn:Ef, (TurnSeq e =? turn) eqn:Et; simpl; rewrite ?Ef, ?Et, ?IH; done.
Qed.

Lemma filter_all {A} (f : A -> bool) l : (forall x, x ∈ l -> f x = true) -> List.filter f l = l.
Proof.
  induction l as [|x l IH]; intros H; simpl; [done|]. rewrite H by set_solver. f_equal.
  apply IH. set_solver.
Qed.

Lemma elem_filter {A} (f : A -> bool) l x : x ∈ List.filter f l <-> x ∈ l /\ f x = true.
Proof. rewrite !list_elem_of_In. apply filter_In. Qed.

Lemma elem_turn_entries turn entries e : e ∈ turn_entries turn entries <-> e ∈ entries /\ TurnSeq e = turn.
Proof. unfold turn_entries. rewrite elem_filter, Z.eqb_eq. done. Qed.

Lemma active_spec turn entries : turn ∈ canceledReplayActivityTurns entries <->
  exists e, e ∈ entries /\ TurnSeq e = turn /\ 0 < turn /\ isCanceledTurnActivityEntry e = true.
Proof.
  unfold canceledReplayActivityTurns. rewrite elem_of_list_to_set, list_elem_of_fmap. split.
  - intros (e & -> & He). apply elem_filter in He as [He Hb]. apply andb_true_iff in Hb as [Hp Ha].
    exists e. apply negb_true_iff, Z.leb_gt in Hp. done.
  - intros (e & He & <- & Hp & Ha). exists e. split; [done|]. apply elem_filter. split; [done|].
    rewrite Ha, andb_true_r. apply negb_true_iff, Z.leb_gt. done.
Qed.

Lemma sanitize_filter entries :
  sanitizeCanceledReplayEntries entries =
  List.filter (kept_in_replay (canceledReplayPolicies entries) (canceledReplayActivityTurns entries))
    entries.
Proof.
  unfold sanitizeCanceledReplayEntries. case_decide as H; [|done]. rewrite filter_all; [done|].
  intros e _. unfold kept_in_replay. rewrite H, lookup_empty. by destruct (0 <? TurnSeq e).
Qed.

(** An entry that announces a policy is neither an input nor an activity. *)
Lemma announcement_is_metadata e : is_Some (canceledReplayPolicyForEntry e) ->
  isStableCanceledTurnInputEntry e = false.
Proof.
  unfold canceledReplayPolicyForEntry. case_decide as H; [by intros []|]. intros _.
  unfold isStableCanceledTurnInputEntry. rewrite H.
  reflexivity.
Qed.

(** Whether the entries of a turn all stay, or only its inputs, or none of them. *)
Lemma sanitize_turn entries turn : 0 < turn ->
  let kept := turn_entries turn (sanitizeCanceledReplayEntries entries) in
  kept = turn_entries turn entries \/
  Forall (fun e => isStableCanceledTurnInputEntry e = true) kept.
Proof.
  intros Ht kept. subst kept. rewrite sanitize_filter, filter_turn.
  assert (Hk : forall e, e ∈ turn_entries turn entries -> TurnSeq e = turn)
    by (intros e; rewrite elem_turn_entries; tauto).
  set (k := kept_in_replay _ _).
  assert (Hf : forall e, e ∈ turn_entries turn entries -> k e =
    match canceledReplayPolicies entries !! turn with
    | None => true
    | Some cancelReplayPolicyKeepInterrupted => true
    | Some cancelReplayPolicyDropTurn => false
    | Some cancelReplayPolicyDropUnstarted =>
        bool_decide (turn ∈ canceledReplayActivityTurns entries)
    | Some cancelReplayPolicyKeepStableInput =>
        bool_decide (turn ∈ canceledReplayActivityTurns entries) || isStableCanceledTurnInputEntry e
    end).
  { intros e He. subst k. unfold kept_in_replay. rewrite (Hk e He).
    by rewrite (proj2 (Z.ltb_lt 0 turn) Ht). }
  destruct (canceledReplayPolicies entries !! turn) as [[]|];
    try (left; apply filter_all; intros e He; by rewrite Hf);
    try (destruct (bool_decide _); [left; apply filter_all; intros e He; by rewrite Hf|]);
    right; apply Forall_forall; intros e He; apply elem_filter in He as [He Hke];
    by rewrite (Hf e He) in Hke.
Qed.

(** dropping the cancelled turns is done once and for all.  Sanitising a sanitised history
    changes nothing, and every turn of the history is shown whole, or reduced to its stable
    inputs because it was cancelled. *)
Theorem canceled_replay_settled entries :
  sanitizeCanceledReplayEntries (sanitizeCanceledReplayEntries entries) =
    sanitizeCanceledReplayEntries entries /\
  forall turn, 0 < turn ->
    let kept := turn_entries turn (sanitizeCanceledReplayEntries entries) in
    kept = turn_entries turn entries \/
    is_Some (canceledReplayPolicies entries !! turn) /\
    Forall (fun e => isStableCanceledTurnInputEntry e = true) kept.
Proof.
  split.
  - rewrite (sanitize_filter (sanitizeCanceledReplayEntries entries)). apply filter_all.
    intros e He. unfold kept_in_replay. destruct (Z.ltb_spec 0 (TurnSeq e)) as [Hp|]; [|done].
    destruct (sanitize_turn entries (TurnSeq e) Hp) as [Hs|Hs].
    + rewrite (policies_local _ _ entries Hs).
      assert (Ha : bool_decide (TurnSeq e ∈ canceledReplayActivityTurns
                      (sanitizeCanceledReplayEntries entries)) =
                   bool_decide (TurnSeq e ∈ canceledReplayActivityTurns entries)).
      { apply bool_decide_ext. rewrite !active_spec. split; intros (x & Hx & Hxt & Hr); exists x;
          (split; [|done]); apply (proj1 (elem_turn_entries (TurnSeq e) _ x));
          [rewrite <- Hs|rewrite Hs]; by apply elem_turn_entries. }
      rewrite Ha. rewrite sanitize_filter in He. apply elem_filter in He as [_ He].
      unfold kept_in_replay in He. by rewrite (proj2 (Z.ltb_lt _ _) Hp) in He.
    + destruct (canceledReplayPolicies (sanitizeCanceledReplayEntries entries) !! TurnSeq e) eqn:E;
        [|done].
      destruct (policy_announced (sanitizeCanceledReplayEntries entries) ∅ (TurnSeq e))
        as [Hn|(x & Hx & Hxt & _ & Hann)].
      { unfold canceledReplayPolicies in E. by rewrite E. }
      { by rewrite lookup_empty in Hn; destruct Hn. }
      rewrite Forall_forall in Hs. pose proof (Hs x (proj2 (elem_turn_entries _ _ _) (conj Hx Hxt))) as Hst.
      by rewrite (announcement_is_metadata x Hann) in Hst.
  - intros turn Ht kept. destruct (sanitize_turn entries turn Ht) as [Hs|Hs]; [by left|].
    destruct (canceledReplayPolicies entries !! turn) eqn:E; [right; by split|left].
    subst kept. rewrite sanitize_filter, filter_turn. apply filter_all. intros e He.
    apply elem_turn_entries in He as [_ He]. unfold kept_in_replay. rewrite He, E.
    by destruct (0 <? turn).
Qed.

(** ** The view of a compacted history: lemmas *)

Definition not_marker (entry : Entry) : bool := negb (isCompactionSummaryKind (Kind entry)).

(** The newest marker. *)
Definition latest_marker (entries : list Entry) : option Entry :=
  match compaction_index entries with Some index => entries !! index | None => None end.

Lemma indexed_app E1 E2 :
  indexed (E1 ++ E2) = indexed E1 ++ imap (fun i e => ((length E1 + i)%nat, e)) E2.
Proof. unfold indexed. by rewrite imap_app. Qed.

Lemma length_indexed E : length (indexed E) = length E.
Proof. apply length_imap. Qed.

Lemma indexed_snd E : map snd (indexed E) = E.
Proof.
  induction E as [|e E IH] using rev_ind; [done|].
  rewrite indexed_app, map_app, IH. done.
Qed.

Lemma elem_indexed E i e : (i, e) ∈ indexed E <-> E !! i = Some e.
Proof.
  unfold indexed. rewrite elem_of_lookup_imap. split.
  - intros (j & x & H & Hx). by simplify_eq.
  - intros H. by exists i, e.
Qed.

Lemma filter_none {A} (f : A -> bool) l : (forall x, x ∈ l -> f x = false) -> List.filter f l = [].
Proof.
  induction l as [|x l IH]; intros H; simpl; [done|]. rewrite H by set_solver.
  apply IH. set_solver.
Qed.

Lemma list_filter_app {A} (f : A -> bool) l k :
  List.filter f (l ++ k) = List.filter f l ++ List.filter f k.
Proof. apply List.filter_app. Qed.

Lemma filter_snd (f : Entry -> bool) (l : list (nat * Entry)) :
  map snd (List.filter (fun item => f item.2) l) = List.filter f (map snd l).
Proof. induction l as [|[i e] l IH]; simpl; [done|]. destruct (f e); simpl; by rewrite IH. Qed.

Lemma compaction_index_app E new : Forall (fun e => not_marker e = true) new ->
  compaction_index (E ++ new) = compaction_index E.
Proof.
  intros H. unfold compaction_index. rewrite indexed_app, reverse_app, list_filter_app.
  rewrite filter_none; [done|]. intros [i e] Hin. rewrite elem_of_reverse in Hin.
  apply elem_of_lookup_imap in Hin as (j & x & Hx & Hxj). simplify_eq/=.
  rewrite Forall_forall in H. apply negb_true_iff, H. by eapply list_elem_of_lookup_2.
Qed.

Lemma compaction_index_at before marker after :
  not_marker marker = false -> Forall (fun e => not_marker e = true) after ->
  compaction_index (before ++ marker :: after) = Some (length before).
Proof.
  intros Hm Ha. rewrite cons_middle, app_assoc, compaction_index_app by done.
  unfold compaction_index. rewrite indexed_app, reverse_app. simpl.
  unfold not_marker in Hm. apply negb_false_iff in Hm. rewrite Hm. simpl. f_equal. lia.
Qed.

Lemma take_indexed before rest : take (length before) (indexed (before ++ rest)) = indexed before.
Proof. by rewrite indexed_app, take_app_length' by (symmetry; apply length_indexed). Qed.

(** The view of a history whose last marker is known. *)
Lemma compacted_split before marker after :
  not_marker marker = false -> Forall (fun e => not_marker e = true) after ->
  compactedPromptProjectionEntries (before ++ marker :: after) =
  List.filter (fun e => negb (isPromptReplayEntryKind (Kind e))) before ++ marker ::
  map (fun item => compactedProjectionPreservedEntry item.2)
    (List.filter (fun item => bool_decide (item.1 ∈ preserved_by (before ++ marker :: after) marker) &&
                        not_marker item.2) (indexed before)) ++ after.
Proof.
  intros Hm Ha. unfold compactedPromptProjectionEntries. rewrite compaction_index_at by done.
  rewrite lookup_app_r, Nat.sub_diag by done. cbn [lookup list_lookup].
  rewrite take_indexed, (filter_snd (fun e => negb (isPromptReplayEntryKind (Kind e)))), indexed_snd. do 3 f_equal.
  rewrite cons_middle, app_assoc, drop_app_length'; [done|]. rewrite length_app. simpl. lia.
Qed.

(** A history is cut at its newest marker. *)
Lemma marker_split E : 
  (Forall (fun e => not_marker e = true) E /\ compaction_index E = None /\ latest_marker E = None) \/
  exists before marker after, E = before ++ marker :: after /\ not_marker marker = false /\
    Forall (fun e => not_marker e = true) after /\ latest_marker E = Some marker.
Proof.
  induction E as [|e E IH] using rev_ind; [by left|].
  destruct (not_marker e) eqn:He.
  - destruct IH as [(Hall & Hi & Hl)|(b & m & a & -> & Hm & Ha & Hl)].
    + left. unfold latest_marker. rewrite compaction_index_app by by repeat constructor. rewrite Hi.
      split; [|done]. apply Forall_app. by repeat constructor.
    + right. exists b, m, (a ++ [e]). rewrite <- app_assoc. split; [done|]. split; [done|].
      assert (Forall (fun e => not_marker e = true) (a ++ [e])) by (apply Forall_app; by repeat constructor).
      split; [done|]. unfold latest_marker. simpl. rewrite compaction_index_at by done.
      by rewrite lookup_app_r, Nat.sub_diag by done.
  - right. exists E, e, []. split; [done|]. split; [done|]. split; [constructor|].
    unfold latest_marker. rewrite compaction_index_at by done.
    by rewrite lookup_app_r, Nat.sub_diag by done.
Qed.

(** Entries that change nothing of what a turn preserves. *)
Definition no_tool_of_turn (turnSeq : Z) (requestID : string) (new : list Entry) : Prop :=
  Forall (fun e => in_turn turnSeq requestID e = true ->
            kind_of e <> "tool_call" /\ kind_of e <> "tool_result") new.

Lemma fold_skip {A B} (f : A -> B -> A) l a :
  (forall b, b ∈ l -> forall a, f a b = a) -> fold_left f l a = a.
Proof.
  revert a. induction l as [|b l IH]; intros a H; simpl; [done|]. rewrite H by set_solver.
  apply IH. set_solver.
Qed.

Lemma latest_completed_app E new turnSeq requestID : no_tool_of_turn turnSeq requestID new ->
  latestCompletedToolCallIDForTurn (E ++ new) turnSeq requestID =
  latestCompletedToolCallIDForTurn E turnSeq requestID.
Proof.
  intros Hn. unfold latestCompletedToolCallIDForTurn. rewrite fold_left_app. apply fold_skip.
  intros e He latest. unfold no_tool_of_turn in Hn. rewrite Forall_forall in Hn.
  specialize (Hn e He). destruct (in_turn turnSeq requestID e); [|done].
  by rewrite bool_decide_eq_false_2 by by apply Hn.
Qed.

Lemma latest_call_app E new turnSeq requestID id : no_tool_of_turn turnSeq requestID new ->
  latest_tool_call_index (E ++ new) turnSeq requestID id = latest_tool_call_index E turnSeq requestID id.
Proof.
  intros Hn. unfold latest_tool_call_index. rewrite indexed_app, fold_left_app. apply fold_skip.
  intros [i e] He latest. apply elem_of_lookup_imap in He as (j & x & Hx & Hxj). simplify_eq/=.
  unfold no_tool_of_turn in Hn. rewrite Forall_forall in Hn.
  specialize (Hn x (list_elem_of_lookup_2 _ _ _ Hxj)). destruct (in_turn turnSeq requestID x); [|done].
  by rewrite bool_decide_eq_false_2 by by apply Hn.
Qed.

Lemma latest_call_inv E turnSeq requestID id index :
  latest_tool_call_index E turnSeq requestID id = Some index -> (index < length E)%nat.
Proof.
  unfold latest_tool_call_index.
  apply (fold_left_inv (fun latest => latest = Some index -> (index < length E)%nat)); [done|].
  intros latest [i e] Hin IH H. apply elem_indexed, lookup_lt_Some in Hin.
  destruct (_ && _); [by simplify_eq/=|by apply IH].
Qed.

Lemma preserved_app E new turnSeq requestID id i :
  no_tool_of_turn turnSeq requestID new -> (i < length E)%nat ->
  i ∈ autoCompactionPreservedEntryIndexes (E ++ new) turnSeq requestID id <->
  i ∈ autoCompactionPreservedEntryIndexes E turnSeq requestID id.
Proof.
  intros Hn Hi. unfold autoCompactionPreservedEntryIndexes. destruct (turnSeq <=? 0); [done|].
  rewrite latest_call_app by done. cbv zeta.
  set (keep := fun item : nat * Entry => _).
  assert (Hset : i ∈ (list_to_set (map fst (List.filter keep (indexed (E ++ new)))) : gset nat) <->
                 i ∈ (list_to_set (map fst (List.filter keep (indexed E))) : gset nat)).
  { rewrite !elem_of_list_to_set, !list_elem_of_fmap. split; intros ([j e] & -> & Hj);
      apply elem_filter in Hj as [Hj Hk]; exists (j, e); (split; [done|]); apply elem_filter;
      (split; [|done]); apply elem_indexed in Hj; apply elem_indexed.
    - by rewrite lookup_app_l in Hj.
    - by rewrite lookup_app_l. }
  destruct (latest_tool_call_index E turnSeq requestID (TrimSpace id)) as [l|] eqn:El; [|done].
  apply latest_call_inv in El. rewrite lookup_app_l by done.
  destruct (E !! l) as [e|]; [|done]. destruct (toolCallEntryNeedsReasoningCarrier e); [|done].
  unfold latestAssistantReasoningCarrierIndex. rewrite indexed_app, take_app_le
    by (rewrite length_indexed; lia).
  rewrite indexed_app in Hset. destruct (carrier_from _ _ _); rewrite ?elem_of_union, Hset; done.
Qed.

Lemma preserved_by_app E new marker i :
  (PreserveCurrentTurnInputs (marker_payload marker) = true ->
   no_tool_of_turn (SummaryTurnSeq (marker_payload marker)) (SummaryRequestID (marker_payload marker)) new) ->
  (i < length E)%nat ->
  bool_decide (i ∈ preserved_by (E ++ new) marker) = bool_decide (i ∈ preserved_by E marker).
Proof.
  intros Hn Hi. apply bool_decide_ext. unfold preserved_by.
  destruct (PreserveCurrentTurnInputs _); [|done]. rewrite latest_completed_app by by apply Hn.
  apply preserved_app; [by apply Hn|done].
Qed.

Lemma carrier_from_inv turnSeq requestID l i : carrier_from turnSeq requestID l = Some i ->
  exists e, (i, e) ∈ l /\ kind_of e = "assistant_text" /\ in_turn turnSeq requestID e = true.
Proof.
  induction l as [|[j e] l IH]; simpl; [done|]. intros H.
  assert (Hr : carrier_from turnSeq requestID l = Some i -> exists e0, (i, e0) ∈ (j, e) :: l /\
    kind_of e0 = "assistant_text" /\ in_turn turnSeq requestID e0 = true)
    by (intros Hc; destruct (IH Hc) as (x & Hx & Hk); exists x; split; [by right|done]).
  destruct (in_turn turnSeq requestID e) eqn:Et; simpl in H; [|by apply Hr].
  case_decide as Hk; [|by case_decide; [|apply Hr]].
  destruct (decode_assistant_text (Payload_ e)); [|by apply Hr].
  destruct (_ && _); [|by apply Hr]. simplify_eq. exists e. split; [by left|done].
Qed.

(** What is preserved: the entries kept on purpose, and the carrier of their reasoning. *)
Lemma preserved_inv E turnSeq requestID id i :
  i ∈ autoCompactionPreservedEntryIndexes E turnSeq requestID id ->
  exists e, E !! i = Some e /\ in_turn turnSeq requestID e = true /\
    (shouldPreserveAutoCompactionEntry e (TrimSpace id) = true \/ kind_of e = "assistant_text").
Proof.
  unfold autoCompactionPreservedEntryIndexes. destruct (turnSeq <=? 0); [set_solver|].
  cbv zeta. set (keep := fun item : nat * Entry => _).
  assert (Hset : i ∈ (list_to_set (map fst (List.filter keep (indexed E))) : gset nat) ->
    exists e, E !! i = Some e /\ in_turn turnSeq requestID e = true /\
      (shouldPreserveAutoCompactionEntry e (TrimSpace id) = true \/ kind_of e = "assistant_text")).
  { rewrite elem_of_list_to_set, list_elem_of_fmap. intros ([j e] & -> & Hj).
    apply elem_filter in Hj as [Hj Hk]. apply andb_true_iff in Hk as [Hk1 Hk2].
    apply elem_indexed in Hj. exists e. repeat split; try done. by left. }
  destruct (latest_tool_call_index _ _ _ _) as [l|]; [|done].
  destruct (match E !! l with Some e => _ | None => _ end); [|done].
  unfold latestAssistantReasoningCarrierIndex.
  destruct (carrier_from _ _ _) as [c|] eqn:Ec; [|done].
  rewrite elem_of_union, elem_of_singleton. intros [->|H]; [|by apply Hset].
  destruct (carrier_from_inv _ _ _ _ Ec) as (e & He & Hk & Ht). exists e.
  rewrite elem_of_reverse in He. split; [|by split; [|right]]. apply elem_indexed.
  eapply subseteq_take, He.
Qed.

Lemma preserved_entry_kind e : kind_of (compactedProjectionPreservedEntry e) = kind_of e.
Proof.
  unfold compactedProjectionPreservedEntry, rewriteAutoCompactionToolResultEntry.
  repeat case_match; done.
Qed.

Lemma reencoded_id e payload next :
  kind_of e = "tool_result" -> decode_tool_result (Payload_ e) = Some payload ->
  ResultPayloadID next = ResultPayloadID payload ->
  historyEntryToolCallID (e <| Payload_ := encode_tool_result next |>) = historyEntryToolCallID e.
Proof.
  intros Hk Hd Hn. unfold historyEntryToolCallID. cbn [set_field ToolCallID Kind Payload_].
  rewrite Hk, !tool_result_id_of, Hd, tool_result_roundtrip. cbn [option_map]. by rewrite Hn.
Qed.

Lemma preserved_entry_id e :
  historyEntryToolCallID (compactedProjectionPreservedEntry e) = historyEntryToolCallID e.
Proof.
  unfold compactedProjectionPreservedEntry. case_decide as Hk; [done|].
  unfold rewriteAutoCompactionToolResultEntry. case_decide; [done|].
  destruct (decode_tool_result (Payload_ e)) as [payload|] eqn:Ed; [|done]. cbv zeta.
  destruct (same_payload _ _); [done|]. cbn [default].
  apply (reencoded_id e payload); [done|done|].
  destruct (_ || _); reflexivity.
Qed.

(** A tool entry is preserved only for the latest completed call. *)
Lemma preserved_tool_entry e id : kind_of e ∈ ["tool_call"; "tool_result"] ->
  shouldPreserveAutoCompactionEntry e id = true -> historyEntryToolCallID e = TrimSpace id.
Proof.
  intros Hk. unfold shouldPreserveAutoCompactionEntry. rewrite decide_False.
  2:{ intros Hn. rewrite !elem_of_cons, elem_of_nil in Hk, Hn.
      destruct Hk as [Hk|[Hk|[]]]; rewrite Hk in Hn; by destruct Hn as [|[|[]]]. }
  rewrite decide_True by done. intros H. apply andb_true_iff in H as [_ H].
  by apply bool_decide_eq_true in H.
Qed.

Lemma marker_app (before : list Entry) marker after new :
  (before ++ marker :: after) ++ new = before ++ marker :: (after ++ new).
Proof. by rewrite <- app_assoc. Qed.

(** ** Properties of the view *)

(** C14: a compacted view only grows at its end.  Appending entries that are not a compaction
    marker appends them to the view and changes nothing before them, as long as the turn the
    last marker preserves uses no other tool: what a provider was shown stays the prefix of
    what it is shown next. *)
Theorem compacted_view_extends entries new :
  Forall (fun e => not_marker e = true) new ->
  (forall marker, latest_marker entries = Some marker ->
     PreserveCurrentTurnInputs (marker_payload marker) = true ->
     no_tool_of_turn (SummaryTurnSeq (marker_payload marker))
       (SummaryRequestID (marker_payload marker)) new) ->
  compactedPromptProjectionEntries (entries ++ new) = compactedPromptProjectionEntries entries ++ new.
Proof.
  intros Hnew Hquiet. destruct (marker_split entries) as [(Hall & Hi & _)|(b & m & a & -> & Hm & Ha & Hl)].
  - unfold compactedPromptProjectionEntries. by rewrite compaction_index_app, Hi.
  - rewrite marker_app, !compacted_split by (done || by apply Forall_app).
    rewrite <- app_assoc. cbn [app]. rewrite <- app_assoc.
    apply (f_equal (fun l => _ ++ m :: map (fun item => compactedProjectionPreservedEntry item.2) l ++ _)).
    apply List.filter_ext_in. intros [i e] Hin. apply list_elem_of_In, elem_indexed in Hin.
    simpl. f_equal. rewrite <- marker_app. apply preserved_by_app; [by apply Hquiet|].
    apply lookup_lt_Some in Hin. rewrite length_app. lia.
Qed.

(** C35: what the view forgets.  After the marker of an automatic compaction, the next result of
    a tool in the same turn makes the view drop every tool call and result it had preserved
    before the marker, unless they carry the identifier of that result: the latest completed
    tool is looked up again over the whole history, also over what came after the marker. *)
Theorem preserved_tool_forgotten before marker after latest :
  not_marker marker = false -> Forall (fun e => not_marker e = true) (after ++ [latest]) ->
  PreserveCurrentTurnInputs (marker_payload marker) = true ->
  in_turn (SummaryTurnSeq (marker_payload marker)) (SummaryRequestID (marker_payload marker)) latest = true ->
  kind_of latest = "tool_result" -> historyEntryToolCallID latest <> EmptyString ->
  exists kept,
    compactedPromptProjectionEntries (before ++ marker :: after ++ [latest]) =
      List.filter (fun e => negb (isPromptReplayEntryKind (Kind e))) before ++
      marker :: kept ++ after ++ [latest] /\
    forall e, e ∈ kept -> kind_of e ∈ ["tool_call"; "tool_result"] ->
      historyEntryToolCallID e = TrimSpace (historyEntryToolCallID latest).
Proof.
  intros Hm Ha Hp Ht Hk Hid. rewrite compacted_split by done. eexists. split; [done|].
  intros e He Hke. apply list_elem_of_fmap in He as ([i x] & -> & Hx). simpl in *.
  rewrite preserved_entry_kind in Hke. rewrite preserved_entry_id.
  apply elem_filter in Hx as [Hx Hb]. simpl in Hb. apply andb_true_iff in Hb as [Hb _].
  apply bool_decide_eq_true in Hb. unfold preserved_by in Hb. rewrite Hp in Hb.
  assert (Hlatest : latestCompletedToolCallIDForTurn (before ++ marker :: after ++ [latest])
    (SummaryTurnSeq (marker_payload marker)) (SummaryRequestID (marker_payload marker)) =
    historyEntryToolCallID latest).
  { unfold latestCompletedToolCallIDForTurn.
    rewrite app_comm_cons, app_assoc, fold_left_app. simpl. rewrite Ht, bool_decide_eq_true_2 by done.
    simpl. by rewrite decide_False. }
  rewrite Hlatest in Hb. apply preserved_inv in Hb as (y & Hy & _ & Hs).
  apply elem_indexed in Hx. apply lookup_lt_Some in Hx as Hlt. rewrite lookup_app_l in Hy by done.
  simplify_eq. destruct Hs as [Hs|Hs].
  - rewrite (preserved_tool_entry _ _ Hke Hs). apply TrimSpace_idem.
  - rewrite Hs in Hke. exfalso. rewrite !elem_of_cons, elem_of_nil in Hke. by destruct Hke as [|[|[]]].
Qed.

End Projection.
