(* ===== verification/Sample.v ===== *)
(** * A concrete encoding of the history, on which the examples evaluate.

    A payload is the value it encodes; the documents inside a payload are the words ["read"]
    (a call of Read), ["done"] (with its result) and anything else, which does not decode. *)

From S2P Require Import Prelude Go Conversation EditText Replay Messages Projection.

Inductive SamplePayload :=
| PModel (m : Message)
| PSummary (p : compactionSummaryEntryPayload)
| PUser (text : string)
| PRequest (sections : list string)
| PContext (p : promptContextEntryPayload)
| PText (p : assistantTextPayload)
| PCall (p : toolCallEntryPayload)
| PResult (p : toolResultEntryPayload)
| PMetadata (p : metadataPayload).

#[export] Instance sample_decoders : Decoders SamplePayload := {
  decode_metadata := fun p => match p with PMetadata m => Some m | _ => None end;
  decode_tool_call_id := fun p => match p with PCall c => Some (CallPayloadID c) | _ => None end;
  decode_tool_result_id := fun p => match p with PResult c => Some (ResultPayloadID c) | _ => None end;
  decode_request_folder := fun _ => None;
  path_IsAbs := fun _ => true;
  path_Clean := id;
  path_Base := id;
  PathSeparator := "/"%char
}.

Definition sample_document (document : string) : option toolCallReplayShape :=
  if decide (document = "read") then Some (mkShape "Read" "{}" EmptyString false)
  else if decide (document = "done") then Some (mkShape "Read" "{}" "content" true)
  else None.

#[export] Instance sample_payloads
  : ReplayPayloads SamplePayload toolCallReplayShape string (list string) := {
  decode_model_message := fun p => match p with PModel m => Some m | _ => None end;
  decode_summary := fun p => match p with PSummary s => Some s | _ => None end;
  decode_user_message := fun p => match p with PUser t => Some t | _ => None end;
  decode_request_context := fun p => match p with PRequest s => Some s | _ => None end;
  decode_prompt_context := fun p => match p with PContext c => Some c | _ => None end;
  decode_assistant_text := fun p => match p with PText t => Some t | _ => None end;
  decode_tool_call := fun p => match p with PCall c => Some c | _ => None end;
  decode_tool_result := fun p => match p with PResult c => Some c | _ => None end;
  encode_tool_result := PResult;
  same_payload := fun _ _ => false;
  decode_document := sample_document;
  inferToolName := ShapeToolName;
  extractToolCallReplayShape := Some;
  GetText := id;
  selected_sections := fun _ => [];
  selected_images := fun _ => [];
  request_context_sections := id;
  content_hash := fun role content => role +:+ ":" +:+ content;
  tool_call_id_of := ltac:(by intros []);
  tool_result_id_of := ltac:(by intros []);
  tool_result_roundtrip := ltac:(done)
}.

#[export] Instance sample_json : Json := {
  json_Unmarshal := fun _ => None;
  json_Marshal := fun _ => EmptyString
}.

Definition sample_diffs : bytes -> bytes -> list Diff := fun _ _ => [].

(** ** Entries *)

Notation SampleEntry := (HistoryEntry SamplePayload) (only parsing).

Definition sample_entry (turn : Z) (request kind : string) (payload : SamplePayload) : SampleEntry :=
  mkEntry 0 turn request EmptyString EmptyString kind EmptyString EmptyString payload 0.

Definition no_reasoning_payload : ReasoningPayload :=
  mkReasoning EmptyString EmptyString EmptyString EmptyString EmptyString [].

Definition no_provider : ProviderIDs := mkProviderIDs EmptyString EmptyString EmptyString.

Definition user_entry (turn : Z) (request text : string) : SampleEntry :=
  sample_entry turn request "user_message" (PUser text).

Definition text_entry (turn : Z) (request text : string) : SampleEntry :=
  sample_entry turn request "assistant_text" (PText (mkAssistantText text no_reasoning_payload)).

Definition call_entry (turn : Z) (request id : string) : SampleEntry :=
  sample_entry turn request "tool_call" (PCall (mkToolCallPayload id "Read" no_reasoning_payload no_provider "read")).

Definition result_entry (turn : Z) (request id text : string) : SampleEntry :=
  sample_entry turn request "tool_result"
    (PResult (mkToolResultPayload id "Read" "{}" text no_reasoning_payload no_provider EmptyString)).

Definition cancel_entry (turn : Z) (request policy : string) : SampleEntry :=
  sample_entry turn request "metadata"
    (PMetadata (mkMetadata "control" {[ "status" := "canceled"; "replay_policy" := policy ]})).

Definition model_entry (role content : string) : SampleEntry :=
  sample_entry 0 EmptyString "model_message" (PModel (text_message role content)).

Definition summary_entry (turn : Z) (request summary : string) (preserve : bool) : SampleEntry :=
  sample_entry turn request "compacted_summary"
    (PSummary (mkCompactionSummary summary "auto" turn request 1 1 preserve)).

(** A conversation that holds the entries, its next turn being the given one. *)
Definition sample_conversation (next_turn : Z) (entries : list SampleEntry)
  : ConversationFile SamplePayload unit :=
  mkConversation 1 "c" "c" EmptyString EmptyString EmptyString EmptyString "agent" 0 EmptyString
    EmptyString EmptyString 0 0 0 false 0 0 EmptyString EmptyString tt [] None None 0 0 next_turn 1 entries.

(** ** A history with a cancelled turn, a compaction, and a call that was never answered *)

Definition sample_history : list SampleEntry :=
  [user_entry 1 "r1" "hello"; text_entry 1 "r1" "hi";
   user_entry 2 "r2" "read it"; call_entry 2 "r2" "a"; result_entry 2 "r2" "a" "content of a";
   summary_entry 2 "r2" "they greeted" true;
   text_entry 2 "r2" "done reading";
   user_entry 3 "r3" "and b"; call_entry 3 "r3" "b"; call_entry 3 "r3" "c";
   result_entry 3 "r3" "c" "content of c"; cancel_entry 3 "r3" "keep_interrupted_output";
   user_entry 4 "r4" "gone"; cancel_entry 4 "r4" "drop_unstarted_turn"].

(** What the provider sees, as role, content and identifiers. *)
Definition shown (prompt : list Message) : list (string * string * list string) :=
  map (fun m => (MsgRole m, MsgContent m, call_keys m ++ result_keys m)) prompt.

Example sample_prompt :
  match ProjectPromptReplay sample_diffs (sample_conversation 4 sample_history) with
  | Ok prompt => shown prompt
  | Err _ => []
  end =
  [("user", "<conversation_summary>" +:+ LFs 1 +:+ "they greeted" +:+ LFs 1 +:+ "</conversation_summary>", []);
   ("user", "<user_query>" +:+ LFs 1 +:+ "read it" +:+ LFs 1 +:+ "</user_query>", []);
   ("assistant", EmptyString, ["a"]); ("tool", "content of a", ["a"]);
   ("assistant", "done reading", []);
   ("user", "<user_query>" +:+ LFs 1 +:+ "and b" +:+ LFs 1 +:+ "</user_query>", []);
   ("assistant", EmptyString, ["c"]); ("tool", "content of c", ["c"])].
Proof. vm_compute. reflexivity. Qed.

(** ** Witnesses of the properties of the view (Projection.v) *)

(** The first turns of the history, compacted. *)
Definition compacted_history : list SampleEntry := take 6 sample_history.

Lemma compacted_view_extends_witness :
  compactedPromptProjectionEntries sample_diffs (compacted_history ++ [user_entry 3 "r3" "and b"; call_entry 3 "r3" "b"]) =
  compactedPromptProjectionEntries sample_diffs compacted_history ++
    [user_entry 3 "r3" "and b"; call_entry 3 "r3" "b"].
Proof.
  apply (compacted_view_extends sample_diffs compacted_history).
  - apply (bool_decide_unpack _). vm_compute. exact I.
  - intros marker Hm _. vm_compute in Hm. injection Hm as <-. unfold no_tool_of_turn.
    repeat constructor; vm_compute; discriminate.
Defined.

Lemma preserved_tool_forgotten_witness :
  exists kept,
    compactedPromptProjectionEntries sample_diffs
      (take 5 sample_history ++ summary_entry 2 "r2" "they greeted" true ::
       [call_entry 2 "r2" "b"] ++ [result_entry 2 "r2" "b" "content of b"]) =
      List.filter (fun e => negb (isPromptReplayEntryKind (Kind e))) (take 5 sample_history) ++
      summary_entry 2 "r2" "they greeted" true :: kept ++
      [call_entry 2 "r2" "b"] ++ [result_entry 2 "r2" "b" "content of b"] /\
    forall e, e ∈ kept -> TrimSpace (Kind e) ∈ ["tool_call"; "tool_result"] ->
      historyEntryToolCallID e =
      TrimSpace (historyEntryToolCallID (result_entry 2 "r2" "b" "content of b")).
Proof.
  apply (preserved_tool_forgotten sample_diffs (take 5 sample_history)
    (summary_entry 2 "r2" "they greeted" true) [call_entry 2 "r2" "b"]
    (result_entry 2 "r2" "b" "content of b")); try (vm_compute; reflexivity).
  - apply (bool_decide_unpack _). vm_compute. exact I.
  - discriminate.
Defined.
