(* ===== verification/Compaction.v ===== *)
(** * Compacting a conversation (forwarder/compaction.go, token_usage.go).

    When a prompt comes near the context window, or the user asks for it, the older turns, and
    at automatic compaction also the finished tools of the current turn, are summarised.  The
    plan lists what the summary must cover; applying it appends a marker with the summary to
    the history, and the projector (Projection.v) hides what the marker replaces.  The summary
    text itself comes from a provider, or from [buildFallbackCompactionSummary].

    The interface [CompactionPayloads] adds the encoder of the marker's payload, the text of a
    payload, the shape of a stored tool call and the runtime state of a conversation.  The
    fraction of the window in use, which only a hook reads, is left out. *)

From S2P Require Import Prelude Go Strings Conversation Rewind EditText Replay Messages Tokens Projection Sample.

Record compactedTurnSummary := mkTurnSummary { UserText : string; Steps : list string }.

Record compactionCandidateTurn := mkCandidate {
  CandidateSummary : compactedTurnSummary;
  ReplayCount : Z;
  CandidateTokens : Z
}.

(** [compactionPlan], which is also what a [PendingCompaction] keeps of it, with the hook message
    and the model call id of the latter. *)
Record compactionPlan := mkPlan {
  PlanTrigger : string;
  ContextTokens : Z;
  ContextWindowSize : Z;
  ReserveTokens : Z;
  MessageCount : Z;
  MessagesToCompact : Z;
  CompactTurnCount : Z;
  IsFirstCompaction : bool;
  ExistingSummary : string;
  CompactedTurns : list compactedTurnSummary;
  ManualInstruction : string;
  RequestSource : string;
  PlanTurnSeq : Z;
  PlanRequestID : string;
  CurrentUserText : string;
  PlanPreserves : bool;
  PlanHookMessage : string
}.

#[export] Instance eta_plan : Eta compactionPlan := fun p =>
  mkPlan (PlanTrigger p) (ContextTokens p) (ContextWindowSize p) (ReserveTokens p) (MessageCount p)
    (MessagesToCompact p) (CompactTurnCount p) (IsFirstCompaction p) (ExistingSummary p)
    (CompactedTurns p) (ManualInstruction p) (RequestSource p) (PlanTurnSeq p) (PlanRequestID p)
    (CurrentUserText p) (PlanPreserves p) (PlanHookMessage p).

Definition compactionAutoReserveTokens : Z := 10000.
Definition compactionSummaryMaxChars : Z := 12000.
Definition compactionTurnSnippetMaxChars : Z := 900.

Class CompactionPayloads (Payload ToolCall UserMessage RequestContext : Type)
    `{RP : ReplayPayloads Payload ToolCall UserMessage RequestContext} := {
  encode_summary : compactionSummaryEntryPayload -> Payload;
  summary_roundtrip : forall p, decode_summary (encode_summary p) = Some p;
  payload_text : Payload -> string;
  compact_tool_shape : ToolCall -> option (string * string)
}.

(** ** Texts *)

(** The first [n] runes of a text. *)
Fixpoint rune_prefix (n : nat) (s : bytes) : bytes :=
  match n with
  | O => []
  | S n => take (rune_size s) s ++ rune_prefix n (drop (rune_size s) s)
  end.

(** [truncateCompactionText]; converting to runes and back turns an invalid byte into U+FFFD,
    which is left out here: the texts come out of JSON, which is valid UTF-8. *)
Definition truncateCompactionText (text : string) (maxChars : Z) : string :=
  let trimmed := TrimSpace text in
  if decide (trimmed = EmptyString) then EmptyString
  else if maxChars <=? 0 then EmptyString
  else if runes trimmed <=? maxChars then trimmed
  else string_of (rune_prefix (Z.to_nat maxChars) (bytes_of trimmed)) +:+ "...".

Definition parseManualCompactionDirective (latestUserText : string) : option string :=
  let trimmed := TrimSpace latestUserText in
  if decide (trimmed = "/summarize") then Some EmptyString
  else
    match strip_prefix (bytes_of "/summarize ") (bytes_of trimmed) with
    | Some _ =>
        match strip_prefix (bytes_of "/summarize") (bytes_of trimmed) with
        | Some rest => Some (TrimSpace (string_of rest))
        | None => Some trimmed
        end
    | None => None
    end.

Definition maxPositiveInt64 (values : list Z) : Z :=
  fold_left (fun maxValue value => if maxValue <? value then value else maxValue) values 0.

Section Compaction.
Context {Payload Docs ToolCall UserMessage RequestContext : Type}
  `{DC : !Decoders Payload} `{RP : !ReplayPayloads Payload ToolCall UserMessage RequestContext}
  `{CP : !CompactionPayloads Payload ToolCall UserMessage RequestContext}
  {JL : Json} (line_diffs : bytes -> bytes -> list Diff).

Notation Entry := (HistoryEntry Payload).
Notation kind_of e := (TrimSpace (Kind e)).
Notation Conv := (ConversationFile Payload Docs).

(** ** What a summary must cover *)

Definition currentTurnUserText (entry : Entry) : string :=
  match decode_user_message (Payload_ entry) with
  | Some userMessage => truncateCompactionText (GetText userMessage) (compactionTurnSnippetMaxChars / 3)
  | None => EmptyString
  end.

Definition summarizeCurrentTurnAssistantEntry (entry : Entry) : string :=
  match decode_assistant_text (Payload_ entry) with
  | None => EmptyString
  | Some payload =>
      let text := truncateCompactionText (AssistantText payload) (compactionTurnSnippetMaxChars / 3) in
      let thinking := truncateCompactionText (PayloadReasoning (TextReasoning payload))
                        (compactionTurnSnippetMaxChars / 4) in
      if decide (text <> EmptyString) then "assistant=" +:+ text
      else if decide (thinking <> EmptyString) then "thinking=" +:+ thinking
      else EmptyString
  end.

Definition summarizeCurrentTurnToolCallEntry (entry : Entry) : string :=
  match decode_tool_call (Payload_ entry) with
  | None => EmptyString
  | Some payload =>
      let toolName := TrimSpace (CallPayloadName payload) in
      (if decide (toolName = EmptyString) then "tool_call" else toolName) +:+ "=called"
  end.

Definition summarizeCompactedToolCall (toolCall : ToolCall) : string * string :=
  match compact_tool_shape toolCall with
  | None => (EmptyString, EmptyString)
  | Some (toolName, resultJSON) =>
      (toolName, truncateCompactionText resultJSON (compactionTurnSnippetMaxChars / 3))
  end.

Definition summarizeCurrentTurnToolResultEntry (entry : Entry) : string :=
  match decode_tool_result (Payload_ entry) with
  | None => EmptyString
  | Some payload =>
      let plain :=
        let toolName := TrimSpace (ResultToolName payload) in
        let toolName := if decide (toolName = EmptyString) then "tool_result" else toolName in
        let result := truncateCompactionText (ResultText payload) (compactionTurnSnippetMaxChars / 3) in
        if decide (result <> EmptyString) then toolName +:+ "=" +:+ result
        else toolName +:+ "=completed" in
      if decide (ResultDocument payload = EmptyString) then plain
      else
        match decode_document (ResultDocument payload) with
        | None => plain
        | Some toolCall =>
            let '(toolName, detail) := summarizeCompactedToolCall toolCall in
            if decide (toolName <> EmptyString) then toolName +:+ "=" +:+ detail else plain
        end
  end.

(** The step an assistant text, a call or a result leaves in a summary, if the entry is one. *)
Definition step_of (entry : Entry) : option string :=
  if decide (kind_of entry = "assistant_text") then Some (summarizeCurrentTurnAssistantEntry entry)
  else if decide (kind_of entry = "tool_call") then Some (summarizeCurrentTurnToolCallEntry entry)
  else if decide (kind_of entry = "tool_result") then Some (summarizeCurrentTurnToolResultEntry entry)
  else None.

Definition is_tool_entry (entry : Entry) : bool :=
  bool_decide (kind_of entry ∈ ["tool_call"; "tool_result"]).

Definition entry_tokens (entry : Entry) : Z := estimateTextTokens (payload_text (Payload_ entry)).

(** What both scans accumulate: the summary, the counters, and whether a tool entry was met. *)
Record Scan := mkCandidateScan {
  scan_summary : compactedTurnSummary;
  scan_count : Z;
  scan_tokens : Z;
  removedToolHistory : bool
}.

Definition empty_scan : Scan := mkCandidateScan (mkTurnSummary EmptyString []) 0 0 false.

(** An entry counted, with the step it leaves when this is not empty. *)
Definition count_entry (entry : Entry) (step : option string) (s : Scan) : Scan :=
  let summary := scan_summary s in
  mkCandidateScan
    (match step with
     | Some step => if decide (step = EmptyString) then summary
                    else mkTurnSummary (UserText summary) (Steps summary ++ [step])
     | None => summary
     end)
    (wrap_int32 (scan_count s + 1)) (wrap_int64 (scan_tokens s + entry_tokens entry))
    (removedToolHistory s || is_tool_entry entry).

(** The first text the user wrote in the turn. *)
Definition note_user_text (entry : Entry) (s : Scan) : Scan :=
  if bool_decide (kind_of entry = "user_message") &&
     bool_decide (TrimSpace (UserText (scan_summary s)) = EmptyString)
  then mkCandidateScan (mkTurnSummary (currentTurnUserText entry) (Steps (scan_summary s)))
         (scan_count s) (scan_tokens s) (removedToolHistory s)
  else s.

Definition current_step (preserved : gset nat) (turnSeq : Z) (requestID : string) (s : Scan)
    (item : nat * Entry) : Scan :=
  let '(index, entry) := item in
  if negb (in_turn turnSeq requestID entry) then s
  else
    let s := note_user_text entry s in
    if decide (index ∈ preserved) then s
    else
      match step_of entry with
      | Some step => count_entry entry (Some step) s
      | None => s
      end.

Definition current_scan (entries : list Entry) (turnSeq : Z) (requestID : string) : Scan :=
  fold_left (current_step
      (autoCompactionPreservedEntryIndexes entries turnSeq requestID
         (latestCompletedToolCallIDForTurn entries turnSeq requestID)) turnSeq requestID)
    (indexed entries) empty_scan.

Definition buildCurrentTurnCompactionCandidate (entries : list Entry) (turnSeq : Z) (requestID : string)
  : option compactionCandidateTurn :=
  if (turnSeq <=? 0) || bool_decide (TrimSpace requestID = EmptyString) then None
  else if decide (latestCompletedToolCallIDForTurn entries turnSeq requestID = EmptyString) then None
  else
    let s := current_scan entries turnSeq requestID in
    if negb (removedToolHistory s) || (scan_count s <=? 0) then None
    else
      Some (mkCandidate
        (if decide (Steps (scan_summary s) = [])
         then mkTurnSummary (UserText (scan_summary s))
                ["tool_history=earlier current-turn tool history compacted"]
         else scan_summary s) (scan_count s) (scan_tokens s)).

Definition turn_step (s : Scan) (entry : Entry) : Scan :=
  if decide (kind_of entry = "user_message") then count_entry entry None (note_user_text entry s)
  else
    match step_of entry with
    | Some step => count_entry entry (Some step) s
    | None => s
    end.

Definition buildContextTurnCompactionCandidate (entries : list Entry) : option compactionCandidateTurn :=
  let s := fold_left turn_step entries empty_scan in
  if (scan_count s <=? 0) ||
     (bool_decide (TrimSpace (UserText (scan_summary s)) = EmptyString) &&
      bool_decide (Steps (scan_summary s) = []))
  then None
  else Some (mkCandidate (scan_summary s) (scan_count s) (scan_tokens s)).

(** The entries of the turns to summarise. *)
Definition to_compact (currentTurnSeq : Z) (currentRequestID : string) (entry : Entry) : bool :=
  (0 <? TurnSeq entry) && negb (isCompactionSummaryKind (Kind entry)) &&
  negb (in_turn currentTurnSeq currentRequestID entry).

(** The turns in the order of their first entry. *)
Fixpoint turn_order (entries : list Entry) : list Z :=
  match entries with
  | [] => []
  | entry :: rest =>
      TurnSeq entry :: List.filter (fun turn => negb (turn =? TurnSeq entry)) (turn_order rest)
  end.

Definition buildContextCompactionCandidates (entries : list Entry) (currentTurnSeq : Z)
    (currentRequestID : string) : list compactionCandidateTurn :=
  let selected := List.filter (to_compact currentTurnSeq currentRequestID) entries in
  omap (fun turn => buildContextTurnCompactionCandidate (turn_entries turn selected)) (turn_order selected).

(** ** Plans *)

Definition compactionSummaryTexts (conversation : Conv) : list string :=
  omap (fun entry => if isCompactionSummaryKind (Kind entry) then decodeCompactionSummaryEntry entry
                     else None) (Entries conversation).

Definition existingConversationSummaryText (conversation : Conv) : string :=
  match last (compactionSummaryTexts conversation) with
  | Some text => TrimSpace text
  | None => EmptyString
  end.

Definition conversationHasLocalCarryForwardState (conversation : Conv) : bool :=
  negb (bool_decide (compactionSummaryTexts conversation = [])).

Definition compactionContextWindowSize (conversation : Conv) : Z :=
  if 0 <? TokenDetailsMaxTokens conversation then TokenDetailsMaxTokens conversation
  else projectedConversationMaxTokens.

Notation replayable := (replayablePromptProjectionEntries line_diffs).

Definition buildLegacyCompactionPlan (base : compactionPlan) (conversation : Conv) : option compactionPlan :=
  let candidates := buildContextCompactionCandidates (replayable (Entries conversation))
                      (PlanTurnSeq base) (PlanRequestID base) in
  if decide (length candidates = 0%nat) then None
  else
    Some (base <| RequestSource := "prompt_asset" |>
               <| MessagesToCompact :=
                    fold_left (fun n c => wrap_int32 (n + ReplayCount c)) candidates 0 |>
               <| CompactTurnCount := clampInt64ToInt32 (Z.of_nat (length candidates)) |>
               <| CompactedTurns := map CandidateSummary candidates |>).

Definition buildAutoCompactionPlanFromHistory (base : compactionPlan) (conversation : Conv)
  : option compactionPlan :=
  let legacyPlan := buildLegacyCompactionPlan base conversation in
  match buildCurrentTurnCompactionCandidate (replayable (Entries conversation)) (PlanTurnSeq base)
          (PlanRequestID base) with
  | None => legacyPlan
  | Some current =>
      match legacyPlan with
      | None =>
          Some (base <| RequestSource := "current_turn_compaction" |>
                     <| MessagesToCompact := ReplayCount current |>
                     <| CompactTurnCount := 1 |>
                     <| CompactedTurns := [CandidateSummary current] |>)
      | Some plan =>
          Some (plan <| RequestSource := "current_turn_compaction" |>
                     <| MessagesToCompact := wrap_int32 (MessagesToCompact plan + ReplayCount current) |>
                     <| CompactTurnCount := wrap_int32 (CompactTurnCount plan + 1) |>
                     <| CompactedTurns := CompactedTurns plan ++ [CandidateSummary current] |>)
      end
  end.

(** What the plans read of the stream. *)
Record PlanStream := mkPlanStream {
  StreamTurnSeq : Z;
  StreamRequestID : string;
  StreamUserText : string
}.

Definition base_plan (trigger : string) (stream : PlanStream) (conversation : Conv)
    (compiled : CompiledConversation) (contextTokens contextWindowSize reserveTokens : Z)
    (manualInstruction : string) (preserve : bool) : compactionPlan :=
  mkPlan trigger contextTokens contextWindowSize reserveTokens
    (clampInt64ToInt32 (Z.of_nat (length (CompiledMessages compiled)))) 0 0
    (bool_decide (compactionSummaryTexts conversation = []))
    (existingConversationSummaryText conversation) [] manualInstruction EmptyString
    (StreamTurnSeq stream) (TrimSpace (StreamRequestID stream)) (TrimSpace (StreamUserText stream))
    preserve EmptyString.

(** The latest prompt tokens the store remembers enter as [stored_tokens]. *)
Definition resolveCompactionBaselineTokens (stored_tokens : result (option Z))
    (compiled : CompiledConversation) (conversation : Conv) : result Z :=
  let contextTokens := estimateCompiledPromptTokens compiled in
  if 0 <? contextTokens then Ok contextTokens
  else if 0 <? TokenDetailsUsedTokens conversation then Ok (TokenDetailsUsedTokens conversation)
  else if conversationHasLocalCarryForwardState conversation then Ok 0
  else
    match stored_tokens with
    | Err e => Err e
    | Ok (Some promptTokens) => Ok (if 0 <? promptTokens then promptTokens else 0)
    | Ok None => Ok 0
    end.

Definition buildManualCompactionPlan (stored_tokens : result (option Z)) (stream : PlanStream)
    (conversation : Conv) (compiled : CompiledConversation) (manualInstruction : string)
  : result (option compactionPlan) :=
  let contextWindowSize := compactionContextWindowSize conversation in
  if contextWindowSize <=? 0 then Ok None
  else
    match resolveCompactionBaselineTokens stored_tokens compiled conversation with
    | Err e => Err e
    | Ok contextTokens =>
        if contextTokens <=? 0 then Ok None
        else Ok (buildLegacyCompactionPlan
                   (base_plan "manual" stream conversation compiled contextTokens contextWindowSize
                      compactionAutoReserveTokens (TrimSpace manualInstruction) false) conversation)
    end.

Definition compactionOverflowTerminalCode : string := "context_overflow_after_compaction".

Definition buildAutoCompactionPlan (stream : PlanStream) (conversation : Conv)
    (compiled : CompiledConversation) : result (option compactionPlan) :=
  let contextWindowSize := compactionContextWindowSize conversation in
  if contextWindowSize <=? 0 then Ok None
  else
    let estimatedCompiledTokens := estimateCompiledPromptTokens compiled in
    let budgetTokens := contextWindowSize - compactionAutoReserveTokens in
    let preflightExceeded := (0 <? estimatedCompiledTokens) && (budgetTokens <? estimatedCompiledTokens) in
    let contextTokens := maxPositiveInt64 [AutoCompactionPromptTokens conversation;
                           estimatedCompiledTokens; TokenDetailsUsedTokens conversation] in
    let pendingExceeded := AutoCompactionPending conversation && (0 <? contextTokens) &&
                           (budgetTokens <? contextTokens) in
    if negb pendingExceeded && negb preflightExceeded then Ok None
    else
      let base := base_plan "auto" stream conversation compiled contextTokens contextWindowSize
                    compactionAutoReserveTokens EmptyString true in
      match buildAutoCompactionPlanFromHistory base conversation with
      | Some plan => Ok (Some plan)
      | None => if preflightExceeded then Err compactionOverflowTerminalCode else Ok None
      end.

Definition buildCompactionPlan (stored_tokens : result (option Z)) (stream : PlanStream)
    (conversation : Conv) (compiled : CompiledConversation) (manual : option string)
  : result (option compactionPlan) :=
  match manual with
  | Some manualInstruction =>
      buildManualCompactionPlan stored_tokens stream conversation compiled manualInstruction
  | None => buildAutoCompactionPlan stream conversation compiled
  end.

(** ** Applying a plan *)

Definition newCompactionSummaryEntry (plan : compactionPlan) (summaryText : string) : Entry :=
  mkEntry 0 (PlanTurnSeq plan) (TrimSpace (PlanRequestID plan)) EmptyString "system" "compacted_summary"
    EmptyString EmptyString
    (encode_summary (mkCompactionSummary (TrimSpace summaryText) (TrimSpace (PlanTrigger plan))
       (PlanTurnSeq plan) (TrimSpace (PlanRequestID plan)) (CompactTurnCount plan)
       (MessagesToCompact plan) (PlanPreserves plan))) 0.

(** The runtime state of the conversation, encoded, when there is any. *)
Definition newCompactedRuntimeStateEntry (runtime_state : Conv -> result (option Payload))
    (conversation : Conv) (plan : compactionPlan) : result (option Entry) :=
  match runtime_state conversation with
  | Err e => Err e
  | Ok None => Ok None
  | Ok (Some encoded) =>
      Ok (Some (mkEntry 0 (PlanTurnSeq plan) (TrimSpace (PlanRequestID plan)) EmptyString "system"
                  "runtime_state" EmptyString EmptyString encoded 0))
  end.

Definition buildCompactedContextEntries (runtime_state : Conv -> result (option Payload))
    (conversation : Conv) (plan : compactionPlan) (summaryText : string) : result (list Entry) :=
  match newCompactedRuntimeStateEntry runtime_state conversation plan with
  | Err e => Err e
  | Ok None => Ok [newCompactionSummaryEntry plan summaryText]
  | Ok (Some runtimeEntry) => Ok [newCompactionSummaryEntry plan summaryText; runtimeEntry]
  end.

Definition applyCompactionToConversation (runtime_state : Conv -> result (option Payload)) (now : Z)
    (conversation : Conv) (plan : compactionPlan) (summaryText : string) : result Conv :=
  match buildCompactedContextEntries runtime_state conversation plan summaryText with
  | Err e => Err e
  | Ok compactionEntries =>
      let conversation := (appendEntriesInPlace now conversation (resetEntrySequences compactionEntries)).2 in
      let conversation := clearConversationAutoCompactionState
                            (conversation <| TokenDetailsUsedTokens := 0 |>) in
      Ok (if TokenDetailsMaxTokens conversation =? 0
          then conversation <| TokenDetailsMaxTokens := projectedConversationMaxTokens |>
          else conversation)
  end.

Definition validateCompactionCandidateBudget (compiled : CompiledConversation) (plan : compactionPlan)
  : result unit :=
  let budgetTokens := ContextWindowSize plan - ReserveTokens plan in
  if (0 <? budgetTokens) && (estimateCompiledPromptTokens compiled <=? budgetTokens) then Ok tt
  else Err compactionOverflowTerminalCode.

(** [applyCompactionPlan] up to the append of its entries to the store: what the store is given.
    [compile] is the prompt compiler, which is given the user text. *)
Definition applyCompactionPlan (runtime_state : Conv -> result (option Payload))
    (compile : Conv -> string -> result CompiledConversation) (now : Z) (candidate : Conv)
    (plan : compactionPlan) (summaryText : string) : result (list Entry) :=
  match applyCompactionToConversation runtime_state now candidate plan summaryText with
  | Err e => Err e
  | Ok compacted =>
      match compile compacted (if PlanPreserves plan then CurrentUserText plan else EmptyString) with
      | Err e => Err e
      | Ok recompiled =>
          match validateCompactionCandidateBudget recompiled plan with
          | Err e => Err e
          | Ok _ => Ok (resetEntrySequences (drop (length (Entries candidate)) (Entries compacted)))
          end
      end
  end.

(** The state that asks for an automatic compaction before the next pass. *)
Definition updateConversationAutoCompactionState (conversation : Conv) (promptTokensTotal : Z)
    (reserveTokens : Z) (modelCallID triggeredAt : string) : Conv :=
  if promptTokensTotal <=? 0 then clearConversationAutoCompactionState conversation
  else
    let contextWindowTokens := compactionContextWindowSize conversation in
    let reserveTokens := if reserveTokens <=? 0 then compactionAutoReserveTokens else reserveTokens in
    if reserveTokens <? contextWindowTokens - promptTokensTotal
    then clearConversationAutoCompactionState conversation
    else conversation <| AutoCompactionPending := true |>
                      <| AutoCompactionPromptTokens := promptTokensTotal |>
                      <| AutoCompactionReserveTokens := reserveTokens |>
                      <| AutoCompactionTriggeredAt := triggeredAt |>
                      <| AutoCompactionSourceModelCallID := TrimSpace modelCallID |>.

(** ** The summary without a provider *)

Definition summary_line (position : nat) (item : compactedTurnSummary) : option string :=
  let parts :=
    (if decide (TrimSpace (UserText item) = EmptyString) then []
     else ["user=" +:+ truncateCompactionText (UserText item) 400]) ++
    map (fun step => truncateCompactionText step 400)
      (List.filter (fun step => negb (bool_decide (TrimSpace step = EmptyString))) (Steps item)) in
  if decide (parts = []) then None
  else Some (Sprintd (Z.of_nat position + 1) +:+ ". " +:+ Join parts " | ").

Definition buildFallbackCompactionSummary (plan : compactionPlan) : string :=
  let section title text limit :=
    if decide (TrimSpace text = EmptyString) then []
    else [title +:+ LFs 1 +:+ truncateCompactionText text limit] in
  let lines := omap id (imap summary_line (CompactedTurns plan)) in
  let sections :=
    ["Conversation summary";
     "Earlier context was compacted into this summary. Preserve the facts, decisions, tool results, and user intent below when continuing the conversation."]
    ++ section "Previous summary:" (ExistingSummary plan) (compactionSummaryMaxChars / 4)
    ++ (if decide (lines = []) then []
        else ["Compacted turns:" +:+ LFs 1 +:+
              truncateCompactionText (Join lines (LFs 1)) (compactionSummaryMaxChars / 2)])
    ++ section "Compaction note:" (PlanHookMessage plan) 800
    ++ section "Manual summarize instruction:" (ManualInstruction plan) 800 in
  TrimSpace (truncateCompactionText (Join sections (LFs 2)) compactionSummaryMaxChars).

(** ** Lemmas: the scans *)

Lemma in_turn_trim turnSeq requestID (e : Entry) :
  in_turn turnSeq (TrimSpace requestID) e = in_turn turnSeq requestID e.
Proof. unfold in_turn. by rewrite TrimSpace_idem. Qed.

(** A fold that only adds steps, and adds this one at [x], ends with it. *)
Lemma fold_reaches {A} (f : Scan -> A -> Scan) (l : list A) (x : A) (step : string) s :
  (forall s y, Steps (scan_summary s) ⊆ Steps (scan_summary (f s y))) ->
  (forall s, step ∈ Steps (scan_summary (f s x))) -> x ∈ l ->
  step ∈ Steps (scan_summary (fold_left f l s)).
Proof.
  intros Hmono Hadd. assert (Hkeep : forall l s, step ∈ Steps (scan_summary s) ->
    step ∈ Steps (scan_summary (fold_left f l s))).
  { clear -Hmono. intros l. induction l as [|y l IH]; intros s H; simpl; [done|]. by apply IH, Hmono. }
  revert s. induction l as [|y l IH]; intros s Hx; [by apply elem_of_nil in Hx|]. simpl.
  apply elem_of_cons in Hx as [->|Hx]; [apply Hkeep, Hadd|by apply IH].
Qed.

Lemma count_entry_steps e step s : Steps (scan_summary s) ⊆ Steps (scan_summary (count_entry e step s)).
Proof.
  unfold count_entry. simpl. destruct step as [step|]; [|done]. case_decide; [done|]. simpl.
  intros x Hx. apply elem_of_app. by left.
Qed.

Lemma count_entry_adds e step s : step <> EmptyString ->
  step ∈ Steps (scan_summary (count_entry e (Some step) s)).
Proof.
  intros H. unfold count_entry. simpl. rewrite decide_False by done. simpl.
  apply elem_of_app. right. by apply list_elem_of_singleton.
Qed.

Lemma note_user_text_steps e s : Steps (scan_summary (note_user_text e s)) = Steps (scan_summary s).
Proof. unfold note_user_text. by destruct (_ && _). Qed.

Lemma turn_step_mono s e : Steps (scan_summary s) ⊆ Steps (scan_summary (turn_step s e)).
Proof.
  unfold turn_step. case_decide.
  - rewrite <- (note_user_text_steps e s). apply count_entry_steps.
  - destruct (step_of e); [apply count_entry_steps|done].
Qed.

Lemma current_step_mono preserved turnSeq requestID s item :
  Steps (scan_summary s) ⊆ Steps (scan_summary (current_step preserved turnSeq requestID s item)).
Proof.
  destruct item as [i e]. unfold current_step. destruct (negb _); [done|].
  rewrite <- (note_user_text_steps e s). case_decide; [done|].
  destruct (step_of e); [apply count_entry_steps|done].
Qed.

Lemma step_not_user e step : step_of e = Some step -> kind_of e <> "user_message".
Proof. intros H E. unfold step_of in H. rewrite E in H. discriminate. Qed.

(** The counters stay within 32 bits, and count an entry that leaves a step. *)
Lemma fold_counts {A} (f : Scan -> A -> Scan) l s :
  (forall s y, 0 <= scan_count s -> scan_count s < 2 ^ 31 - 1 ->
     scan_count s <= scan_count (f s y) <= scan_count s + 1) ->
  0 <= scan_count s -> scan_count s + Z.of_nat (length l) < 2 ^ 31 ->
  scan_count s <= scan_count (fold_left f l s) /\
  forall x, x ∈ l -> (forall s, 0 <= scan_count s -> scan_count s < 2 ^ 31 - 1 ->
                      scan_count (f s x) = scan_count s + 1) ->
    scan_count s < scan_count (fold_left f l s).
Proof.
  intros Hf. revert s. induction l as [|y l IH]; intros s H0 Hl; cbn [fold_left length] in *.
  - split; [lia|]. intros x Hx. by apply elem_of_nil in Hx.
  - assert (Hy := Hf s y H0 ltac:(lia)). destruct (IH (f s y)) as [H1 H2]; [lia|lia|].
    split; [lia|]. intros x Hx Hadd. apply elem_of_cons in Hx as [->|Hx].
    + rewrite Hadd in H1 by lia. lia.
    + specialize (H2 x Hx Hadd). lia.
Qed.

Lemma note_user_text_count e s : scan_count (note_user_text e s) = scan_count s.
Proof. unfold note_user_text. by destruct (_ && _). Qed.

Lemma wrap_int32_next z : 0 <= z -> z < 2 ^ 31 - 1 -> wrap_int32 (z + 1) = z + 1.
Proof. intros. unfold wrap_int32. rewrite Z.mod_small; lia. Qed.

Lemma turn_step_count s e : 0 <= scan_count s -> scan_count s < 2 ^ 31 - 1 ->
  scan_count s <= scan_count (turn_step s e) <= scan_count s + 1.
Proof.
  intros H0 H1. unfold turn_step. case_decide.
  - cbn. rewrite note_user_text_count, wrap_int32_next by lia. lia.
  - destruct (step_of e); [|lia]. cbn. rewrite wrap_int32_next by lia. lia.
Qed.

Lemma turn_candidate entries e step :
  e ∈ entries -> step_of e = Some step -> step <> EmptyString ->
  Z.of_nat (length entries) < 2 ^ 31 ->
  exists c, buildContextTurnCompactionCandidate entries = Some c /\ step ∈ Steps (CandidateSummary c).
Proof.
  intros He Hs Hne Hlen. unfold buildContextTurnCompactionCandidate.
  assert (Hadd : forall s, turn_step s e = count_entry e (Some step) s).
  { intros s. unfold turn_step. rewrite decide_False by by eapply step_not_user. by rewrite Hs. }
  assert (Hin : step ∈ Steps (scan_summary (fold_left turn_step entries empty_scan))).
  { apply (fold_reaches turn_step _ e); [apply turn_step_mono| |done].
    intros s. rewrite Hadd. by apply count_entry_adds. }
  assert (Hcount : 0 < scan_count (fold_left turn_step entries empty_scan)).
  { destruct (fold_counts turn_step entries empty_scan turn_step_count) as [_ Hc]; [done|done|].
    apply (Hc e He). intros s H0 H1. rewrite Hadd. cbn. by apply wrap_int32_next. }
  rewrite (proj2 (Z.leb_gt _ 0)) by lia. cbn [orb].
  rewrite (bool_decide_eq_false_2 (Steps _ = [])), andb_false_r.
  - eexists. split; [reflexivity|]. exact Hin.
  - intros E. rewrite E in Hin. by apply elem_of_nil in Hin.
Qed.

Lemma turn_order_in entries turn : turn ∈ turn_order entries <-> exists e, e ∈ entries /\ TurnSeq e = turn.
Proof.
  induction entries as [|e entries IH]; cbn [turn_order].
  - split; [intros H; by apply elem_of_nil in H|]. intros (e & He & _). by apply elem_of_nil in He.
  - rewrite elem_of_cons, elem_filter, IH. split.
    + intros [->|[(x & Hx & Ht) _]]; [exists e|exists x]; (split; [|done]); [by left|by right].
    + intros (x & Hx & <-). apply elem_of_cons in Hx as [->|Hx]; [by left|].
      destruct (Z.eq_dec (TurnSeq x) (TurnSeq e)) as [Heq|Hneq]; [by left|right].
      split; [by exists x|]. by rewrite (proj2 (Z.eqb_neq _ _)).
Qed.

Lemma filter_length_le {A} (f : A -> bool) l : (length (List.filter f l) <= length l)%nat.
Proof. induction l as [|x l IH]; simpl; [lia|]. destruct (f x); simpl; lia. Qed.

(** A past entry is summarised with its turn. *)
Lemma past_step_summarised entries turnSeq requestID e step :
  e ∈ entries -> to_compact turnSeq requestID e = true -> step_of e = Some step -> step <> EmptyString ->
  Z.of_nat (length entries) < 2 ^ 31 ->
  exists c, c ∈ buildContextCompactionCandidates entries turnSeq requestID /\
    step ∈ Steps (CandidateSummary c).
Proof.
  intros He Hc Hs Hne Hlen. unfold buildContextCompactionCandidates. cbv zeta.
  set (selected := List.filter (to_compact turnSeq requestID) entries).
  assert (Hsel : e ∈ selected) by by apply elem_filter.
  destruct (turn_candidate (turn_entries (TurnSeq e) selected) e step) as (c & Hb & Hin); try done.
  - by apply elem_turn_entries.
  - unfold turn_entries. pose proof (filter_length_le (fun x => TurnSeq x =? TurnSeq e) selected).
    pose proof (filter_length_le (to_compact turnSeq requestID) entries). fold selected in H0. lia.
  - exists c. split; [|done]. apply list_elem_of_omap. exists (TurnSeq e). split; [|done].
    apply turn_order_in. by exists e.
Qed.

(** A step of the current turn that is not preserved is summarised with it. *)
Lemma current_step_summarised entries turnSeq requestID i e step c :
  buildCurrentTurnCompactionCandidate entries turnSeq requestID = Some c ->
  entries !! i = Some e -> in_turn turnSeq requestID e = true ->
  i ∉ autoCompactionPreservedEntryIndexes entries turnSeq requestID
        (latestCompletedToolCallIDForTurn entries turnSeq requestID) ->
  step_of e = Some step -> step <> EmptyString -> step ∈ Steps (CandidateSummary c).
Proof.
  intros Hb Hi Ht Hp Hs Hne. unfold buildCurrentTurnCompactionCandidate in Hb.
  destruct (_ || _); [done|]. case_decide; [done|].
  destruct (_ || _); [done|]. injection Hb as <-.
  assert (Hin : step ∈ Steps (scan_summary (current_scan entries turnSeq requestID))).
  { apply (fold_reaches _ _ (i, e)); [apply current_step_mono| |by apply elem_indexed].
    intros s. unfold current_step. rewrite Ht. cbn [negb]. rewrite decide_False, Hs by done.
    by apply count_entry_adds. }
  cbn [CandidateSummary]. case_decide as E; [|done]. rewrite E in Hin. by apply elem_of_nil in Hin.
Qed.

(** ** Lemmas: what applying a plan appends *)

(** What the store keeps of an appended entry, whose number and time it assigns. *)
Definition stored (e e' : Entry) : Prop :=
  TurnSeq e' = TurnSeq e /\ RequestID e' = RequestID e /\ Kind e' = Kind e /\ Payload_ e' = Payload_ e.

Lemma numbered_stored now n (e : Entry) : stored e (numbered now n e).
Proof.
  unfold numbered, stored. destruct (EntryCreatedAt e =? 0); simpl; destruct (Seq e <=? 0); done.
Qed.

Lemma append_blank now l (a : AppendState) : Forall (fun e : Entry => IdempotencyKey e = EmptyString) l ->
  exists assigned, ap_entries (fold_left (append_entry now) l a) = ap_entries a ++ assigned /\
    Forall2 stored l assigned.
Proof.
  intros Hl. revert a. induction Hl as [|e l He Hl IH]; intros a; cbn [fold_left].
  - exists []. by rewrite app_nil_r.
  - destruct (IH (append_entry now a e)) as (assigned & -> & Hf). rewrite append_entry_eq.
    unfold entry_key. rewrite He, bool_decide_eq_true_2 by done. cbn [negb andb ap_entries].
    rewrite <- app_assoc. eexists. split; [done|]. constructor; [apply numbered_stored|done].
Qed.

Lemma append_in_place_blank now (c : Conv) l :
  Forall (fun e : Entry => IdempotencyKey e = EmptyString) l ->
  exists assigned, Entries (appendEntriesInPlace now c l).2 = Entries c ++ assigned /\
    Forall2 stored l assigned.
Proof.
  intros Hl. unfold appendEntriesInPlace. case_decide as Hne; cbn.
  - subst l. exists []. by rewrite app_nil_r.
  - by apply (append_blank now l (append_start c)).
Qed.

Lemma Forall2_cons_stored e l l' : Forall2 stored (e :: l) l' ->
  exists e' rest, l' = e' :: rest /\ stored e e' /\ Forall2 stored l rest.
Proof. intros H. inversion H; subst; eauto. Qed.

Lemma applied_from runtime_state now conversation plan summaryText compacted :
  applyCompactionToConversation runtime_state now conversation plan summaryText = Ok compacted ->
  exists l, buildCompactedContextEntries runtime_state conversation plan summaryText = Ok l /\
    Entries compacted = Entries (appendEntriesInPlace now conversation (resetEntrySequences l)).2.
Proof.
  unfold applyCompactionToConversation.
  destruct (buildCompactedContextEntries _ _ _ _) as [l|]; [|done]. cbv zeta. intros H. exists l.
  split; [done|]. revert H. set (c2 := (appendEntriesInPlace _ _ _).2). clearbody c2.
  intros [= <-]. by destruct (_ =? 0).
Qed.

(** Applying a plan appends its marker, and after it at most the runtime state. *)
Lemma applied_entries runtime_state now conversation plan summaryText compacted :
  applyCompactionToConversation runtime_state now conversation plan summaryText = Ok compacted ->
  exists marker rest, Entries compacted = Entries conversation ++ marker :: rest /\
    stored (newCompactionSummaryEntry plan summaryText) marker /\
    Forall (fun e => Kind e = "runtime_state") rest.
Proof.
  intros (l & Hl & ->)%applied_from. unfold buildCompactedContextEntries, newCompactedRuntimeStateEntry in Hl.
  destruct (runtime_state conversation) as [[encoded|]|]; [| |done]; injection Hl as <-;
    match goal with |- context [appendEntriesInPlace now conversation ?l] =>
      destruct (append_in_place_blank now conversation l) as (assigned & -> & Hf) end;
    try (by repeat constructor); cbn [resetEntrySequences map] in Hf;
    apply Forall2_cons_stored in Hf as (m & r1 & -> & Hm & Hf).
  - apply Forall2_cons_stored in Hf as (r & r2 & -> & Hr & Hf). inversion Hf; subst.
    exists m, [r]. split; [done|]. split; [exact Hm|]. constructor; [apply Hr|constructor].
  - inversion Hf; subst. exists m, []. split; [done|]. by split.
Qed.

(** A history that was never compacted and holds no cancelled turn is replayed as it is. *)
Lemma replayable_untouched (entries : list Entry) : Forall (fun e => not_marker e = true) entries ->
  canceledReplayPolicies entries = ∅ -> replayablePromptProjectionEntries line_diffs entries = entries.
Proof.
  intros Hm Hc. unfold replayablePromptProjectionEntries, compactedPromptProjectionEntries.
  destruct (marker_split entries) as [(_ & -> & _)|(b & m & a & -> & Hmm & _)].
  - unfold sanitizeCanceledReplayEntries. by rewrite Hc.
  - apply Forall_app in Hm as [_ Hm]. inversion Hm as [|? ? Hn _]; subst. by rewrite Hmm in Hn.
Qed.

Lemma plan_fields stream conversation compiled plan :
  buildAutoCompactionPlan stream conversation compiled = Ok (Some plan) ->
  PlanPreserves plan = true /\ TrimSpace (PlanRequestID plan) = PlanRequestID plan /\
  exists base, PlanTurnSeq base = PlanTurnSeq plan /\ PlanRequestID base = PlanRequestID plan /\
    buildAutoCompactionPlanFromHistory base conversation = Some plan.
Proof.
  unfold buildAutoCompactionPlan. destruct (_ <=? 0); [done|]. cbv zeta. destruct (_ && _); [done|].
  set (base := base_plan _ _ _ _ _ _ _ _ _).
  destruct (buildAutoCompactionPlanFromHistory base conversation) as [p|] eqn:E.
  2:{ by destruct (_ && _). }
  intros [= ->].
  assert (Hf : PlanPreserves plan = PlanPreserves base /\ PlanRequestID plan = PlanRequestID base /\
               PlanTurnSeq plan = PlanTurnSeq base).
  { revert E. unfold buildAutoCompactionPlanFromHistory, buildLegacyCompactionPlan.
    case_decide; destruct (buildCurrentTurnCompactionCandidate _ _ _); intros [= <-]; done. }
  destruct Hf as (H1 & H2 & H3). split; [by rewrite H1|].
  split; [rewrite H2; apply TrimSpace_idem|]. exists base. split; [done|]. by split.
Qed.

(** The candidates of the plan are in it. *)
Lemma plan_covers base conversation plan : buildAutoCompactionPlanFromHistory base conversation = Some plan ->
  (forall c, c ∈ buildContextCompactionCandidates (replayable (Entries conversation)) (PlanTurnSeq base)
                   (PlanRequestID base) -> CandidateSummary c ∈ CompactedTurns plan) /\
  (forall c, buildCurrentTurnCompactionCandidate (replayable (Entries conversation)) (PlanTurnSeq base)
               (PlanRequestID base) = Some c -> CandidateSummary c ∈ CompactedTurns plan).
Proof.
  unfold buildAutoCompactionPlanFromHistory, buildLegacyCompactionPlan.
  set (cs := buildContextCompactionCandidates _ _ _). case_decide as Hl.
  - apply nil_length_inv in Hl. rewrite Hl.
    destruct (buildCurrentTurnCompactionCandidate _ _ _) as [c|]; [|done]. intros [= <-]. cbn. split.
    + intros x Hx. by apply elem_of_nil in Hx.
    + intros x [= <-]. by apply list_elem_of_singleton.
  - destruct (buildCurrentTurnCompactionCandidate _ _ _) as [c|]; intros [= <-]; cbn; split; try done.
    + intros x Hx. apply elem_of_app. left. apply list_elem_of_fmap. by exists x.
    + intros x [= <-]. apply elem_of_app. right. by apply list_elem_of_singleton.
    + intros x Hx. apply list_elem_of_fmap. by exists x.
Qed.

(** The marker a plan appends, as the projector reads it. *)
Lemma marker_read plan summaryText marker : stored (newCompactionSummaryEntry plan summaryText) marker ->
  not_marker marker = false /\ marker_payload marker =
    mkCompactionSummary (TrimSpace summaryText) (TrimSpace (PlanTrigger plan)) (PlanTurnSeq plan)
      (TrimSpace (PlanRequestID plan)) (CompactTurnCount plan) (MessagesToCompact plan) (PlanPreserves plan).
Proof.
  intros (_ & _ & Hk & Hp). unfold not_marker, marker_payload. rewrite Hk, Hp.
  cbn [newCompactionSummaryEntry Payload_ Kind]. by rewrite summary_roundtrip.
Qed.

Lemma state_entries_quiet (marker : Entry) rest turnSeq requestID :
  Kind marker = "compacted_summary" -> Forall (fun e : Entry => Kind e = "runtime_state") rest ->
  Forall (fun e => not_marker e = true) rest /\ no_tool_of_turn turnSeq requestID (marker :: rest).
Proof.
  intros Hm Hr. split.
  - eapply Forall_impl; [exact Hr|]. intros e He. unfold not_marker. by rewrite He.
  - constructor; [intros _; by rewrite Hm|]. eapply Forall_impl; [exact Hr|]. intros e He _. by rewrite He.
Qed.

(** ** Properties *)

(** C13: what a first automatic compaction takes away was given to the summary.  In a history
    that was not compacted before and holds no cancelled turn, after the plan is applied every
    assistant text, tool call and tool result that had something to say is still replayed, or its
    step is among those the summary was asked to cover.  This is so of the turns before the one in
    progress, and of the turn in progress when the plan compacts a part of it; when it does
    not, [text_before_only_tool_lost] shows a text of that turn that is lost. *)
Theorem auto_compaction_loses_no_step runtime_state now stream conversation compiled plan summaryText
    compacted :
  Forall (fun e => not_marker e = true) (Entries conversation) ->
  canceledReplayPolicies (Entries conversation) = ∅ ->
  Z.of_nat (length (Entries conversation)) < 2 ^ 31 ->
  buildAutoCompactionPlan stream conversation compiled = Ok (Some plan) ->
  applyCompactionToConversation runtime_state now conversation plan summaryText = Ok compacted ->
  forall e step, e ∈ Entries conversation -> 0 < TurnSeq e -> step_of e = Some step -> step <> EmptyString ->
  (in_turn (PlanTurnSeq plan) (PlanRequestID plan) e = true ->
   is_Some (buildCurrentTurnCompactionCandidate (Entries conversation) (PlanTurnSeq plan)
              (PlanRequestID plan))) ->
  compactedProjectionPreservedEntry line_diffs e ∈
    compactedPromptProjectionEntries line_diffs (Entries compacted) \/
  exists turn, turn ∈ CompactedTurns plan /\ step ∈ Steps turn.
Proof.
  intros Hm Hc Hlen Hplan Happ e step He Hpos Hs Hne Hcur.
  destruct (plan_fields _ _ _ _ Hplan) as (Hpres & Htrim & base & Hbt & Hbr & Hbase).
  destruct (plan_covers _ _ _ Hbase) as [Hpast Hnow]. rewrite (replayable_untouched _ Hm Hc) in Hpast, Hnow.
  rewrite Hbt, Hbr in Hpast, Hnow.
  destruct (in_turn (PlanTurnSeq plan) (PlanRequestID plan) e) eqn:Et.
  2:{ right. destruct (past_step_summarised (Entries conversation) (PlanTurnSeq plan) (PlanRequestID plan)
        e step) as (c & Hin & Hst); try done.
      - unfold to_compact. rewrite (proj2 (Z.ltb_lt 0 _)), Et by done. rewrite Forall_forall in Hm.
        specialize (Hm e He). unfold not_marker in Hm. by rewrite Hm.
      - exists (CandidateSummary c). split; [by apply Hpast|done]. }
  destruct (Hcur eq_refl) as [c Hcand]. apply list_elem_of_lookup in He as [i Hi].
  destruct (decide (i ∈ autoCompactionPreservedEntryIndexes (Entries conversation) (PlanTurnSeq plan)
    (PlanRequestID plan) (latestCompletedToolCallIDForTurn (Entries conversation) (PlanTurnSeq plan)
      (PlanRequestID plan)))) as [Hp|Hp].
  2:{ right. exists (CandidateSummary c). split; [by apply Hnow|].
      by eapply (current_step_summarised _ _ _ i e step c). }
  left. destruct (applied_entries _ _ _ _ _ _ Happ) as (marker & rest & -> & Hst & Hrest).
  destruct (marker_read _ _ _ Hst) as [Hmk Hpay].
  destruct (state_entries_quiet marker rest (PlanTurnSeq plan) (PlanRequestID plan)) as [Hr Hq];
    [apply Hst|done|].
  rewrite compacted_split by done. apply elem_of_app. right. apply elem_of_cons. right.
  apply elem_of_app. left. apply list_elem_of_fmap. exists (i, e). split; [done|].
  apply elem_filter. split; [by apply elem_indexed|]. simpl.
  rewrite preserved_by_app.
  - rewrite Forall_forall in Hm. rewrite (Hm e (list_elem_of_lookup_2 _ _ _ Hi)), andb_true_r.
    apply bool_decide_eq_true_2. unfold preserved_by. rewrite Hpay. cbn. by rewrite Hpres, Htrim.
  - rewrite Hpay. cbn. by rewrite Htrim.
  - by apply lookup_lt_Some in Hi.
Qed.

(** The history without what was imported. *)
Definition own_turns (entries : list Entry) : list Entry := List.filter (fun e => 0 <? TurnSeq e) entries.

Lemma own_turns_policies entries policies :
  fold_left canceled_step (own_turns entries) policies = fold_left canceled_step entries policies.
Proof.
  revert policies. induction entries as [|e entries IH]; intros policies; simpl; [done|].
  destruct (Z.ltb_spec 0 (TurnSeq e)) as [H|H]; simpl; rewrite IH; [done|].
  f_equal. unfold canceled_step. by rewrite (proj2 (Z.leb_le _ _)) by lia.
Qed.

Lemma own_turns_selected entries turnSeq requestID :
  List.filter (to_compact turnSeq requestID) (own_turns entries) =
  List.filter (to_compact turnSeq requestID) entries.
Proof.
  induction entries as [|e entries IH]; simpl; [done|]. unfold to_compact at 2.
  destruct (0 <? TurnSeq e) eqn:E; simpl; [|done]. unfold to_compact at 1. by rewrite E, IH.
Qed.

(** what was imported is forgotten.  The messages of an imported conversation are entries of
    turn zero; a manual compaction plans the same summary with and without them, and once it
    is applied none of them is replayed, so that what they said reaches neither. *)
Theorem manual_compaction_forgets_imports runtime_state now base conversation plan summaryText compacted :
  Forall (fun e => not_marker e = true) (Entries conversation) ->
  canceledReplayPolicies (Entries conversation) = ∅ ->
  PlanPreserves base = false ->
  buildLegacyCompactionPlan base conversation = Some plan ->
  applyCompactionToConversation runtime_state now conversation plan summaryText = Ok compacted ->
  buildLegacyCompactionPlan base (conversation <| Entries := own_turns (Entries conversation) |>) = Some plan /\
  forall e, e ∈ Entries conversation -> TurnSeq e <= 0 -> isPromptReplayEntryKind (Kind e) = true ->
    e ∉ compactedPromptProjectionEntries line_diffs (Entries compacted).
Proof.
  intros Hm Hc Hpres Hplan Happ.
  assert (Hm' : Forall (fun e => not_marker e = true) (own_turns (Entries conversation))).
  { apply Forall_forall. intros e He. apply elem_filter in He as [He _]. rewrite Forall_forall in Hm. by apply Hm. }
  assert (Hc' : canceledReplayPolicies (own_turns (Entries conversation)) = ∅)
    by (unfold canceledReplayPolicies; by rewrite own_turns_policies).
  split.
  - rewrite <- Hplan. unfold buildLegacyCompactionPlan. cbn [Entries set_field].
    rewrite (replayable_untouched _ Hm Hc), (replayable_untouched _ Hm' Hc').
    unfold buildContextCompactionCandidates. by rewrite own_turns_selected.
  - intros e He Ht Hk Hin.
    destruct (applied_entries _ _ _ _ _ _ Happ) as (marker & rest & Eq & Hst & Hrest). rewrite Eq in Hin.
    destruct (marker_read _ _ _ Hst) as [Hmk Hpay].
    destruct (state_entries_quiet marker rest 0 EmptyString) as [Hr _]; [apply Hst|done|].
    assert (Hpl : PlanPreserves plan = false).
    { revert Hplan. unfold buildLegacyCompactionPlan. case_decide; [done|]. by intros [= <-]. }
    rewrite compacted_split in Hin by done. unfold preserved_by in Hin. rewrite Hpay in Hin. cbn in Hin.
    rewrite Hpl in Hin.
    rewrite (filter_none (fun item : nat * Entry => bool_decide (item.1 ∈ (∅ : gset nat)) && not_marker item.2))
      in Hin by (intros x _; by rewrite bool_decide_eq_false_2 by set_solver).
    rewrite Forall_forall in Hm. specialize (Hm e He).
    apply elem_of_app in Hin as [Hin|Hin]; [apply elem_filter in Hin as [_ Hin]; by rewrite Hk in Hin|].
    apply elem_of_cons in Hin as [->|Hin]; [by rewrite Hmk in Hm|]. simpl in Hin.
    rewrite Forall_forall in Hrest. apply Hrest in Hin. rewrite Hin in Hk. vm_compute in Hk. discriminate.
Qed.

End Compaction.

(** ** Examples and witnesses *)

Module Demo.

#[export] Instance sample_compaction : CompactionPayloads SamplePayload toolCallReplayShape string (list string) := {
  encode_summary := PSummary;
  summary_roundtrip := fun _ => eq_refl;
  payload_text := fun _ => "payload";
  compact_tool_shape := fun shape => Some (ShapeToolName shape, ResultJSON shape)
}.

Definition no_state (_ : ConversationFile SamplePayload unit) : result (option SamplePayload) := Ok None.

(** A turn that is over, and one whose second tool has just answered. *)
Definition history : list (HistoryEntry SamplePayload) :=
  [user_entry 1 "r1" "hello"; text_entry 1 "r1" "hi";
   user_entry 2 "r2" "read both"; call_entry 2 "r2" "a"; result_entry 2 "r2" "a" "content of a";
   call_entry 2 "r2" "b"; result_entry 2 "r2" "b" "content of b"].

(** The window leaves room for one token. *)
Definition conversation : ConversationFile SamplePayload unit :=
  sample_conversation 3 history <| TokenDetailsMaxTokens := 10001 |>.

Definition compiled : CompiledConversation := mkCompiled [text_message "user" "a long prompt"] [].

Definition plan : compactionPlan :=
  match buildAutoCompactionPlan sample_diffs (mkPlanStream 2 "r2" "read both") conversation compiled with
  | Ok (Some plan) => plan
  | _ => base_plan "none" (mkPlanStream 0 EmptyString EmptyString) conversation compiled 0 0 0 EmptyString false
  end.

Example planned : CompactedTurns plan =
  [mkTurnSummary "hello" ["assistant=hi"];
   mkTurnSummary "read both" ["Read=called"; "Read=content of a"]].
Proof. vm_compute. reflexivity. Qed.

Definition apply_plan (conversation : ConversationFile SamplePayload unit) (plan : compactionPlan)
  : ConversationFile SamplePayload unit :=
  match applyCompactionToConversation no_state 1 conversation plan "the summary" with
  | Ok compacted => compacted
  | Err _ => conversation
  end.

Definition prompt_of (conversation : ConversationFile SamplePayload unit) : list (string * string * list string) :=
  match ProjectPromptReplay sample_diffs conversation with Ok prompt => shown prompt | Err _ => [] end.

(** Right after the compaction the last tool is shown; it is not in the summary. *)
Example shown_after_compaction :
  map (fun m => (m.1.1, m.2)) (prompt_of (apply_plan conversation plan)) =
  [("user", []); ("user", []); ("assistant", ["b"]); ("tool", ["b"])].
Proof. vm_compute. reflexivity. Qed.

(** When the next tool of the turn has answered, it is gone. *)
Example shown_after_next_tool :
  let next := (appendEntriesInPlace 2 (apply_plan conversation plan)
                 [call_entry 2 "r2" "c"; result_entry 2 "r2" "c" "content of c"]).2 in
  map (fun m => (m.1.1, m.2)) (prompt_of next) =
  [("user", []); ("user", []); ("assistant", ["c"]); ("tool", ["c"])].
Proof. vm_compute. reflexivity. Qed.

(** The turn in progress has called one tool: it has nothing to compact, as that call is preserved, and what
    the assistant said before the call is neither replayed nor part of the summary. *)
Definition one_tool : ConversationFile SamplePayload unit :=
  sample_conversation 3
    [user_entry 1 "r1" "hello"; text_entry 1 "r1" "hi"; user_entry 2 "r2" "read it";
     text_entry 2 "r2" "I keep the tabs"; call_entry 2 "r2" "a"; result_entry 2 "r2" "a" "content of a"]
  <| TokenDetailsMaxTokens := 10001 |>.

Definition one_tool_plan : compactionPlan :=
  match buildAutoCompactionPlan sample_diffs (mkPlanStream 2 "r2" "read it") one_tool compiled with
  | Ok (Some plan) => plan
  | _ => base_plan "none" (mkPlanStream 0 EmptyString EmptyString) one_tool compiled 0 0 0 EmptyString false
  end.

Example text_before_only_tool_lost :
  CompactedTurns one_tool_plan = [mkTurnSummary "hello" ["assistant=hi"]] /\
  existsb (fun m => bool_decide (m.1.2 = "I keep the tabs")) (prompt_of one_tool) = true /\
  existsb (fun m => bool_decide (m.1.2 = "I keep the tabs")) (prompt_of (apply_plan one_tool one_tool_plan)) = false.
Proof. vm_compute. split_and!; reflexivity. Qed.

(** A context reminded in the turn in progress is hidden by the marker, and still counts as
    already given, so that the turn does not get it again. *)
Definition reminder : HistoryEntry SamplePayload :=
  sample_entry 2 "r2" "prompt_context" (PContext (mkPromptContextPayload "reminder" "user" "mind the tests" "h")).

Definition reminded : ConversationFile SamplePayload unit :=
  apply_plan (conversation <| Entries := history ++ [reminder] |>) plan.

Example reminder_hidden_and_not_repeated :
  existsb (fun m => bool_decide (m.1.2 = "mind the tests")) (prompt_of reminded) = false /\
  filterCurrentTurnPromptContexts reminded
    [mkPromptContext "reminder" "h" (text_message "user" "mind the tests") true] = [].
Proof. split; vm_compute; reflexivity. Qed.

(** An imported conversation, one turn of its own, and the turn that asks for a summary. *)
Definition imported : ConversationFile SamplePayload unit :=
  sample_conversation 3
    [model_entry "user" "we agreed on tabs"; user_entry 1 "r1" "hello"; text_entry 1 "r1" "hi";
     user_entry 2 "r2" "/summarize"].

Definition manual_base : compactionPlan :=
  base_plan "manual" (mkPlanStream 2 "r2" "/summarize") imported compiled 100 130000 10000 EmptyString false.

Definition manual_plan : compactionPlan :=
  default manual_base (buildLegacyCompactionPlan sample_diffs manual_base imported).

End Demo.

#[local] Existing Instance Demo.sample_compaction.

Lemma auto_compaction_loses_no_step_witness :
  compactedProjectionPreservedEntry sample_diffs (result_entry 2 "r2" "a" "content of a") ∈
    compactedPromptProjectionEntries sample_diffs (Entries (Demo.apply_plan Demo.conversation Demo.plan)) \/
  exists turn, turn ∈ CompactedTurns Demo.plan /\ "Read=content of a" ∈ Steps turn.
Proof.
  apply (auto_compaction_loses_no_step sample_diffs Demo.no_state 1 (mkPlanStream 2 "r2" "read both")
    Demo.conversation Demo.compiled Demo.plan "the summary").
  - apply (bool_decide_unpack _). vm_compute. exact I.
  - vm_compute. reflexivity.
  - vm_compute. reflexivity.
  - vm_compute. reflexivity.
  - vm_compute. reflexivity.
  - repeat constructor.
  - vm_compute. reflexivity.
  - vm_compute. reflexivity.
  - discriminate.
  - intros _. apply (bool_decide_unpack _). vm_compute. exact I.
Defined.

Lemma manual_compaction_forgets_imports_witness :
  model_entry "user" "we agreed on tabs" ∉
    compactedPromptProjectionEntries sample_diffs (Entries (Demo.apply_plan Demo.imported Demo.manual_plan)).
Proof.
  apply (manual_compaction_forgets_imports sample_diffs Demo.no_state 1 Demo.manual_base Demo.imported
    Demo.manual_plan "the summary").
  - apply (bool_decide_unpack _). vm_compute. exact I.
  - vm_compute. reflexivity.
  - reflexivity.
  - vm_compute. reflexivity.
  - vm_compute. reflexivity.
  - constructor.
  - vm_compute. discriminate.
  - vm_compute. reflexivity.
Defined.
