(* ===== verification/Todos.v ===== *)
(** * The plan and the todos of a conversation (forwarder/state_tools.go, and the TodoWrite tool of
    interaction_tools.go).

    The plan and the todos are not stored by themselves: [projectConversationStructuredState] reads
    them off the history, whose CreatePlan and TodoWrite results change them and whose compaction
    writes them out as a runtime_state entry.

    A status is the number of the protobuf enum.  The lists of protobuf messages hold no nil, as
    the decoders leave none.  [JSON] is what encoding/json decodes into an [any]; a number is known
    by what the conversions to int64 and int32 make of it, and an object lists each field once.
    Parsing, quoting with [%q], the documents inside a payload and the order of a range over a map
    are parameters. *)

From S2P Require Import Prelude Go Strings Modes Conversation Truncation EditText Replay Messages Projection Tokens Compaction.

(** ** Data *)

Record TodoItem := mkTodo {
  Id : string;
  Content : string;
  Status : Z;
  CreatedAt : Z;
  UpdatedAt : Z;
  Dependencies : list string
}.

#[export] Instance eta_todo : Eta TodoItem := fun t =>
  mkTodo (Id t) (Content t) (Status t) (CreatedAt t) (UpdatedAt t) (Dependencies t).

Definition TODO_STATUS_UNSPECIFIED : Z := 0.
Definition TODO_STATUS_PENDING : Z := 1.
Definition TODO_STATUS_IN_PROGRESS : Z := 2.
Definition TODO_STATUS_COMPLETED : Z := 3.
Definition TODO_STATUS_CANCELLED : Z := 4.

Record PlanRegistryEntry := mkPlanEntry { EntryId : string; EntryPath : string }.

Record structuredConversationState := mkStructured {
  PlanText : string;
  HasPlan : bool;
  Plans : gmap string PlanRegistryEntry;
  Todos : list TodoItem;
  HasTodos : bool
}.

#[export] Instance eta_structured : Eta structuredConversationState := fun s =>
  mkStructured (PlanText s) (HasPlan s) (Plans s) (Todos s) (HasTodos s).

Definition no_state : structuredConversationState := mkStructured EmptyString false ∅ [] false.

Record runtimeStateEntryPayload := mkRuntimeState {
  StatePlanText : string;
  StatePlans : gmap string PlanRegistryEntry;
  StateTodos : list TodoItem
}.

Record UpdateTodosArgs := mkUpdateArgs { ArgTodos : list TodoItem; Merge : bool }.

Inductive UpdateTodosResult :=
| UpdateTodosError (error : string)
| UpdateTodosSuccess (todos : list TodoItem) (totalCount : Z) (wasMerge : bool).

(** What the projection reads of a tool call. *)
Inductive StateCall :=
| CreatePlanCall (success : bool) (planUri plan : string) (todos : list TodoItem) (phases : list (list TodoItem))
| UpdateTodosCall (args : UpdateTodosArgs) (result : option UpdateTodosResult)
| OtherCall.

Inductive JSON :=
| JNull
| JBool (b : bool)
| JNumber (as_int64 as_int32 : Z)
| JString (s : string)
| JArray (items : list JSON)
| JObject (fields : list (string * JSON)).

(** ** Decoding the arguments of the tools *)

Section Decode.
Context (Unmarshal : bytes -> result (option (list (string * JSON)))) (quote : string -> string).

Definition decodeJSONObject (raw : bytes) : result (list (string * JSON)) :=
  if decide (raw = []) then Ok []
  else match Unmarshal raw with Err e => Err e | Ok payload => Ok (default [] payload) end.

Fixpoint valueByAliasWithPresence (values : list (string * JSON)) (aliases : list string) : JSON * bool :=
  match aliases with
  | [] => (JNull, false)
  | alias :: aliases =>
      if decide (alias = EmptyString) then valueByAliasWithPresence values aliases
      else match List.find (fun field => bool_decide (field.1 = alias)) values with
           | Some field => (field.2, true)
           | None => valueByAliasWithPresence values aliases
           end
  end.

Definition valueByAlias (values : list (string * JSON)) (aliases : list string) : JSON :=
  (valueByAliasWithPresence values aliases).1.

Definition stringValue (value : JSON) : string :=
  match value with JString text => TrimSpace text | _ => EmptyString end.

(** [strconv.ParseBool], false for what it rejects. *)
Definition ParseBool (s : string) : bool := bool_decide (s ∈ ["1"; "t"; "T"; "TRUE"; "true"; "True"]).

Definition boolValue (value : JSON) : bool :=
  match value with
  | JBool b => b
  | JString s => ParseBool (TrimSpace s)
  | _ => false
  end.

(** The value [strconv.ParseInt] gives beside its error. *)
Definition ParseInt (s : bytes) : Z :=
  let '(neg, digits) := signed_digits s in
  if decide (digits = []) then 0
  else match parse_uint 0 digits with
       | None => 0
       | Some un => if neg then Z.max (- un) (- 2 ^ 63) else Z.min un max_int64
       end.

Definition int64Value (value : JSON) : Z :=
  match value with
  | JNumber as_int64 _ => as_int64
  | JString s => ParseInt (bytes_of (TrimSpace s))
  | _ => 0
  end.

Definition stringSliceValue (value : JSON) : list string :=
  match value with
  | JArray items => List.filter (fun text => negb (bool_decide (text = EmptyString))) (map stringValue items)
  | _ => []
  end.

Definition todoStatusFromString (raw : string) : result Z :=
  let word := ToLower (TrimSpace raw) in
  if decide (word ∈ [EmptyString; "unspecified"; "todo_status_unspecified"]) then Ok TODO_STATUS_UNSPECIFIED
  else if decide (word ∈ ["pending"; "todo_status_pending"]) then Ok TODO_STATUS_PENDING
  else if decide (word ∈ ["in_progress"; "in-progress"; "inprogress"; "todo_status_in_progress"])
  then Ok TODO_STATUS_IN_PROGRESS
  else if decide (word ∈ ["completed"; "complete"; "todo_status_completed"]) then Ok TODO_STATUS_COMPLETED
  else if decide (word ∈ ["cancelled"; "canceled"; "todo_status_cancelled"]) then Ok TODO_STATUS_CANCELLED
  else Err ("unsupported todo status " +:+ quote raw).

Definition todoStatusFromValue (value : JSON) : result Z :=
  match value with
  | JNull => Ok TODO_STATUS_UNSPECIFIED
  | JNumber _ as_int32 => Ok as_int32
  | JString s => todoStatusFromString s
  | JBool _ => Err "unsupported todo status type bool"
  | JArray _ => Err "unsupported todo status type []interface {}"
  | JObject _ => Err "unsupported todo status type map[string]interface {}"
  end.

(** A todo of the arguments; the tools decode without [validate]. *)
Definition decode_todo (value : JSON) : result TodoItem :=
  match value with
  | JObject item =>
      match todoStatusFromValue (valueByAlias item ["status"]) with
      | Err e => Err e
      | Ok status =>
          Ok (mkTodo (TrimSpace (stringValue (valueByAlias item ["id"])))
                (TrimSpace (stringValue (valueByAlias item ["content"]))) status
                (int64Value (valueByAlias item ["created_at"; "createdAt"]))
                (int64Value (valueByAlias item ["updated_at"; "updatedAt"]))
                (stringSliceValue (valueByAlias item ["dependencies"])))
      end
  | _ => Err "todo item must be an object"
  end.

Fixpoint decode_todos (items : list JSON) : result (list TodoItem) :=
  match items with
  | [] => Ok []
  | item :: items =>
      match decode_todo item with
      | Err e => Err e
      | Ok todo => match decode_todos items with Err e => Err e | Ok todos => Ok (todo :: todos) end
      end
  end.

Definition decodeTodoItemsValue (value : JSON) : result (list TodoItem) :=
  match value with JArray items => decode_todos items | _ => Ok [] end.

Definition decodeUpdateTodosArgsJSONWithPresence (raw : bytes) : result (UpdateTodosArgs * bool) :=
  match decodeJSONObject raw with
  | Err e => Err e
  | Ok payload =>
      match decodeTodoItemsValue (valueByAlias payload ["todos"]) with
      | Err e => Err e
      | Ok todos =>
          let '(mergeValue, mergeSet) := valueByAliasWithPresence payload ["merge"] in
          Ok (mkUpdateArgs todos (boolValue mergeValue), mergeSet)
      end
  end.

End Decode.

(** ** Todo lists *)

Definition timestampMillis (now baseTime : Z) : Z := (if baseTime =? 0 then now else baseTime) / 10 ^ 6.

Definition normalize_todo (baseMillis : Z) (item : TodoItem) : TodoItem :=
  let next := item <| Id := TrimSpace (Id item) |> <| Content := TrimSpace (Content item) |> in
  let next := if Status next =? TODO_STATUS_UNSPECIFIED then next <| Status := TODO_STATUS_PENDING |> else next in
  let next := if CreatedAt next <=? 0 then next <| CreatedAt := baseMillis |> else next in
  if UpdatedAt next <=? 0 then next <| UpdatedAt := CreatedAt next |> else next.

Fixpoint normalizeTodoItems (items : list TodoItem) (baseMillis : Z) (validate : bool) : result (list TodoItem) :=
  match items with
  | [] => Ok []
  | item :: items =>
      let next := normalize_todo baseMillis item in
      if validate && bool_decide (Id next = EmptyString) then Err "todo id is required"
      else if validate && bool_decide (Content next = EmptyString) then Err "todo content is required"
      else match normalizeTodoItems items baseMillis validate with
           | Err e => Err e
           | Ok normalized => Ok (next :: normalized)
           end
  end.

Fixpoint index_todos (index : nat) (items : list TodoItem) (indexByID : gmap string nat) : gmap string nat :=
  match items with
  | [] => indexByID
  | item :: items =>
      index_todos (S index) items
        (if decide (TrimSpace (Id item) = EmptyString) then indexByID
         else <[TrimSpace (Id item) := index]> indexByID)
  end.

(** A todo of the list that an update names. *)
Definition update_todo (nowMillis : Z) (current update : TodoItem) : result TodoItem :=
  let next := current <| Id := TrimSpace (Id update) |> in
  let next := if decide (TrimSpace (Content update) = EmptyString) then next
              else next <| Content := TrimSpace (Content update) |> in
  let next := if Status update =? TODO_STATUS_UNSPECIFIED then next else next <| Status := Status update |> in
  let next := if decide (Dependencies update = []) then next
              else next <| Dependencies := Dependencies update |> in
  if decide (Content next = EmptyString) then Err "todo content is required"
  else
    let next := if Status next =? TODO_STATUS_UNSPECIFIED then next <| Status := TODO_STATUS_PENDING |> else next in
    let next := next <| CreatedAt := if CreatedAt current <=? 0 then nowMillis else CreatedAt current |> in
    Ok (next <| UpdatedAt := nowMillis |>).

(** A todo that an update adds. *)
Definition new_todo (nowMillis : Z) (update : TodoItem) : result TodoItem :=
  let next := update <| Id := TrimSpace (Id update) |> <| Content := TrimSpace (Content update) |> in
  if decide (Content next = EmptyString) then Err "todo content is required for new todo"
  else
    let next := if Status next =? TODO_STATUS_UNSPECIFIED then next <| Status := TODO_STATUS_PENDING |> else next in
    let next := if CreatedAt next <=? 0 then next <| CreatedAt := nowMillis |> else next in
    Ok (if UpdatedAt next <=? 0 then next <| UpdatedAt := CreatedAt next |> else next).

Fixpoint merge_updates (nowMillis : Z) (updates result : list TodoItem) (indexByID : gmap string nat)
  : Go.result (list TodoItem) :=
  match updates with
  | [] => Ok result
  | update :: updates =>
      let id := TrimSpace (Id update) in
      if decide (id = EmptyString) then Err "todo id is required"
      else
        match indexByID !! id with
        | Some index =>
            match result !! index with
            | Some current =>
                match update_todo nowMillis current update with
                | Err e => Err e
                | Ok next => merge_updates nowMillis updates (<[index := next]> result) indexByID
                end
            | None => Err "index out of range"
            end
        | None =>
            match new_todo nowMillis update with
            | Err e => Err e
            | Ok next => merge_updates nowMillis updates (result ++ [next]) (<[id := length result]> indexByID)
            end
        end
  end.

Definition mergeTodoItems (existing updates : list TodoItem) (baseMillis : Z) : result (list TodoItem) :=
  match normalizeTodoItems existing baseMillis false with
  | Err e => Err e
  | Ok result => merge_updates baseMillis updates result (index_todos 0 result ∅)
  end.

Definition isTerminalTodoStatus (status : Z) : bool :=
  (status =? TODO_STATUS_COMPLETED) || (status =? TODO_STATUS_CANCELLED).

(** The identifiers of the todos of [existing] that are not done, each once.  [sort.Strings]
    sorts them; only their set is used here, and the error message, which takes the sorted list
    from [sort_strings]. *)
Definition active_ids (existing : list TodoItem) : gset string :=
  list_to_set (List.filter (fun id => negb (bool_decide (id = EmptyString)))
    (map (fun item => TrimSpace (Id item)) (List.filter (fun item => negb (isTerminalTodoStatus (Status item))) existing))).

Definition missingActiveTodoReplacementIDs (existing replacement : list TodoItem) : gset string :=
  active_ids existing ∖ list_to_set (map (fun item => TrimSpace (Id item)) replacement).

Definition todoUnsafeReplaceBaseError : string :=
  "todo update rejected: merge=false may only omit completed or cancelled todos; use merge=true for incremental updates or include every active todo".

Definition unsafeTodoReplaceError (sort_strings : gset string -> list string) (missingIDs : gset string) : string :=
  if decide (missingIDs = ∅) then todoUnsafeReplaceBaseError
  else todoUnsafeReplaceBaseError +:+ "; missing active todo ids: " +:+ Join (sort_strings missingIDs) ", ".

Definition filterTodoItems (items : list TodoItem) (statuses : list Z) (ids : list string) : list TodoItem :=
  let statusFilter : gset Z := list_to_set statuses in
  let idFilter : gset string :=
    list_to_set (List.filter (fun id => negb (bool_decide (id = EmptyString))) (map TrimSpace ids)) in
  List.filter (fun item =>
    (bool_decide (statusFilter = ∅) || bool_decide (Status item ∈ statusFilter)) &&
    (bool_decide (idFilter = ∅) || bool_decide (TrimSpace (Id item) ∈ idFilter))) items.

Definition todoStatusLabel (status : Z) : string :=
  if status =? TODO_STATUS_PENDING then "pending"
  else if status =? TODO_STATUS_IN_PROGRESS then "in_progress"
  else if status =? TODO_STATUS_COMPLETED then "completed"
  else if status =? TODO_STATUS_CANCELLED then "cancelled"
  else "unspecified".

Definition renderTodoList (items : list TodoItem) : string :=
  Join (map (fun item => "- [" +:+ todoStatusLabel (Status item) +:+ "] " +:+ TrimSpace (Id item) +:+ ": "
                         +:+ TrimSpace (Content item)) items) (LFs 1).

(** ** The TodoWrite tool *)

Definition shouldMergeTodoUpdate (args : UpdateTodosArgs) (mergeSet : bool) (existing : list TodoItem) : bool :=
  if Merge args then true
  else if mergeSet || bool_decide (existing = []) then false
  else if decide (missingActiveTodoReplacementIDs existing (ArgTodos args) = ∅)
  then existsb (fun item => bool_decide (TrimSpace (Content item) = EmptyString)) (ArgTodos args)
  else true.

Definition buildUpdateTodosErrorResult (message : string) : UpdateTodosResult := UpdateTodosError (TrimSpace message).

Definition summarizeUpdateTodosResult (result : UpdateTodosResult) : string :=
  match result with
  | UpdateTodosSuccess _ totalCount wasMerge =>
      "todo update success count=" +:+ Sprintd totalCount +:+ " merge=" +:+ (if wasMerge then "true" else "false")
  | UpdateTodosError error => TrimSpace error
  end.

(** [handleTodoWriteToolInvocation] up to the append of the result: the arguments and the result of
    the tool call it appends, and [PendingTodoResetOnNewPlan] afterwards. *)
Definition handleTodoWriteToolInvocation (sort_strings : gset string -> list string)
    (decodedArgs : result (UpdateTodosArgs * bool)) (structuredState : structuredConversationState)
    (pendingPlanReset : bool) (now : Z) : UpdateTodosArgs * UpdateTodosResult * bool :=
  match decodedArgs with
  | Err e => (mkUpdateArgs [] false, UpdateTodosError e, pendingPlanReset)
  | Ok (args, mergeSet) =>
      let applyMerge := if pendingPlanReset then false
                        else shouldMergeTodoUpdate args mergeSet (Todos structuredState) in
      let args := mkUpdateArgs (ArgTodos args) applyMerge in
      let millis := timestampMillis now now in
      match (if applyMerge then mergeTodoItems (Todos structuredState) (ArgTodos args) millis
             else normalizeTodoItems (ArgTodos args) millis true) with
      | Err e => (args, buildUpdateTodosErrorResult e, false)
      | Ok nextTodos =>
          let missingIDs := missingActiveTodoReplacementIDs (Todos structuredState) nextTodos in
          if negb applyMerge && negb pendingPlanReset && negb (bool_decide (missingIDs = ∅))
          then (args, buildUpdateTodosErrorResult (unsafeTodoReplaceError sort_strings missingIDs), false)
          else (args, UpdateTodosSuccess nextTodos (wrap_int32 (Z.of_nat (length nextTodos))) applyMerge, false)
      end
  end.

(** ** Reading the state off the history *)

(** Beside the decoders of the replay: the payload of a runtime_state entry, and what the projection
    reads of a decoded tool call. *)
Class StatePayloads (Payload ToolCall UserMessage RequestContext : Type)
    `{RP : ReplayPayloads Payload ToolCall UserMessage RequestContext} := {
  decode_runtime_state : Payload -> option runtimeStateEntryPayload;
  encode_runtime_state : runtimeStateEntryPayload -> Payload;
  state_call : ToolCall -> StateCall;
  runtime_state_roundtrip : forall p, decode_runtime_state (encode_runtime_state p) = Some p
}.

Section Projection.
Context {Payload Docs ToolCall UserMessage RequestContext : Type}
  `{DC : !Decoders Payload} `{RP : !ReplayPayloads Payload ToolCall UserMessage RequestContext}
  `{SP : !StatePayloads Payload ToolCall UserMessage RequestContext}.
Context (range_plans : gmap string PlanRegistryEntry -> list (string * PlanRegistryEntry)).

Notation Entry := (HistoryEntry Payload).

Definition clone_plan (cloned : gmap string PlanRegistryEntry) (plan : string * PlanRegistryEntry)
  : gmap string PlanRegistryEntry :=
  let trimmedKey := TrimSpace plan.1 in
  if decide (trimmedKey = EmptyString) then cloned
  else
    let id := TrimSpace (EntryId plan.2) in
    <[trimmedKey := mkPlanEntry (if decide (id = EmptyString) then trimmedKey else id)
                      (TrimSpace (EntryPath plan.2))]> cloned.

Definition clonePlanRegistryEntries (items : gmap string PlanRegistryEntry) : gmap string PlanRegistryEntry :=
  fold_left clone_plan (range_plans items) ∅.

Definition upsertCurrentPlanRegistryEntry (plans : gmap string PlanRegistryEntry) (planURI : string)
  : gmap string PlanRegistryEntry :=
  let trimmedURI := TrimSpace planURI in
  let next := clonePlanRegistryEntries plans in
  if decide (trimmedURI = EmptyString) then next
  else
    let key := match next !! "current" with
               | Some _ => "current"
               | None => match map_to_list next with
                         | [(existingKey, _)] => existingKey
                         | _ => "current"
                         end
               end in
    <[key := mkPlanEntry key trimmedURI]> next.

Definition flattenCreatePlanTodos (todos : list TodoItem) (phases : list (list TodoItem)) : list TodoItem :=
  if decide (todos = []) then concat phases else todos.

Definition project_runtime_state (payload : runtimeStateEntryPayload) (state : structuredConversationState)
  : structuredConversationState :=
  let state := if decide (TrimSpace (StatePlanText payload) = EmptyString) then state
               else state <| PlanText := TrimSpace (StatePlanText payload) |> <| HasPlan := true |> in
  let state := if decide (StatePlans payload = ∅) then state
               else state <| Plans := clonePlanRegistryEntries (StatePlans payload) |> in
  if decide (StateTodos payload = []) then state
  else state <| Todos := StateTodos payload |> <| HasTodos := true |>.

Definition project_create_plan (millis : Z) (planUri plan : string) (todos : list TodoItem)
    (phases : list (list TodoItem)) (state : structuredConversationState) : result structuredConversationState :=
  let planURI := TrimSpace planUri in
  if decide (planURI = EmptyString) then Ok state
  else
    let state := state <| PlanText := TrimSpace plan |> <| HasPlan := true |>
                       <| Plans := upsertCurrentPlanRegistryEntry (Plans state) planURI |> in
    match normalizeTodoItems (flattenCreatePlanTodos todos phases) millis false with
    | Err e => Err e
    | Ok todos => Ok (state <| Todos := todos |> <| HasTodos := true |>)
    end.

Definition project_update_todos (millis : Z) (items : list TodoItem) (wasMerge : bool)
    (state : structuredConversationState) : result structuredConversationState :=
  match normalizeTodoItems items millis false with
  | Err e => Err e
  | Ok todos =>
      match (if negb wasMerge && negb (bool_decide (missingActiveTodoReplacementIDs (Todos state) todos = ∅))
             then mergeTodoItems (Todos state) todos millis else Ok todos) with
      | Err e => Err e
      | Ok todos => Ok (state <| Todos := todos |> <| HasTodos := true |>)
      end
  end.

Definition project_call (millis : Z) (call : StateCall) (state : structuredConversationState)
  : result structuredConversationState :=
  match call with
  | CreatePlanCall true planUri plan todos phases => project_create_plan millis planUri plan todos phases state
  | UpdateTodosCall _ (Some (UpdateTodosSuccess items _ wasMerge)) => project_update_todos millis items wasMerge state
  | _ => Ok state
  end.

(** The body of the loop over the entries. *)
Definition project_entry (now : Z) (state : structuredConversationState) (entry : Entry)
  : result structuredConversationState :=
  if decide (TrimSpace (Kind entry) = "runtime_state") then
    match decode_runtime_state (Payload_ entry) with
    | None => Err "decode runtime_state entry"
    | Some payload => Ok (project_runtime_state payload state)
    end
  else if decide (TrimSpace (Kind entry) = "tool_result") then
    match decode_tool_result (Payload_ entry) with
    | None => Err "decode structured state tool_result"
    | Some payload =>
        if decide (ResultDocument payload = EmptyString) then Ok state
        else
          match decode_document (ResultDocument payload) with
          | None => Err "decode structured state tool_call"
          | Some toolCall => project_call (timestampMillis now (EntryCreatedAt entry)) (state_call toolCall) state
          end
    end
  else Ok state.

Fixpoint project_entries (now : Z) (entries : list Entry) (state : structuredConversationState)
  : result structuredConversationState :=
  match entries with
  | [] => Ok state
  | entry :: entries =>
      match project_entry now state entry with
      | Err e => Err e
      | Ok state => project_entries now entries state
      end
  end.

Definition projectConversationStructuredState (now : Z) (entries : list Entry) : result structuredConversationState :=
  project_entries now (checkpointProjectionEntries entries) no_state.

(** The plan, the plans and the todos a conversation file shows. *)
Definition refreshConversationRuntimeState (now : Z) (entries : list Entry)
  : result (string * gmap string PlanRegistryEntry * list TodoItem) :=
  match projectConversationStructuredState now entries with
  | Err e => Err e
  | Ok state =>
      Ok (if HasPlan state then TrimSpace (PlanText state) else EmptyString,
          clonePlanRegistryEntries (Plans state),
          if HasTodos state then Todos state else [])
  end.

(** What a compaction writes out, the [runtime_state] parameter of Compaction.v. *)
Definition compacted_runtime_state (now : Z) (entries : list Entry) : result (option Payload) :=
  match projectConversationStructuredState now entries with
  | Err e => Err e
  | Ok state =>
      let payload := mkRuntimeState (PlanText state) (clonePlanRegistryEntries (Plans state)) (Todos state) in
      if bool_decide (TrimSpace (StatePlanText payload) = EmptyString) &&
         bool_decide (StatePlans payload = ∅) && bool_decide (StateTodos payload = [])
      then Ok None
      else Ok (Some (encode_runtime_state payload))
  end.

Definition todoSectionReminderMessage : string :=
  "<system_reminder>" +:+ LFs 1 +:+ "You are currently under the todo section, be sure to track tasks and do not forget to update."
  +:+ LFs 1 +:+ "</system_reminder>".

(** The contexts for the plan and the todos, by source and content, and the reminder at the end. *)
Definition buildStructuredStatePromptContexts (now : Z) (entries : list Entry)
  : result (list (string * Message) * list Message) :=
  match projectConversationStructuredState now entries with
  | Err e => Err e
  | Ok state =>
      let plan := if HasPlan state && negb (bool_decide (TrimSpace (PlanText state) = EmptyString))
                  then [("structured_state/current_plan",
                         text_message "user" ("<current_plan>" +:+ LFs 1 +:+ TrimSpace (PlanText state) +:+ LFs 1
                                              +:+ "</current_plan>"))]
                  else [] in
      let todoText := renderTodoList (Todos state) in
      if HasTodos state && negb (bool_decide (todoText = EmptyString))
      then Ok (plan ++ [("structured_state/todo_list",
                         text_message "user" ("<todo_list>" +:+ LFs 1 +:+ todoText +:+ LFs 1 +:+ "</todo_list>"))],
               [text_message "user" todoSectionReminderMessage])
      else Ok (plan, [])
  end.

End Projection.

(** ** Well-formed todos *)

Record normal_todo (t : TodoItem) : Prop := {
  normal_id : TrimSpace (Id t) = Id t;
  normal_content : TrimSpace (Content t) = Content t;
  normal_status : Status t <> TODO_STATUS_UNSPECIFIED;
  normal_created : 0 < CreatedAt t;
  normal_updated : 0 < UpdatedAt t
}.

Definition normal_plan (key : string) (plan : PlanRegistryEntry) : Prop :=
  TrimSpace key = key /\ key <> EmptyString /\ TrimSpace (EntryId plan) = EntryId plan /\
  EntryId plan <> EmptyString /\ TrimSpace (EntryPath plan) = EntryPath plan.

Lemma normalize_todo_normal millis t : 0 < millis -> normal_todo (normalize_todo millis t).
Proof.
  intros Hm. unfold normalize_todo. cbn.
  destruct (Z.eqb_spec (Status t) TODO_STATUS_UNSPECIFIED) as [Hs|Hs]; cbn;
    destruct (Z.leb_spec (CreatedAt t) 0); cbn; destruct (Z.leb_spec (UpdatedAt t) 0); cbn;
    split; cbn; try apply TrimSpace_idem; try done; unfold TODO_STATUS_UNSPECIFIED in *; lia.
Qed.

Lemma normalize_todos_normal millis t : normal_todo t -> normalize_todo millis t = t.
Proof.
  intros [Hi Hc Hs Hcr Hu]. unfold normalize_todo. destruct t; cbn in *. rewrite Hi, Hc.
  destruct (Z.eqb_spec Status0 TODO_STATUS_UNSPECIFIED); [done|]. cbn.
  destruct (Z.leb_spec CreatedAt0 0); [lia|]. cbn. destruct (Z.leb_spec UpdatedAt0 0); [lia|done].
Qed.

Lemma normalize_items items millis : normalizeTodoItems items millis false = Ok (map (normalize_todo millis) items).
Proof. induction items as [|t items IH]; [done|]. simpl. by rewrite IH. Qed.

Lemma normalize_items_normal items millis :
  Forall normal_todo items -> normalizeTodoItems items millis false = Ok items.
Proof.
  intros H. rewrite normalize_items. f_equal. induction H as [|t items Ht _ IH]; [done|]. simpl.
  by rewrite IH, normalize_todos_normal.
Qed.

Lemma normalize_validated items millis todos :
  normalizeTodoItems items millis true = Ok todos ->
  todos = map (normalize_todo millis) items /\
  Forall (fun t => Id t <> EmptyString /\ Content t <> EmptyString) todos.
Proof.
  revert todos. induction items as [|t items IH]; intros todos; [intros [= <-]; by split|].
  cbn -[normalize_todo]. case_bool_decide as Hid; [done|]. case_bool_decide as Hc; [done|].
  destruct (normalizeTodoItems items millis true) as [rest|]; [|done]. intros [= <-].
  destruct (IH rest eq_refl) as [-> Hf]. split; [done|]. by constructor.
Qed.

Lemma map_normalize_normal millis items : 0 < millis -> Forall normal_todo (map (normalize_todo millis) items).
Proof. intros Hm. apply Forall_map, Forall_true. intros t. by apply normalize_todo_normal. Qed.

Lemma normalize_id millis t : Id (normalize_todo millis t) = TrimSpace (Id t).
Proof.
  unfold normalize_todo. cbn. destruct (Status t =? TODO_STATUS_UNSPECIFIED); cbn;
    destruct (CreatedAt t <=? 0); cbn; by destruct (UpdatedAt t <=? 0).
Qed.

Lemma normalize_status millis t : isTerminalTodoStatus (Status (normalize_todo millis t)) = isTerminalTodoStatus (Status t).
Proof.
  unfold normalize_todo. cbn. destruct (Z.eqb_spec (Status t) TODO_STATUS_UNSPECIFIED) as [->|]; cbn;
    destruct (CreatedAt t <=? 0); cbn; by destruct (UpdatedAt t <=? 0).
Qed.

(** *** Merging *)

Lemma update_todo_spec millis current update next :
  0 < millis -> normal_todo current -> update_todo millis current update = Ok next ->
  normal_todo next /\ Id next = TrimSpace (Id update) /\ CreatedAt next = CreatedAt current /\
  Content next <> EmptyString.
Proof.
  intros Hm [Hi Hc Hs Hcr Hu]. unfold update_todo. cbn.
  destruct (decide (TrimSpace (Content update) = EmptyString)) as [Hcu|Hcu]; cbn;
    destruct (Z.eqb_spec (Status update) TODO_STATUS_UNSPECIFIED) as [Hsu|Hsu]; cbn;
    destruct (decide (Dependencies update = [])); cbn;
    destruct (decide (_ = EmptyString)); try done;
    repeat match goal with |- context [Z.eqb ?a ?b] => destruct (Z.eqb_spec a b); [done|] end; cbn;
    destruct (Z.leb_spec (CreatedAt current) 0); try lia; intros [= <-]; cbn;
    (split; [split|]; cbn; rewrite ?TrimSpace_idem; try done; try lia).
Qed.

Lemma new_todo_spec millis update next :
  0 < millis -> new_todo millis update = Ok next ->
  normal_todo next /\ Id next = TrimSpace (Id update) /\ Content next <> EmptyString.
Proof.
  intros Hm. unfold new_todo. cbn. destruct (decide (_ = EmptyString)) as [|Hc]; [done|].
  destruct (Z.eqb_spec (Status update) TODO_STATUS_UNSPECIFIED) as [Hsu|Hsu]; cbn;
    destruct (Z.leb_spec (CreatedAt update) 0); cbn; destruct (Z.leb_spec (UpdatedAt update) 0); cbn;
    intros [= <-]; cbn; (split; [split|]; cbn; rewrite ?TrimSpace_idem; try done; try lia).
Qed.

(** The index knows where each identifier last stands. *)
Record indexes (items : list TodoItem) (index : gmap string nat) : Prop := {
  indexes_sound : forall id i, index !! id = Some i -> exists t, items !! i = Some t /\ Id t = id;
  indexes_complete : forall t, t ∈ items -> Id t <> EmptyString -> is_Some (index !! Id t)
}.

Lemma index_todos_ok before items index :
  Forall normal_todo items -> indexes before index ->
  indexes (before ++ items) (index_todos (length before) items index).
Proof.
  intros Hn. revert before index. induction Hn as [|t items Ht Hn IH]; intros before index [Hs Hc]; simpl.
  - by rewrite app_nil_r.
  - rewrite (normal_id t Ht).
    replace (before ++ t :: items) with ((before ++ [t]) ++ items) by by rewrite <- app_assoc.
    replace (S (length before)) with (length (before ++ [t])) by (rewrite length_app; simpl; lia).
    apply IH. destruct (decide (Id t = EmptyString)) as [He|He]; split.
    + intros id i (x & Hx & Hid)%Hs. exists x. split; [by apply lookup_app_l_Some|done].
    + intros x [Hx|Hx]%elem_of_app Hne; [by apply Hc|]. apply list_elem_of_singleton in Hx as ->. done.
    + intros id i. destruct (decide (id = Id t)) as [->|Hne].
      * rewrite lookup_insert_eq. intros [= <-]. exists t. by rewrite list_lookup_middle.
      * rewrite lookup_insert_ne by done. intros (x & Hx & Hid)%Hs. exists x.
        split; [by apply lookup_app_l_Some|done].
    + intros x Hx Hne. destruct (decide (Id x = Id t)) as [->|Hxt]; [by rewrite lookup_insert_eq|].
      rewrite lookup_insert_ne by done. apply elem_of_app in Hx as [Hx|Hx]; [by apply Hc|].
      apply list_elem_of_singleton in Hx as ->. done.
Qed.

(** What a merge keeps of the todos it starts from. *)
Record extends (items result : list TodoItem) : Prop := {
  extends_normal : Forall normal_todo result;
  extends_places : forall i t, items !! i = Some t ->
    exists t', result !! i = Some t' /\ Id t' = Id t /\ CreatedAt t' = CreatedAt t;
  extends_distinct : NoDup (map Id items) -> NoDup (map Id result)
}.

Lemma extends_refl items : Forall normal_todo items -> extends items items.
Proof. intros H. split; [done| |done]. intros i t Ht. by exists t. Qed.

Lemma extends_trans l1 l2 l3 : extends l1 l2 -> extends l2 l3 -> extends l1 l3.
Proof.
  intros [_ P1 D1] [N2 P2 D2]. split; [done| |auto].
  intros i t (t' & Ht' & Hi & Hc)%P1. apply P2 in Ht' as (t'' & Ht'' & Hi' & Hc').
  exists t''. by rewrite Hi', Hc'.
Qed.

Lemma map_insert_same (items : list TodoItem) i t next :
  items !! i = Some t -> Id next = Id t -> map Id (<[i := next]> items) = map Id items.
Proof.
  intros Ht Hid. apply list_eq. intros j. rewrite !list_lookup_fmap.
  destruct (decide (i = j)) as [<-|Hne].
  - rewrite list_lookup_insert_eq by by eapply lookup_lt_Some. by rewrite Ht; simpl; rewrite Hid.
  - by rewrite list_lookup_insert_ne.
Qed.

Lemma replaced_extends items i t next :
  Forall normal_todo items -> items !! i = Some t -> normal_todo next -> Id next = Id t ->
  CreatedAt next = CreatedAt t -> extends items (<[i := next]> items).
Proof.
  intros Hn Ht Hnext Hid Hcr. split.
  - by apply Forall_insert.
  - intros j x Hx. destruct (decide (i = j)) as [<-|Hne].
    + exists next. rewrite list_lookup_insert_eq by by eapply lookup_lt_Some.
      assert (x = t) as -> by congruence. done.
    + exists x. by rewrite list_lookup_insert_ne.
  - by rewrite (map_insert_same _ _ _ _ Ht Hid).
Qed.

Lemma merge_updates_extends millis updates items index result :
  0 < millis -> Forall normal_todo items -> indexes items index ->
  merge_updates millis updates items index = Ok result -> extends items result.
Proof.
  intros Hm. revert items index. induction updates as [|update updates IH]; intros items index Hn Hx; simpl.
  - intros [= <-]. by apply extends_refl.
  - destruct (decide (TrimSpace (Id update) = EmptyString)) as [|Hid]; [done|].
    destruct (index !! TrimSpace (Id update)) as [i|] eqn:Hi.
    + destruct (indexes_sound _ _ Hx _ _ Hi) as (t & Ht & Hti). rewrite Ht.
      destruct (update_todo millis t update) as [next|] eqn:Hu; [|done]. intros Hmerge.
      assert (Hnt : normal_todo t) by by eapply Forall_lookup_1.
      destruct (update_todo_spec _ _ _ _ Hm Hnt Hu) as (Hnext & Hnid & Hcr & _).
      assert (Hext : extends items (<[i := next]> items)) by (eapply replaced_extends; eauto; congruence).
      eapply extends_trans; [exact Hext|]. eapply IH; [apply Hext| |exact Hmerge]. split.
      * intros id j (x & Hxj & Hxi)%(indexes_sound _ _ Hx).
        apply (extends_places _ _ Hext) in Hxj as (x' & Hx' & Hidx & _). exists x'. by rewrite Hidx.
      * intros x Hin Hne. apply (list_elem_of_fmap_2 Id) in Hin. change (Id x ∈ map Id (<[i := next]> items)) in Hin.
        rewrite (map_insert_same _ _ _ _ Ht) in Hin by congruence.
        apply list_elem_of_fmap in Hin as (y & Hxy & Hy). rewrite Hxy in *. by apply (indexes_complete _ _ Hx).
    + destruct (new_todo millis update) as [next|] eqn:Hu; [|done]. intros Hmerge.
      destruct (new_todo_spec _ _ _ Hm Hu) as (Hnext & Hnid & _).
      assert (Hext : extends items (items ++ [next])).
      { split.
        - apply Forall_app. split; [done|by constructor].
        - intros j x Hxj. exists x. split; [by apply lookup_app_l_Some|done].
        - rewrite map_app. intros Hnd. apply NoDup_app. split; [done|]. split; [|apply NoDup_singleton].
          intros id Hin Hin'. apply list_elem_of_singleton in Hin' as ->. rewrite Hnid in Hin.
          apply list_elem_of_fmap in Hin as (y & Hy & Hyin).
          destruct (indexes_complete _ _ Hx y Hyin) as [j Hj]; [by rewrite <- Hy|]. by rewrite <- Hy, Hi in Hj. }
      eapply extends_trans; [exact Hext|]. eapply IH; [apply Hext| |exact Hmerge]. split.
      * intros id j. destruct (decide (id = TrimSpace (Id update))) as [->|Hne].
        -- rewrite lookup_insert_eq. intros [= <-]. exists next. by rewrite list_lookup_middle.
        -- rewrite lookup_insert_ne by done. intros (x & Hxj & Hxi)%(indexes_sound _ _ Hx). exists x.
           split; [by apply lookup_app_l_Some|done].
      * intros x Hin Hne. destruct (decide (Id x = TrimSpace (Id update))) as [->|Hxu]; [by rewrite lookup_insert_eq|].
        rewrite lookup_insert_ne by done. apply elem_of_app in Hin as [Hin|Hin]; [by apply (indexes_complete _ _ Hx)|].
        apply list_elem_of_singleton in Hin as ->. done.
Qed.

Lemma merge_extends existing updates millis result :
  0 < millis -> mergeTodoItems existing updates millis = Ok result ->
  extends (map (normalize_todo millis) existing) result.
Proof.
  intros Hm. unfold mergeTodoItems. rewrite normalize_items. intros H.
  eapply merge_updates_extends; [done|by apply map_normalize_normal| |exact H].
  apply (index_todos_ok []); [by apply map_normalize_normal|]. split; [by intros ? ?|by intros t []%elem_of_nil].
Qed.

(** ** The answers of the TodoWrite tool *)

Lemma active_elem id items :
  id ∈ active_ids items <-> id <> EmptyString /\
    exists t, t ∈ items /\ isTerminalTodoStatus (Status t) = false /\ TrimSpace (Id t) = id.
Proof.
  unfold active_ids. rewrite elem_of_list_to_set, elem_filter, list_elem_of_fmap, negb_true_iff, bool_decide_eq_false.
  split.
  - intros [(t & -> & Ht) Hne]. apply elem_filter in Ht as [Ht Hs]. apply negb_true_iff in Hs. eauto.
  - intros (Hne & t & Ht & Hs & <-). split; [|done]. exists t. split; [done|]. apply elem_filter.
    by rewrite Hs.
Qed.

Lemma none_missing existing replacement :
  missingActiveTodoReplacementIDs existing replacement = ∅ <->
  forall id, id ∈ active_ids existing -> id ∈ map (fun t => TrimSpace (Id t)) replacement.
Proof.
  unfold missingActiveTodoReplacementIDs. split.
  - intros H id Hid. destruct (decide (id ∈ map (fun t => TrimSpace (Id t)) replacement)) as [|Hn]; [done|].
    exfalso. apply (not_elem_of_empty (C := gset string) id). rewrite <- H. apply elem_of_difference.
    split; [done|]. by rewrite elem_of_list_to_set.
  - intros H. apply set_eq. intros id. rewrite elem_of_difference, elem_of_list_to_set.
    split; [|by intros []%elem_of_empty]. intros [Hid Hn]. by apply H in Hid.
Qed.

(** What a successful answer is made of. *)
Inductive todo_answer (state : structuredConversationState) (updates : list TodoItem) (millis : Z)
  : bool -> list TodoItem -> Prop :=
| answer_merged todos : mergeTodoItems (Todos state) updates millis = Ok todos -> todo_answer state updates millis true todos
| answer_replaced todos : normalizeTodoItems updates millis true = Ok todos ->
    missingActiveTodoReplacementIDs (Todos state) todos = ∅ -> todo_answer state updates millis false todos.

Lemma handle_success sort_strings decoded state now args todos n merged pending :
  handleTodoWriteToolInvocation sort_strings decoded state false now = (args, UpdateTodosSuccess todos n merged, pending) ->
  todo_answer state (ArgTodos args) (timestampMillis now now) merged todos /\
  n = wrap_int32 (Z.of_nat (length todos)) /\ merged = Merge args /\ pending = false.
Proof.
  unfold handleTodoWriteToolInvocation. destruct decoded as [[a mergeSet]|]; [|done]. cbv zeta.
  destruct (shouldMergeTodoUpdate a mergeSet (Todos state)).
  - destruct (mergeTodoItems _ _ _) as [next|] eqn:Hm; [|done]. simpl. intros [= <- <- <- <- <-].
    split; [by constructor|done].
  - destruct (normalizeTodoItems _ _ _) as [next|] eqn:Hm; [|done]. simpl.
    case_bool_decide as Hmissing; simpl; [|done]. intros [= <- <- <- <- <-]. split; [by constructor|done].
Qed.

(** After a new plan the todos are taken as they come, unless that leaves an active todo out. *)
Lemma handle_reset sort_strings decoded state reset now args todos n merged pending :
  handleTodoWriteToolInvocation sort_strings decoded state reset now = (args, UpdateTodosSuccess todos n merged, pending) ->
  (reset = true -> missingActiveTodoReplacementIDs (Todos state) todos = ∅) ->
  todo_answer state (ArgTodos args) (timestampMillis now now) merged todos.
Proof.
  destruct reset; [|by intros [? _]%handle_success _].
  unfold handleTodoWriteToolInvocation. destruct decoded as [[a mergeSet]|]; [|done]. cbv zeta.
  destruct (normalizeTodoItems _ _ _) as [next|] eqn:Hm; [|done]. simpl. intros [= <- <- <- <- <-] Hmissing.
  constructor; [done|by apply Hmissing].
Qed.

Lemma answer_normal state updates millis merged todos :
  0 < millis -> todo_answer state updates millis merged todos -> Forall normal_todo todos.
Proof.
  intros Hm [l Hl|l Hl _]; [by apply (merge_extends _ _ _ _ Hm Hl)|].
  apply normalize_validated in Hl as [-> _]. by apply map_normalize_normal.
Qed.

Lemma answer_keeps_active state updates millis merged todos :
  0 < millis -> todo_answer state updates millis merged todos ->
  forall id, id ∈ active_ids (Todos state) -> id ∈ map Id todos.
Proof.
  intros Hm Ha id Hid. pose proof (answer_normal _ _ _ _ _ Hm Ha) as Hn. destruct Ha as [l Hl|l Hl Hmissing].
  - apply active_elem in Hid as (_ & t & Ht & _ & <-). apply merge_extends in Hl as [_ Hp _]; [|done].
    apply list_elem_of_lookup in Ht as [i Hi].
    destruct (Hp i (normalize_todo millis t)) as (t' & Ht' & Hid & _); [by rewrite list_lookup_fmap, Hi|].
    rewrite normalize_id in Hid. rewrite <- Hid. apply list_elem_of_fmap_2. by eapply list_elem_of_lookup_2.
  - rewrite none_missing in Hmissing. apply Hmissing in Hid.
    apply list_elem_of_fmap in Hid as (t & -> & Ht). rewrite Forall_forall in Hn.
    rewrite (normal_id t) by by apply Hn. by apply list_elem_of_fmap_2.
Qed.

(** C38: A TodoWrite that is answered with success, outside the reset after a new plan, loses no todo
    that is neither completed nor cancelled: its identifier is in the answer.  Every todo of the
    answer is well formed; a merge leaves every todo at its place with its identifier and its
    time of creation, and never makes two todos of one; a replacement has an identifier and a
    content for every todo. *)
Theorem todo_write_keeps_active sort_strings decoded state now args todos n merged pending :
  10 ^ 6 <= now ->
  handleTodoWriteToolInvocation sort_strings decoded state false now = (args, UpdateTodosSuccess todos n merged, pending) ->
  (forall id, id ∈ active_ids (Todos state) -> id ∈ map Id todos) /\
  Forall normal_todo todos /\ pending = false /\
  (if merged then extends (map (normalize_todo (timestampMillis now now)) (Todos state)) todos
   else Forall (fun t => Id t <> EmptyString /\ Content t <> EmptyString) todos).
Proof.
  intros Hnow H. assert (Hm : 0 < timestampMillis now now).
  { unfold timestampMillis. destruct (now =? 0); apply Z.div_str_pos; lia. }
  pose proof (handle_success _ _ _ _ _ _ _ _ _ H) as (Ha & _ & _ & Hp).
  split; [by eapply answer_keeps_active|]. split; [by eapply answer_normal|]. split; [done|].
  destruct Ha as [l Hl|l Hl _]; [by eapply merge_extends|]. by apply normalize_validated in Hl as [_ Hl].
Qed.

(** ** The state and the history *)

Section State.
Context {Payload Docs ToolCall UserMessage RequestContext : Type}
  `{DC : !Decoders Payload} `{RP : !ReplayPayloads Payload ToolCall UserMessage RequestContext}
  `{SP : !StatePayloads Payload ToolCall UserMessage RequestContext}.
Context (range_plans : gmap string PlanRegistryEntry -> list (string * PlanRegistryEntry)).
Hypothesis Hrange : forall m, range_plans m ≡ₚ map_to_list m.

Notation Entry := (HistoryEntry Payload).

Lemma project_app now l k state :
  project_entries range_plans now (l ++ k) state =
  match project_entries range_plans now l state with
  | Err e => Err e
  | Ok state => project_entries range_plans now k state
  end.
Proof.
  revert state. induction l as [|e l IH]; intros state; [done|]. simpl.
  destruct (project_entry range_plans now state e); [apply IH|done].
Qed.

Lemma policies_appended (entries : list Entry) e :
  TrimSpace (Kind e) <> "metadata" -> canceledReplayPolicies (entries ++ [e]) = canceledReplayPolicies entries.
Proof.
  intros Hk. unfold canceledReplayPolicies. rewrite fold_left_app. simpl. unfold canceled_step.
  destruct (TurnSeq e <=? 0); [done|]. unfold canceledReplayPolicyForEntry. by rewrite decide_True.
Qed.

(** An entry that comes after a history and neither cancels a turn nor belongs to a cancelled one is
    added to what the projection sees. *)
Lemma sees_appended (entries : list Entry) e :
  TrimSpace (Kind e) <> "metadata" -> canceledReplayPolicies entries !! TurnSeq e = None ->
  checkpointProjectionEntries (entries ++ [e]) = checkpointProjectionEntries entries ++ [e].
Proof.
  intros Hk Hc. unfold checkpointProjectionEntries. rewrite !sanitize_filter.
  rewrite policies_appended, List.filter_app by done. f_equal.
  - apply List.filter_ext_in. intros x _. unfold kept_in_replay.
    destruct (0 <? TurnSeq x); [|done].
    destruct (canceledReplayPolicies entries !! TurnSeq x) as [policy|] eqn:Hx; [|done].
    assert (Hne : TurnSeq x <> TurnSeq e) by congruence.
    assert (Ha : bool_decide (TurnSeq x ∈ canceledReplayActivityTurns (entries ++ [e]))
                 = bool_decide (TurnSeq x ∈ canceledReplayActivityTurns entries)).
    { apply bool_decide_ext. rewrite !active_spec. split; intros (y & Hy & Hturn & Hrest); exists y;
        (split; [|done]); [|apply elem_of_app; by left].
      apply elem_of_app in Hy as [Hy|Hy]; [done|]. apply list_elem_of_singleton in Hy as ->. done. }
    by rewrite Ha.
  - simpl. unfold kept_in_replay. rewrite Hc. by destruct (0 <? TurnSeq e).
Qed.

Lemma projects_appended now (entries : list Entry) e state :
  projectConversationStructuredState range_plans now entries = Ok state ->
  TrimSpace (Kind e) <> "metadata" -> canceledReplayPolicies entries !! TurnSeq e = None ->
  projectConversationStructuredState range_plans now (entries ++ [e]) = project_entry range_plans now state e.
Proof.
  intros Hs Hk Hc. unfold projectConversationStructuredState in *. rewrite sees_appended by done.
  rewrite project_app, Hs. simpl. by destruct (project_entry _ _ _ _).
Qed.

(** The entry holds the tool call of a TodoWrite that was answered. *)
Definition records (e : Entry) (args : UpdateTodosArgs) (answer : UpdateTodosResult) : Prop :=
  TrimSpace (Kind e) = "tool_result" /\ exists payload toolCall,
    decode_tool_result (Payload_ e) = Some payload /\ ResultDocument payload <> EmptyString /\
    decode_document (ResultDocument payload) = Some toolCall /\
    state_call toolCall = UpdateTodosCall args (Some answer).

Lemma record_projected now state e args answer :
  records e args answer ->
  project_entry range_plans now state e =
  match answer with
  | UpdateTodosSuccess items _ wasMerge =>
      project_update_todos (timestampMillis now (EntryCreatedAt e)) items wasMerge state
  | UpdateTodosError _ => Ok state
  end.
Proof.
  intros (Hk & payload & toolCall & Hp & Hd & Hdoc & Hcall). unfold project_entry.
  rewrite Hk, decide_False by done. rewrite decide_True by done. rewrite Hp, decide_False by done.
  rewrite Hdoc, Hcall. by destruct answer.
Qed.

(** C18: What TodoWrite answers is what the history says from then on.  When the result of a call is
    appended to a history whose turn is not cancelled, the state read off the longer history has the
    todos of a successful answer and is otherwise the state from before, and an answer with an
    error changes nothing.  The first call after a new plan ([reset]) is taken as it comes; for it this
    holds when it leaves out no active todo of the state, and [plan_todos_come_back] shows that
    the todos it leaves out come back. *)
Theorem todo_answer_is_state sort_strings decoded now later (entries : list Entry) e state reset args answer pending :
  10 ^ 6 <= later ->
  projectConversationStructuredState range_plans now entries = Ok state ->
  handleTodoWriteToolInvocation sort_strings decoded state reset later = (args, answer, pending) ->
  (forall todos n merged, answer = UpdateTodosSuccess todos n merged -> reset = true ->
     missingActiveTodoReplacementIDs (Todos state) todos = ∅) ->
  records e args answer -> canceledReplayPolicies entries !! TurnSeq e = None ->
  projectConversationStructuredState range_plans now (entries ++ [e]) =
  Ok match answer with
     | UpdateTodosSuccess todos _ _ => state <| Todos := todos |> <| HasTodos := true |>
     | UpdateTodosError _ => state
     end.
Proof.
  intros Hlater Hstate Hanswer Hreset Hrec Hc.
  rewrite (projects_appended _ _ _ _ Hstate) by (done || destruct Hrec as [-> _]; done).
  rewrite (record_projected _ _ _ _ _ Hrec). destruct answer as [|todos n merged]; [done|].
  assert (Hm : 0 < timestampMillis later later).
  { unfold timestampMillis. destruct (later =? 0); apply Z.div_str_pos; lia. }
  apply handle_reset in Hanswer as Ha; [|by eapply Hreset]. unfold project_update_todos.
  rewrite normalize_items_normal by by eapply answer_normal.
  assert (Hcond : negb merged && negb (bool_decide (missingActiveTodoReplacementIDs (Todos state) todos = ∅)) = false).
  { destruct Ha as [|l _ Hmissing]; [done|]. by rewrite bool_decide_true. }
  by rewrite Hcond.
Qed.

(** *** Plans *)

Lemma clone_plan_normal cloned plan : map_Forall normal_plan cloned -> map_Forall normal_plan (clone_plan cloned plan).
Proof.
  intros H. unfold clone_plan. destruct (decide (TrimSpace plan.1 = EmptyString)) as [|Hk]; [done|].
  apply map_Forall_insert_2; [|done]. unfold normal_plan. cbn. rewrite !TrimSpace_idem.
  destruct (decide (TrimSpace (EntryId plan.2) = EmptyString)) as [|Hid]; rewrite ?TrimSpace_idem; done.
Qed.

Lemma clone_normal plans : map_Forall normal_plan (clonePlanRegistryEntries range_plans plans).
Proof.
  unfold clonePlanRegistryEntries. assert (H : map_Forall normal_plan (∅ : gmap string PlanRegistryEntry)) by done.
  revert H. generalize (∅ : gmap string PlanRegistryEntry). induction (range_plans plans) as [|p l IH]; [done|].
  intros m Hm. simpl. apply IH. by apply clone_plan_normal.
Qed.

Lemma clone_plan_id cloned key plan : normal_plan key plan -> clone_plan cloned (key, plan) = <[key := plan]> cloned.
Proof.
  intros (Hk & Hne & Hid & Hidne & Hp). unfold clone_plan. cbn. rewrite Hk, decide_False by done.
  rewrite Hid, decide_False by done. rewrite Hp. by destruct plan.
Qed.

Lemma fold_clone l m : (forall k p, (k, p) ∈ l -> normal_plan k p) -> NoDup l.*1 ->
  fold_left clone_plan l m = list_to_map l ∪ m.
Proof.
  revert m. induction l as [|[k p] l IH]; intros m Hn Hnd; simpl; [by rewrite map_empty_union|].
  apply NoDup_cons in Hnd as [Hk Hnd]. rewrite clone_plan_id by (apply Hn; by left).
  rewrite IH by (try done; intros; apply Hn; by right). rewrite <- insert_union_l, insert_union_r; [done|].
  by apply not_elem_of_list_to_map_1.
Qed.

Lemma clone_id plans : map_Forall normal_plan plans -> clonePlanRegistryEntries range_plans plans = plans.
Proof.
  intros H. unfold clonePlanRegistryEntries. rewrite fold_clone.
  - rewrite map_union_empty. rewrite (list_to_map_proper _ (map_to_list plans)); [apply list_to_map_to_list| |apply Hrange].
    rewrite Hrange. apply NoDup_fst_map_to_list.
  - intros k p Hin. rewrite Hrange in Hin. apply elem_of_map_to_list in Hin. by apply H.
  - rewrite Hrange. apply NoDup_fst_map_to_list.
Qed.

Lemma upsert_normal plans planURI : map_Forall normal_plan (upsertCurrentPlanRegistryEntry range_plans plans planURI).
Proof.
  unfold upsertCurrentPlanRegistryEntry. pose proof (clone_normal plans) as Hn.
  set (next := clonePlanRegistryEntries range_plans plans) in *.
  destruct (decide (TrimSpace planURI = EmptyString)) as [|Hu]; [done|]. apply map_Forall_insert_2; [|done].
  assert (Hkey : forall k, TrimSpace k = k -> k <> EmptyString -> normal_plan k (mkPlanEntry k (TrimSpace planURI)))
    by (intros k Hk Hne; unfold normal_plan; cbn; by rewrite TrimSpace_idem).
  assert (Hcurrent : normal_plan "current" (mkPlanEntry "current" (TrimSpace planURI))) by by apply Hkey.
  destruct (next !! "current"); [done|]. destruct (map_to_list next) as [|[k p] [|]] eqn:Hl; try done.
  apply Hkey; apply (Hn k p), elem_of_map_to_list; rewrite Hl; by left.
Qed.

(** *** What always holds of the state *)

Record steady (s : structuredConversationState) : Prop := {
  steady_plans : map_Forall normal_plan (Plans s);
  steady_text : TrimSpace (PlanText s) = PlanText s;
  steady_plan : PlanText s <> EmptyString -> HasPlan s = true;
  steady_todos : Todos s <> [] -> HasTodos s = true
}.

Lemma project_entry_steady now s e s' :
  steady s -> project_entry range_plans now s e = Ok s' -> steady s'.
Proof.
  intros [Hp Ht Hh Hd]. unfold project_entry. destruct (decide (TrimSpace (Kind e) = "runtime_state")).
  - destruct (decode_runtime_state (Payload_ e)) as [p|]; [|done]. intros [= <-]. unfold project_runtime_state.
    destruct (decide (TrimSpace (StatePlanText p) = EmptyString)), (decide (StatePlans p = ∅)),
      (decide (StateTodos p = [])); split; cbn; try done; try apply clone_normal; apply TrimSpace_idem.
  - destruct (decide (TrimSpace (Kind e) = "tool_result")); [|by intros [= <-]].
    destruct (decode_tool_result (Payload_ e)) as [p|]; [|done].
    destruct (decide (ResultDocument p = EmptyString)); [by intros [= <-]|].
    destruct (decode_document (ResultDocument p)) as [call|]; [|done]. unfold project_call.
    destruct (state_call call) as [[] uri plan todos phases|args [[|items count merged]|]|]; try (by intros [= <-]).
    + unfold project_create_plan. destruct (decide (TrimSpace uri = EmptyString)); [by intros [= <-]|].
      rewrite normalize_items. intros [= <-]. split; cbn; try done; [apply upsert_normal|apply TrimSpace_idem].
    + unfold project_update_todos. rewrite normalize_items.
      destruct (if negb merged && _ then _ else _) as [l|]; [|done]. intros [= <-]. by split.
Qed.

Lemma projected_steady now (entries : list Entry) s :
  projectConversationStructuredState range_plans now entries = Ok s -> steady s.
Proof.
  unfold projectConversationStructuredState. assert (H : steady no_state) by done. revert H.
  generalize no_state. induction (checkpointProjectionEntries entries) as [|e l IH]; intros s0 Hs; simpl.
  - by intros [= <-].
  - destruct (project_entry range_plans now s0 e) as [s1|] eqn:He; [|done]. apply IH.
    by eapply project_entry_steady.
Qed.

(** A compaction writes out what it reads. *)
Lemma runtime_state_reread s :
  steady s ->
  project_runtime_state range_plans
    (mkRuntimeState (PlanText s) (clonePlanRegistryEntries range_plans (Plans s)) (Todos s)) s = s.
Proof.
  intros [Hp Ht Hh Hd]. unfold project_runtime_state. cbn [StatePlanText StatePlans StateTodos].
  rewrite Ht, (clone_id (Plans s)) by done. destruct s as [text has plans todos hast]; cbn in *.
  destruct (decide (text = EmptyString)) as [|H1]; [|rewrite (Hh H1)]; cbn;
    (destruct (decide (plans = ∅)); cbn; [|rewrite (clone_id plans) by done]);
    (destruct (decide (todos = [])) as [|H2]; cbn; [|rewrite (Hd H2)]); reflexivity.
Qed.

(** An entry that is read at a time after the first millisecond of 1970. *)
Definition dated (now : Z) (e : Entry) : Prop := 0 < timestampMillis now (EntryCreatedAt e).

(** The todos a runtime_state entry brings: those of a compaction, or of the client that imports a conversation. *)
Definition brings_todos (e : Entry) (todos : list TodoItem) : Prop :=
  TrimSpace (Kind e) = "runtime_state" /\ exists p, decode_runtime_state (Payload_ e) = Some p /\ StateTodos p = todos.

Lemma project_entry_normal now s e s' :
  dated now e -> project_entry range_plans now s e = Ok s' ->
  Forall normal_todo (Todos s') \/ brings_todos e (Todos s') \/ Todos s' = Todos s.
Proof.
  intros Hm. unfold project_entry. destruct (decide (TrimSpace (Kind e) = "runtime_state")) as [Hk|Hk].
  - destruct (decode_runtime_state (Payload_ e)) as [p|] eqn:Hp; [|done]. intros [= <-]. right.
    unfold project_runtime_state.
    destruct (decide (TrimSpace (StatePlanText p) = EmptyString)), (decide (StatePlans p = ∅)),
      (decide (StateTodos p = [])); cbn; (by right) || (left; split; [done|by exists p]).
  - destruct (decide (TrimSpace (Kind e) = "tool_result")); [|by intros [= <-]; auto].
    destruct (decode_tool_result (Payload_ e)) as [p|]; [|done].
    destruct (decide (ResultDocument p = EmptyString)); [by intros [= <-]; auto|].
    destruct (decode_document (ResultDocument p)) as [call|]; [|done]. unfold project_call.
    destruct (state_call call) as [[] uri plan todos phases|args [[|items count merged]|]|]; try (intros [= <-]; by auto).
    + unfold project_create_plan. destruct (decide (TrimSpace uri = EmptyString)); [by intros [= <-]; auto|].
      rewrite normalize_items. intros [= <-]. left. by apply map_normalize_normal.
    + unfold project_update_todos. rewrite normalize_items.
      destruct (negb merged && _).
      * destruct (mergeTodoItems _ _ _) as [l|] eqn:Hl; [|done]. intros [= <-]. left. by apply (merge_extends _ _ _ _ Hm Hl).
      * intros [= <-]. left. by apply map_normalize_normal.
Qed.

(** C23: The state read off a history whose entries are dated after the epoch is well formed, whatever the
    arguments of the tools were.  Every plan
    is listed under a trimmed key with an identifier; a plan text is trimmed and comes with its flag, and so
    do todos.  Every todo has a trimmed identifier and content, a status other than "unspecified" and times
    after the epoch, unless the todos are those of a runtime_state entry, as it was stored: what a client
    imports is not normalised before a tool touches it ([imported_todo_kept]). *)
Theorem structured_state_typed now (entries : list Entry) s :
  Forall (dated now) entries -> projectConversationStructuredState range_plans now entries = Ok s ->
  steady s /\ (Forall normal_todo (Todos s) \/ exists e, e ∈ entries /\ brings_todos e (Todos s)).
Proof.
  intros Hdated Hs. split; [by eapply projected_steady|]. unfold projectConversationStructuredState in Hs.
  assert (Hin : forall e, e ∈ checkpointProjectionEntries entries -> e ∈ entries /\ dated now e).
  { unfold checkpointProjectionEntries. rewrite sanitize_filter. intros e [He _]%elem_filter.
    rewrite Forall_forall in Hdated. auto. }
  revert Hin Hs. assert (H0 : Forall normal_todo (Todos no_state) \/ exists e, e ∈ entries /\ brings_todos e (Todos no_state))
    by by left.
  revert H0. generalize no_state. induction (checkpointProjectionEntries entries) as [|e l IH]; intros s0 H0 Hin; simpl; [by intros [= <-]|].
  destruct (project_entry range_plans now s0 e) as [s1|] eqn:Hp; [|done].
  destruct (Hin e) as [He Hd]; [by apply list_elem_of_here|].
  apply IH; [|intros e' He'; apply Hin; by apply list_elem_of_further].
  apply project_entry_normal in Hp as [?|[?| ->]]; [by left|right; by exists e|done|done].
Qed.

(** *** Compaction *)

Context `{CP : !CompactionPayloads Payload ToolCall UserMessage RequestContext}.

(** C39: A compaction changes nothing of the plan and the todos: the state read off the history with the
    marker and the runtime state that applying a plan appends is the state from before. *)
Theorem compaction_keeps_state now later (conversation compacted : ConversationFile Payload Docs) plan summaryText s :
  projectConversationStructuredState range_plans now (Entries conversation) = Ok s ->
  canceledReplayPolicies (Entries conversation) !! PlanTurnSeq plan = None ->
  applyCompactionToConversation (fun c => compacted_runtime_state range_plans now (Entries c)) later
    conversation plan summaryText = Ok compacted ->
  projectConversationStructuredState range_plans now (Entries compacted) = Ok s.
Proof.
  intros Hs Hc (l & Hl & ->)%applied_from. pose proof (projected_steady _ _ _ Hs) as Hsteady.
  unfold buildCompactedContextEntries, newCompactedRuntimeStateEntry, compacted_runtime_state in Hl.
  rewrite Hs in Hl. destruct (append_in_place_blank later conversation (resetEntrySequences l)) as (assigned & -> & Hf).
  { destruct (bool_decide _ && _ && _); injection Hl as <-; by repeat constructor. }
  assert (Hmarker : forall m, stored (newCompactionSummaryEntry plan summaryText) m ->
    projectConversationStructuredState range_plans now (Entries conversation ++ [m]) = Ok s /\
    canceledReplayPolicies (Entries conversation ++ [m]) !! PlanTurnSeq plan = None).
  { intros m (Hturn & _ & Hk & _). cbn in Hturn, Hk. split.
    - rewrite (projects_appended _ _ _ _ Hs) by (rewrite ?Hk, ?Hturn; done).
      unfold project_entry. by rewrite Hk.
    - rewrite policies_appended by by rewrite Hk. done. }
  destruct (bool_decide _ && _ && _); injection Hl as <-; cbn [resetEntrySequences map] in Hf;
    apply Forall2_cons_stored in Hf as (m & r1 & -> & Hm & Hf); apply Hmarker in Hm as [Hm Hmc].
  - inversion Hf; subst. exact Hm.
  - apply Forall2_cons_stored in Hf as (r & r2 & -> & (Hturn & _ & Hk & Hp) & Hf). inversion Hf; subst.
    cbn in Hturn, Hk, Hp. replace (Entries conversation ++ [m; r]) with ((Entries conversation ++ [m]) ++ [r])
      by by rewrite <- app_assoc.
    rewrite (projects_appended _ _ _ _ Hm) by (rewrite ?Hk, ?Hturn; done).
    unfold project_entry. rewrite Hk, decide_True by done. rewrite Hp, runtime_state_roundtrip.
    f_equal. by apply runtime_state_reread.
Qed.

End State.

(** ** The definitions at work *)

Module Demo.

(** A payload is a tool result that names its document, a runtime state, a summary or something else. *)
Inductive TodoPayload :=
| TResult (document : string)
| TState (p : runtimeStateEntryPayload)
| TSummary (p : compactionSummaryEntryPayload)
| TFull (p : toolResultEntryPayload).

#[export] Instance todo_decoders : Decoders TodoPayload := {
  decode_metadata := fun _ => None;
  decode_tool_call_id := fun _ => None;
  decode_tool_result_id := fun p => match p with TFull r => Some (ResultPayloadID r) | TResult _ => Some EmptyString | _ => None end;
  decode_request_folder := fun _ => None;
  path_IsAbs := fun _ => true;
  path_Clean := id;
  path_Base := id;
  PathSeparator := "/"%char
}.

Definition result_payload (document : string) : toolResultEntryPayload :=
  mkToolResultPayload EmptyString "TodoWrite" EmptyString EmptyString
    (mkReasoning EmptyString EmptyString EmptyString EmptyString EmptyString [])
    (mkProviderIDs EmptyString EmptyString EmptyString) document.

Definition todo (id content : string) (status : Z) : TodoItem := mkTodo id content status 5 5 [].

(** The plan asks for two todos; the document of "merged" answers that the first is done. *)
Definition plan_call : StateCall := CreatePlanCall true " plan.md " "do it" [todo "a" "write" 0; todo "b" "test" 0] [].

Definition updates : list TodoItem := [mkTodo "a" EmptyString 3 0 0 []; mkTodo " c " "ship" 0 0 0 []].

Definition in_order (ids : gset string) : list string := elements ids.

Definition sampled (state : structuredConversationState) (updates : list TodoItem) (merge reset : bool)
  : UpdateTodosArgs * UpdateTodosResult * bool :=
  handleTodoWriteToolInvocation in_order (Ok (mkUpdateArgs updates merge, true)) state reset (8 * 10 ^ 6).

Definition planned : structuredConversationState :=
  mkStructured "do it" true {[ "current" := mkPlanEntry "current" "plan.md" ]}
    [todo "a" "write" 1; todo "b" "test" 1] true.

Definition documents (document : string) : option StateCall :=
  if decide (document = "plan") then Some plan_call
  else if decide (document = "merged") then
    let '(args, answer, _) := sampled planned updates true false in Some (UpdateTodosCall args (Some answer))
  else if decide (document = "reset") then
    let '(args, answer, _) := sampled planned [todo "c" "ship" 1] false true in Some (UpdateTodosCall args (Some answer))
  else None.

#[export] Instance todo_payloads : ReplayPayloads TodoPayload StateCall string (list string) := {
  decode_model_message := fun _ => None;
  decode_summary := fun p => match p with TSummary s => Some s | _ => None end;
  decode_user_message := fun _ => None;
  decode_request_context := fun _ => None;
  decode_prompt_context := fun _ => None;
  decode_assistant_text := fun _ => None;
  decode_tool_call := fun _ => None;
  decode_tool_result := fun p => match p with TResult d => Some (result_payload d) | TFull r => Some r | _ => None end;
  encode_tool_result := TFull;
  same_payload := fun _ _ => false;
  decode_document := documents;
  inferToolName := fun _ => EmptyString;
  extractToolCallReplayShape := fun _ => None;
  GetText := id;
  selected_sections := fun _ => [];
  selected_images := fun _ => [];
  request_context_sections := id;
  content_hash := fun role content => role +:+ ":" +:+ content;
  tool_call_id_of := ltac:(by intros []);
  tool_result_id_of := ltac:(by intros []);
  tool_result_roundtrip := ltac:(done)
}.

#[export] Instance todo_compaction : CompactionPayloads TodoPayload StateCall string (list string) := {
  encode_summary := TSummary;
  summary_roundtrip := ltac:(done);
  payload_text := fun _ => EmptyString;
  compact_tool_shape := fun _ => None
}.

#[export] Instance todo_state : StatePayloads TodoPayload StateCall string (list string) := {
  decode_runtime_state := fun p => match p with TState s => Some s | _ => None end;
  encode_runtime_state := TState;
  state_call := id;
  runtime_state_roundtrip := ltac:(done)
}.

Definition todo_entry (document : string) : HistoryEntry TodoPayload :=
  mkEntry 0 1 "r1" EmptyString EmptyString "tool_result" EmptyString EmptyString (TResult document) (7 * 10 ^ 6).

Definition ranged (m : gmap string PlanRegistryEntry) : list (string * PlanRegistryEntry) := map_to_list m.

Definition history : list (HistoryEntry TodoPayload) := [todo_entry "plan"].

Definition todos_of (r : result structuredConversationState) : list (string * Z) :=
  match r with Ok s => map (fun t => (Id t, Status t)) (Todos s) | Err _ => [] end.

Example plan_read : projectConversationStructuredState ranged 1 history = Ok planned.
Proof. vm_compute. reflexivity. Qed.

Example merged_read :
  todos_of (projectConversationStructuredState ranged 1 (history ++ [todo_entry "merged"])) =
  [("a", 3); ("b", 1); ("c", 1)].
Proof. vm_compute. reflexivity. Qed.

(** A replacement that leaves out active todos is refused. *)
Example unsafe_replacement :
  sampled planned [todo "c" "ship" 1] false false =
  (mkUpdateArgs [todo "c" "ship" 1] false,
   UpdateTodosError (todoUnsafeReplaceBaseError +:+ "; missing active todo ids: a, b"), false).
Proof. vm_compute. reflexivity. Qed.

(** After a new plan it is taken: the answer lists one todo, and the history goes on with three. *)
Example plan_todos_come_back :
  (sampled planned [todo "c" "ship" 1] false true).1.2 = UpdateTodosSuccess [todo "c" "ship" 1] 1 false /\
  todos_of (projectConversationStructuredState ranged 1 (history ++ [todo_entry "reset"])) =
  [("a", 1); ("b", 1); ("c", 1)].
Proof. split; vm_compute; reflexivity. Qed.

(** A todo that a client imports with a blank around its identifier, and no status, is read as it is. *)
Example imported_todo_kept :
  match projectConversationStructuredState ranged 1
          [mkEntry 0 0 "r1" EmptyString EmptyString "runtime_state" EmptyString EmptyString
             (TState (mkRuntimeState EmptyString ∅ [mkTodo " a " "write" 0 0 0 []])) (7 * 10 ^ 6)] with
  | Ok state => Todos state = [mkTodo " a " "write" 0 0 0 []]
  | Err _ => False
  end.
Proof. vm_compute. reflexivity. Qed.

Definition sample_plan : compactionPlan :=
  mkPlan "auto" 0 0 0 0 0 0 true EmptyString [] EmptyString EmptyString 1 "r1" EmptyString true EmptyString.

Definition conversation : ConversationFile TodoPayload unit :=
  mkConversation 1 "c" "c" EmptyString EmptyString EmptyString EmptyString "agent" 0 EmptyString
    EmptyString EmptyString 0 0 0 false 0 0 EmptyString EmptyString tt [] None None 0 0 2 1 history.

Definition compacted : ConversationFile TodoPayload unit :=
  match applyCompactionToConversation (fun c => compacted_runtime_state ranged 1 (Entries c)) 9
          conversation sample_plan "planned" with
  | Ok c => c
  | Err _ => conversation
  end.

End Demo.

#[local] Existing Instances Demo.todo_decoders Demo.todo_payloads Demo.todo_compaction Demo.todo_state.

Lemma todo_write_keeps_active_witness :
  active_ids (Todos Demo.planned) = {[ "a"; "b" ]} /\
  (forall id, id ∈ active_ids (Todos Demo.planned) -> id ∈ ["a"; "b"; "c"]).
Proof.
  split; [vm_compute; reflexivity|].
  apply (todo_write_keeps_active Demo.in_order (Ok (mkUpdateArgs Demo.updates true, true)) Demo.planned (8 * 10 ^ 6)
    (mkUpdateArgs Demo.updates true)
    [mkTodo "a" "write" 3 5 8 []; mkTodo "b" "test" 1 5 5 []; mkTodo "c" "ship" 1 8 8 []] 3 true false).
  - vm_compute. discriminate.
  - vm_compute. reflexivity.
Defined.

Lemma todo_answer_is_state_witness :
  projectConversationStructuredState Demo.ranged 1 (Demo.history ++ [Demo.todo_entry "merged"]) =
  Ok (Demo.planned <| Todos := [mkTodo "a" "write" 3 5 8 []; mkTodo "b" "test" 1 5 5 []; mkTodo "c" "ship" 1 8 8 []] |>
                   <| HasTodos := true |>).
Proof.
  apply (todo_answer_is_state Demo.ranged Demo.in_order (Ok (mkUpdateArgs Demo.updates true, true)) 1 (8 * 10 ^ 6)
    Demo.history (Demo.todo_entry "merged") Demo.planned false (mkUpdateArgs Demo.updates true)
    (UpdateTodosSuccess [mkTodo "a" "write" 3 5 8 []; mkTodo "b" "test" 1 5 5 []; mkTodo "c" "ship" 1 8 8 []] 3 true)
    false).
  - vm_compute. discriminate.
  - vm_compute. reflexivity.
  - vm_compute. reflexivity.
  - intros todos n merged _ [=].
  - split; [reflexivity|]. eexists _, _. split; [reflexivity|]. split; [discriminate|].
    split; [vm_compute; reflexivity|]. vm_compute. reflexivity.
  - vm_compute. reflexivity.
Defined.

Lemma structured_state_typed_witness :
  steady Demo.planned /\
  (Forall normal_todo (Todos Demo.planned) \/ exists e, e ∈ Demo.history /\ brings_todos e (Todos Demo.planned)).
Proof.
  apply (structured_state_typed Demo.ranged 1 Demo.history Demo.planned); [by repeat constructor|].
  vm_compute. reflexivity.
Defined.

Lemma compaction_keeps_state_witness :
  length (Entries Demo.compacted) = 3%nat /\
  projectConversationStructuredState Demo.ranged 1 (Entries Demo.compacted) = Ok Demo.planned.
Proof.
  split; [vm_compute; reflexivity|].
  apply (compaction_keeps_state Demo.ranged (fun m => reflexivity _) 1 9 Demo.conversation Demo.compacted
    Demo.sample_plan "planned" Demo.planned); vm_compute; reflexivity.
Defined.
