(* ===== verification/Prompt.v ===== *)
(** * The prompt of a history pairs its calls and results (forwarder/projector.go).

    [ProjectPromptReplay] of Projection.v turns the entries of a history into messages; here is
    shown which calls and results these messages hold, and that what a provider receives is
    well paired. *)

From S2P Require Import Prelude Go Conversation EditText Replay Messages Projection Sample.

Section Prompt.
Context {Payload Docs ToolCall UserMessage RequestContext : Type}
  `{!Decoders Payload} `{!ReplayPayloads Payload ToolCall UserMessage RequestContext}
  {JL : Json} (line_diffs : bytes -> bytes -> list Diff).

Notation Entry := (HistoryEntry Payload).
Notation kind_of e := (TrimSpace (Kind e)).
Notation limit := (limitProjectedToolResultReplay line_diffs).

(** ** The identifiers of a history *)

(** The calls of an imported message, the call an entry announces, the result it carries. *)
Definition model_calls (e : Entry) : list string :=
  if decide (kind_of e = "model_message")
  then match decode_model_message (Payload_ e) with Some m => call_keys m | None => [] end else [].

Definition model_results (e : Entry) : list string :=
  if decide (kind_of e = "model_message")
  then match decode_model_message (Payload_ e) with Some m => result_keys m | None => [] end else [].

Definition announced_call (e : Entry) : list string :=
  if decide (kind_of e = "tool_call")
  then match decode_tool_call (Payload_ e) with
       | Some p => List.filter non_blank [TrimSpace (CallPayloadID p)] | None => [] end
  else [].

Definition completed_call (e : Entry) : list string :=
  if decide (kind_of e = "tool_result")
  then match decode_tool_result (Payload_ e) with
       | Some p => List.filter non_blank [TrimSpace (ResultPayloadID p)] | None => [] end
  else [].

(** The identifiers under which calls enter a prompt: those of imported messages, those that
    tool calls announce, and those of the results no earlier call announced. *)
Fixpoint call_sources (announced : gset string) (entries : list Entry) : list string :=
  match entries with
  | [] => []
  | e :: rest =>
      model_calls e ++ announced_call e ++
      List.filter (fun id => negb (bool_decide (id ∈ announced))) (completed_call e) ++
      call_sources (list_to_set (announced_call e) ∪ announced) rest
  end.

Definition result_sources (entries : list Entry) : list string :=
  List.flat_map (fun e => model_results e ++ completed_call e) entries.

(** ** What an entry adds *)

Definition silent (m : Message) : Prop := calls_tools m = false /\ is_tool m = false.

Lemma silent_keys m : silent m -> call_keys m = [] /\ result_keys m = [].
Proof. intros [Hc Ht]. unfold call_keys, message_calls, result_keys. by rewrite Hc, Ht. Qed.

Lemma silent_list l : Forall silent l -> ids_of_calls l = [] /\ ids_of_results l = [].
Proof.
  rewrite ids_of_calls_keys, ids_of_results_keys. induction 1 as [|m l Hm _ IH]; [done|]. simpl.
  destruct (silent_keys m Hm) as [-> ->]. done.
Qed.

Lemma single_keys m : ids_of_calls [m] = call_keys m /\ ids_of_results [m] = result_keys m.
Proof. rewrite ids_of_calls_keys, ids_of_results_keys. simpl. by rewrite !app_nil_r. Qed.

(** The override keeps the role of a message and the identifiers in it. *)
Lemma override_keys name arguments m :
  call_keys (overrideModelToolReplayFromEntry name arguments m) = call_keys m /\
  result_keys (overrideModelToolReplayFromEntry name arguments m) = result_keys m.
Proof.
  unfold overrideModelToolReplayFromEntry. case_decide; [done|].
  destruct (is_assistant m) eqn:Ea; [|by destruct (is_tool m)].
  unfold call_keys, message_calls, calls_tools, result_keys. cbn. unfold is_assistant in *. cbn.
  rewrite Ea. destruct (ToolCalls m) as [|c cs]; [done|]. cbn.
  split; [|reflexivity]. f_equal. rewrite !map_map. by apply map_ext.
Qed.

Lemma override_ids name arguments i l :
  ids_of_calls (alter (overrideModelToolReplayFromEntry name arguments) i l) = ids_of_calls l /\
  ids_of_results (alter (overrideModelToolReplayFromEntry name arguments) i l) = ids_of_results l.
Proof.
  rewrite !ids_of_calls_keys, !ids_of_results_keys. revert i.
  induction l as [|m l IH]; intros [|i]; try done.
  - cbn. by destruct (override_keys name arguments m) as [-> ->].
  - cbn. by destruct (IH i) as [-> ->].
Qed.

Lemma assistant_call_keys c : call_keys (assistant_call c) = [call_id c] /\
  result_keys (assistant_call c) = [].
Proof. done. Qed.

Lemma tool_message_keys m : MsgRole m = "tool" -> TrimSpace (MsgToolCallID m) <> EmptyString ->
  call_keys m = [] /\ result_keys m = [TrimSpace (MsgToolCallID m)].
Proof.
  intros Hr H. unfold call_keys, message_calls, calls_tools, is_assistant, result_keys, is_tool, result_id,
    non_blank. rewrite Hr. change (TrimSpace "tool") with "tool".
  change (bool_decide ("tool" = "assistant")) with false.
  change (bool_decide ("tool" = "tool")) with true. cbn [andb].
  by rewrite bool_decide_eq_false_2.
Qed.

Lemma reasoning_keys r m : call_keys (with_reasoning r m) = call_keys m /\
  result_keys (with_reasoning r m) = result_keys m.
Proof. done. Qed.

Lemma metadata_keys p m : call_keys (applyPromptProviderMetadataToFirstToolCall p m) = call_keys m /\
  result_keys (applyPromptProviderMetadataToFirstToolCall p m) = result_keys m.
Proof.
  unfold applyPromptProviderMetadataToFirstToolCall. destruct m as [? ? ? ? ? ? ? ? ? calls ? ?].
  cbn. destruct calls as [|c cs]; [done|]. split; [|done].
  unfold call_keys, message_calls, calls_tools, is_assistant. cbn. by destruct (bool_decide _).
Qed.

Lemma user_message_silent u m : BuildUserMessageReplayMessage u = Some m -> silent m.
Proof. unfold BuildUserMessageReplayMessage. intros H. repeat case_decide; by simplify_eq. Qed.

Lemma request_context_silent c : Forall silent (BuildRequestContextReplayMessages c).
Proof. unfold BuildRequestContextReplayMessages. destruct (request_context_sections c); by repeat constructor. Qed.

Lemma normalize_message context :
  PromptMessage (normalizePromptContextMessage (normalizePromptContextMessage context)) =
  PromptMessage (normalizePromptContextMessage context).
Proof. unfold normalizePromptContextMessage. cbn. by rewrite !TrimSpace_idem. Qed.

Lemma stored_context_silent role content payload :
  isReplayablePromptContext (stored_context role content payload) = true ->
  silent (PromptMessage (stored_context role content payload)).
Proof.
  unfold stored_context. set (context := mkPromptContext _ _ _ _).
  unfold isReplayablePromptContext. cbn -[normalizePromptContextMessage]. rewrite normalize_message. set (m := PromptMessage _). intros H.
  repeat (apply andb_true_iff in H as [H ?]). unfold silent, calls_tools, is_assistant, is_tool.
  zbool. destruct (ToolCalls m) eqn:E; [|done]. rewrite (bool_decide_eq_true_2 ([] = [])), andb_false_r by done.
  split; [done|]. apply bool_decide_eq_false_2. intros Ht.
  assert (Hr : TrimSpace (MsgRole m) = MsgRole m) by (subst m; cbn; apply TrimSpace_idem).
  rewrite Hr in Ht.
  match goal with Hin : MsgRole m ∈ _ |- _ =>
    rewrite Ht in Hin; apply (bool_decide_pack _) in Hin; vm_compute in Hin; done end.
Qed.

(** ** The messages collected so far

    [A], [M], [T]: the identifiers announced by tool calls, held by the calls of imported
    messages, and carried by tool results, in the entries read so far; [R] the identifiers of
    all their results. *)
Record collected_from (A M T R : gset string) (r : Replay_) : Prop := {
  calls_distinct : NoDup (ids_of_calls (messages r));
  calls_from : forall id, id ∈ ids_of_calls (messages r) -> id ∈ seenToolCalls r \/ id ∈ M \/ id ∈ T;
  seen_announced : seenToolCalls r ⊆ A;
  results_distinct : NoDup (ids_of_results (messages r));
  results_from : forall id, id ∈ ids_of_results (messages r) -> id ∈ R
}.

(** What the entries still to come may not repeat. *)
Record fresh_entries (A M T R : gset string) (rest : list Entry) : Prop := {
  sources_distinct : NoDup (call_sources A rest);
  sources_fresh : forall id, id ∈ call_sources A rest -> id ∉ A /\ id ∉ M /\ id ∉ T;
  answers_distinct : NoDup (result_sources rest);
  answers_fresh : forall id, id ∈ result_sources rest -> id ∉ R;
  apart : A ## M;
  carried : T ⊆ R
}.

(** The step all entries share: messages whose identifiers are new are appended. *)
Lemma collected_emit A M T R r new A' M' T' R' :
  collected_from A M T R r ->
  NoDup (ids_of_calls new) -> NoDup (ids_of_results new) ->
  (forall id, id ∈ ids_of_calls new -> id ∉ ids_of_calls (messages r)) ->
  (forall id, id ∈ ids_of_results new -> id ∉ R) ->
  (forall id, id ∈ ids_of_calls new -> id ∈ seenToolCalls r \/ id ∈ M' \/ id ∈ T') ->
  (forall id, id ∈ ids_of_results new -> id ∈ R') ->
  A ⊆ A' -> M ⊆ M' -> T ⊆ T' -> R ⊆ R' ->
  collected_from A' M' T' R' (emit new r).
Proof.
  intros [C1 C2 C3 C4 C5] N1 N2 F1 F2 I1 I2 HA HM HT HR.
  split; change (messages (emit new r)) with (messages r ++ new);
    change (seenToolCalls (emit new r)) with (seenToolCalls r).
  - rewrite ids_of_calls_app. apply NoDup_app. split_and!; [done| |done]. set_solver.
  - intros id. rewrite ids_of_calls_app, elem_of_app. intros [H|H]; [|by apply I1].
    destruct (C2 id H) as [|[|]]; set_solver.
  - set_solver.
  - rewrite ids_of_results_app. apply NoDup_app. split_and!; [done| |done].
    intros id H1 H2. by apply (F2 id H2), C5.
  - intros id. rewrite ids_of_results_app, elem_of_app. intros [H|H]; [|by apply I2]. by apply HR, C5.
Qed.

Lemma collected_more A M T R r A' M' T' R' :
  collected_from A M T R r -> A ⊆ A' -> M ⊆ M' -> T ⊆ T' -> R ⊆ R' -> collected_from A' M' T' R' r.
Proof.
  intros [C1 C2 C3 C4 C5] HA HM HT HR. split; try done; [|set_solver|set_solver].
  intros id H. destruct (C2 id H) as [|[|]]; set_solver.
Qed.

Lemma collected_silent A M T R r new : collected_from A M T R r -> Forall silent new ->
  collected_from A M T R (emit new r).
Proof.
  intros Hc Hs. destruct (silent_list new Hs) as [Ec Er].
  eapply collected_emit; try done; rewrite ?Ec, ?Er; try (by constructor);
    intros id Hid; by apply elem_of_nil in Hid.
Qed.

(** The sources of the first entry and of the rest. *)
Lemma fresh_split A M T R e rest : fresh_entries A M T R (e :: rest) ->
  fresh_entries (list_to_set (announced_call e) ∪ A) (list_to_set (model_calls e) ∪ M)
    (list_to_set (completed_call e) ∪ T) (list_to_set (model_results e ++ completed_call e) ∪ R) rest.
Proof.
  intros [S1 S2 S3 S4 S5 S6]. cbn [call_sources] in *. cbn [result_sources List.flat_map] in *.
  fold (result_sources rest) in S3, S4.
  apply NoDup_app in S1 as (Sm & Sm' & S1). apply NoDup_app in S1 as (Sa & Sa' & S1).
  apply NoDup_app in S1 as (Sc & Sc' & S1). apply NoDup_app in S3 as (Sr & Sr' & S3).
  assert (Hc : forall id, id ∈ completed_call e -> id ∉ A ->
            id ∈ List.filter (fun id => negb (bool_decide (id ∈ A))) (completed_call e)).
  { intros id H1 H2. apply elem_filter. split; [done|]. by rewrite bool_decide_eq_false_2. }
  split; try done.
  - intros id Hid. assert (Hid' := S2 id ltac:(rewrite !elem_of_app; auto)). 
    rewrite !not_elem_of_union, !elem_of_list_to_set. destruct Hid' as (HA & HM & HT). split_and!; try done.
    + intros Hx. apply (Sa' id Hx). rewrite elem_of_app. auto.
    + intros Hx. apply (Sm' id Hx). rewrite !elem_of_app. auto.
    + intros Hx. by apply (Sc' id); [apply Hc|].
  - intros id Hid. rewrite not_elem_of_union, elem_of_list_to_set. split.
    + intros Hx. by apply (Sr' id Hx).
    + apply S4, elem_of_app. by right.
  - intros id. rewrite !elem_of_union, !elem_of_list_to_set. intros [Ha|Ha] [Hm|Hm].
    + apply (Sm' id Hm). rewrite !elem_of_app. auto.
    + by destruct (S2 id ltac:(rewrite !elem_of_app; auto)) as (? & ? & ?).
    + by destruct (S2 id ltac:(rewrite !elem_of_app; auto)) as (? & ? & ?).
    + by apply (S5 id).
  - rewrite list_to_set_app_L. set_solver.
Qed.

Lemma keys_map f l :
  (forall m, call_keys (f m) = call_keys m /\ result_keys (f m) = result_keys m) ->
  ids_of_calls (map f l) = ids_of_calls l /\ ids_of_results (map f l) = ids_of_results l.
Proof.
  intros H. rewrite !ids_of_calls_keys, !ids_of_results_keys. induction l as [|m l IH]; [done|]. simpl.
  destruct (H m) as [-> ->], IH as [-> ->]. done.
Qed.

Lemma stored_call_ids historical p l :
  ids_of_calls (replay_stored_call line_diffs historical p l) = ids_of_calls l /\
  ids_of_results (replay_stored_call line_diffs historical p l) = ids_of_results l.
Proof.
  unfold replay_stored_call, overrideToolReplayFromEntry. rewrite map_map. apply keys_map. intros m.
  destruct (override_keys (ResultToolName p) (ResultArguments p) m) as [<- <-].
  set (m' := overrideModelToolReplayFromEntry _ _ m). destruct (calls_tools m'); [|by destruct (is_tool m')].
  destruct (metadata_keys (ResultProvider p) (with_reasoning (ResultReasoning p) m')) as [-> ->]. done.
Qed.

Lemma descriptor_id id (toolCall : ToolCall) d : BuildToolCallReplayDescriptor id toolCall = Some d ->
  TrimSpace id <> EmptyString /\ call_id d = TrimSpace id.
Proof.
  unfold BuildToolCallReplayDescriptor. case_decide; [done|]. intros Hd.
  destruct (extractToolCallReplayShape toolCall); simplify_eq. split; [done|]. apply TrimSpace_idem.
Qed.

Lemma result_message_keys id (toolCall : ToolCall) m : BuildToolResultReplayMessage id toolCall = Some m ->
  TrimSpace id <> EmptyString /\ exists content name,
    m = text_message "tool" content <| MsgToolCallID := TrimSpace id |> <| MsgName := name |>.
Proof.
  unfold BuildToolResultReplayMessage. case_decide; [done|]. intros Hm.
  destruct (extractToolCallReplayShape toolCall) as [shape|]; [|done].
  destruct (HasResult shape); simplify_eq. split; [done|]. eauto.
Qed.

Lemma stored_pair_ids id (toolCall : ToolCall) l : BuildToolCallReplayMessages id toolCall = Some l ->
  TrimSpace id <> EmptyString /\ ids_of_calls l = [TrimSpace id] /\ ids_of_results l = [TrimSpace id].
Proof.
  unfold BuildToolCallReplayMessages.
  destruct (BuildToolCallReplayDescriptor id toolCall) as [d|] eqn:Ed; [|done].
  destruct (BuildToolResultReplayMessage id toolCall) as [m|] eqn:Em; [|done]. intros Hl. simplify_eq.
  destruct (descriptor_id _ _ _ Ed) as [Hid Hd].
  destruct (result_message_keys _ _ _ Em) as (_ & content & name & ->). split; [done|].
  rewrite ids_of_calls_keys, ids_of_results_keys. cbn [List.flat_map].
  destruct (assistant_call_keys d) as [-> ->].
  match goal with |- context [call_keys (?m <| MsgName := name |>)] =>
    destruct (tool_message_keys (m <| MsgName := name |>)) as [-> ->] end;
    [done|by cbn; rewrite TrimSpace_idem|]. cbn [MsgToolCallID set_field].
  by rewrite Hd, TrimSpace_idem.
Qed.

Lemma bare_result_ids historical p :
  replay_bare_result line_diffs historical p = [] \/
  TrimSpace (ResultPayloadID p) <> EmptyString /\
  ids_of_calls (replay_bare_result line_diffs historical p) = [TrimSpace (ResultPayloadID p)] /\
  ids_of_results (replay_bare_result line_diffs historical p) = [TrimSpace (ResultPayloadID p)].
Proof.
  unfold replay_bare_result. case_decide as Hd; [by left|]. destruct (isLegacyPlainWriteReplay _ _); [by left|].
  destruct (negb _); [by left|]. right. assert (Hid : TrimSpace (ResultPayloadID p) <> EmptyString) by tauto.
  split; [done|]. cbv zeta. rewrite ids_of_calls_keys, ids_of_results_keys. cbn [List.flat_map].
  set (c := mkCall _ _ _ _ _ _ _ _).
  destruct (reasoning_keys (ResultReasoning p) (assistant_call c)) as [-> ->].
  destruct (assistant_call_keys c) as [-> ->].
  match goal with |- context [call_keys ?m] => destruct (tool_message_keys m) as [-> ->] end;
    [done|by cbn; rewrite TrimSpace_idem|]. unfold call_id. cbn. by rewrite !TrimSpace_idem.
Qed.

(** ** One entry *)

Section Step.
Context (conversation : ConversationFile Payload Docs) (A M T R : gset string) (r : Replay_)
  (e : Entry) (rest : list Entry).
Context (Hr : collected_from A M T R r) (Hf : fresh_entries A M T R (e :: rest)).

Notation A' := (list_to_set (announced_call e) ∪ A).
Notation M' := (list_to_set (model_calls e) ∪ M).
Notation T' := (list_to_set (completed_call e) ∪ T).
Notation R' := (list_to_set (model_results e ++ completed_call e) ∪ R).

Lemma sources_in id : id ∈ model_calls e \/ id ∈ announced_call e -> id ∉ A /\ id ∉ M /\ id ∉ T.
Proof.
  intros H. apply (sources_fresh _ _ _ _ _ Hf). cbn [call_sources]. rewrite !elem_of_app. tauto.
Qed.

Lemma answers_in id : id ∈ model_results e ++ completed_call e -> id ∉ R.
Proof.
  intros H. apply (answers_fresh _ _ _ _ _ Hf). cbn [result_sources List.flat_map].
  rewrite elem_of_app. by left.
Qed.

Lemma completed_in id : id ∈ completed_call e -> id ∉ M /\ id ∉ T /\ id ∉ R.
Proof.
  intros H. assert (HR : id ∉ R) by (apply answers_in, elem_of_app; by right).
  assert (HT : id ∉ T) by (intros Ht; by apply HR, (carried _ _ _ _ _ Hf)).
  split; [|done]. destruct (decide (id ∈ A)) as [Ha|Ha]; [intros Hm; by apply (apart _ _ _ _ _ Hf id)|].
  apply (sources_fresh _ _ _ _ _ Hf). cbn [call_sources]. rewrite !elem_of_app. right. right. left.
  apply elem_filter. split; [done|]. by rewrite bool_decide_eq_false_2.
Qed.

Lemma call_is_new id : id ∉ seenToolCalls r -> id ∉ M -> id ∉ T -> id ∉ ids_of_calls (messages r).
Proof. intros H1 H2 H3 H. by destruct (calls_from _ _ _ _ _ Hr id H) as [|[|]]. Qed.

Lemma step_silent new : Forall silent new -> collected_from A' M' T' R' (emit new r).
Proof. intros Hs. eapply collected_more; [by apply collected_silent|set_solver..]. Qed.

Lemma step_nothing : collected_from A' M' T' R' r.
Proof. eapply collected_more; [exact Hr|set_solver..]. Qed.

Lemma step_model m : kind_of e = "model_message" -> decode_model_message (Payload_ e) = Some m ->
  collected_from A' M' T' R' (emit [m] r).
Proof.
  intros Hk Hd. destruct (single_keys m) as [Ec Er].
  assert (Em : model_calls e = call_keys m) by (unfold model_calls; by rewrite decide_True, Hd).
  assert (En : model_results e = result_keys m) by (unfold model_results; by rewrite decide_True, Hd).
  eapply collected_emit; [exact Hr|..|set_solver|set_solver|set_solver|set_solver]; rewrite ?Ec, ?Er.
  - pose proof (sources_distinct _ _ _ _ _ Hf) as H. cbn [call_sources] in H. rewrite Em in H.
    by apply NoDup_app in H as (H & _).
  - unfold result_keys. destruct (_ && _); [apply NoDup_singleton|constructor].
  - intros id Hid. rewrite <- Em in Hid. destruct (sources_in id (or_introl Hid)) as (Ha & Hm & Ht).
    apply call_is_new; [|done|done]. intros Hs. by apply Ha, (seen_announced _ _ _ _ _ Hr).
  - intros id Hid. apply answers_in, elem_of_app. left. by rewrite En.
  - intros id Hid. rewrite Em. right. left. set_solver.
  - intros id Hid. rewrite En, list_to_set_app_L. set_solver.
Qed.

Lemma step_call p r' : kind_of e = "tool_call" -> decode_tool_call (Payload_ e) = Some p ->
  replay_tool_call r p = Ok r' -> collected_from A' M' T' R' r'.
Proof.
  intros Hk Hd. unfold replay_tool_call. destruct (decode_document (CallDocument p)) as [toolCall|]; [|done].
  unfold BuildAssistantToolCallReplayMessage.
  destruct (BuildToolCallReplayDescriptor (CallPayloadID p) toolCall) as [d|] eqn:Ed; simpl;
    [|intros [= <-]; apply step_nothing].
  destruct (descriptor_id _ _ _ Ed) as [Hid Hdid]. rewrite decide_False by done. intros [= <-].
  set (id := TrimSpace (CallPayloadID p)) in *.
  assert (Ea : announced_call e = [id]).
  { unfold announced_call. rewrite decide_True, Hd by done. fold id. simpl. unfold non_blank.
    by rewrite bool_decide_eq_false_2. }
  destruct (sources_in id) as (Ha & Hm & Ht); [right; rewrite Ea; set_solver|].
  set (m := applyPromptProviderMetadataToFirstToolCall _ _).
  assert (Hkeys : call_keys m = [id] /\ result_keys m = []).
  { subst m. destruct (metadata_keys (CallProvider p) (with_reasoning (CallReasoning p) (assistant_call d)))
      as [-> ->]. destruct (reasoning_keys (CallReasoning p) (assistant_call d)) as [-> ->].
    destruct (assistant_call_keys d) as [-> ->]. by rewrite Hdid. }
  clearbody m.
  destruct (single_keys m) as [Ec Er], Hkeys as [Kc Kr]. rewrite Kc in Ec. rewrite Kr in Er.
  pose proof Hr as [C1 C2 C3 C4 C5]. rewrite Ea. cbn [list_to_set]. split; cbn -[ids_of_calls ids_of_results].
  - rewrite ids_of_calls_app, Ec. apply NoDup_app. split_and!; [done| |apply NoDup_singleton].
    intros x Hx Hx'. apply list_elem_of_singleton in Hx' as ->. revert Hx. apply call_is_new; [|done|done].
    intros Hs. by apply Ha, C3.
  - intros x. rewrite ids_of_calls_app, Ec, elem_of_app, list_elem_of_singleton.
    intros [Hx|Hx]; [|set_solver]. destruct (C2 x Hx) as [|[|]]; set_solver.
  - set_solver.
  - rewrite ids_of_results_app, Er, app_nil_r. done.
  - intros x. rewrite ids_of_results_app, Er, app_nil_r. intros Hx. apply C5 in Hx. set_solver.
Qed.

Lemma step_result_messages new id r2 : completed_call e = [id] ->
  collected_from A M T R r2 -> seenToolCalls r2 = seenToolCalls r ->
  ids_of_results new = [id] ->
  (ids_of_calls new = [] \/ ids_of_calls new = [id] /\ id ∉ seenToolCalls r) ->
  collected_from A' M' T' R' (emit new r2).
Proof.
  intros Ec Hr2 Hs En Hc. destruct (completed_in id) as (Hm & Ht & HR); [rewrite Ec; set_solver|].
  rewrite Ec. eapply collected_emit; [exact Hr2|..|set_solver|set_solver|set_solver|set_solver]; rewrite ?En.
  - destruct Hc as [->|[-> _]]; [constructor|apply NoDup_singleton].
  - apply NoDup_singleton.
  - destruct Hc as [->|[-> Hns]]; [intros x Hx; by apply elem_of_nil in Hx|].
    intros x Hx. apply list_elem_of_singleton in Hx as ->.
    intros Hx. destruct (calls_from _ _ _ _ _ Hr2 id Hx) as [Hx'|[|]]; [|done|done].
    by rewrite Hs in Hx'.
  - intros x Hx. by apply list_elem_of_singleton in Hx as ->.
  - destruct Hc as [->|[-> Hns]]; [intros x Hx; by apply elem_of_nil in Hx|]. set_solver.
  - rewrite list_to_set_app_L. set_solver.
Qed.
Lemma completed_of p : kind_of e = "tool_result" -> decode_tool_result (Payload_ e) = Some p ->
  TrimSpace (ResultPayloadID p) <> EmptyString -> completed_call e = [TrimSpace (ResultPayloadID p)].
Proof.
  intros Hk Hd Hid. unfold completed_call. rewrite decide_True, Hd by done. simpl. unfold non_blank.
  by rewrite bool_decide_eq_false_2.
Qed.

Lemma step_seen_result historical p : kind_of e = "tool_result" ->
  decode_tool_result (Payload_ e) = Some p ->
  collected_from A' M' T' R' (replay_seen_result line_diffs historical r p).
Proof.
  intros Hk Hd. unfold replay_seen_result. cbv zeta. set (id := TrimSpace (ResultPayloadID p)) in *.
  set (tc := if negb (bool_decide (ResultDocument p = EmptyString))
             then decode_document (ResultDocument p) else None). clearbody tc.
  match goal with |- context [if decide _ then ?r0 else _] => set (r2 := r0) end.
  assert (H2 : collected_from A M T R r2 /\ seenToolCalls r2 = seenToolCalls r).
  { subst r2. destruct Hr as [C1 C2 C3 C4 C5].
    destruct (toolCallMessageIndexes _ !! id) as [index|]; [|by repeat split].
    split; [|done]. split; cbn -[ids_of_calls ids_of_results alter]; try done;
      destruct (override_ids (ResultToolName p) (ResultArguments p) index (messages r)) as [E1 E2];
      rewrite ?E1, ?E2; done. }
  destruct H2 as [H2 Hs]. clearbody r2.
  assert (Hmore : collected_from A' M' T' R' r2) by (eapply collected_more; [exact H2|set_solver..]).
  case_decide as Hb; [done|]. destruct (isLegacyPlainWriteReplay _ _); [done|].
  assert (Hid : id <> EmptyString) by tauto.
  pose proof (completed_of p Hk Hd Hid) as Ec. fold id in Ec.
  assert (Htool : forall m, MsgRole m = "tool" -> MsgToolCallID m = id ->
            collected_from A' M' T' R' (emit [m] r2)).
  { intros m Hrole Hmid. destruct (tool_message_keys m Hrole) as [Kc Kr].
    { rewrite Hmid. subst id. by rewrite TrimSpace_idem. }
    destruct (single_keys m) as [Ic Ir]. apply (step_result_messages _ id); try done.
    - rewrite Ir, Kr, Hmid. subst id. by rewrite TrimSpace_idem.
    - left. by rewrite Ic. }
  clear Hb. destruct tc as [toolCall|]; [|by apply Htool].
  destruct (BuildToolResultReplayMessage id toolCall) as [m|] eqn:Em; [|by apply Htool].
  destruct (result_message_keys _ _ _ Em) as (_ & content & name & ->). apply Htool; [done|].
  cbn. subst id. by rewrite TrimSpace_idem.
Qed.

Lemma step_result historical p r' : kind_of e = "tool_result" ->
  decode_tool_result (Payload_ e) = Some p ->
  replay_tool_result line_diffs historical r p = Ok r' -> collected_from A' M' T' R' r'.
Proof.
  intros Hk Hd. unfold replay_tool_result. case_decide as Hs; [intros [= <-]; by apply step_seen_result|].
  assert (Hpair : forall new, TrimSpace (ResultPayloadID p) <> EmptyString ->
    ids_of_calls new = [TrimSpace (ResultPayloadID p)] ->
    ids_of_results new = [TrimSpace (ResultPayloadID p)] -> collected_from A' M' T' R' (emit new r)).
  { intros new Hid Ic Ir. apply (step_result_messages _ (TrimSpace (ResultPayloadID p))); try done.
    - by apply completed_of.
    - by right. }
  case_decide as Hdoc.
  - destruct (decode_document (ResultDocument p)) as [toolCall|]; [|done].
    destruct (BuildToolCallReplayMessages (ResultPayloadID p) toolCall) as [l|] eqn:El;
      intros [= <-]; [|apply step_nothing].
    destruct (stored_pair_ids _ _ _ El) as (Hid & Ic & Ir).
    destruct (stored_call_ids historical p l) as [Sc Sr].
    apply Hpair; [done|by rewrite Sc|by rewrite Sr].
  - intros [= <-]. destruct (bare_result_ids historical p) as [->|(Hid & Ic & Ir)]; [|by apply Hpair].
    by apply step_silent.
Qed.

Lemma step_entry r' : replay_entry line_diffs conversation r e = Ok r' -> collected_from A' M' T' R' r'.
Proof.
  unfold replay_entry, decoded. cbv zeta.
  case_decide as H1.
  { destruct (decode_model_message (Payload_ e)) as [m|] eqn:Em; [|done]. intros [= <-].
    case_decide; [apply step_nothing|by apply step_model]. }
  destruct (isCompactionSummaryKind (kind_of e)).
  { destruct (decodeCompactionSummaryEntry e); intros [= <-]; [|apply step_nothing].
    apply step_silent. by repeat constructor. }
  case_decide as H2.
  { destruct (decode_user_message (Payload_ e)) as [u|]; [|done].
    destruct (BuildUserMessageReplayMessage u) as [m|] eqn:Em; intros [= <-]; [|apply step_nothing].
    apply step_silent. constructor; [|constructor]. by apply (user_message_silent u). }
  case_decide as H3.
  { destruct (decode_request_context (Payload_ e)) as [c|]; [|done]. intros [= <-].
    apply step_silent, request_context_silent. }
  case_decide as H4.
  { destruct (decode_prompt_context (Payload_ e)) as [p|]; [|done]. intros [= <-].
    unfold replay_prompt_context. destruct (isReplayablePromptContext _) eqn:Ec; [|apply step_nothing].
    apply step_silent. constructor; [|constructor]. by apply stored_context_silent. }
  case_decide as H5.
  { destruct (decode_assistant_text (Payload_ e)) as [p|]; [|done]. intros [= <-].
    unfold replay_assistant_text. destruct (_ && _ && _); [apply step_nothing|].
    destruct (_ && _); [apply step_nothing|]. apply step_silent. by repeat constructor. }
  case_decide as H6.
  { destruct (decode_tool_call (Payload_ e)) as [p|] eqn:Ep; [|done]. by apply step_call. }
  case_decide as H7.
  { destruct (decode_tool_result (Payload_ e)) as [p|] eqn:Ep; [|done]. by apply step_result. }
  intros [= <-]. apply step_nothing.
Qed.
End Step.

(** ** The whole history *)

Lemma replay_collected (conversation : ConversationFile Payload Docs) entries : forall A M T R r r',
  collected_from A M T R r -> fresh_entries A M T R entries ->
  replay_entries line_diffs conversation r entries = Ok r' ->
  exists A M T R, collected_from A M T R r'.
Proof.
  induction entries as [|e entries IH]; intros A M T R r r' Hr Hf; cbn [replay_entries].
  - intros [= <-]. eauto.
  - destruct (replay_entry line_diffs conversation r e) as [r1|] eqn:E; [|done]. intros H.
    eapply IH; [|by apply fresh_split|exact H]. by eapply step_entry.
Qed.

(** The payloads the replay of an entry decodes. *)
Definition decodable (e : Entry) : bool :=
  let payload := Payload_ e in
  if decide (kind_of e = "model_message") then bool_decide (is_Some (decode_model_message payload))
  else if decide (kind_of e = "user_message") then bool_decide (is_Some (decode_user_message payload))
  else if decide (kind_of e = "request_context")
  then bool_decide (is_Some (decode_request_context payload))
  else if decide (kind_of e = "prompt_context") then bool_decide (is_Some (decode_prompt_context payload))
  else if decide (kind_of e = "assistant_text") then bool_decide (is_Some (decode_assistant_text payload))
  else if decide (kind_of e = "tool_call") then
    match decode_tool_call payload with
    | Some p => bool_decide (is_Some (decode_document (CallDocument p)))
    | None => false
    end
  else if decide (kind_of e = "tool_result") then
    match decode_tool_result payload with
    | Some p => bool_decide (ResultDocument p = EmptyString) ||
                bool_decide (is_Some (decode_document (ResultDocument p)))
    | None => false
    end
  else true.

Lemma some_decoded {A} (o : option A) : bool_decide (is_Some o) = true -> exists x, o = Some x.
Proof. intros H. by apply bool_decide_eq_true in H as [x ->]; exists x. Qed.

Lemma decodable_entry (conversation : ConversationFile Payload Docs) r e : decodable e = true ->
  exists r', replay_entry line_diffs conversation r e = Ok r'.
Proof.
  unfold decodable, replay_entry, decoded. cbv zeta.
  case_decide. { intros [m ->]%some_decoded. eauto. }
  destruct (isCompactionSummaryKind (kind_of e)); [eauto|].
  case_decide. { intros [m ->]%some_decoded. eauto. }
  case_decide. { intros [m ->]%some_decoded. eauto. }
  case_decide. { intros [m ->]%some_decoded. eauto. }
  case_decide. { intros [m ->]%some_decoded. eauto. }
  case_decide.
  { destruct (decode_tool_call (Payload_ e)) as [p|]; [|done]. unfold replay_tool_call.
    intros [m ->]%some_decoded. destruct (BuildAssistantToolCallReplayMessage _ _); eauto. }
  case_decide; [|eauto].
  destruct (decode_tool_result (Payload_ e)) as [p|]; [|done]. unfold replay_tool_result. intros Hdoc.
  destruct (decide (TrimSpace (ResultPayloadID p) ∈ seenToolCalls r)); [eauto|]. destruct (decide (ResultDocument p = EmptyString)) as [Hd|Hd].
  { rewrite decide_False by (intros Hn; by apply Hn). eauto. }
  rewrite decide_True by done. rewrite bool_decide_eq_false_2 in Hdoc by done.
  destruct (some_decoded _ Hdoc) as [m ->]. eauto.
Qed.

Lemma decodable_entries (conversation : ConversationFile Payload Docs) entries r : Forall (fun e => decodable e = true) entries ->
  exists r', replay_entries line_diffs conversation r entries = Ok r'.
Proof.
  intros H. revert r. induction H as [|e entries He _ IH]; intros r; cbn [replay_entries]; [eauto|].
  destruct (decodable_entry conversation r e He) as [r1 ->]. apply IH.
Qed.

(** C2: every history gives a prompt the provider accepts.  When the payloads of the entries
    that are replayed decode, and no two calls and no two results among them share an
    identifier, the prompt exists, and in it every tool call is followed by its result within
    the messages the providers allow between them, and every result comes after its call:
    calls without a result are gone, also those a cancelled or a compacted turn left open. *)
Theorem prompt_well_paired (conversation : ConversationFile Payload Docs) :
  let entries := replayablePromptProjectionEntries line_diffs (Entries conversation) in
  Forall (fun e => decodable e = true) entries ->
  NoDup (call_sources ∅ entries) -> NoDup (result_sources entries) ->
  exists prompt, ProjectPromptReplay line_diffs conversation = Ok prompt /\ well_paired prompt.
Proof.
  intros entries Hd Hc Hr. unfold ProjectPromptReplay, collected_replay. fold entries.
  destruct (decodable_entries conversation entries (mkReplay [] ∅ ∅ ∅) Hd) as [r' Er]. rewrite Er.
  eexists. split; [done|].
  destruct (replay_collected conversation entries ∅ ∅ ∅ ∅ (mkReplay [] ∅ ∅ ∅) r') as (A & M & T & R & Hfin);
    [| |exact Er|].
  - split; cbn; try constructor; set_solver.
  - split; try done; set_solver.
  - apply replay_well_paired; apply Hfin.
Qed.

End Prompt.

(** ** Witness *)

Lemma prompt_well_paired_witness :
  exists prompt, ProjectPromptReplay sample_diffs (sample_conversation 4 sample_history) = Ok prompt /\
    well_paired prompt.
Proof.
  apply (prompt_well_paired sample_diffs (sample_conversation 4 sample_history)).
  - apply (bool_decide_unpack _). vm_compute. exact I.
  - apply (bool_decide_unpack _). vm_compute. exact I.
  - apply (bool_decide_unpack _). vm_compute. exact I.
Defined.
