(* ===== verification/PostWrite.v ===== *)
(** * What is sent to and read back from the client's file system
    (forwarder/post_write_reconcile.go).

    Some Windows clients write in text mode, expanding every LF: content is sent with LF only,
    and what is read back is compared up to line endings. *)

From S2P Require Import Prelude Go Strings EditText.

(** ** Operations *)

(** [strings.Contains], of a non-empty [sub]. *)
Definition Contains (s sub : bytes) : bool := negb (bool_decide (Count s sub = 0%nat)).

Definition normalizeCRLFToLF (content : bytes) : bytes :=
  if bool_decide (content = []) || negb (Contains content [CR; LF]) then content
  else ReplaceAll content [CR; LF] [LF].

Definition normalizeObservedLineEndingsToLF (content : bytes) : bytes :=
  if decide (content = []) then []
  else ReplaceAll (normalizeCRLFToLF content) [CR] [LF].

Definition isASCIILetter (value : ascii) : bool :=
  let n := nat_of_ascii value in
  ((97 <=? n) && (n <=? 122) || (65 <=? n) && (n <=? 90))%nat.

Definition looksLikeWindowsPath (path : string) : bool :=
  match bytes_of (TrimSpace path) with
  | c0 :: c1 :: c2 :: _ =>
      if isASCIILetter c0 && bool_decide (c1 = ":"%char)
      then bool_decide (c2 = byte_of 92) || bool_decide (c2 = "/"%char)
      else bool_decide (c0 = byte_of 92) && bool_decide (c1 = byte_of 92)
  | [c0; c1] => bool_decide (c0 = byte_of 92) && bool_decide (c1 = byte_of 92)
  | _ => false
  end.

Definition prepareWriteContentsForClient (path : string) (contents : bytes) : bytes :=
  if negb (looksLikeWindowsPath path) || negb (Contains contents [CR; LF]) then contents
  else normalizeCRLFToLF contents.

Definition preparePatchEditWriteContentsForClient (contents : bytes) : bytes :=
  if negb (Contains contents [CR]) then contents
  else normalizeObservedLineEndingsToLF contents.

Fixpoint systematicallyDoubledLineEndings (content : bytes) : bytes :=
  match content with
  | [] => []
  | c :: rest =>
      if decide (c = CR) then
        match rest with
        | d :: rest' =>
            if decide (d = LF) then CR :: LF :: CR :: LF :: systematicallyDoubledLineEndings rest'
            else c :: systematicallyDoubledLineEndings rest
        | [] => [c]
        end
      else if decide (c = LF) then LF :: LF :: systematicallyDoubledLineEndings rest
      else c :: systematicallyDoubledLineEndings rest
  end.

Definition reconcilePostWriteObservedContent (expected observed : bytes) : bytes * bool :=
  if decide (observed = expected) then (observed, false)
  else if decide (observed = systematicallyDoubledLineEndings expected) then (expected, true)
  else
    let expectedNormalized := normalizeObservedLineEndingsToLF expected in
    let observedNormalized := normalizeObservedLineEndingsToLF observed in
    if decide (observedNormalized = expectedNormalized) then (expected, true)
    else if decide (observedNormalized = systematicallyDoubledLineEndings expectedNormalized)
    then (expected, true)
    else (observed, false).

(** ** Lemmas *)

Lemma crlf_absent s : Count s [CR; LF] = 0%nat -> ReplaceAll s [CR; LF] [LF] = s.
Proof.
  revert s. apply (norm_ind (fun s => Count s [CR; LF] = 0%nat -> ReplaceAll s [CR; LF] [LF] = s)).
  - done.
  - intros s _. rewrite (Count_match [CR; LF] ltac:(done) _ s) by done. done.
  - intros s Hs IH. rewrite replace_crlf_other by auto.
    assert (E : strip_prefix [CR; LF] (CR :: s) = None).
    { cbn. rewrite decide_True by done. destruct s as [|d s]; [done|]. case_decide; [|done].
      subst. by destruct (Hs s). }
    rewrite Count_skip by done. intros H. by rewrite IH.
  - intros c s Hc IH. rewrite replace_crlf_other by auto.
    assert (E : strip_prefix [CR; LF] (c :: s) = None) by (cbn; by rewrite decide_False).
    rewrite Count_skip by done. intros H. by rewrite IH.
Qed.

Lemma crlf_to_lf s : normalizeCRLFToLF s = ReplaceAll s [CR; LF] [LF].
Proof.
  unfold normalizeCRLFToLF, Contains. destruct s as [|c s]; [done|].
  rewrite bool_decide_eq_false_2 by done. cbn [orb]. case_bool_decide as H; cbn [negb]; [|done].
  symmetry. by apply crlf_absent.
Qed.

Lemma observed_norm s : normalizeObservedLineEndingsToLF s = norm s.
Proof.
  unfold normalizeObservedLineEndingsToLF. case_decide; [by subst|].
  rewrite crlf_to_lf. apply replace_both.
Qed.

Lemma contains_cr s : Contains s [CR] = true <-> CR ∈ s.
Proof.
  unfold Contains. rewrite negb_true_iff, bool_decide_eq_false.
  rewrite (Count_0 [CR] ltac:(done) s). split.
  - intros H. destruct (decide (CR ∈ s)) as [|Hn]; [done|]. destruct H. intros a b ->.
    apply Hn. set_solver.
  - intros (a & b & ->)%list_elem_of_split H. by destruct (H a b).
Qed.

Lemma prepare_patch_edit s : preparePatchEditWriteContentsForClient s = norm s.
Proof.
  unfold preparePatchEditWriteContentsForClient. destruct (Contains s [CR]) eqn:E; cbn [negb].
  - apply observed_norm.
  - symmetry. apply norm_no_cr. intros H%contains_cr. congruence.
Qed.

(** The lines of a text that are not blank. *)
Definition written_lines (s : bytes) : list bytes :=
  filter (fun line => line <> []) (Split (norm s) LF).

Lemma doubled_crlf s :
  systematicallyDoubledLineEndings (CR :: LF :: s) =
  CR :: LF :: CR :: LF :: systematicallyDoubledLineEndings s.
Proof. done. Qed.

Lemma doubled_cr s :
  (forall s', s <> LF :: s') ->
  systematicallyDoubledLineEndings (CR :: s) = CR :: systematicallyDoubledLineEndings s.
Proof.
  intros Hs. destruct s as [|d s]; [done|]. cbn [systematicallyDoubledLineEndings].
  rewrite decide_True by done. destruct (decide (d = LF)) as [->|]; [by destruct (Hs s)|done].
Qed.

Lemma doubled_lf s :
  systematicallyDoubledLineEndings (LF :: s) = LF :: LF :: systematicallyDoubledLineEndings s.
Proof. done. Qed.

Lemma doubled_other c s :
  c <> CR -> c <> LF ->
  systematicallyDoubledLineEndings (c :: s) = c :: systematicallyDoubledLineEndings s.
Proof. intros. cbn. by rewrite !decide_False. Qed.

Lemma doubled_head s s' : systematicallyDoubledLineEndings s = LF :: s' -> exists t, s = LF :: t.
Proof.
  destruct s as [|c s]; [done|]. cbn. destruct (decide (c = CR)) as [->|Hc].
  - destruct s as [|d s]; [done|]. by case_decide.
  - case_decide; [|congruence]. intros _. subst. by eexists.
Qed.

(** Two texts with the same first line up to a point differ only in what follows. *)
Lemma split_cons_other c s t :
  c <> LF -> filter (fun l => l <> []) (Split s LF) = filter (fun l => l <> []) (Split t LF) ->
  hd [] (Split s LF) = hd [] (Split t LF) ->
  filter (fun l => l <> []) (Split (c :: s) LF) = filter (fun l => l <> []) (Split (c :: t) LF) /\
  hd [] (Split (c :: s) LF) = hd [] (Split (c :: t) LF).
Proof.
  intros Hc. cbn [Split]. rewrite !decide_False by done.
  destruct (Split s LF) as [|l1 r1] eqn:E1; [by apply Split_nonempty in E1|].
  destruct (Split t LF) as [|l2 r2] eqn:E2; [by apply Split_nonempty in E2|].
  cbn [hd]. intros Hf ->. rewrite !filter_cons in *. rewrite !decide_True by done.
  split; [|done]. f_equal. destruct (decide (l2 <> [])); [by injection Hf|done].
Qed.

Lemma doubled_lines_hd s :
  written_lines (systematicallyDoubledLineEndings s) = written_lines s /\
  hd [] (Split (norm (systematicallyDoubledLineEndings s)) LF) = hd [] (Split (norm s) LF).
Proof.
  unfold written_lines. revert s.
  apply (norm_ind (fun s =>
    filter (fun l => l <> []) (Split (norm (systematicallyDoubledLineEndings s)) LF) =
    filter (fun l => l <> []) (Split (norm s) LF) /\
    hd [] (Split (norm (systematicallyDoubledLineEndings s)) LF) = hd [] (Split (norm s) LF))).
  - done.
  - intros s [IH _]. rewrite doubled_crlf, !norm_crlf. split; [exact IH|done].
  - intros s Hs [IH _]. rewrite doubled_cr by done. rewrite !norm_cr; [split; [exact IH|done]|done|].
    intros s' (t & ->)%doubled_head. by destruct (Hs t).
  - intros c s Hc [IH1 IH2]. destruct (decide (c = LF)) as [->|Hl].
    + rewrite doubled_lf, !norm_other by done. split; [exact IH1|done].
    + rewrite doubled_other, !norm_other by done. by apply split_cons_other.
Qed.

Lemma doubled_lines s : written_lines (systematicallyDoubledLineEndings s) = written_lines s.
Proof. apply doubled_lines_hd. Qed.

Lemma norm_norm s : norm (norm s) = norm s.
Proof. apply norm_no_cr, norm_result_no_cr. Qed.

Lemma written_lines_norm s : written_lines (norm s) = written_lines s.
Proof. unfold written_lines. by rewrite norm_norm. Qed.

(** ** Properties *)

(** the content that [reconcilePostWriteObservedContent] settles on always has the non-blank
    lines, in order, of the content that was observed, whatever line endings the client wrote
    and whether or not it doubled them; without reconciliation it is the observed content
    itself, with it the expected one. *)
Theorem write_reconciliation_sound expected observed :
  let '(final, reconciled) := reconcilePostWriteObservedContent expected observed in
  written_lines final = written_lines observed /\
  final = (if (reconciled : bool) then expected else observed) /\
  (norm observed = norm expected -> norm final = norm expected).
Proof.
  unfold reconcilePostWriteObservedContent. rewrite !observed_norm.
  case_decide as H1; [done|]. case_decide as H2; [subst; by rewrite doubled_lines|].
  cbv zeta. case_decide as H3.
  { split; [|done]. by rewrite <- written_lines_norm, <- H3, written_lines_norm. }
  case_decide as H4; [|done]. split; [|done].
  by rewrite <- (written_lines_norm observed), H4, doubled_lines, written_lines_norm.
Qed.

(** A text in which every LF ends a CRLF. *)
Definition windows_text (s : bytes) : Prop := exists t, CR ∉ t /\ s = ReplaceAll t [LF] [CR; LF].

Lemma expand_crlf t :
  CR ∉ t -> ReplaceAll (ReplaceAll t [LF] [CR; LF]) [CR; LF] [LF] = t.
Proof.
  induction t as [|c t IH]; [done|]. rewrite not_elem_of_cons. intros [Hc Ht].
  destruct (decide (c = LF)) as [->|Hl].
  - rewrite replace_one_match. cbn [app]. by rewrite replace_crlf, IH.
  - rewrite replace_one_skip, replace_crlf_other by auto. by rewrite IH.
Qed.

(** on a Windows path, a text with Windows line endings is sent such that the client's
    text-mode write, which turns every LF into CRLF, writes the text that was meant, without a
    doubled CR; and PatchEdit always sends the LF form, without any CR. *)
Theorem windows_write_roundtrip path contents :
  looksLikeWindowsPath path = true -> windows_text contents ->
  ReplaceAll (prepareWriteContentsForClient path contents) [LF] [CR; LF] = contents /\
  CR ∉ prepareWriteContentsForClient path contents /\
  CR ∉ preparePatchEditWriteContentsForClient contents.
Proof.
  intros Hp (t & Ht & ->). unfold prepareWriteContentsForClient. rewrite Hp. cbn [negb orb].
  rewrite prepare_patch_edit.
  assert (E : normalizeCRLFToLF (ReplaceAll t [LF] [CR; LF]) = t) by (rewrite crlf_to_lf; by apply expand_crlf).
  destruct (Contains (ReplaceAll t [LF] [CR; LF]) [CR; LF]) eqn:Ec; cbn [negb].
  - rewrite E. split; [done|]. split; [done|apply norm_result_no_cr].
  - unfold Contains in Ec. apply negb_false_iff, bool_decide_eq_true in Ec.
    apply crlf_absent in Ec. rewrite expand_crlf in Ec by done. rewrite <- Ec.
    split; [congruence|]. split; [done|apply norm_result_no_cr].
Qed.

Lemma windows_write_roundtrip_witness :
  let contents := bytes_of "a" ++ [CR; LF] ++ bytes_of "b" in
  ReplaceAll (prepareWriteContentsForClient "C:/x" contents) [LF] [CR; LF] = contents /\
  CR ∉ prepareWriteContentsForClient "C:/x" contents /\
  CR ∉ preparePatchEditWriteContentsForClient contents.
Proof.
  apply windows_write_roundtrip; [reflexivity|].
  exists (bytes_of "a" ++ [LF] ++ bytes_of "b"). split; [|reflexivity].
  intros H. apply (bool_decide_eq_true_2 _) in H. discriminate H.
Defined.
