(* ===== verification/PatchEdit.v ===== *)
(** * The PatchEdit tool (forwarder/patch_edit_tool.go, path_resolution.go).

    A PatchEdit reads the file, replaces a string, writes the result and reads it back, each
    step being a hidden exec whose answer comes as an inbound message; edits of one path queue
    behind the one in flight.  [World] holds the pending execs and the queues of the stream, a
    ghost log of finished edits, and the answers of the services the handlers call: what
    happens to a history append, a publication or a checkpoint ([env_calls], success when the
    list is used up) and the identifiers of the execs that are opened ([env_execs]); [opened] logs
    the identifier, the tool call and the request of each. *)

From S2P Require Import Prelude Go Strings EditText EditResult PostWrite Effect.

(** ** Arguments *)

Record patchEditArgs := mkArgs {
  ArgPath : string;
  OldString : string;
  NewString : string;
  NewStringSet : bool;
  ReplaceAll_ : bool;
  ReplaceAllSet : bool
}.

(** The decoded JSON values the argument readers tell apart. *)
Inductive JsonValue :=
| JString (s : string)
| JBool (b : bool)
| JOther.

(** [readJSONStringAny]: the value, whether a key was found, whether it is a string. *)
Fixpoint readJSONStringAny (args : gmap string JsonValue) (keys : list string)
  : string * bool * bool :=
  match keys with
  | [] => (EmptyString, false, false)
  | key :: keys =>
      match args !! key with
      | None => readJSONStringAny args keys
      | Some (JString s) => (s, true, true)
      | Some _ => (EmptyString, true, false)
      end
  end.

Fixpoint readJSONBoolAny (args : gmap string JsonValue) (keys : list string)
  : bool * bool * bool :=
  match keys with
  | [] => (false, false, false)
  | key :: keys =>
      match args !! key with
      | None => readJSONBoolAny args keys
      | Some (JBool b) => (b, true, true)
      | Some _ => (false, true, false)
      end
  end.

Definition isASCIIAlpha (value : ascii) : bool :=
  let n := nat_of_ascii value in
  ((65 <=? n) && (n <=? 90) || (97 <=? n) && (n <=? 122))%nat.

Definition slash : ascii := "/"%char.
Definition backslash : ascii := byte_of 92.

Definition isPathSeparator (value : ascii) : bool :=
  bool_decide (value = backslash) || bool_decide (value = slash).

Definition isAbsoluteToolPath (path : string) : bool :=
  match bytes_of (TrimSpace path) with
  | [] => false
  | c0 :: rest =>
      if decide (c0 = slash) then true
      else match rest with
           | c1 :: rest' =>
               if bool_decide (c0 = backslash) && bool_decide (c1 = backslash) then true
               else match rest' with
                    | c2 :: _ => isASCIIAlpha c0 && bool_decide (c1 = ":"%char) && isPathSeparator c2
                    | [] => false
                    end
           | [] => false
           end
  end.

Definition empty_args : patchEditArgs :=
  mkArgs EmptyString EmptyString EmptyString false false false.

(** [decodePatchEditArgs] on the outcome of [json.Unmarshal]: the arguments, and the error. *)
Definition decodePatchEditArgs (raw : result (gmap string JsonValue))
  : patchEditArgs * option string :=
  match raw with
  | Err e => (empty_args, Some ("decode PatchEdit args failed: " +:+ e))
  | Ok rawArgs =>
      let '(path, pathFound, pathValid) :=
        readJSONStringAny rawArgs ["path"; "file_path"; "Path"; "FilePath"] in
      let '(oldString, oldFound, oldValid) :=
        readJSONStringAny rawArgs ["old_string"; "oldString"; "OldString"] in
      let '(newString, newFound, newValid) :=
        readJSONStringAny rawArgs ["new_string"; "newString"; "NewString"] in
      let '(replaceAll, replaceAllFound, replaceAllValid) :=
        readJSONBoolAny rawArgs ["replace_all"; "replaceAll"; "ReplaceAll"] in
      let args := mkArgs path (normalize_lf oldString) (normalize_lf newString) newFound
                    replaceAll replaceAllFound in
      (args,
       if pathFound && negb pathValid then Some "PatchEdit path must be a string"
       else if decide (TrimSpace path = EmptyString) then Some "PatchEdit path is required"
       else if negb (isAbsoluteToolPath path) then Some "PatchEdit path must be absolute"
       else if oldFound && negb oldValid then Some "PatchEdit old_string must be a string"
       else if negb oldFound || bool_decide (oldString = EmptyString)
       then Some "PatchEdit old_string is required"
       else if newFound && negb newValid then Some "PatchEdit new_string must be a string"
       else if negb newFound then Some "PatchEdit new_string is required"
       else if replaceAllFound && negb replaceAllValid
       then Some "PatchEdit replace_all must be a boolean"
       else None)
  end.

(** ** The edit itself *)

Record editComputation := mkComputation {
  BeforeContent : string;
  AfterContent : string;
  ComputedDiff : string;
  ComputedAdded : Z;
  ComputedRemoved : Z;
  ComputedMessage : string
}.

Record pendingPatchEditPayload := mkPayload {
  PayloadToolName : string;
  RawArgsJSON : string;
  ArgsDecodeFailed : bool;
  Args : patchEditArgs;
  ResolvedPath : string;
  Before : string;
  After : string;
  Diff_ : string;
  Added : Z;
  Removed : Z;
  Message_ : string
}.

#[export] Instance eta_args : Eta patchEditArgs := fun a =>
  mkArgs (ArgPath a) (OldString a) (NewString a) (NewStringSet a) (ReplaceAll_ a) (ReplaceAllSet a).

#[export] Instance eta_payload : Eta pendingPatchEditPayload := fun p =>
  mkPayload (PayloadToolName p) (RawArgsJSON p) (ArgsDecodeFailed p) (Args p) (ResolvedPath p)
    (Before p) (After p) (Diff_ p) (Added p) (Removed p) (Message_ p).

(** [MarshalJSON] then [UnmarshalJSON] of the arguments and of the payload of a pending exec:
    what the next step of the edit sees.  (The texts are valid UTF-8, as decoded JSON is.) *)
Definition stored_args (args : patchEditArgs) : patchEditArgs :=
  mkArgs (TrimSpace (ArgPath args)) (normalize_lf (OldString args)) (normalize_lf (NewString args))
    true (ReplaceAll_ args) (ReplaceAllSet args || ReplaceAll_ args).

Definition stored_payload (payload : pendingPatchEditPayload) : pendingPatchEditPayload :=
  payload <| Args := stored_args (Args payload) |>.

Definition patchEditPayloadPath (payload : pendingPatchEditPayload) : string :=
  TrimSpace (ArgPath (Args payload)).

Definition setPatchEditPayloadPath (path : string) (payload : pendingPatchEditPayload)
  : pendingPatchEditPayload :=
  payload <| Args := Args payload <| ArgPath := TrimSpace path |> |>.

Definition patchEditPayloadAsEditPayload (payload : pendingPatchEditPayload) : editResultPayload :=
  mkEditPayload (Before payload) (After payload) (Diff_ payload) (Added payload) (Removed payload)
    (Message_ payload).

Definition appendPatchEditMessage (existing addition : string) : string :=
  let existing := TrimSpace existing in
  let addition := TrimSpace addition in
  if decide (existing = EmptyString) then addition
  else if decide (addition = EmptyString) then existing
  else existing +:+ "; " +:+ addition.

(** [reconcilePatchEditObservedContent]: the content, whether it was reconciled, whether it is
    the expected one. *)
Definition reconcilePatchEditObservedContent (expected observed : string) : string * bool * bool :=
  if decide (observed = expected) then (observed, false, true)
  else if decide (normalize_lf expected = normalize_lf observed) then (observed, true, true)
  else (observed, false, false).

Definition extractCompleteReadContentForPatchEdit (result : ReadResult) : string * bool * string :=
  match result with
  | ReadResultSuccess success =>
      if ReadTruncated success then
        (EmptyString, false,
         "patch edit requires a complete Read result, but the file content was truncated")
      else match ReadOutput_ success with
           | ReadSuccessContent content => (normalize_lf content, true, EmptyString)
           | ReadSuccessData data =>
               let '(text, ok, readErr) := decodeReadDataAsEditableText data in
               if (ok : bool) then (normalize_lf text, true, EmptyString)
               else (EmptyString, false,
                     "patch edit requires editable text content, but " +:+ readErr)
           | ReadSuccessNoOutput =>
               match OutputBlobId success with
               | Some _ => (EmptyString, false,
                   "patch edit requires inline file content, but Read returned only an output blob")
               | None => (EmptyString, false,
                   "patch edit requires inline file content, but Read did not include content")
               end
           end
  | _ => (EmptyString, false, EmptyString)
  end.

Section PatchEdit.
Context (line_diffs : bytes -> bytes -> list Diff).

Definition computePatchEdit (payload : pendingPatchEditPayload) (beforeContent : string)
  : result editComputation :=
  let before := normalizeLineEndingsToLF (bytes_of beforeContent) in
  let oldString := normalizeLineEndingsToLF (bytes_of (OldString (Args payload))) in
  let newString := normalizeLineEndingsToLF (bytes_of (NewString (Args payload))) in
  let occurrences := Count before oldString in
  if decide (occurrences = 0%nat) then Err "PatchEdit old_string not found"
  else if (1 <? occurrences)%nat && negb (ReplaceAll_ (Args payload)) then
    Err ("PatchEdit old_string is not unique; found " +:+ Sprintd (Z.of_nat occurrences) +:+
         " occurrences")
  else
    let replaceCount := if ReplaceAll_ (Args payload) then None else Some 1%nat in
    let after := Replace before oldString newString replaceCount in
    let '(diffString, linesAdded, linesRemoved) := computeEditDiff line_diffs before after in
    Ok (mkComputation (string_of before) (string_of after) (string_of diffString) linesAdded
          linesRemoved "PatchEdit applied").

(** ** The stream *)

Definition patchEditToolName : string := "PatchEdit".
Definition patchEditReadExecKindName : string := "patch_edit_read".
Definition patchEditWriteExecKindName : string := "patch_edit_write".
Definition patchEditPostReadExecKindName : string := "patch_edit_post_read".

Definition isHiddenPatchEditExecKind (kind : string) : bool :=
  bool_decide (TrimSpace kind ∈ [patchEditReadExecKindName; patchEditWriteExecKindName;
                                 patchEditPostReadExecKindName]).

(** A pending exec; [ExecPayload] is its [ArgsJSON] decoded as a PatchEdit payload. *)
Record PendingExec := mkExec {
  MessageID : Z;
  ExecID : string;
  ProviderPass : Z;
  ModelCallID : string;
  ToolCallID : string;
  ReasoningContent : string;
  ReasoningSignature : string;
  ReasoningSignatureSource : string;
  ExecKind : string;
  StreamState : string;
  ExecPayload : result pendingPatchEditPayload
}.

#[export] Instance eta_exec : Eta PendingExec := fun e =>
  mkExec (MessageID e) (ExecID e) (ProviderPass e) (ModelCallID e) (ToolCallID e)
    (ReasoningContent e) (ReasoningSignature e) (ReasoningSignatureSource e) (ExecKind e)
    (StreamState e) (ExecPayload e).

Record queuedPatchEditOperation := mkOperation {
  OpToolCallID : string;
  OpModelCallID : string;
  OpProviderPass : Z;
  OpReasoningContent : string;
  OpReasoningSignature : string;
  OpReasoningSignatureSource : string;
  OpPayload : pendingPatchEditPayload
}.

(** What an exec asks of the client. *)
Inductive ExecRequest :=
| RequestRead (path : string)
| RequestWrite (path contents : string).

Record World := mkWorld {
  PendingExecs : gmap string PendingExec;
  PatchEditQueues : gmap string (list queuedPatchEditOperation);
  finished : list (string * EditResult);
  opened : list (string * string * ExecRequest);
  env_calls : list (result unit);
  env_execs : list (result (Z * string))
}.

#[export] Instance eta_world : Eta World := fun w =>
  mkWorld (PendingExecs w) (PatchEditQueues w) (finished w) (opened w) (env_calls w) (env_execs w).

(** A call of a service of the stream: append to the history, publish, checkpoint. *)
Definition service_call : SE World unit := fun w =>
  match env_calls w with
  | [] => (Ok tt, w)
  | r :: rest => (r, w <| env_calls := rest |>)
  end.

(** [execBridge.OpenExec] of a Read or a Write: a message identifier and an exec identifier. *)
Definition OpenExec : SE World (Z * string) := fun w =>
  match env_execs w with
  | [] => (Err "open exec failed", w)
  | r :: rest => (r, w <| env_execs := rest |>)
  end.

Definition get : SE World World := fun w => (Ok w, w).
Definition update (f : World -> World) : SE World unit := fun w => (Ok tt, f w).

Definition patchEditQueueKey (path : string) : string := TrimSpace path.

(** The path a pending PatchEdit exec works on. *)
Definition exec_key (e : PendingExec) : option string :=
  if isHiddenPatchEditExecKind (ExecKind e) then
    match ExecPayload e with
    | Ok payload =>
        Some (patchEditQueueKey (firstNonEmpty [ResolvedPath payload; patchEditPayloadPath payload]))
    | Err _ => None
    end
  else None.

Definition patchEditPathHasInFlightOperation (key : string) (w : World) : bool :=
  if decide (TrimSpace key = EmptyString) then false
  else existsb (fun kv => bool_decide (exec_key kv.2 = Some key)) (map_to_list (PendingExecs w)).

Definition enqueuePatchEditOperation (key : string) (operation : queuedPatchEditOperation)
    (w : World) : World :=
  if decide (TrimSpace key = EmptyString) then w
  else w <| PatchEditQueues :=
         <[key := default [] (PatchEditQueues w !! key) ++ [operation]]> (PatchEditQueues w) |>.

Definition takeNextQueuedPatchEditOperation (path : string) (w : World)
  : option queuedPatchEditOperation * World :=
  let key := patchEditQueueKey path in
  if decide (key = EmptyString) then (None, w)
  else match default [] (PatchEditQueues w !! key) with
       | [] => (None, w <| PatchEditQueues := delete key (PatchEditQueues w) |>)
       | [next] => (Some next, w <| PatchEditQueues := delete key (PatchEditQueues w) |>)
       | next :: rest => (Some next, w <| PatchEditQueues := <[key := rest]> (PatchEditQueues w) |>)
       end.

Definition markExecCompleted (pending : PendingExec) : SE World unit :=
  update (fun w => w <| PendingExecs := delete (ExecID pending) (PendingExecs w) |>).

(** The part [startHiddenPatchEditRead], [...Write] and [...PostRead] share. *)
Definition open_hidden_exec (toolCallID modelCallID : string) (providerPass : Z)
    (reasoningContent reasoningSignature reasoningSignatureSource kind : string)
    (request : ExecRequest) (payload : pendingPatchEditPayload) : SE World unit :=
  ids <- OpenExec ;;
  let e := mkExec ids.1 ids.2 providerPass (TrimSpace modelCallID) (TrimSpace toolCallID)
             reasoningContent (TrimSpace reasoningSignature) (TrimSpace reasoningSignatureSource)
             kind "opened" (Ok (stored_payload payload)) in
  update (fun w => w <| PendingExecs := <[ids.2 := e]> (PendingExecs w) |>
                     <| opened := opened w ++ [(ids.2, TrimSpace toolCallID, request)] |>) ;;;
  service_call ;;;
  service_call.

Definition startHiddenPatchEditRead (toolCallID modelCallID : string) (providerPass : Z)
    (reasoningContent reasoningSignature reasoningSignatureSource : string)
    (payload : pendingPatchEditPayload) : SE World unit :=
  open_hidden_exec toolCallID modelCallID providerPass reasoningContent reasoningSignature
    reasoningSignatureSource patchEditReadExecKindName
    (RequestRead (TrimSpace (ResolvedPath payload))) payload.

Definition startQueuedPatchEditOperation (operation : queuedPatchEditOperation) : SE World unit :=
  startHiddenPatchEditRead (OpToolCallID operation) (OpModelCallID operation)
    (OpProviderPass operation) (OpReasoningContent operation) (OpReasoningSignature operation)
    (OpReasoningSignatureSource operation) (OpPayload operation).

Definition startOrQueuePatchEditOperation (operation : queuedPatchEditOperation) : SE World unit :=
  let key := patchEditQueueKey (ResolvedPath (OpPayload operation)) in
  w <- get ;;
  if negb (bool_decide (key = EmptyString)) && patchEditPathHasInFlightOperation key w then
    update (enqueuePatchEditOperation key operation) ;;;
    service_call
  else startQueuedPatchEditOperation operation.

(** [finishPatchEditOperation]: append the result, publish it, sync, checkpoint, start the next
    edit of the path, reconcile the stream. *)
Definition finishPatchEditOperation (toolCallID : string) (payload : pendingPatchEditPayload)
    (result : EditResult) : SE World unit :=
  let path := firstNonEmpty [resultPath (Some result); ResolvedPath payload;
                             patchEditPayloadPath payload] in
  service_call ;;;
  update (fun w => w <| finished := finished w ++ [(TrimSpace toolCallID, result)] |>) ;;;
  service_call ;;;
  service_call ;;;
  service_call ;;;
  next <- (fun w => let '(next, w) := takeNextQueuedPatchEditOperation
                                        (firstNonEmpty [ResolvedPath payload; path]) w in
                    (Ok next, w)) ;;
  match next with
  | Some next => startQueuedPatchEditOperation next
  | None => ret tt
  end ;;;
  service_call.

Definition startHiddenPatchEditWrite (pending : PendingExec) (payload : pendingPatchEditPayload)
    (beforeContent : string) : SE World unit :=
  match computePatchEdit payload beforeContent with
  | Err e =>
      finishPatchEditOperation (ToolCallID pending) payload
        (buildEditErrorResult (ResolvedPath payload) e)
  | Ok c =>
      let transportContent :=
        string_of (preparePatchEditWriteContentsForClient (bytes_of (AfterContent c))) in
      let request := RequestWrite (TrimSpace (ResolvedPath payload)) transportContent in
      let payload := payload <| Before := BeforeContent c |> <| After := AfterContent c |>
                       <| Diff_ := ComputedDiff c |> <| Added := ComputedAdded c |>
                       <| Removed := ComputedRemoved c |> <| Message_ := ComputedMessage c |> in
      open_hidden_exec (ToolCallID pending) (ModelCallID pending) (ProviderPass pending)
        (ReasoningContent pending) (ReasoningSignature pending)
        (ReasoningSignatureSource pending) patchEditWriteExecKindName request payload
  end.

Definition startHiddenPatchEditPostRead (pending : PendingExec) (payload : pendingPatchEditPayload)
  : SE World unit :=
  open_hidden_exec (ToolCallID pending) (ModelCallID pending) (ProviderPass pending)
    (ReasoningContent pending) (ReasoningSignature pending) (ReasoningSignatureSource pending)
    patchEditPostReadExecKindName (RequestRead (TrimSpace (ResolvedPath payload))) payload.

(** The results an [ExecClientMessage] can carry here. *)
Record ExecClientMessage := mkMessage {
  GetReadResult : option ReadResult;
  GetWriteResult : option WriteResult
}.

Definition final_success (payload : pendingPatchEditPayload) (afterContent : string) : EditResult :=
  buildFinalEditSuccessResult line_diffs (ResolvedPath payload) afterContent
    (patchEditPayloadAsEditPayload payload).

Definition handle_read_result (pending : PendingExec) (payload : pendingPatchEditPayload)
    (message : ExecClientMessage) : SE World unit :=
  let fail e := finishPatchEditOperation (ToolCallID pending) payload
                  (buildEditErrorResult (ResolvedPath payload) e) in
  match GetReadResult message with
  | None => fail "patch edit read result missing"
  | Some readResult =>
      let '(content, ok, readErr) := extractCompleteReadContentForPatchEdit readResult in
      if (ok : bool) then startHiddenPatchEditWrite pending payload content
      else if decide (readErr = EmptyString) then
        finishPatchEditOperation (ToolCallID pending) payload
          (buildEditResultFromReadResult (ResolvedPath payload) (Some readResult))
      else fail readErr
  end.

(** The payload after a successful write of [path] that observed [content]; [None] when the
    observed content is not the expected one. *)
Definition observe_write (payload : pendingPatchEditPayload) (path content : string)
  : pendingPatchEditPayload * bool :=
  let payload := payload <| ResolvedPath := firstNonEmpty [TrimSpace path;
                   TrimSpace (ResolvedPath payload); TrimSpace (patchEditPayloadPath payload)] |> in
  if decide (content = EmptyString) then (payload, true)
  else
    let '(finalAfterContent, reconciled, ok) :=
      reconcilePatchEditObservedContent (After payload) content in
    if negb ok then (payload, false)
    else
      let payload :=
        if decide (finalAfterContent = After payload) then payload
        else let '(diffString, linesAdded, linesRemoved) :=
               diff_strings line_diffs (Before payload) finalAfterContent in
             payload <| Diff_ := diffString |> <| Added := linesAdded |>
                     <| Removed := linesRemoved |> in
      let payload := payload <| After := finalAfterContent |> in
      (if (reconciled : bool)
       then payload <| Message_ := appendPatchEditMessage (Message_ payload)
                         "write result matched after client line-ending normalization" |>
       else payload, true).

Definition handle_write_result (pending : PendingExec) (payload : pendingPatchEditPayload)
    (message : ExecClientMessage) : SE World unit :=
  match GetWriteResult message with
  | None =>
      finishPatchEditOperation (ToolCallID pending) payload
        (buildEditErrorResult (ResolvedPath payload) "patch edit write result missing")
  | Some (WriteResultSuccess path content) =>
      let '(payload, ok) := observe_write payload path content in
      if negb ok then
        finishPatchEditOperation (ToolCallID pending) payload
          (buildEditErrorResult (ResolvedPath payload)
             "patch edit write verification failed: observed file content differs from expected content")
      else startHiddenPatchEditPostRead pending (setPatchEditPayloadPath (ResolvedPath payload) payload)
  | Some writeResult =>
      finishPatchEditOperation (ToolCallID pending) payload
        (buildEditResultFromWriteResult (ResolvedPath payload) (Some writeResult))
  end.

Definition handle_post_read_result (pending : PendingExec) (payload : pendingPatchEditPayload)
    (message : ExecClientMessage) : SE World unit :=
  let finish payload result := finishPatchEditOperation (ToolCallID pending) payload result in
  match GetReadResult message with
  | None => finish payload (final_success payload (After payload))
  | Some readResult =>
      let '(content, ok) := extractReadContentForEdit readResult in
      if negb ok then finish payload (final_success payload (After payload))
      else
        let payload :=
          match readResult with
          | ReadResultSuccess success =>
              let path := firstNonEmpty [TrimSpace (ReadPath success); ResolvedPath payload] in
              setPatchEditPayloadPath path (payload <| ResolvedPath := path |>)
          | _ => payload
          end in
        let '(finalAfterContent, reconciled, ok) :=
          reconcilePatchEditObservedContent (After payload) content in
        if negb ok then
          finish payload (buildEditErrorResult (ResolvedPath payload)
            "patch edit post-read verification failed: observed file content differs from expected content")
        else
          let payload :=
            if (reconciled : bool)
            then payload <| Message_ := appendPatchEditMessage (Message_ payload)
                              "post-read matched after client line-ending normalization" |>
            else payload in
          finish payload (final_success payload finalAfterContent)
  end.

Definition handleHiddenPatchEditExecResult (pending : PendingExec) (message : ExecClientMessage)
  : SE World unit :=
  match ExecPayload pending with
  | Err e => fun w => (Err e, w)
  | Ok payload =>
      let kind := TrimSpace (ExecKind pending) in
      if decide (kind = patchEditReadExecKindName) then
        markExecCompleted pending ;;; handle_read_result pending payload message
      else if decide (kind = patchEditWriteExecKindName) then
        markExecCompleted pending ;;; handle_write_result pending payload message
      else if decide (kind = patchEditPostReadExecKindName) then
        markExecCompleted pending ;;; handle_post_read_result pending payload message
      else fun w => (Err ("unsupported hidden patch edit exec kind: " +:+ ExecKind pending), w)
  end.

(** The control messages of an exec. *)
Inductive ExecControl :=
| ControlHeartbeat
| ControlStreamClose
| ControlThrow (error : string)
| ControlUnset.

Definition hiddenPatchEditControlError (message : ExecControl) : string :=
  match message with
  | ControlThrow error => firstNonEmpty [TrimSpace error; "patch edit operation failed"]
  | ControlStreamClose => "patch edit operation closed unexpectedly"
  | _ => "patch edit operation failed"
  end.

Definition markExecTransportClosed (pending : PendingExec) : SE World unit :=
  update (fun w => match PendingExecs w !! ExecID pending with
                   | Some current =>
                       w <| PendingExecs := <[ExecID pending :=
                              current <| StreamState := "transport_closed" |>]> (PendingExecs w) |>
                   | None => w
                   end).

Definition handleHiddenPatchEditExecControl (pending : PendingExec) (message : ExecControl)
  : SE World unit :=
  match message with
  | ControlHeartbeat => ret tt
  | ControlStreamClose => markExecTransportClosed pending
  | _ =>
      match ExecPayload pending with
      | Err e => fun w => (Err e, w)
      | Ok payload =>
          markExecCompleted pending ;;;
          if decide (TrimSpace (ExecKind pending) = patchEditPostReadExecKindName) then
            finishPatchEditOperation (ToolCallID pending) payload
              (final_success payload (After payload))
          else finishPatchEditOperation (ToolCallID pending) payload
                 (buildEditErrorResult (ResolvedPath payload) (hiddenPatchEditControlError message))
      end
  end.

(** A tool invocation of PatchEdit; [Decoded] is the outcome of [json.Unmarshal] on its
    arguments. *)
Record ToolInvocation := mkInvocation {
  CallID : string;
  InvModelCallID : string;
  InvReasoningContent : string;
  InvReasoningSignature : string;
  InvReasoningSignatureSource : string;
  ArgsJSON : string;
  Decoded : result (gmap string JsonValue)
}.

(** [handlePatchEditToolInvocation]: the two service calls append the tool call to the history
    and publish it. *)
Definition handlePatchEditToolInvocation (providerPass : Z) (invocation : ToolInvocation)
  : SE World unit :=
  let '(args, decodeErr) := decodePatchEditArgs (Decoded invocation) in
  let resolvedPath := TrimSpace (ArgPath args) in
  let args := match decodeErr with
              | None => args <| ArgPath := resolvedPath |>
              | Some _ => args
              end in
  let payload := mkPayload patchEditToolName (ArgsJSON invocation)
                   (match decodeErr with None => false | Some _ => true end) args resolvedPath
                   EmptyString EmptyString EmptyString 0 0 EmptyString in
  service_call ;;;
  service_call ;;;
  match decodeErr with
  | Some e => finishPatchEditOperation (CallID invocation) payload (buildEditErrorResult resolvedPath e)
  | None =>
      startOrQueuePatchEditOperation
        (mkOperation (CallID invocation) (InvModelCallID invocation) providerPass
           (InvReasoningContent invocation) (InvReasoningSignature invocation)
           (InvReasoningSignatureSource invocation) payload)
  end.

(** The pending exec of a message: by its identifier, or else by its message number. *)
Definition selectPendingExec (execID : string) (messageID : Z) (w : World) : option PendingExec :=
  match PendingExecs w !! TrimSpace execID with
  | Some item => Some item
  | None =>
      if negb (messageID =? 0)
      then find (fun item => MessageID item =? messageID) (map snd (map_to_list (PendingExecs w)))
      else None
  end.

Definition snapshotPendingExec (execID : string) (w : World) : option PendingExec :=
  if decide (TrimSpace execID = EmptyString) then None else PendingExecs w !! TrimSpace execID.

(** [recoverNonStreamingExecAfterStreamClose] for a hidden PatchEdit exec, for which
    [deriveToolNameFromPendingExec] has no tool name: no tool result is appended. *)
Definition recoverNonStreamingExecAfterStreamClose (pending : PendingExec) : SE World unit :=
  markExecCompleted pending ;;;
  service_call ;;;
  service_call ;;;
  service_call ;;;
  service_call ;;;
  service_call.

(** The events of the stream that reach the tool: an invocation, a result or a control message
    of a pending exec (the handlers of service.go look it up; a message for no pending exec
    changes nothing), and the timer that a stream close starts. *)
Inductive PatchEditEvent :=
| EventInvoke (providerPass : Z) (invocation : ToolInvocation)
| EventResult (execID : string) (messageID : Z) (message : ExecClientMessage)
| EventControl (messageID : Z) (message : ExecControl)
| EventRecovery (execID : string) (messageID : Z).

Definition handle_event (event : PatchEditEvent) : SE World unit :=
  match event with
  | EventInvoke providerPass invocation => handlePatchEditToolInvocation providerPass invocation
  | EventResult execID messageID message =>
      w <- get ;;
      match selectPendingExec execID messageID w with
      | Some pending =>
          if isHiddenPatchEditExecKind (ExecKind pending)
          then handleHiddenPatchEditExecResult pending message else ret tt
      | None => fun w => (Err "pending exec not found", w)
      end
  | EventControl messageID message =>
      w <- get ;;
      match selectPendingExec EmptyString messageID w with
      | Some pending =>
          if isHiddenPatchEditExecKind (ExecKind pending)
          then handleHiddenPatchEditExecControl pending message else ret tt
      | None => fun w => (Err "pending exec not found for control message", w)
      end
  | EventRecovery execID messageID =>
      w <- get ;;
      match snapshotPendingExec execID w with
      | Some current =>
          if negb (MessageID current =? messageID) ||
             negb (bool_decide (StreamState current = "transport_closed")) then ret tt
          else if isHiddenPatchEditExecKind (ExecKind current)
          then recoverNonStreamingExecAfterStreamClose current else ret tt
      | None => ret tt
      end
  end.

(** The part of a cancellation that concerns the edits ([handleCancelIntent] and
    [completePendingEditAfterCancel]): the queues are dropped, then every pending edit, in the
    order in which the map is iterated, is completed. *)
Definition completePendingEditAfterCancel (pending : PendingExec) : SE World unit :=
  if negb (isHiddenPatchEditExecKind (ExecKind pending)) then ret tt
  else match ExecPayload pending with
       | Err e => fun w => (Err e, w)
       | Ok payload =>
           markExecCompleted pending ;;;
           if decide (ExecKind pending = patchEditPostReadExecKindName) then
             finishPatchEditOperation (ToolCallID pending) payload
               (final_success payload (After payload))
           else finishPatchEditOperation (ToolCallID pending) payload
                  (buildEditErrorResult (ResolvedPath payload)
                     "PatchEdit canceled before terminal result arrived")
       end.

Fixpoint complete_all (pendingExecs : list PendingExec) : SE World unit :=
  match pendingExecs with
  | [] => ret tt
  | pending :: rest => completePendingEditAfterCancel pending ;;; complete_all rest
  end.

Definition cancel_edits (pendingExecs : list PendingExec) : SE World unit :=
  update (fun w => w <| PatchEditQueues := empty |>) ;;;
  complete_all pendingExecs.

(** ** Lemmas: what a handler that returns has done *)

Definition payload_key (payload : pendingPatchEditPayload) : string :=
  patchEditQueueKey (firstNonEmpty [ResolvedPath payload; patchEditPayloadPath payload]).

Definition same_edits (w w' : World) : Prop :=
  PendingExecs w' = PendingExecs w /\ PatchEditQueues w' = PatchEditQueues w /\
  finished w' = finished w /\ env_execs w' = env_execs w.

Lemma service_call_ok w u w' : service_call w = (Ok u, w') -> same_edits w w'.
Proof. unfold service_call. destruct (env_calls w) as [|r rest]; intros H; inversion H; done. Qed.

(** [w'] is [w] with the exec of [payload] opened under a fresh identifier. *)
Definition opened_exec (toolCallID kind : string) (payload : pendingPatchEditPayload)
    (w w' : World) : Prop :=
  exists mid id rest e, env_execs w = Ok (mid, id) :: rest /\ env_execs w' = rest /\
    PendingExecs w' = <[id := e]> (PendingExecs w) /\
    ExecID e = id /\ ToolCallID e = TrimSpace toolCallID /\ ExecKind e = kind /\
    ExecPayload e = Ok (stored_payload payload) /\
    PatchEditQueues w' = PatchEditQueues w /\ finished w' = finished w.

Lemma open_hidden_ok tc mc pass rc rs rss kind request payload w u w' :
  open_hidden_exec tc mc pass rc rs rss kind request payload w = (Ok u, w') ->
  opened_exec tc kind payload w w'.
Proof.
  unfold open_hidden_exec. intros ([mid id] & w1 & H1 & H2)%bind_ok.
  apply bind_ok in H2 as ([] & w2 & H2 & H3). apply bind_ok in H3 as ([] & w3 & H3 & H4).
  apply service_call_ok in H3 as (A1 & A2 & A3 & A4).
  apply service_call_ok in H4 as (B1 & B2 & B3 & B4).
  unfold OpenExec in H1. destruct (env_execs w) as [|r rest] eqn:Ee; [done|].
  injection H1 as -> <-. injection H2 as <-.
  exists mid, id, rest. eexists. split_and!; [done|by rewrite B4, A4|rewrite B1, A1; reflexivity|
    done|done|done|done|by rewrite B2, A2|by rewrite B3, A3].
Qed.

(** What [finishPatchEditOperation] does with the queue of a path. *)
Inductive next_edit (key : string) (w w' : World) : Prop :=
| next_none : (key = EmptyString \/ default [] (PatchEditQueues w !! key) = []) ->
    PendingExecs w' = PendingExecs w ->
    PatchEditQueues w' = (if decide (key = EmptyString) then PatchEditQueues w
                          else delete key (PatchEditQueues w)) ->
    finished w' = finished w -> env_execs w' = env_execs w -> next_edit key w w'
| next_some op rest w1 : key <> EmptyString ->
    PatchEditQueues w !! key = Some (op :: rest) ->
    w1 = w <| PatchEditQueues := match rest with
                                 | [] => delete key (PatchEditQueues w)
                                 | _ => <[key := rest]> (PatchEditQueues w)
                                 end |> ->
    opened_exec (OpToolCallID op) patchEditReadExecKindName (OpPayload op) w1 w' ->
    next_edit key w w'.

Definition finish_key (payload : pendingPatchEditPayload) (result : EditResult) : string :=
  patchEditQueueKey (firstNonEmpty [ResolvedPath payload;
    firstNonEmpty [resultPath (Some result); ResolvedPath payload; patchEditPayloadPath payload]]).

Lemma same_edits_trans w1 w2 w3 : same_edits w1 w2 -> same_edits w2 w3 -> same_edits w1 w3.
Proof. unfold same_edits. intros (-> & -> & -> & ->). done. Qed.

Lemma opened_exec_same tc kind payload w w0 w1 w' :
  same_edits w w0 -> opened_exec tc kind payload w0 w1 -> same_edits w1 w' ->
  opened_exec tc kind payload w w'.
Proof.
  intros (A1 & A2 & A3 & A4) (mid & id & rest & e & H1 & H2 & H3 & H4 & H5 & H6 & H7 & H8 & H9)
    (B1 & B2 & B3 & B4).
  exists mid, id, rest, e. rewrite B1, B2, B3, B4, <- A1, <- A2, <- A3, <- A4. done.
Qed.

Lemma finish_ok tc payload result w u w' :
  finishPatchEditOperation tc payload result w = (Ok u, w') ->
  next_edit (finish_key payload result)
    (w <| finished := finished w ++ [(TrimSpace tc, result)] |>) w'.
Proof.
  unfold finishPatchEditOperation. cbv zeta.
  intros ([] & w1 & H1 & H)%bind_ok. apply bind_ok in H as ([] & w2 & H2 & H).
  apply bind_ok in H as ([] & w3 & H3 & H). apply bind_ok in H as ([] & w4 & H4 & H).
  apply bind_ok in H as ([] & w5 & H5 & H). apply bind_ok in H as (next & w6 & H6 & H).
  apply bind_ok in H as ([] & w7 & H7 & H8).
  injection H2 as <-. apply service_call_ok in H1, H3, H4, H5, H8.
  assert (Hs : same_edits (w <| finished := finished w ++ [(TrimSpace tc, result)] |>) w5).
  { eapply same_edits_trans; [|exact H5]. eapply same_edits_trans; [|exact H4].
    eapply same_edits_trans; [|exact H3]. destruct H1 as (A1 & A2 & A3 & A4).
    unfold same_edits. cbn. by rewrite A1, A2, A3, A4. }
  clear H1 H3 H4 H5. set (w0 := w <| finished := _ |>) in *. clearbody w0.
  fold (finish_key payload result) in H6. set (key := finish_key payload result) in *.
  unfold takeNextQueuedPatchEditOperation in H6. fold (patchEditQueueKey) in H6.
  assert (Hkey : patchEditQueueKey (firstNonEmpty [ResolvedPath payload;
    firstNonEmpty [resultPath (Some result); ResolvedPath payload; patchEditPayloadPath payload]]) = key)
    by done.
  rewrite Hkey in H6. clearbody key. clear Hkey.
  destruct Hs as (A1 & A2 & A3 & A4). destruct H8 as (B1 & B2 & B3 & B4).
  destruct (decide (key = EmptyString)) as [->|Hne].
  - injection H6 as <- <-. injection H7 as <-. apply next_none; [by left|..]; try congruence.
    rewrite decide_True by done. congruence.
  - rewrite A2 in H6. destruct (default [] (PatchEditQueues w0 !! key)) as [|op rest] eqn:Eq.
    + injection H6 as <- <-. injection H7 as <-. cbn in *. apply next_none; try congruence; [by right|].
      rewrite decide_False by done. congruence.
    + assert (Hq : PatchEditQueues w0 !! key = Some (op :: rest))
        by (destruct (PatchEditQueues w0 !! key); simpl in Eq; congruence).
      assert (E6 : next = Some op /\ w6 = w5 <| PatchEditQueues := match rest with
          | [] => delete key (PatchEditQueues w0) | _ => <[key := rest]> (PatchEditQueues w0) end |>)
        by (destruct rest; injection H6 as <- <-; done).
      destruct E6 as [-> ->]. unfold startQueuedPatchEditOperation, startHiddenPatchEditRead in H7.
        apply open_hidden_ok in H7.
      eapply next_some; [done|exact Hq|reflexivity|].
      eapply opened_exec_same; [|exact H7|by unfold same_edits].
      unfold same_edits. cbn. by rewrite A1, A3, A4.
Qed.

(** ** Lemmas: the cases of an event *)

Definition has_path (payload : pendingPatchEditPayload) : Prop :=
  TrimSpace (ResolvedPath payload) <> EmptyString.

Definition same_key (payload payload' : pendingPatchEditPayload) : Prop :=
  TrimSpace (ResolvedPath payload') = TrimSpace (ResolvedPath payload).

Lemma firstNonEmpty_head v vs : TrimSpace v <> EmptyString -> firstNonEmpty (v :: vs) = TrimSpace v.
Proof. intros Hv. simpl. by rewrite decide_False. Qed.

Lemma firstNonEmpty_skip v vs : TrimSpace v = EmptyString -> firstNonEmpty (v :: vs) = firstNonEmpty vs.
Proof. intros Hv. simpl. by rewrite decide_True. Qed.

Lemma payload_key_path payload : has_path payload -> payload_key payload = TrimSpace (ResolvedPath payload).
Proof.
  intros Hp. unfold payload_key, patchEditQueueKey. rewrite firstNonEmpty_head by done.
  apply TrimSpace_idem.
Qed.

Lemma finish_key_path payload result :
  has_path payload -> finish_key payload result = TrimSpace (ResolvedPath payload).
Proof.
  intros Hp. unfold finish_key, patchEditQueueKey. rewrite firstNonEmpty_head by done.
  apply TrimSpace_idem.
Qed.

(** A path the client reports: blank, or the one the edit works on. *)
Definition reports_same (path : string) (payload : pendingPatchEditPayload) : Prop :=
  TrimSpace path = EmptyString \/ TrimSpace path = TrimSpace (ResolvedPath payload).

Definition message_same (message : ExecClientMessage) (payload : pendingPatchEditPayload) : Prop :=
  (forall path content, GetWriteResult message = Some (WriteResultSuccess path content) ->
     reports_same path payload) /\
  (forall success, GetReadResult message = Some (ReadResultSuccess success) ->
     reports_same (ReadPath success) payload).

(** How a pending edit moves on, its exec being removed: the next exec is opened, or it
    finishes.  When the client keeps to the path ([same]) its key stays the same. *)
Inductive moves (tc : string) (payload : pendingPatchEditPayload) (same : Prop) (w0 w' : World)
  : Prop :=
| moves_on kind payload' : isHiddenPatchEditExecKind kind = true -> has_path payload' ->
    (same -> same_key payload payload') -> opened_exec tc kind payload' w0 w' ->
    moves tc payload same w0 w'
| moves_out payload' result : has_path payload' -> (same -> same_key payload payload') ->
    next_edit (TrimSpace (ResolvedPath payload'))
      (w0 <| finished := finished w0 ++ [(TrimSpace tc, result)] |>) w' ->
    moves tc payload same w0 w'.

Lemma finish_moves tc payload payload' result same w u w' :
  has_path payload' -> (same -> same_key payload payload') ->
  finishPatchEditOperation tc payload' result w = (Ok u, w') -> moves tc payload same w w'.
Proof.
  intros Hp Hs H. apply finish_ok in H. rewrite finish_key_path in H by done.
  by eapply moves_out.
Qed.

Lemma open_moves tc mc pass rc rs rss kind request payload payload' same w u w' :
  isHiddenPatchEditExecKind kind = true -> has_path payload' -> (same -> same_key payload payload') ->
  open_hidden_exec tc mc pass rc rs rss kind request payload' w = (Ok u, w') -> moves tc payload same w w'.
Proof. intros Hk Hp Hs H. apply open_hidden_ok in H. by eapply moves_on. Qed.

Lemma read_moves pending payload message same w u w' :
  has_path payload -> handle_read_result pending payload message w = (Ok u, w') ->
  moves (ToolCallID pending) payload same w w'.
Proof.
  intros Hp. unfold handle_read_result. cbv zeta.
  destruct (GetReadResult message) as [readResult|]; [|by apply finish_moves].
  destruct (extractCompleteReadContentForPatchEdit readResult) as [[content []] readErr].
  - unfold startHiddenPatchEditWrite. destruct (computePatchEdit payload content) as [c|e];
      [|by apply finish_moves]. by apply open_moves.
  - case_decide; by apply finish_moves.
Qed.

Lemma reported_path payload path :
  has_path payload ->
  let payload' := firstNonEmpty [TrimSpace path; TrimSpace (ResolvedPath payload);
                                 TrimSpace (patchEditPayloadPath payload)] in
  TrimSpace payload' <> EmptyString /\
  (reports_same path payload -> TrimSpace payload' = TrimSpace (ResolvedPath payload)).
Proof.
  intros Hp. cbv zeta. rewrite firstNonEmpty_trimmed. destruct (decide (TrimSpace path = EmptyString)) as [E|E].
  - rewrite firstNonEmpty_skip by (by rewrite TrimSpace_idem).
    rewrite firstNonEmpty_head by (by rewrite TrimSpace_idem). by rewrite TrimSpace_idem.
  - rewrite firstNonEmpty_head by (by rewrite TrimSpace_idem). rewrite TrimSpace_idem.
    split; [done|]. intros [H|H]; congruence.
Qed.

Lemma observe_write_path payload path content payload' ok :
  has_path payload -> observe_write payload path content = (payload', ok) ->
  has_path payload' /\ (reports_same path payload -> same_key payload payload').
Proof.
  intros Hp H. destruct (reported_path payload path Hp) as [H1 H2].
  assert (E : ResolvedPath payload' = firstNonEmpty [TrimSpace path;
    TrimSpace (ResolvedPath payload); TrimSpace (patchEditPayloadPath payload)]).
  { revert H. unfold observe_write. cbv zeta.
    generalize (firstNonEmpty [TrimSpace path; TrimSpace (ResolvedPath payload);
      TrimSpace (patchEditPayloadPath payload)]). intros p0.
    case_decide; [by intros [= <- <-]|]. destruct (reconcilePatchEditObservedContent _ _) as [[f r] o].
    destruct o; cbn [negb]; [|by intros [= <- <-]].
    case_decide; [|destruct (diff_strings _ _ _) as [[d a] rm]];
      (destruct r; by intros [= <- <-]). }
  unfold has_path, same_key. rewrite E. done.
Qed.

Lemma write_moves pending payload message w u w' :
  has_path payload -> handle_write_result pending payload message w = (Ok u, w') ->
  moves (ToolCallID pending) payload (message_same message payload) w w'.
Proof.
  intros Hp. unfold handle_write_result. unfold message_same.
  destruct (GetWriteResult message) as [writeResult|]; [|by apply finish_moves].
  destruct writeResult as [p e|p r|p|p e|path content|]; try by apply finish_moves.
  destruct (observe_write payload path content) as [payload' ok] eqn:Eo.
  apply observe_write_path in Eo as [H1 H2]; [|done].
  assert (Hs : ((forall p c, Some (WriteResultSuccess path content) = Some (WriteResultSuccess p c) ->
     reports_same p payload) /\
   (forall success, GetReadResult message = Some (ReadResultSuccess success) ->
     reports_same (ReadPath success) payload)) -> same_key payload payload').
  { intros [Hw _]. apply H2. by eapply Hw. }
  destruct ok; cbn [negb]; [|by apply finish_moves].
  unfold startHiddenPatchEditPostRead. by apply open_moves.
Qed.

Lemma post_read_moves pending payload message w u w' :
  has_path payload -> handle_post_read_result pending payload message w = (Ok u, w') ->
  moves (ToolCallID pending) payload (message_same message payload) w w'.
Proof.
  intros Hp. unfold handle_post_read_result. cbv zeta. unfold message_same.
  destruct (GetReadResult message) as [readResult|]; [|by apply finish_moves].
  destruct (extractReadContentForEdit readResult) as [content []]; cbn [negb]; [|by apply finish_moves].
  set (payload' := match readResult with ReadResultSuccess _ => _ | _ => _ end).
  assert (H : has_path payload' /\
    (forall success, readResult = ReadResultSuccess success ->
       reports_same (ReadPath success) payload -> same_key payload payload') /\
    ((forall success, readResult <> ReadResultSuccess success) -> payload' = payload)).
  { subst payload'. destruct readResult as [| | | | |success|]; try (split; [done|split; [done|done]]).
    pose proof (reported_path payload (ReadPath success) Hp) as [H1 H2].
    unfold has_path, same_key. cbn [ResolvedPath setPatchEditPayloadPath].
    assert (E : TrimSpace (firstNonEmpty [TrimSpace (ReadPath success); ResolvedPath payload]) =
      TrimSpace (firstNonEmpty [TrimSpace (ReadPath success); TrimSpace (ResolvedPath payload);
        TrimSpace (patchEditPayloadPath payload)])).
    { destruct (decide (TrimSpace (ReadPath success) = EmptyString)) as [E|E].
      - rewrite !(firstNonEmpty_skip (TrimSpace (ReadPath success))) by (by rewrite TrimSpace_idem).
        rewrite (firstNonEmpty_head (ResolvedPath payload)) by exact Hp.
        rewrite (firstNonEmpty_head (TrimSpace (ResolvedPath payload)))
          by (rewrite TrimSpace_idem; exact Hp). by rewrite !TrimSpace_idem.
      - by rewrite !firstNonEmpty_head by (by rewrite TrimSpace_idem). }
    change (ResolvedPath (setPatchEditPayloadPath ?p ?q)) with (ResolvedPath q). cbn [ResolvedPath].
    cbn -[firstNonEmpty TrimSpace]. rewrite E. split; [done|]. split; [intros s' [= <-]; done|]. intros Hn. by destruct (Hn success). }
  destruct H as (H1 & H2 & H3).
  assert (Hs : ((forall path c, GetWriteResult message = Some (WriteResultSuccess path c) ->
     reports_same path payload) /\
   (forall success, Some readResult = Some (ReadResultSuccess success) ->
     reports_same (ReadPath success) payload)) -> same_key payload payload').
  { intros [_ Hr]. destruct readResult as [| | | | |success|]; try (rewrite H3; done).
    eapply H2; [done|]. by apply Hr. }
  clearbody payload'. destruct (reconcilePatchEditObservedContent _ _) as [[final reconciled] ok].
  destruct ok; cbn [negb]; [|by apply finish_moves]. destruct reconciled; by apply finish_moves.
Qed.


Lemma control_moves pending message w u w' payload :
  ExecPayload pending = Ok payload -> has_path payload ->
  handleHiddenPatchEditExecControl pending message w = (Ok u, w') ->
  same_edits w w' \/
  (exists f, w' = w <| PendingExecs := f (PendingExecs w) |> /\
     f = (fun m => match m !! ExecID pending with
                   | Some current => <[ExecID pending := current <| StreamState := "transport_closed" |>]> m
                   | None => m
                   end)) \/
  moves (ToolCallID pending) payload True (w <| PendingExecs := delete (ExecID pending) (PendingExecs w) |>) w'.
Proof.
  intros Hpl Hp. unfold handleHiddenPatchEditExecControl. rewrite Hpl.
  destruct message; cbv zeta.
  - intros [= _ <-]. by left.
  - intros [= _ <-]. right; left. eexists. split; [|reflexivity]. cbv beta.
    destruct (PendingExecs w !! ExecID pending); [done|]. by destruct w.
  - intros ([] & w1 & H1 & H)%bind_ok; injection H1 as <-. right; right. case_decide; by eapply finish_moves.
  - intros ([] & w1 & H1 & H)%bind_ok; injection H1 as <-. right; right. case_decide; by eapply finish_moves.
Qed.

Lemma result_moves pending message w u w' payload :
  ExecPayload pending = Ok payload -> has_path payload ->
  handleHiddenPatchEditExecResult pending message w = (Ok u, w') ->
  moves (ToolCallID pending) payload (message_same message payload)
    (w <| PendingExecs := delete (ExecID pending) (PendingExecs w) |>) w'.
Proof.
  intros Hpl Hp. unfold handleHiddenPatchEditExecResult. rewrite Hpl. cbv zeta.
  repeat case_decide; [..|done]; intros ([] & w1 & Hw1 & Hw2)%bind_ok; injection Hw1 as <-.
  - by eapply read_moves.
  - by eapply write_moves.
  - by eapply post_read_moves.
Qed.

(** ** Invariants *)

Definition fresh_ids (w : World) : list string :=
  omap (fun r => match r with Ok (_, id) => Some id | Err _ => None end) (env_execs w).

Record edits_wf (w : World) : Prop := {
  wf_exec : forall id e, PendingExecs w !! id = Some e -> ExecID e = id /\
    (isHiddenPatchEditExecKind (ExecKind e) = true ->
     TrimSpace (ToolCallID e) = ToolCallID e /\
     exists payload, ExecPayload e = Ok payload /\ has_path payload);
  wf_queue : forall key ops, PatchEditQueues w !! key = Some ops ->
    key <> EmptyString /\ ops <> [] /\
    forall op, op ∈ ops -> TrimSpace (ResolvedPath (OpPayload op)) = key;
  wf_fresh : NoDup (fresh_ids w);
  wf_unused : forall id, id ∈ fresh_ids w -> PendingExecs w !! id = None
}.

Definition in_flight (key : string) (w : World) : Prop :=
  exists id e, PendingExecs w !! id = Some e /\ exec_key e = Some key.

(** No edit waits in a queue with nothing in flight to start it; [but k] exempts one path. *)
Definition no_stranded_but (but : option string) (w : World) : Prop :=
  forall key ops, PatchEditQueues w !! key = Some ops -> Some key <> but -> in_flight key w.

Definition no_stranded (w : World) : Prop := no_stranded_but None w.

(** At most one edit of a path is in flight. *)
Definition exclusive (w : World) : Prop :=
  forall id1 id2 e1 e2 key, PendingExecs w !! id1 = Some e1 -> PendingExecs w !! id2 = Some e2 ->
    exec_key e1 = Some key -> exec_key e2 = Some key -> id1 = id2.

Lemma same_edits_wf w w' : same_edits w w' -> edits_wf w -> edits_wf w'.
Proof.
  intros (H1 & H2 & H3 & H4) [A B C D].
  split; unfold fresh_ids; rewrite ?H1, ?H2, ?H4; done.
Qed.

Lemma opened_exec_spec tc kind payload w w' :
  edits_wf w -> isHiddenPatchEditExecKind kind = true -> has_path payload ->
  opened_exec tc kind payload w w' ->
  exists id e, PendingExecs w' = <[id := e]> (PendingExecs w) /\ PendingExecs w !! id = None /\
    exec_key e = Some (TrimSpace (ResolvedPath payload)) /\ ToolCallID e = TrimSpace tc /\
    isHiddenPatchEditExecKind (ExecKind e) = true /\
    PatchEditQueues w' = PatchEditQueues w /\ finished w' = finished w /\ edits_wf w'.
Proof.
  intros [A B C D] Hk Hp (mid & id & rest & e & H1 & H2 & H3 & H4 & H5 & H6 & H7 & H8 & H9).
  assert (Hf : fresh_ids w = id :: fresh_ids w') by (unfold fresh_ids; by rewrite H1, H2).
  rewrite Hf in C, D. apply NoDup_cons in C as [C1 C2].
  assert (Hn : PendingExecs w !! id = None) by (apply D; left).
  exists id, e. rewrite H6. split_and!; try done.
  - unfold exec_key. rewrite H6, Hk, H7. f_equal. exact (payload_key_path (stored_payload payload) Hp).
  - split.
    + intros id' e'. rewrite H3, lookup_insert. case_decide; [|apply A].
      intros [= <-]. subst. split; [done|]. intros _. rewrite H5. split; [apply TrimSpace_idem|].
      by exists (stored_payload payload).
    + by rewrite H8.
    + done.
    + intros id' Hid'. rewrite H3, lookup_insert_ne; [by apply D; right|]. by intros ->.
Qed.

Section Opened.
Context (w w' : World) (id : string) (e : PendingExec) (key : string).
Hypothesis Hexecs : PendingExecs w' = <[id := e]> (PendingExecs w).
Hypothesis Hnew : PendingExecs w !! id = None.
Hypothesis Hkey : exec_key e = Some key.

Lemma opened_in_flight : in_flight key w'.
Proof. exists id, e. by rewrite Hexecs, lookup_insert_eq. Qed.

Lemma opened_keeps key' : in_flight key' w -> in_flight key' w'.
Proof.
  intros (id' & e' & H1 & H2). exists id', e'. rewrite Hexecs, lookup_insert_ne by congruence. done.
Qed.

Lemma opened_exclusive : ~ in_flight key w -> exclusive w -> exclusive w'.
Proof.
  intros Hf Hx id1 id2 e1 e2 k. rewrite Hexecs, !lookup_insert.
  repeat case_decide; subst; try done.
  - intros [= <-] H2 K1 K2. destruct Hf. exists id2, e2. split; congruence.
  - intros H1 [= <-] K1 K2. destruct Hf. exists id1, e1. split; congruence.
  - apply Hx.
Qed.
End Opened.


(** ** Every edit is somewhere: finished, in flight or queued *)

Definition in_flight_calls (w : World) : list string :=
  map_to_list (PendingExecs w) ≫= (fun kv =>
    if isHiddenPatchEditExecKind (ExecKind kv.2) then [ToolCallID kv.2] else []).

Definition queued_calls (w : World) : list string :=
  map_to_list (PatchEditQueues w) ≫= (fun kv => map (fun op => TrimSpace (OpToolCallID op)) kv.2).

Definition calls (w : World) : list string :=
  (finished w).*1 ++ in_flight_calls w ++ queued_calls w.

Lemma bind_delete {A B} (m : gmap string A) id e (f : string * A -> list B) :
  m !! id = Some e ->
  map_to_list m ≫= f ≡ₚ f (id, e) ++ (map_to_list (delete id m) ≫= f).
Proof. intros H. by rewrite <- (map_to_list_delete m id e H). Qed.

Lemma bind_insert {A B} (m : gmap string A) id e (f : string * A -> list B) :
  m !! id = None ->
  map_to_list (<[id := e]> m) ≫= f ≡ₚ f (id, e) ++ (map_to_list m ≫= f).
Proof. intros H. by rewrite (map_to_list_insert m id e H). Qed.

Lemma bind_update {A B} (m : gmap string A) id e e' (f : string * A -> list B) :
  m !! id = Some e ->
  map_to_list (<[id := e']> m) ≫= f ≡ₚ f (id, e') ++ (map_to_list (delete id m) ≫= f).
Proof.
  intros H. rewrite <- insert_delete_eq. apply bind_insert. by rewrite lookup_delete_eq.
Qed.

Lemma same_edits_calls w w' : same_edits w w' -> calls w' = calls w.
Proof. intros (H1 & H2 & H3 & H4). unfold calls, in_flight_calls, queued_calls. by rewrite H1, H2, H3. Qed.

Lemma opened_calls tc kind payload w w' :
  edits_wf w -> isHiddenPatchEditExecKind kind = true -> has_path payload ->
  opened_exec tc kind payload w w' -> calls w' ≡ₚ TrimSpace tc :: calls w.
Proof.
  intros Hw Hk Hp H.
  destruct (opened_exec_spec _ _ _ _ _ Hw Hk Hp H) as (id & e & H1 & H2 & H3 & H4 & H5 & H6 & H7 & _).
  unfold calls, in_flight_calls, queued_calls. rewrite H6, H7, H1, (bind_insert _ _ _ _ H2). cbn [snd].
  rewrite H5, H4. cbn [app]. by rewrite <- Permutation_middle.
Qed.

(** [w'] follows from [w], where no edit of [k] need be in flight, with one started. *)
Record settles (k : string) (w w' : World) : Prop := {
  settles_wf : edits_wf w';
  settles_stranded : no_stranded_but (Some k) w -> no_stranded w';
  settles_exclusive : ~ in_flight k w -> exclusive w -> exclusive w'
}.

Lemma opened_settles tc kind payload w w' :
  edits_wf w -> isHiddenPatchEditExecKind kind = true -> has_path payload ->
  opened_exec tc kind payload w w' -> settles (TrimSpace (ResolvedPath payload)) w w'.
Proof.
  intros Hw Hk Hp H.
  destruct (opened_exec_spec _ _ _ _ _ Hw Hk Hp H) as (id & e & H1 & H2 & H3 & H4 & H5 & H6 & H7 & H8).
  split; [done|..].
  - intros Hs key ops. rewrite H6. intros Hq _.
    destruct (decide (key = TrimSpace (ResolvedPath payload))) as [->|Hne].
    + by eapply opened_in_flight.
    + eapply opened_keeps; try done. eapply Hs; [done|congruence].
  - by eapply opened_exclusive.
Qed.

Lemma queue_replaced_wf key q w :
  edits_wf w -> key <> EmptyString -> q <> [] ->
  (forall op, op ∈ q -> TrimSpace (ResolvedPath (OpPayload op)) = key) ->
  edits_wf (w <| PatchEditQueues := <[key := q]> (PatchEditQueues w) |>).
Proof.
  intros [A B C D] Hk Hq Hop. split; try done. intros key' ops. cbn.
  rewrite lookup_insert. case_decide; [|apply B]. intros [= <-]. by subst.
Qed.

Lemma queue_deleted_wf key w :
  edits_wf w -> edits_wf (w <| PatchEditQueues := delete key (PatchEditQueues w) |>).
Proof.
  intros [A B C D]. split; try done. intros key' ops. cbn. intros H.
  apply lookup_delete_Some in H as [_ H]. by apply B.
Qed.

Definition pop (key : string) (rest : list queuedPatchEditOperation) (w : World) : World :=
  w <| PatchEditQueues := match rest with
                          | [] => delete key (PatchEditQueues w)
                          | _ => <[key := rest]> (PatchEditQueues w)
                          end |>.

Lemma pop_other key rest key' w :
  key' <> key -> PatchEditQueues (pop key rest w) !! key' = PatchEditQueues w !! key'.
Proof.
  intros Hne. unfold pop. destruct rest; cbn; [by rewrite lookup_delete_ne|by rewrite lookup_insert_ne].
Qed.

Lemma pop_wf key op rest w :
  edits_wf w -> PatchEditQueues w !! key = Some (op :: rest) -> edits_wf (pop key rest w).
Proof.
  intros Hw Hq. destruct (wf_queue w Hw _ _ Hq) as (H1 & _ & H2). unfold pop.
  destruct rest as [|op' rest]; [by apply queue_deleted_wf|].
  apply queue_replaced_wf; try done. intros o Ho. apply H2. by right.
Qed.

Lemma pop_calls key op rest w :
  PatchEditQueues w !! key = Some (op :: rest) ->
  calls w ≡ₚ TrimSpace (OpToolCallID op) :: calls (pop key rest w).
Proof.
  intros Hq. unfold calls, queued_calls. rewrite (bind_delete _ _ _ _ Hq).
  change (finished (pop key rest w)) with (finished w).
  change (in_flight_calls (pop key rest w)) with (in_flight_calls w).
  cbn [snd map app]. rewrite <- !Permutation_middle. constructor. unfold pop.
  destruct rest as [|op' rest]; [done|].
  change (PatchEditQueues (w <| PatchEditQueues := ?q |>)) with q.
  by rewrite (bind_update _ _ _ (op' :: rest) _ Hq).
Qed.

Lemma next_settles key w w' :
  edits_wf w -> key <> EmptyString -> next_edit key w w' -> settles key w w'.
Proof.
  intros Hw Hne [[->|Hq] H2 H3 H4 H5|op rest w1 _ Hq -> Ho]; [done|..].
  - rewrite decide_False in H3 by done. split.
    + eapply same_edits_wf; [|exact (queue_deleted_wf key w Hw)]. by split_and!.
    + intros Hs k ops. rewrite H3. intros [Hk Hq']%lookup_delete_Some _.
      destruct (Hs _ _ Hq') as (id & e & Hid & He); [congruence|]. exists id, e. by rewrite H2.
    + intros _ Hx. unfold exclusive. rewrite H2. exact Hx.
  - fold (pop key rest w) in Ho.
    assert (Hpath : TrimSpace (ResolvedPath (OpPayload op)) = key)
      by (apply (wf_queue w Hw _ _ Hq); left).
    pose proof (pop_wf _ _ _ _ Hw Hq) as Hw1.
    apply opened_settles in Ho as [A B C]; [|done|done|by unfold has_path; congruence].
    rewrite Hpath in B, C. split; [done|..].
    + intros Hs. apply B. intros k ops Hk Hne'.
      assert (k <> key) by congruence. rewrite pop_other in Hk by done. exact (Hs _ _ Hk Hne').
    + exact C.
Qed.

Lemma next_calls key w w' :
  edits_wf w -> key <> EmptyString -> next_edit key w w' -> calls w' ≡ₚ calls w.
Proof.
  intros Hw Hne [[->|Hq] H2 H3 H4 H5|op rest w1 _ Hq -> Ho]; [done|..].
  - rewrite decide_False in H3 by done. unfold calls, in_flight_calls, queued_calls. rewrite H2, H3, H4.
    destruct (PatchEditQueues w !! key) as [ops|] eqn:E.
    + destruct ops; [|done]. by destruct (wf_queue w Hw _ _ E) as (_ & ? & _).
    + by rewrite delete_id.
  - fold (pop key rest w) in Ho. rewrite (pop_calls _ _ _ _ Hq).
    apply opened_calls in Ho; [done|by eapply pop_wf|done|].
    unfold has_path. rewrite (proj2 (proj2 (wf_queue w Hw _ _ Hq)) op); [done|left].
Qed.


(** ** One event *)

Lemma moves_settles tc payload same w w' :
  edits_wf w -> moves tc payload same w w' ->
  exists k, (same -> k = TrimSpace (ResolvedPath payload)) /\ settles k w w' /\
    calls w' ≡ₚ TrimSpace tc :: calls w.
Proof.
  intros Hw [kind payload' Hk Hp Hs Ho|payload' result Hp Hs Hn].
  - exists (TrimSpace (ResolvedPath payload')). split; [exact Hs|].
    split; [by eapply opened_settles|by eapply opened_calls].
  - exists (TrimSpace (ResolvedPath payload')). split; [exact Hs|].
    set (w1 := w <| finished := finished w ++ [(TrimSpace tc, result)] |>) in *.
    assert (Hw1 : edits_wf w1) by (destruct Hw as [A B C D]; split; done).
    destruct (next_settles _ _ _ Hw1 Hp Hn) as [A B C]. split; [by split|].
    rewrite (next_calls _ _ _ Hw1 Hp Hn). unfold calls.
    replace (finished w1) with (finished w ++ [(TrimSpace tc, result)]) by done.
    change (in_flight_calls w1) with (in_flight_calls w). change (queued_calls w1) with (queued_calls w).
    rewrite fmap_app. cbn [fmap list_fmap fst]. rewrite <- app_assoc. cbn [app].
    by rewrite <- Permutation_middle.
Qed.

Section Removed.
Context (w : World) (id : string) (e : PendingExec).
Hypothesis Hw : edits_wf w.
Hypothesis He : PendingExecs w !! id = Some e.

Definition removed : World := w <| PendingExecs := delete (ExecID e) (PendingExecs w) |>.

Lemma removed_execs : PendingExecs removed = delete id (PendingExecs w).
Proof. unfold removed. cbn. by destruct (wf_exec w Hw _ _ He) as [-> _]. Qed.

Lemma removed_wf : edits_wf removed.
Proof.
  pose proof removed_execs as Hr. destruct Hw as [A B C D]. split; try done.
  - intros id' e'. rewrite Hr. intros [_ H]%lookup_delete_Some. by apply A.
  - intros id' Hid. rewrite Hr. destruct (decide (id' = id)) as [->|];
      [apply lookup_delete_eq|rewrite lookup_delete_ne by done; by apply D].
Qed.

Lemma removed_calls :
  isHiddenPatchEditExecKind (ExecKind e) = true -> calls w ≡ₚ ToolCallID e :: calls removed.
Proof.
  intros Hk. unfold calls, in_flight_calls. rewrite removed_execs, (bind_delete _ _ _ _ He). cbn [snd].
  rewrite Hk. cbn [app]. by rewrite <- Permutation_middle.
Qed.

Lemma removed_stranded key :
  exec_key e = Some key -> no_stranded w -> no_stranded_but (Some key) removed.
Proof.
  intros Hk Hs k ops Hq Hne. destruct (Hs k ops Hq) as (id' & e' & H1 & H2); [done|].
  exists id', e'. rewrite removed_execs, lookup_delete_ne; [done|]. intros ->. congruence.
Qed.

Lemma removed_exclusive key :
  exec_key e = Some key -> exclusive w -> exclusive removed /\ ~ in_flight key removed.
Proof.
  intros Hk Hx. split.
  - intros id1 id2 e1 e2 k. rewrite removed_execs. intros [_ H1]%lookup_delete_Some [_ H2]%lookup_delete_Some.
    by apply Hx.
  - intros (id' & e' & H1 & H2). rewrite removed_execs in H1.
    apply lookup_delete_Some in H1 as [Hne H1]. apply Hne. by eapply Hx.
Qed.
End Removed.

Lemma exec_key_ok e payload :
  isHiddenPatchEditExecKind (ExecKind e) = true -> ExecPayload e = Ok payload -> has_path payload ->
  exec_key e = Some (TrimSpace (ResolvedPath payload)).
Proof.
  intros Hk Hpl Hp. unfold exec_key. rewrite Hk, Hpl. f_equal. by apply payload_key_path.
Qed.

Lemma has_in_flight_spec key w :
  key <> EmptyString -> TrimSpace key = key ->
  patchEditPathHasInFlightOperation key w = true <-> in_flight key w.
Proof.
  intros Hk Ht. unfold patchEditPathHasInFlightOperation. rewrite Ht, decide_False by done.
  rewrite existsb_exists. unfold in_flight. split.
  - intros ([id e] & H1 & H2%bool_decide_eq_true). exists id, e. split; [|done].
    apply list_elem_of_In, elem_of_map_to_list in H1. done.
  - intros (id & e & H1 & H2). exists (id, e). split; [|by apply bool_decide_eq_true].
    by apply list_elem_of_In, elem_of_map_to_list.
Qed.

(** The client answers an exec before it closes its transport, and reports no path or the one
    the edit works on. *)
Definition keeps_path (event : PatchEditEvent) (w : World) : Prop :=
  match event with
  | EventResult execID messageID message =>
      forall e payload, selectPendingExec execID messageID w = Some e ->
        ExecPayload e = Ok payload -> message_same message payload
  | EventRecovery _ _ => False
  | _ => True
  end.

(** The event is not the recovery of an exec whose transport closed. *)
Definition delivered (event : PatchEditEvent) : Prop :=
  match event with EventRecovery _ _ => False | _ => True end.

Definition valid_invocation (event : PatchEditEvent) : Prop :=
  match event with
  | EventInvoke _ invocation => (decodePatchEditArgs (Decoded invocation)).2 = None
  | _ => True
  end.

Definition invoked (event : PatchEditEvent) : list string :=
  match event with
  | EventInvoke _ invocation => [TrimSpace (CallID invocation)]
  | _ => []
  end.

(** What an event that is handled without error does. *)
Record handled (event : PatchEditEvent) (w w' : World) : Prop := {
  handled_wf : edits_wf w';
  handled_calls : delivered event -> calls w' ≡ₚ invoked event ++ calls w;
  handled_stranded : keeps_path event w -> no_stranded w -> no_stranded w';
  handled_exclusive : keeps_path event w -> valid_invocation event -> exclusive w -> exclusive w'
}.

Lemma handled_same event w w' :
  edits_wf w -> invoked event = [] -> same_edits w w' -> handled event w w'.
Proof.
  intros Hw Hi Hs. pose proof Hs as (H1 & H2 & H3 & H4). split.
  - by eapply same_edits_wf.
  - by intros _; rewrite Hi, (same_edits_calls _ _ Hs).
  - intros _ Hn key ops. unfold in_flight. rewrite H1, H2. apply Hn.
  - intros _ _ Hx. unfold exclusive. by rewrite H1.
Qed.

Lemma handled_moves event w id e payload w' :
  edits_wf w -> PendingExecs w !! id = Some e -> isHiddenPatchEditExecKind (ExecKind e) = true ->
  ExecPayload e = Ok payload -> has_path payload -> invoked event = [] ->
  moves (ToolCallID e) payload (keeps_path event w) (removed w e) w' -> handled event w w'.
Proof.
  intros Hw He Hk Hpl Hp Hi Hm. pose proof (exec_key_ok _ _ Hk Hpl Hp) as Hkey.
  destruct (moves_settles _ _ _ _ _ (removed_wf _ _ _ Hw He) Hm) as (k & Hsame & [A B C] & Hc).
  destruct (wf_exec w Hw _ _ He) as [_ [Ht _]]; [done|]. split; [done|..].
  - intros _. rewrite Hi, Hc, (removed_calls _ _ _ Hw He Hk), Ht. done.
  - intros Hs%Hsame Hn. apply B. subst k. by eapply removed_stranded.
  - intros Hs%Hsame _ Hx. subst k.
    destruct (removed_exclusive _ _ _ Hw He _ Hkey Hx) as [Hx' Hf]. by apply C.
Qed.


Lemma handled_closed event w id e :
  edits_wf w -> PendingExecs w !! id = Some e -> invoked event = [] ->
  handled event w (w <| PendingExecs := <[id := e <| StreamState := "transport_closed" |>]> (PendingExecs w) |>).
Proof.
  intros Hw He Hi. set (e' := e <| StreamState := "transport_closed" |>).
  set (w' := w <| PendingExecs := <[id := e']> (PendingExecs w) |>).
  assert (Hex : PendingExecs w' = <[id := e']> (PendingExecs w)) by done.
  assert (Hlook : forall id' x', PendingExecs w' !! id' = Some x' ->
    exists x, PendingExecs w !! id' = Some x /\ exec_key x = exec_key x').
  { intros id' x'. rewrite Hex, lookup_insert. case_decide; [|eauto].
    intros [= <-]. subst. by exists e. }
  split.
  - destruct Hw as [A B C D]. split; try done.
    + intros id' x'. rewrite Hex, lookup_insert. case_decide; [|apply A]. intros [= <-]. subst.
      exact (A _ _ He).
    + intros id' Hid. rewrite Hex, lookup_insert_ne; [by apply D|]. intros ->.
      specialize (D _ Hid). congruence.
  - intros _. rewrite Hi. unfold calls, in_flight_calls. rewrite Hex, (bind_update _ _ _ _ _ He).
    rewrite (bind_delete _ _ _ _ He). done.
  - intros _ Hs key ops Hq _. destruct (Hs key ops Hq) as (id' & x & H1 & H2); [done|].
    destruct (decide (id' = id)) as [->|Hne].
    + exists id, e'. rewrite Hex, lookup_insert_eq. split; [done|]. rewrite He in H1. by injection H1 as <-.
    + exists id', x. by rewrite Hex, lookup_insert_ne.
  - intros _ _ Hx id1 id2 e1 e2 key H1 H2 K1 K2.
    apply Hlook in H1 as (x1 & H1 & E1), H2 as (x2 & H2 & E2). apply (Hx id1 id2 x1 x2 key H1 H2); congruence.
Qed.

Lemma decoded_path raw args :
  decodePatchEditArgs raw = (args, None) -> TrimSpace (ArgPath args) <> EmptyString.
Proof.
  unfold decodePatchEditArgs. destruct raw as [m|e]; [|done]. cbv zeta.
  destruct (readJSONStringAny m ["path"; "file_path"; "Path"; "FilePath"]) as [[path pf] pv].
  destruct (readJSONStringAny m ["old_string"; "oldString"; "OldString"]) as [[o of'] ov].
  destruct (readJSONStringAny m ["new_string"; "newString"; "NewString"]) as [[n nf] nv].
  destruct (readJSONBoolAny m ["replace_all"; "replaceAll"; "ReplaceAll"]) as [[r rf] rv].
  intros H. injection H as <- H. cbn [ArgPath].
  destruct (pf && negb pv); [done|]. case_decide; done.
Qed.

Lemma service_twice w u w' (k : SE World unit) :
  (service_call ;;; service_call ;;; k) w = (Ok u, w') ->
  exists w1, same_edits w w1 /\ k w1 = (Ok u, w').
Proof.
  intros ([] & w1 & H1 & H)%bind_ok. apply bind_ok in H as ([] & w2 & H2 & H).
  apply service_call_ok in H1, H2. exists w2. split; [by eapply same_edits_trans|done].
Qed.

Lemma handled_pre event w w1 w' : same_edits w w1 -> handled event w1 w' -> handled event w w'.
Proof.
  intros (H1 & H2 & H3 & H4) [A B C D]. unfold calls, in_flight_calls, queued_calls in B.
  unfold no_stranded, no_stranded_but, in_flight, exclusive, keeps_path, selectPendingExec in *.
  rewrite H1, H2, H3 in *. by split.
Qed.

Lemma started_handled event op w u w' :
  edits_wf w -> has_path (OpPayload op) -> invoked event = [TrimSpace (OpToolCallID op)] ->
  ~ in_flight (TrimSpace (ResolvedPath (OpPayload op))) w ->
  startQueuedPatchEditOperation op w = (Ok u, w') -> handled event w w'.
Proof.
  intros Hw Hp Hi Hf. unfold startQueuedPatchEditOperation, startHiddenPatchEditRead.
  intros H%open_hidden_ok. pose proof H as Hc.
  apply opened_settles in H as [A B C]; try done. apply opened_calls in Hc; try done.
  split; [done|intros _; by rewrite Hi, Hc|..].
  - intros _ Hs. apply B. intros key ops Hq _. by eapply Hs.
  - intros _ _. by apply C.
Qed.

Lemma queued_handled event op w w' :
  edits_wf w -> has_path (OpPayload op) -> invoked event = [TrimSpace (OpToolCallID op)] ->
  let key := TrimSpace (ResolvedPath (OpPayload op)) in
  in_flight key w ->
  same_edits (enqueuePatchEditOperation key op w) w' -> handled event w w'.
Proof.
  intros Hw Hp Hi key Hf Hs. assert (Hne : key <> EmptyString) by done.
  apply handled_pre with (w1 := w); [by split_and!|].
  unfold enqueuePatchEditOperation in Hs. assert (Ht : TrimSpace key = key) by apply TrimSpace_idem.
  rewrite Ht, decide_False in Hs by done. set (q := default [] _ ++ [op]) in Hs.
  set (w1 := w <| PatchEditQueues := _ |>) in Hs.
  assert (Hw1 : edits_wf w1).
  { apply queue_replaced_wf; try done; subst q.
    - by destruct (default [] _).
    - intros o. rewrite elem_of_app, list_elem_of_singleton. intros [Ho| ->]; [|done].
      destruct (PatchEditQueues w !! key) eqn:E; simpl in Ho; [|by apply not_elem_of_nil in Ho].
      by apply (wf_queue w Hw _ _ E). }
  assert (Hc : calls w1 ≡ₚ TrimSpace (OpToolCallID op) :: calls w).
  { unfold calls, queued_calls. change (finished w1) with (finished w).
    change (in_flight_calls w1) with (in_flight_calls w).
    change (PatchEditQueues w1) with (<[key := q]> (PatchEditQueues w)).
    rewrite !(Permutation_middle _ _ (TrimSpace (OpToolCallID op))). do 2 f_equiv. subst q.
    destruct (PatchEditQueues w !! key) as [ops|] eqn:E; cbn [default].
    - rewrite (bind_update _ _ _ _ _ E), (bind_delete _ _ _ _ E). cbn [snd].
      rewrite map_app. cbn [map]. rewrite <- app_assoc. cbn [app]. by rewrite <- Permutation_middle.
    - by rewrite (bind_insert _ _ _ _ E). }
  destruct Hs as (H1 & H2 & H3 & H4). split.
  - eapply same_edits_wf; [|exact Hw1]. by split_and!.
  - intros _. rewrite Hi, <- Hc. erewrite same_edits_calls by (by split_and!). done.
  - intros _ Hn k ops. unfold in_flight. rewrite H1, H2. cbn.
    rewrite lookup_insert. case_decide as Hk; [|apply Hn]. intros _ _. by subst k.
  - intros _ _ Hx. unfold exclusive. rewrite H1. exact Hx.
Qed.


Lemma finished_handled event tc payload result w u w' :
  edits_wf w -> invoked event = [TrimSpace tc] -> ~ valid_invocation event ->
  finishPatchEditOperation tc payload result w = (Ok u, w') -> handled event w w'.
Proof.
  intros Hw Hi Hv H%finish_ok. set (w1 := w <| finished := _ |>) in H.
  assert (Hw1 : edits_wf w1) by (destruct Hw as [A B C D]; split; done).
  assert (Hc : calls w1 ≡ₚ TrimSpace tc :: calls w).
  { unfold calls. change (finished w1) with (finished w ++ [(TrimSpace tc, result)]).
    rewrite fmap_app. cbn [fmap list_fmap fst]. rewrite <- app_assoc. cbn [app].
    by rewrite <- Permutation_middle. }
  destruct (decide (finish_key payload result = EmptyString)) as [E|E].
  - destruct H as [_ H1 H2 H3 H4|op rest w2 Hne]; [|done]. rewrite E, decide_True in H2 by done.
    assert (Hs : same_edits w1 w') by (by split_and!). split.
    + by eapply same_edits_wf.
    + intros _. by rewrite Hi, (same_edits_calls _ _ Hs), Hc.
    + intros _ Hn k ops. unfold in_flight. rewrite H1, H2. apply Hn.
    + intros _ Hv'. by destruct (Hv Hv').
  - pose proof (next_calls _ _ _ Hw1 E H) as Hc'. apply next_settles in H as [A B C]; try done.
    split; [done|intros _; by rewrite Hi, Hc', Hc|..].
    + intros _ Hn. apply B. intros k ops Hq _. exact (Hn k ops Hq ltac:(done)).
    + intros _ Hv'. by destruct (Hv Hv').
Qed.

Lemma invocation_handled pass invocation w u w' :
  edits_wf w -> handlePatchEditToolInvocation pass invocation w = (Ok u, w') ->
  handled (EventInvoke pass invocation) w w'.
Proof.
  intros Hw. unfold handlePatchEditToolInvocation.
  destruct (decodePatchEditArgs (Decoded invocation)) as [args [e|]] eqn:Ed; cbv zeta.
  - intros (w1 & Hs & H)%service_twice. eapply handled_pre; [exact Hs|].
    eapply finished_handled; [by eapply same_edits_wf|done| |exact H]. simpl. by rewrite Ed.
  - pose proof (decoded_path _ _ Ed) as Hp. set (path := TrimSpace (ArgPath args)) in *.
    intros (w1 & Hs & H)%service_twice. eapply handled_pre; [exact Hs|].
    assert (Hw1 : edits_wf w1) by (by eapply same_edits_wf). clear Hs Hw.
    assert (Ht : TrimSpace path = path) by apply TrimSpace_idem. clearbody path.
    revert H. unfold startOrQueuePatchEditOperation. set (op := mkOperation _ _ _ _ _ _ _). cbv zeta.
    assert (Hop : TrimSpace (ResolvedPath (OpPayload op)) = path) by done.
    unfold patchEditQueueKey. rewrite Hop.
    intros (w2 & w2' & H2 & H)%bind_ok. injection H2 as <- <-. revert H.
    rewrite bool_decide_eq_false_2 by done. cbn [negb andb].
    destruct (patchEditPathHasInFlightOperation path w1) eqn:Ef.
    + intros ([] & w3 & H3 & H)%bind_ok. injection H3 as <-. apply service_call_ok in H.
      eapply (queued_handled _ op); [done|unfold has_path; congruence|done| |].
      * rewrite Hop. by apply has_in_flight_spec.
      * by rewrite Hop.
    + intros H. eapply (started_handled _ op); [done|unfold has_path; congruence|done| |exact H].
      rewrite Hop. intros Hf. apply has_in_flight_spec in Hf; congruence.
Qed.

Lemma selected execID messageID w e :
  selectPendingExec execID messageID w = Some e -> exists id, PendingExecs w !! id = Some e.
Proof.
  unfold selectPendingExec. destruct (PendingExecs w !! TrimSpace execID) eqn:E.
  - intros [= <-]. by eexists.
  - case_match; [|done]. intros [Hf _]%find_some. apply in_map_iff in Hf as ([id x] & <- & Hf).
    apply list_elem_of_In, elem_of_map_to_list in Hf. by exists id.
Qed.

Lemma recovery_handled xid mid w id e u w' :
  edits_wf w -> PendingExecs w !! id = Some e ->
  recoverNonStreamingExecAfterStreamClose e w = (Ok u, w') -> handled (EventRecovery xid mid) w w'.
Proof.
  intros Hw He ([] & w1 & H1 & H)%bind_ok. injection H1 as <-. fold (removed w e) in H.
  assert (Hs : same_edits (removed w e) w').
  { destruct (service_twice _ _ _ _ H) as (w2 & S1 & H2).
    destruct (service_twice _ _ _ _ H2) as (w3 & S2 & H3). apply service_call_ok in H3.
    eapply same_edits_trans; [exact S1|]. by eapply same_edits_trans. }
  pose proof (removed_wf _ _ _ Hw He) as Hw1. split; [by eapply same_edits_wf|intros []..].
Qed.

Lemma event_handled event w u w' :
  edits_wf w -> handle_event event w = (Ok u, w') -> handled event w w'.
Proof.
  intros Hw. destruct event as [pass invocation|xid mid message|mid message|xid mid];
    [by apply invocation_handled|..]; unfold handle_event;
    intros (w1 & w1' & H1 & H)%bind_ok; injection H1 as <- <-.
  - destruct (selectPendingExec xid mid w) as [e|] eqn:Hsel; [|done].
    destruct (selected _ _ _ _ Hsel) as [id He].
    destruct (isHiddenPatchEditExecKind (ExecKind e)) eqn:Hk.
    + destruct (wf_exec w Hw _ _ He) as [Hid Hx]. destruct (Hx Hk) as (_ & payload & Hpl & Hp).
      eapply handled_moves; try done. eapply result_moves in H; [|done..].
      unfold keeps_path, removed. destruct H; [eapply moves_on|eapply moves_out]; try done; eauto.
    + injection H as _ <-. apply handled_same; [done|done|by split_and!].
  - destruct (selectPendingExec EmptyString mid w) as [e|] eqn:Hsel; [|done].
    destruct (selected _ _ _ _ Hsel) as [id He].
    destruct (isHiddenPatchEditExecKind (ExecKind e)) eqn:Hk.
    + destruct (wf_exec w Hw _ _ He) as [Hid Hx]. destruct (Hx Hk) as (_ & payload & Hpl & Hp).
      eapply control_moves in H as [H|[(f & -> & ->)|H]]; try done.
      * by apply handled_same.
      * rewrite Hid, He. by apply handled_closed.
      * by eapply handled_moves.
    + injection H as _ <-. apply handled_same; [done|done|by split_and!].
  - assert (Hsame : (Ok tt, w) = (Ok u, w') -> handled (EventRecovery xid mid) w w').
    { intros Hr. injection Hr as _ <-. apply handled_same; [done|done|by split_and!]. }
    destruct (snapshotPendingExec xid w) as [e|] eqn:Hsn; [|by apply Hsame].
    case_match; [by apply Hsame|]. case_match; [|by apply Hsame].
    unfold snapshotPendingExec in Hsn. case_decide; [done|]. by eapply recovery_handled; eauto.
Qed.

(** ** Traces *)

(** The streams that come of handling [events] without error from [w0]. *)
Inductive edits_run (good : PatchEditEvent -> World -> Prop) (w0 : World)
  : list PatchEditEvent -> World -> Prop :=
| run_start : edits_run good w0 [] w0
| run_event events w event u w' : edits_run good w0 events w -> good event w ->
    handle_event event w = (Ok u, w') -> edits_run good w0 (events ++ [event]) w'.

(** A stream that has not seen an edit; the identifiers it will draw are distinct. *)
Definition initial (calls : list (result unit)) (execs : list (result (Z * string))) : World :=
  mkWorld empty empty [] [] calls execs.

Definition distinct_ids (execs : list (result (Z * string))) : Prop :=
  NoDup (fresh_ids (initial [] execs)).

Lemma initial_wf cs execs : distinct_ids execs -> edits_wf (initial cs execs).
Proof. intros H. split; try done; intros *; cbn; by rewrite lookup_empty. Qed.

Lemma run_wf good cs execs events w :
  distinct_ids execs -> edits_run good (initial cs execs) events w -> edits_wf w.
Proof.
  intros Hd. induction 1 as [|events w event u w' _ IH _ He]; [by apply initial_wf|].
  by eapply event_handled in He as [A _ _ _].
Qed.

(** ** An edit from its call to its result *)

Fixpoint handle_events (events : list PatchEditEvent) : SE World unit :=
  match events with
  | [] => ret tt
  | event :: events => handle_event event ;;; handle_events events
  end.

(** The exec that [open_hidden_exec] registers. *)
Definition hidden_exec (ids : Z * string) (tc mc : string) (pass : Z) (rc rs rss kind : string)
    (payload : pendingPatchEditPayload) : PendingExec :=
  mkExec ids.1 ids.2 pass (TrimSpace mc) (TrimSpace tc) rc (TrimSpace rs) (TrimSpace rss) kind
    "opened" (Ok (stored_payload payload)).

Lemma open_step P Q f o ids rest tc mc pass rc rs rss kind request payload :
  open_hidden_exec tc mc pass rc rs rss kind request payload (mkWorld P Q f o [] (Ok ids :: rest)) =
  (Ok tt, mkWorld (<[ids.2 := hidden_exec ids tc mc pass rc rs rss kind payload]> P) Q f
            (o ++ [(ids.2, TrimSpace tc, request)]) [] rest).
Proof. done. Qed.

(** The event of an exec reaches its handler, the exec being removed first. *)
Lemma result_step id mid P Q f o ids rest e payload message kind :
  ExecID e = id -> TrimSpace id = id -> P !! id = None -> ExecKind e = kind ->
  ExecPayload e = Ok payload -> TrimSpace kind = kind -> isHiddenPatchEditExecKind kind = true ->
  handle_event (EventResult id mid message) (mkWorld (<[id := e]> P) Q f o ids rest) =
  (if decide (kind = patchEditReadExecKindName) then handle_read_result e payload message
   else if decide (kind = patchEditWriteExecKindName) then handle_write_result e payload message
   else handle_post_read_result e payload message) (mkWorld P Q f o ids rest).
Proof.
  intros He Hid Hn Hk Hp Ht Hh. unfold handle_event, bind, get, selectPendingExec. cbn [PendingExecs].
  rewrite Hid, lookup_insert_eq, Hk, Hh. unfold handleHiddenPatchEditExecResult.
  rewrite Hp, Hk, Ht. cbv zeta.
  assert (Hm : forall k : SE World unit, (markExecCompleted e ;;; k)
    (mkWorld (<[id := e]> P) Q f o ids rest) = k (mkWorld P Q f o ids rest)).
  { intros k. unfold markExecCompleted, bind, update. rewrite He. cbn. by rewrite delete_insert_id. }
  repeat case_decide; try apply Hm. exfalso. unfold isHiddenPatchEditExecKind in Hh.
  rewrite Ht, bool_decide_eq_true in Hh. set_solver.
Qed.

Lemma finish_step P Q f o rest tc payload result path :
  TrimSpace (ResolvedPath payload) = path -> path <> EmptyString -> Q !! path = None ->
  finishPatchEditOperation tc payload result (mkWorld P Q f o [] rest) =
  (Ok tt, mkWorld P Q (f ++ [(TrimSpace tc, result)]) o [] rest).
Proof.
  intros Hp Hne HQ. unfold finishPatchEditOperation. cbv zeta.
  rewrite firstNonEmpty_head by congruence. rewrite Hp.
  unfold bind, service_call, update. cbn. unfold takeNextQueuedPatchEditOperation, patchEditQueueKey.
  rewrite <- Hp, TrimSpace_idem, Hp, decide_False by done. cbn. rewrite HQ. cbn.
  by rewrite delete_id.
Qed.

Lemma normalize_lf_idem text : normalize_lf (normalize_lf text) = normalize_lf text.
Proof. unfold normalize_lf. by rewrite bytes_of_string_of, !normalize_norm, norm_norm. Qed.

(** Storing a payload or normalising the file again changes nothing for the computation. *)
Lemma compute_args payload payload' content :
  Args payload' = Args payload ->
  computePatchEdit (stored_payload payload') (normalize_lf content) = computePatchEdit payload content.
Proof.
  intros E. unfold computePatchEdit, stored_payload.
  change (Args (payload' <| Args := ?a |>)) with a. rewrite E. cbn [OldString NewString ReplaceAll_ stored_args].
  unfold normalize_lf. rewrite !bytes_of_string_of, !normalize_norm, !norm_norm. done.
Qed.

(** The payload carries the computation [c] for [path]. *)
Record carries (path : string) (c : editComputation) (payload : pendingPatchEditPayload) : Prop := {
  carries_path : ResolvedPath payload = path;
  carries_before : Before payload = BeforeContent c;
  carries_after : After payload = AfterContent c;
  carries_diff : Diff_ payload = ComputedDiff c;
  carries_added : Added payload = ComputedAdded c;
  carries_removed : Removed payload = ComputedRemoved c;
  carries_message : Message_ payload = ComputedMessage c
}.

Definition computed_result (path : string) (c : editComputation) : EditResult :=
  buildSuccessfulEditResult path (BeforeContent c) (AfterContent c) (ComputedDiff c)
    (ComputedAdded c) (ComputedRemoved c) (ComputedMessage c).

(** The client answers for [path]: it reports that path, or none. *)
Definition answers (reported path : string) : Prop :=
  TrimSpace reported = EmptyString \/ TrimSpace reported = path.

Lemma answered_path reported path vs :
  answers reported path -> TrimSpace path = path -> path <> EmptyString ->
  firstNonEmpty (TrimSpace reported :: path :: vs) = path.
Proof.
  intros [H|H] Ht Hne; rewrite H.
  - rewrite firstNonEmpty_skip by done. rewrite firstNonEmpty_head by congruence. done.
  - rewrite firstNonEmpty_head by congruence. done.
Qed.

Lemma observe_step path c payload reported content :
  carries path c payload -> answers reported path -> TrimSpace path = path -> path <> EmptyString ->
  content = EmptyString \/ content = AfterContent c ->
  exists payload', observe_write payload reported content = (payload', true) /\ carries path c payload'.
Proof.
  intros [H1 H2 H3 H4 H5 H6 H7] Ha Ht Hne Hc. unfold observe_write. cbv zeta.
  rewrite H1, Ht, answered_path by done.
  destruct (decide (content = EmptyString)) as [|Hn]; [eexists; split; [reflexivity|by split]|].
  destruct Hc as [|Hc]; [done|]. unfold reconcilePatchEditObservedContent.
  change (After (payload <| ResolvedPath := path |>)) with (After payload).
  rewrite Hc, H3, decide_True by done. cbn [negb]. rewrite decide_True by done.
  eexists. split; [reflexivity|]. by split.
Qed.

Lemma read_step e payload0 payload success file wr c P Q f o ids rest :
  Args payload0 = Args payload -> norm (bytes_of (OldString (Args payload))) <> [] ->
  computePatchEdit payload file = Ok c ->
  ReadTruncated success = false -> ReadOutput_ success = ReadSuccessContent file ->
  exists payload', carries (ResolvedPath payload0) c payload' /\
  handle_read_result e (stored_payload payload0) (mkMessage (Some (ReadResultSuccess success)) wr)
    (mkWorld P Q f o [] (Ok ids :: rest)) =
  (Ok tt, mkWorld (<[ids.2 := hidden_exec ids (ToolCallID e) (ModelCallID e) (ProviderPass e)
                      (ReasoningContent e) (ReasoningSignature e) (ReasoningSignatureSource e)
                      patchEditWriteExecKindName payload']> P) Q f
            (o ++ [(ids.2, TrimSpace (ToolCallID e),
                    RequestWrite (TrimSpace (ResolvedPath payload0)) (AfterContent c))]) [] rest).
Proof.
  intros Ha Hold Hc Ht Ho. unfold handle_read_result. cbv zeta. cbn [GetReadResult].
  unfold extractCompleteReadContentForPatchEdit. rewrite Ht, Ho. unfold startHiddenPatchEditWrite.
  rewrite (compute_args _ _ _ Ha), Hc. cbv zeta. rewrite open_step.
  assert (E : string_of (preparePatchEditWriteContentsForClient (bytes_of (AfterContent c))) = AfterContent c).
  { rewrite prepare_patch_edit, norm_no_cr, string_of_bytes_of; [done|].
    revert Hc. unfold computePatchEdit. cbv zeta. case_decide as H0; [done|].
    case_match; [done|]. destruct (computeEditDiff _ _ _) as [[d x] y]. intros [= <-].
    cbn [AfterContent]. rewrite bytes_of_string_of, !normalize_norm in *.
    apply replace_no_byte; [done|apply norm_result_no_cr..]. }
  rewrite E. eexists. split; [|reflexivity]. by split.
Qed.

Lemma write_step e payload c path reported content rr P Q f o ids rest :
  carries path c payload -> answers reported path -> TrimSpace path = path -> path <> EmptyString ->
  content = EmptyString \/ content = AfterContent c ->
  exists payload', carries path c payload' /\
  handle_write_result e payload (mkMessage rr (Some (WriteResultSuccess reported content)))
    (mkWorld P Q f o [] (Ok ids :: rest)) =
  (Ok tt, mkWorld (<[ids.2 := hidden_exec ids (ToolCallID e) (ModelCallID e) (ProviderPass e)
                      (ReasoningContent e) (ReasoningSignature e) (ReasoningSignatureSource e)
                      patchEditPostReadExecKindName payload']> P) Q f
            (o ++ [(ids.2, TrimSpace (ToolCallID e), RequestRead path)]) [] rest).
Proof.
  intros Hcar Ha Ht Hne Hc.
  destruct (observe_step _ _ _ _ _ Hcar Ha Ht Hne Hc) as (payload' & Ho & [H1 H2 H3 H4 H5 H6 H7]).
  unfold handle_write_result. cbn [GetWriteResult]. rewrite Ho. cbn [negb].
  unfold startHiddenPatchEditPostRead. rewrite open_step. exists (setPatchEditPayloadPath (ResolvedPath payload') payload').
  split; [by split|].
  change (ResolvedPath (setPatchEditPayloadPath ?p payload')) with (ResolvedPath payload').
  by rewrite H1, Ht.
Qed.

Lemma post_read_step e payload c path success wr P Q f o rest :
  carries path c payload -> answers (ReadPath success) path -> TrimSpace path = path ->
  path <> EmptyString -> Q !! path = None ->
  extractReadContentForEdit (ReadResultSuccess success) = (AfterContent c, true) ->
  handle_post_read_result e payload (mkMessage (Some (ReadResultSuccess success)) wr)
    (mkWorld P Q f o [] rest) =
  (Ok tt, mkWorld P Q (f ++ [(TrimSpace (ToolCallID e), computed_result path c)]) o [] rest).
Proof.
  intros [H1 H2 H3 H4 H5 H6 H7] Ha Ht Hne HQ Hx. unfold handle_post_read_result. cbv zeta.
  cbn [GetReadResult]. rewrite Hx. cbn [negb]. rewrite H1, answered_path by done.
  set (payload' := setPatchEditPayloadPath path (payload <| ResolvedPath := path |>)).
  unfold reconcilePatchEditObservedContent.
  change (After payload') with (After payload). rewrite H3, decide_True by done. cbn [negb].
  rewrite (finish_step _ _ _ _ _ _ _ _ path) by done. do 4 f_equal.
  unfold final_success, buildFinalEditSuccessResult, computed_result. f_equal.
  change (patchEditPayloadAsEditPayload payload') with (patchEditPayloadAsEditPayload payload).
  cbn [PayloadAfter PayloadDiff PayloadAdded PayloadRemoved PayloadBefore PayloadMessage patchEditPayloadAsEditPayload].
  rewrite H3, decide_True by done. rewrite H2, H4, H5, H6, H7. done.
Qed.

Lemma norm_nil s : norm s = [] -> s = [].
Proof.
  revert s. apply (norm_ind (fun s => norm s = [] -> s = [])); try done.
  - intros s Hs _. by rewrite norm_cr.
  - intros c s Hc _. by rewrite norm_other.
Qed.

Lemma decoded_old raw args :
  decodePatchEditArgs raw = (args, None) -> norm (bytes_of (OldString args)) <> [].
Proof.
  unfold decodePatchEditArgs. destruct raw as [m|e]; [|done]. cbv zeta.
  destruct (readJSONStringAny m ["path"; "file_path"; "Path"; "FilePath"]) as [[path pf] pv].
  destruct (readJSONStringAny m ["old_string"; "oldString"; "OldString"]) as [[o of'] ov].
  destruct (readJSONStringAny m ["new_string"; "newString"; "NewString"]) as [[n nf] nv].
  destruct (readJSONBoolAny m ["replace_all"; "replaceAll"; "ReplaceAll"]) as [[r rf] rv].
  intros H. injection H as <- H. cbn [OldString]. unfold normalize_lf.
  rewrite bytes_of_string_of, normalize_norm, norm_norm. intros E%norm_nil.
  assert (o = EmptyString) by (by destruct o).
  destruct (pf && negb pv); [done|]. case_decide; [done|]. case_match; [done|].
  destruct (of' && negb ov); [done|]. rewrite (bool_decide_eq_true_2 _) in H by done.
  by rewrite orb_true_r in H.
Qed.

Lemma invoke_step P Q f o ids rest pass invocation args :
  decodePatchEditArgs (Decoded invocation) = (args, None) ->
  ~ in_flight (TrimSpace (ArgPath args)) (mkWorld P Q f o [] (Ok ids :: rest)) ->
  exists payload e,
    Args payload = args <| ArgPath := TrimSpace (ArgPath args) |> /\
    ResolvedPath payload = TrimSpace (ArgPath args) /\
    ExecID e = ids.2 /\ ToolCallID e = TrimSpace (CallID invocation) /\
    ExecKind e = patchEditReadExecKindName /\ ExecPayload e = Ok (stored_payload payload) /\
    handle_event (EventInvoke pass invocation) (mkWorld P Q f o [] (Ok ids :: rest)) =
    (Ok tt, mkWorld (<[ids.2 := e]> P) Q f
       (o ++ [(ids.2, TrimSpace (CallID invocation), RequestRead (TrimSpace (ArgPath args)))]) [] rest).
Proof.
  intros Hd Hf. pose proof (decoded_path _ _ Hd) as Hp.
  unfold handle_event, handlePatchEditToolInvocation. rewrite Hd. cbv zeta.
  set (w := mkWorld P Q f o [] (Ok ids :: rest)) in *.
  set (path := TrimSpace (ArgPath args)) in *. set (payload := mkPayload _ _ _ _ _ _ _ _ _ _ _).
  assert (Ht : TrimSpace path = path) by apply TrimSpace_idem.
  assert (Hb : patchEditPathHasInFlightOperation path w = false).
  { destruct (patchEditPathHasInFlightOperation path w) eqn:E; [|done].
    destruct Hf. by apply has_in_flight_spec in E. }
  exists payload, (hidden_exec ids (CallID invocation) (InvModelCallID invocation) pass
    (InvReasoningContent invocation) (InvReasoningSignature invocation)
    (InvReasoningSignatureSource invocation) patchEditReadExecKindName payload).
  split_and!; try done. unfold startOrQueuePatchEditOperation. cbv zeta. set (op := mkOperation _ _ _ _ _ _ _).
  assert (Hk : patchEditQueueKey (ResolvedPath (OpPayload op)) = path) by exact Ht.
  rewrite Hk. rewrite bool_decide_eq_false_2 by done. cbn [negb andb].
  unfold bind at 1 2 3. unfold service_call. cbn [env_calls w get].
  unfold get. cbv beta iota. rewrite Hb. unfold w, startQueuedPatchEditOperation, startHiddenPatchEditRead.
  rewrite open_step. change (ResolvedPath (OpPayload op)) with path. by rewrite Ht.
Qed.

(** ** Cancellation *)

Definition call_of (e : PendingExec) : list string :=
  if isHiddenPatchEditExecKind (ExecKind e) then [ToolCallID e] else [].

Definition complete_exec (P : gmap string PendingExec) (e : PendingExec) : gmap string PendingExec :=
  if isHiddenPatchEditExecKind (ExecKind e) then delete (ExecID e) P else P.

Definition exec_ok (e : PendingExec) : Prop :=
  isHiddenPatchEditExecKind (ExecKind e) = true -> TrimSpace (ToolCallID e) = ToolCallID e /\
  exists payload, ExecPayload e = Ok payload /\ has_path payload.

Lemma complete_one e P f o rest :
  exec_ok e -> exists rs, rs.*1 = call_of e /\
  completePendingEditAfterCancel e (mkWorld P empty f o [] rest) =
  (Ok tt, mkWorld (complete_exec P e) empty (f ++ rs) o [] rest).
Proof.
  intros Hok. unfold completePendingEditAfterCancel, call_of, complete_exec.
  destruct (isHiddenPatchEditExecKind (ExecKind e)) eqn:Hk; cbn [negb];
    [|exists []; by rewrite app_nil_r].
  destruct (Hok Hk) as (Ht & payload & -> & Hp).
  assert (Hf : forall result, finishPatchEditOperation (ToolCallID e) payload result
    (mkWorld (delete (ExecID e) P) empty f o [] rest) =
    (Ok tt, mkWorld (delete (ExecID e) P) empty (f ++ [(ToolCallID e, result)]) o [] rest)).
  { intros result. rewrite <- Ht at 2.
    by apply (finish_step _ _ _ _ _ _ _ _ (TrimSpace (ResolvedPath payload))). }
  erewrite bind_step by reflexivity. case_decide; eexists; (split; [|apply Hf]); done.
Qed.

Lemma complete_all_step l P f o rest :
  Forall exec_ok l -> exists rs, rs.*1 = l ≫= call_of /\
  complete_all l (mkWorld P empty f o [] rest) =
  (Ok tt, mkWorld (fold_left complete_exec l P) empty (f ++ rs) o [] rest).
Proof.
  intros Hl. revert P f. induction Hl as [|e l He _ IH]; intros P f.
  - exists []. by rewrite app_nil_r.
  - destruct (complete_one e P f o rest He) as (r1 & H1 & E1).
    destruct (IH (complete_exec P e) (f ++ r1)) as (r2 & H2 & E2).
    exists (r1 ++ r2). rewrite fmap_app, H1, H2. split; [done|].
    cbn [complete_all fold_left]. rewrite (bind_step _ _ _ _ _ E1), E2. by rewrite app_assoc.
Qed.

Lemma completed_lookup l P id e :
  Forall (fun e => P !! ExecID e = Some e \/ P !! ExecID e = None) l ->
  fold_left complete_exec l P !! id = Some e <->
  P !! id = Some e /\ ~ exists e', e' ∈ l /\ isHiddenPatchEditExecKind (ExecKind e') = true /\ ExecID e' = id.
Proof.
  revert P. induction l as [|x l IH]; intros P Hl; cbn [fold_left].
  - split; [intros H; split; [done|intros (e' & H' & _); by apply not_elem_of_nil in H']|by intros [H _]].
  - apply Forall_cons in Hl as [Hx Hl]. rewrite IH; unfold complete_exec.
    + destruct (isHiddenPatchEditExecKind (ExecKind x)) eqn:Hk.
      * rewrite lookup_delete_Some. split.
        -- intros [[Hne HP] Hn]. split; [done|]. intros (e' & [->|He']%elem_of_cons & H1 & H2);
             [done|]. apply Hn. by exists e'.
        -- intros [HP Hn]. split; [split; [|done]|].
           ++ intros E. apply Hn. exists x. split; [left|done].
           ++ intros (e' & H1 & H2). apply Hn. exists e'. split; [by right|done].
      * split; intros [HP Hn]; (split; [done|]); intros (e' & H1 & H2 & H3); apply Hn.
        -- apply elem_of_cons in H1 as [->|H1]; [congruence|by exists e'].
        -- exists e'. split; [by right|done].
    + case_match; [|done]. eapply Forall_impl; [exact Hl|]. intros y [Hy|Hy].
      * destruct (decide (ExecID x = ExecID y)) as [->|]; [right; apply lookup_delete_eq|].
        left. by rewrite lookup_delete_ne.
      * right. apply lookup_delete_None. by right.
Qed.

(** ** Properties *)


(** when the client answers before it closes an exec, and for the path it was asked about, a
    queued edit always has an edit of the same path in flight, whose end starts it. *)
Theorem queued_edits_not_stranded cs execs events w :
  distinct_ids execs -> edits_run keeps_path (initial cs execs) events w ->
  forall key ops, PatchEditQueues w !! key = Some ops -> ops <> [] /\ in_flight key w.
Proof.
  intros Hd Hr key ops Hq. pose proof (run_wf _ _ _ _ _ Hd Hr) as Hw.
  split; [by destruct (wf_queue w Hw _ _ Hq) as (_ & ? & _)|].
  assert (Hn : no_stranded w); [|by eapply Hn].
  clear Hw Hq. induction Hr as [|events w event u w' Hr IH Hg He].
  - intros k o. cbn. by rewrite lookup_empty.
  - eapply event_handled in He as [_ _ Hs _]; [by apply Hs|by eapply run_wf].
Qed.

(** when moreover every call has valid arguments, at most one edit of a path is in flight:
    no edit reads a file that another is about to write. *)
Theorem one_edit_per_path cs execs events w :
  distinct_ids execs ->
  edits_run (fun event w => keeps_path event w /\ valid_invocation event) (initial cs execs) events w ->
  forall key id1 id2 e1 e2, PendingExecs w !! id1 = Some e1 -> PendingExecs w !! id2 = Some e2 ->
    exec_key e1 = Some key -> exec_key e2 = Some key -> id1 = id2.
Proof.
  intros Hd Hr. assert (Hx : exclusive w); [|intros *; by apply Hx].
  induction Hr as [|events w event u w' Hr IH [Hk Hv] He].
  - intros ? ? ? ? ?. cbn. by rewrite lookup_empty.
  - eapply event_handled in He as [_ _ _ Hx]; [by apply Hx|by eapply run_wf].
Qed.

(** C6: an edit runs from its call to its result.  On a path with no edit in flight or queued,
    with the services up, a call with valid arguments asks for the file, writes what
    [computePatchEdit] makes of the content it was given, reads it back, and finishes with
    exactly that computation as its result; nothing of it is left behind. *)
Theorem edit_runs_to_its_result P Q f o m1 i1 m2 i2 m3 i3 n1 n2 n3 rest pass invocation args payload
    c success reported content success' :
  let path := TrimSpace (ArgPath args) in
  let w := mkWorld P Q f o [] (Ok (m1, i1) :: Ok (m2, i2) :: Ok (m3, i3) :: rest) in
  let call := TrimSpace (CallID invocation) in
  Forall (fun i => TrimSpace i = i /\ P !! i = None) [i1; i2; i3] ->
  ~ in_flight path w -> Q !! path = None ->
  decodePatchEditArgs (Decoded invocation) = (args, None) -> Args payload = args ->
  ReadTruncated success = false ->
  (exists file, ReadOutput_ success = ReadSuccessContent file /\ computePatchEdit payload file = Ok c) ->
  answers reported path -> content = EmptyString \/ content = AfterContent c ->
  answers (ReadPath success') path ->
  extractReadContentForEdit (ReadResultSuccess success') = (AfterContent c, true) ->
  handle_events [EventInvoke pass invocation;
                 EventResult i1 n1 (mkMessage (Some (ReadResultSuccess success)) None);
                 EventResult i2 n2 (mkMessage None (Some (WriteResultSuccess reported content)));
                 EventResult i3 n3 (mkMessage (Some (ReadResultSuccess success')) None)] w =
  (Ok tt, mkWorld P Q (f ++ [(call, computed_result path c)])
            (o ++ [(i1, call, RequestRead path); (i2, call, RequestWrite path (AfterContent c));
                   (i3, call, RequestRead path)]) [] rest).
Proof.
  intros path w call Hi Hf HQ Hd Hargs Htr (file & Hout & Hc) Ha2 Hcont Ha3 Hx.
  apply Forall_cons in Hi as [[T1 N1] Hi]. apply Forall_cons in Hi as [[T2 N2] Hi].
  apply Forall_cons in Hi as [[T3 N3] _].
  assert (Ht : TrimSpace path = path) by apply TrimSpace_idem.
  assert (Hne : path <> EmptyString) by exact (decoded_path _ _ Hd).
  assert (Hcall : TrimSpace call = call) by apply TrimSpace_idem.
  destruct (invoke_step P Q f o (m1, i1) (Ok (m2, i2) :: Ok (m3, i3) :: rest) pass invocation args Hd Hf)
    as (p0 & e1 & A1 & A2 & A3 & A4 & A5 & A6 & S1).
  fold path in A2. fold call in A4. cbn [snd] in A3, S1. fold path call in S1.
  set (pl := payload <| Args := args <| ArgPath := path |> |>).
  assert (Hpl : computePatchEdit pl file = Ok c) by (rewrite <- Hc; unfold pl; rewrite <- Hargs; reflexivity).
  destruct (read_step e1 p0 pl success file None c P Q f (o ++ [(i1, call, RequestRead path)])
    (m2, i2) (Ok (m3, i3) :: rest) A1 (decoded_old _ _ Hd) Hpl Htr Hout) as (p1 & B1 & S2).
  set (e2 := hidden_exec _ _ _ _ _ _ _ _ p1) in S2.
  rewrite A4, Hcall, A2, Ht in S2. cbn [snd] in S2.
  assert (E2 : ToolCallID e2 = call) by (cbn; by rewrite A4).
  assert (C1 : carries path c (stored_payload p1)) by (rewrite A2 in B1; destruct B1; by split).
  destruct (write_step e2 (stored_payload p1) c path reported content None P Q f
    ((o ++ [(i1, call, RequestRead path)]) ++ [(i2, call, RequestWrite path (AfterContent c))])
    (m3, i3) rest C1 Ha2 Ht Hne Hcont) as (p2 & B2 & S3).
  set (e3 := hidden_exec _ _ _ _ _ _ _ _ p2) in S3.
  rewrite E2, Hcall in S3. cbn [snd] in S3.
  assert (E3 : ToolCallID e3 = call) by (cbn; by rewrite A4, !Hcall).
  assert (C2 : carries path c (stored_payload p2)) by (destruct B2; by split).
  pose proof (post_read_step e3 (stored_payload p2) c path success' None P Q f
    (((o ++ [(i1, call, RequestRead path)]) ++ [(i2, call, RequestWrite path (AfterContent c))]) ++
     [(i3, call, RequestRead path)]) rest C2 Ha3 Ht Hne HQ Hx) as S4. rewrite E3, Hcall in S4.
  cbn [handle_events]. rewrite (bind_step _ _ _ _ _ S1).
  erewrite bind_step; [|rewrite (result_step i1 n1 _ _ _ _ _ _ _ _ _ _ A3 T1 N1 A5 A6 eq_refl eq_refl); exact S2].
  erewrite bind_step; [|rewrite (result_step i2 n2 P Q f _ _ _ e2 (stored_payload p1) _ _ eq_refl T2 N2 eq_refl eq_refl eq_refl eq_refl); exact S3].
  erewrite bind_step; [|rewrite (result_step i3 n3 P Q f _ _ _ e3 (stored_payload p2) _ _ eq_refl T3 N3 eq_refl eq_refl eq_refl eq_refl); exact S4].
  unfold ret. by rewrite <- !app_assoc.
Qed.

(** C29: an edit without replace_all succeeds exactly when its (normalised) old string occurs, and
    not twice side by side; it then replaces the leftmost occurrence and nothing else.  With
    replace_all it replaces the leftmost one and goes on after it. *)
Theorem compute_patch_edit_spec payload beforeContent :
  let before := normalizeLineEndingsToLF (bytes_of beforeContent) in
  let old := normalizeLineEndingsToLF (bytes_of (OldString (Args payload))) in
  let new := normalizeLineEndingsToLF (bytes_of (NewString (Args payload))) in
  old <> [] ->
  match computePatchEdit payload beforeContent with
  | Ok c =>
      bytes_of (BeforeContent c) = before /\
      exists a r, before = a ++ old ++ r /\
        (forall a' r', before = a' ++ old ++ r' -> (length a <= length a')%nat) /\
        if ReplaceAll_ (Args payload)
        then bytes_of (AfterContent c) = a ++ new ++ Strings.ReplaceAll r old new
        else bytes_of (AfterContent c) = a ++ new ++ r /\ forall a' r', r <> a' ++ old ++ r'
  | Err _ =>
      (forall a r, before <> a ++ old ++ r) \/
      ReplaceAll_ (Args payload) = false /\
      exists a b r, before = a ++ old ++ b ++ old ++ r
  end.
Proof.
  intros before old new Hold. unfold computePatchEdit. fold before old new. cbv zeta.
  case_decide as H0; [left; by apply Count_0|].
  destruct (first_match old Hold before) as (a & r & H1 & H2 & H3 & H4); [lia|].
  destruct ((1 <? Count before old)%nat && negb (ReplaceAll_ (Args payload))) eqn:E.
  - right. apply andb_true_iff in E as [E1%Nat.ltb_lt E2%negb_true_iff]. split; [done|].
    rewrite H2 in E1. destruct (first_match old Hold r) as (a' & r' & H5 & _); [lia|].
    exists a, a', r'. by rewrite H1, H5.
  - destruct (computeEditDiff _ _ _) as [[d x] y]. cbn [BeforeContent AfterContent].
    rewrite !bytes_of_string_of. split; [done|]. exists a, r. split; [done|]. split; [done|].
    destruct (ReplaceAll_ (Args payload)).
    + by rewrite H4.
    + rewrite H4 by done. cbn [fmap option_fmap option_map Nat.pred]. rewrite Replace_0. split; [done|].
      apply Count_0; [done|]. rewrite andb_true_r in E. apply Nat.ltb_ge in E. lia.
Qed.

(** cancelling the request completes its edits.  The services being up, whatever the order in
    which the pending execs are visited: it returns, the execs of the edits are gone and the
    others untouched, the edits in flight are finished, each once, and nothing is opened, since
    the queues are dropped first (their calls get no result). *)
Theorem cancel_completes_edits order w :
  edits_wf w -> env_calls w = [] -> order ≡ₚ map snd (map_to_list (PendingExecs w)) ->
  exists w', cancel_edits order w = (Ok tt, w') /\
    (forall id e, PendingExecs w' !! id = Some e <->
       PendingExecs w !! id = Some e /\ isHiddenPatchEditExecKind (ExecKind e) = false) /\
    (finished w').*1 ≡ₚ (finished w).*1 ++ in_flight_calls w /\
    PatchEditQueues w' = empty /\ opened w' = opened w.
Proof.
  intros Hw Hc Ho. destruct w as [P Q f o cs rest]. cbn in Hc, Ho |- *. subst cs.
  assert (Hin : forall e, e ∈ order <-> P !! ExecID e = Some e).
  { intros e. rewrite Ho, list_elem_of_In, in_map_iff. split.
    - intros ([id e'] & <- & H). apply list_elem_of_In, elem_of_map_to_list in H.
      cbn [snd]. by destruct (wf_exec _ Hw _ _ H) as [-> _].
    - intros H. exists (ExecID e, e). split; [done|]. by apply list_elem_of_In, elem_of_map_to_list. }
  destruct (complete_all_step order P f o rest) as (rs & Hrs & E).
  { apply Forall_forall. intros e He%Hin Hk. destruct (wf_exec _ Hw _ _ He) as [_ H]. by apply H. }
  eexists. split; [exact E|].
  cbn [PendingExecs finished PatchEditQueues opened]. split; [|split; [|done]].
  - intros id e. rewrite completed_lookup by (apply Forall_forall; intros x Hx%Hin; by left).
    split; intros [H1 H2]; (split; [done|]); destruct (wf_exec _ Hw _ _ H1) as [Hid _].
    + destruct (isHiddenPatchEditExecKind (ExecKind e)) eqn:Hk; [|done]. destruct H2. exists e.
      split; [|done]. apply Hin. by rewrite Hid.
    + intros (e' & He'%Hin & Hk & Hi). rewrite Hi in He'. congruence.
  - rewrite fmap_app, Hrs. apply Permutation_app_head. rewrite Ho. unfold in_flight_calls. cbn.
    clear. induction (map_to_list P) as [|[id e] l IH]; [done|].
    change (map snd ((id, e) :: l)) with (e :: map snd l). rewrite !bind_cons, IH. done.
Qed.

End PatchEdit.

(** ** Witnesses and counterexamples *)

Module Demo.

Definition diffs : bytes -> bytes -> list Diff := EditText.Demo.whole_diff.

Definition call_args (old new : string) : gmap string JsonValue :=
  list_to_map [("path", JString "/a"); ("old_string", JString old); ("new_string", JString new)].

Definition invoke (id old new : string) : PatchEditEvent :=
  EventInvoke 1 (mkInvocation id EmptyString EmptyString EmptyString EmptyString EmptyString
                   (Ok (call_args old new))).

(** A call whose new_string is missing. *)
Definition invoke_invalid (id : string) : PatchEditEvent :=
  EventInvoke 1 (mkInvocation id EmptyString EmptyString EmptyString EmptyString EmptyString
    (Ok (list_to_map [("path", JString "/a"); ("old_string", JString "x")]))).

Definition read_of (path content : string) : ReadSuccess :=
  mkReadSuccess path false (ReadSuccessContent content) None.

Definition read_at (path id content : string) : PatchEditEvent :=
  EventResult id 0 (mkMessage (Some (ReadResultSuccess (read_of path content))) None).

Definition written_at (path id : string) : PatchEditEvent :=
  EventResult id 0 (mkMessage None (Some (WriteResultSuccess path EmptyString))).

Definition ids : list (result (Z * string)) :=
  [Ok (1, "i1"); Ok (2, "i2"); Ok (3, "i3"); Ok (4, "i4"); Ok (5, "i5"); Ok (6, "i6")].

Lemma ids_distinct : distinct_ids ids.
Proof. apply (bool_decide_unpack _). vm_compute. exact I. Qed.

Definition run (events : list PatchEditEvent) : result unit * World :=
  handle_events diffs events (initial [] ids).

(** What finished, and with which content when it did so with success. *)
Definition outcomes (w : World) : list (string * option string) :=
  map (fun r => (r.1, match r.2 with
                      | EditResultSuccess s => Some (AfterFullFileContent s)
                      | _ => None
                      end)) (finished w).

Definition writes (w : World) : list (string * string) :=
  omap (fun o => match o.2 with
                 | RequestWrite _ contents => Some (o.1.2, contents)
                 | RequestRead _ => None
                 end) (opened w).

Example two_edits :
  let events := [invoke "A" "x" "1"; invoke "B" "z" "2"; read_at "/a" "i1" "xz"; written_at "/a" "i2";
                 read_at "/a" "i3" "1z"; read_at "/a" "i4" "1z"; written_at "/a" "i5";
                 read_at "/a" "i6" "12"] in
  (run events).1 = Ok tt /\ outcomes (run events).2 = [("A", Some "1z"); ("B", Some "12")] /\
  writes (run events).2 = [("A", "1z"); ("B", "12")] /\
  map_to_list (PendingExecs (run events).2) = [] /\ map_to_list (PatchEditQueues (run events).2) = [].
Proof. vm_compute. split_and!; reflexivity. Qed.

End Demo.

(** a PatchEdit call that is refused for its arguments, but names a path, ends the turn of
    the path's queue: it starts the next queued edit although one is in flight.  The two edits
    work on the same content, both report success, and the first one is lost from the file. *)
Theorem refused_call_breaks_the_queue :
  let events := [Demo.invoke "A" "x" "1"; Demo.invoke "B" "z" "2"; Demo.invoke_invalid "C";
                 Demo.read_at "/a" "i1" "xz"; Demo.read_at "/a" "i2" "xz";
                 Demo.written_at "/a" "i3"; Demo.read_at "/a" "i5" "1z";
                 Demo.written_at "/a" "i4"; Demo.read_at "/a" "i6" "x2"] in
  let '(r, w) := Demo.run events in
  r = Ok tt /\
  Demo.outcomes w = [("C", None); ("A", Some "1z"); ("B", Some "x2")] /\
  Demo.writes w = [("A", "1z"); ("B", "x2")] /\
  (let w3 := (Demo.run (take 3 events)).2 in
   map (fun kv => exec_key kv.2) (map_to_list (PendingExecs w3)) = [Some "/a"; Some "/a"]).
Proof. vm_compute. split_and!; reflexivity. Qed.

(** when the client reports the edited file under another path than it was asked for (a
    resolved link, another spelling), the edit that waits for the asked path is never started:
    nothing is in flight any more, and its call has no result. *)
Theorem reported_path_strands_the_queue :
  let events := [Demo.invoke "A" "x" "1"; Demo.invoke "B" "z" "2"; Demo.read_at "/a" "i1" "xz";
                 Demo.written_at "/real/a" "i2"; Demo.read_at "/real/a" "i3" "1z"] in
  let '(r, w) := Demo.run events in
  r = Ok tt /\ Demo.outcomes w = [("A", Some "1z")] /\ map_to_list (PendingExecs w) = [] /\
  map (fun kv => (kv.1, map OpToolCallID kv.2)) (map_to_list (PatchEditQueues w)) = [("/a", ["B"])].
Proof. vm_compute. split_and!; reflexivity. Qed.

(** when the client closes the transport of an edit's exec without answering it, the recovery
    timer removes the exec and nothing else: the call gets no result, and the edit queued behind
    it is never started, although nothing is in flight. *)
Theorem recovery_loses_the_edit :
  let events := [Demo.invoke "A" "x" "1"; Demo.invoke "B" "z" "2"; EventControl 1 ControlStreamClose;
                 EventRecovery "i1" 1] in
  let '(r, w) := Demo.run events in
  r = Ok tt /\ finished w = [] /\ map_to_list (PendingExecs w) = [] /\
  map (fun kv => (kv.1, map OpToolCallID kv.2)) (map_to_list (PatchEditQueues w)) = [("/a", ["B"])].
Proof. vm_compute. split_and!; reflexivity. Qed.

Module Witness.
Import Demo.

Definition A : PatchEditEvent := invoke "A" "x" "1".
Definition B : PatchEditEvent := invoke "B" "z" "2".
Definition w2 : World := (run [A; B]).2.

Lemma run_two good :
  (forall w, good A w) -> (forall w, good B w) -> edits_run diffs good (initial [] ids) [A; B] w2.
Proof.
  intros HA HB.
  refine (run_event diffs good _ [A] (run [A]).2 B tt _
            (run_event diffs good _ [] _ A tt _ (run_start _ _ _) (HA _) _) (HB _) _);
    vm_compute; reflexivity.
Qed.


Lemma queued_edits_not_stranded_witness :
  map (fun op => OpToolCallID op) (default [] (PatchEditQueues w2 !! "/a")) = ["B"] /\
  in_flight "/a" w2.
Proof.
  split; [vm_compute; reflexivity|].
  destruct (PatchEditQueues w2 !! "/a") as [ops|] eqn:E; [|vm_compute in E; discriminate E].
  exact (proj2 (queued_edits_not_stranded diffs [] ids [A; B] w2 ids_distinct
    (run_two _ (fun _ => I) (fun _ => I)) "/a" ops E)).
Defined.

Definition execs_on (key : string) (w : World) : list string :=
  omap (fun kv => if decide (exec_key kv.2 = Some key) then Some kv.1 else None)
    (map_to_list (PendingExecs w)).

Lemma one_edit_per_path_witness :
  execs_on "/a" w2 = ["i1"] /\ Forall (fun id => id = "i1") (execs_on "/a" w2).
Proof.
  assert (E : execs_on "/a" w2 = ["i1"]) by (vm_compute; reflexivity). split; [exact E|].
  rewrite E. constructor; [|constructor].
  destruct (PendingExecs w2 !! "i1") as [e|] eqn:E1; [|vm_compute in E1; discriminate E1].
  refine (one_edit_per_path diffs [] ids [A; B] w2 ids_distinct _ "/a" "i1" "i1" e e E1 E1 _ _).
  - apply run_two; intros w; split; vm_compute; reflexivity || exact I.
  - vm_compute in E1. injection E1 as <-. reflexivity.
  - vm_compute in E1. injection E1 as <-. reflexivity.
Defined.

Definition payload_of (old new : string) : pendingPatchEditPayload :=
  mkPayload patchEditToolName EmptyString false
    (mkArgs "/a" old new true false false) "/a" EmptyString EmptyString EmptyString 0 0 EmptyString.

Lemma compute_patch_edit_spec_witness :
  exists c, computePatchEdit diffs (payload_of "x" "1") "axb" = Ok c /\ AfterContent c = "a1b" /\
    exists a r, bytes_of "axb" = a ++ bytes_of "x" ++ r.
Proof.
  pose proof (compute_patch_edit_spec diffs (payload_of "x" "1") "axb" ltac:(discriminate)) as H.
  destruct (computePatchEdit diffs (payload_of "x" "1") "axb") as [c|e] eqn:E;
    [|vm_compute in E; discriminate E].
  exists c. split; [reflexivity|]. split; [vm_compute in E; injection E as <-; reflexivity|].
  destruct H as (_ & a & r & H & _). exists a, r. exact H.
Defined.

Lemma edit_runs_to_its_result_witness :
  exists c w, AfterContent c = "a1b" /\
    handle_events diffs [A; read_at "/a" "i1" "axb"; written_at "/a" "i2"; read_at EmptyString "i3" "a1b"]
      (initial [] (take 3 ids)) = (Ok tt, w) /\
    finished w = [("A", computed_result "/a" c)].
Proof.
  destruct (computePatchEdit diffs (payload_of "x" "1") "axb") as [c|e] eqn:E;
    [|vm_compute in E; discriminate E].
  assert (Ea : AfterContent c = "a1b") by (vm_compute in E; injection E as <-; reflexivity).
  exists c. eexists. split; [exact Ea|]. split.
  - refine (edit_runs_to_its_result diffs empty empty [] [] 1 "i1" 2 "i2" 3 "i3" 0 0 0 [] 1
      (mkInvocation "A" EmptyString EmptyString EmptyString EmptyString EmptyString
         (Ok (call_args "x" "1"))) (mkArgs "/a" "x" "1" true false false) (payload_of "x" "1") c
      (read_of "/a" "axb") "/a" EmptyString (read_of EmptyString "a1b") _ _ _ _ _ _ _ _ _ _ _).
    + repeat constructor.
    + intros (id & e & He & _). cbn in He. rewrite lookup_empty in He. discriminate He.
    + reflexivity.
    + vm_compute. reflexivity.
    + reflexivity.
    + reflexivity.
    + exists "axb". split; [reflexivity|exact E].
    + right. reflexivity.
    + left. reflexivity.
    + left. reflexivity.
    + rewrite Ea. vm_compute. reflexivity.
  - reflexivity.
Defined.

Lemma cancel_completes_edits_witness :
  exists w', cancel_edits diffs (map snd (map_to_list (PendingExecs w2))) w2 = (Ok tt, w') /\
    (finished w').*1 ≡ₚ ["A"] /\ PatchEditQueues w' = empty.
Proof.
  assert (Hw : edits_wf w2).
  { eapply (run_wf diffs (fun _ _ => True)); [exact ids_distinct|]. by apply run_two. }
  destruct (cancel_completes_edits diffs (map snd (map_to_list (PendingExecs w2))) w2 Hw
    ltac:(vm_compute; reflexivity) (Permutation_refl _)) as (w' & E & _ & Hf & HQ & _).
  exists w'. split; [exact E|]. split; [|exact HQ].
  replace ["A"] with ((finished w2).*1 ++ in_flight_calls w2) by (vm_compute; reflexivity). exact Hf.
Defined.

End Witness.
